(* ===== verification/_CoqProject ===== *)
-Q . S2P
Prelude.v
RustStr.v
RustNet.v
NetText.v
Flow.v
Cidr.v
DomainSet.v
Policy.v
Blocklist.v
DnsBase.v
DnsWire.v
DnsCache.v
DnsEngine.v
DnsThreads.v
Dot.v
Proxy.v
Trojan.v
Datagram.v
TrojanDatagram.v
Conn.v
HttpConnect.v
Protocol.v
HttpInterop.v
Outbound.v
Sockets.v
Socks5.v
Socks5Udp.v
UdpBacklog.v
Config.v
RuleMeaning.v
TlsRelay.v
TlsInterest.v
EdgePoll.v
TrojanStream.v
Transparent.v
UdpPolicy.v
Server.v
System.v
TcpRelay.v
Platform.v
Cli.v
Sha224.v
CoreTests.v
DnsTests.v
ConfigTests.v
DaemonTests.v
UdpTests.v
TransportTests.v
E2eTests.v
Conformance.v
