(* ===== verification/Prelude.v ===== *)
(** * Commeatus, a flow-centric proxy core: verification library

    ** The program

    Commeatus is a proxy daemon. An inbound (SOCKS5, HTTP CONNECT, transparent
    TCP or UDP) turns what a client asks for into a _target_; the core crate
    plans a _flow_ to that target with a tiered first-match policy; the plan is
    either a rejection or a route to an _endpoint_, the direct one or a named
    proxy; the outbound registry turns an endpoint into a connection or a
    datagram execution, and the two sides are relayed. Names are resolved by an
    engine of its own (hosts table, cache, chain of resolvers). Everything is
    described by a configuration file that is compiled as a whole and replaced
    as a whole.

    ** Files and what they model (paths under [src/crates/])

    - [Prelude]: results, bytes, tactics and hint databases, generic lemmas.
    - [RustStr], [RustNet]: the part of Rust's standard library the program
      uses on text and on addresses ([trim], [split_whitespace], [lines],
      UTF-8, number and address parsers, [Display]). [NetText]: its address
      parsers read back what it prints.
    - [Flow], [Cidr], [DomainSet], [Policy]: the core crate. [Policy] holds
      [PolicyEngine::decide] and [Runtime::plan].
    - [Blocklist]: the blocklist compiler of the compat crate.
    - [DnsBase] (names, answers, hosts table), [DnsWire] (messages),
      [DnsCache], [DnsEngine], [Dot] (DNS over TLS): the dns crate.
      [DnsThreads]: the engine shared by concurrent calls, turn by turn.
    - [Proxy]: targets, plans and direct connections ([daemon/src/proxy.rs]).
    - [Trojan], [TrojanDatagram]: the Trojan wire format and its UDP carrier.
    - [Datagram]: token allocator, route sets, the direct datagram association.
    - [Conn]: the interface of a blocking byte stream.
    - [HttpConnect], [Socks5], [Socks5Udp], [Transparent]: the inbounds.
      [UdpBacklog]: what a SOCKS5 UDP association does with its client's
      datagrams over an edge-triggered poll.
    - [Protocol], [Outbound]: upstream handshakes and the endpoint registry.
      [HttpInterop]: the HTTP outbound talking to the HTTP inbound.
    - [Sockets]: the calls the transports and relays make on a socket, and the
      mode (blocking, timeouts, delay) they leave it in.
    - [Config]: the configuration compiler and the store. [RuleMeaning]: what
      the lines of a configuration text mean, without the compiler, and that
      the compiled runtime decides so.
    - [TlsRelay]: the framed TLS session and the TLS relay of the transport
      crate; [TlsInterest]: what its sockets are registered for at each poll.
      [TcpRelay]: the two threads of the plain TCP relay. [EdgePoll]: the
      relay on a concrete machine with peers, an edge-triggered poll as mio's
      and rustls's back-pressure.
      [TrojanStream]: a Trojan association over a framed session, seen as two
      channels of datagrams.
    - [Server]: connection limiter, binding, accept loop and dispatch.
    - [System]: one TCP session of the daemon, from the configuration text
      through an inbound and the registry to the calls on the network.
    - [UdpPolicy]: what the UDP inbounds send out, against the text.
    - [Platform]: the capability probe. [Cli]: the command line.
    - [Sha224]: the digest of a Trojan password, for the tests that use it.
    - [CoreTests], [DnsTests], [ConfigTests], [DaemonTests], [UdpTests],
      [TransportTests], [E2eTests]: the repository's own tests, run on the
      model; [Conformance] states them together.

    A struct is a record with the source's fields, an enum an inductive type;
    a function keeps its name, with the type in front where Rust has a method
    ([DnsCache_get] is [DnsCache::get]). Code that mutates [self] takes and
    returns the state; local variables of a long-lived loop are a record
    ([UdpAssociation], [TproxyState], [TlsRelay]) and the loop is a function
    that runs one pass, which is then iterated.

    ** Conventions

    - A fallible function returns [result]: [Ok], [Err], or [Panic]. [Panic]
      is a Rust panic (index, slice or arithmetic out of range) and also what
      a fuelled loop of the model returns when the fuel is spent, so "not
      [Panic]" states panic freedom and termination at once. Fuel is always
      computed from the input (the length of a message, of a buffer, the
      number of records) and shown sufficient. Loops whose length depends on
      the environment, such as retries after [Interrupted], are bounded by a
      ghost measure of the interface ([patience], [budget]) that its laws make
      decrease; event loops that run as long as the daemon are stated for any
      number of passes.
    - Machine integers are [Z] or [nat] with their bounds; where the source
      wraps, saturates or checks, so does the model. Instants and durations
      are nanoseconds in [Z]. Bytes are [byte], a [&str] is its UTF-8 bytes.
    - An [io::Error] is its kind, a [ConfigError] the line it names; their
      messages are not modelled. What the commands print is.
    - Hash maps are [gmap]; where the source iterates one, the order is a
      parameter of which only "a permutation of the entries" is assumed.
    - Code outside the repository (rustls, SHA-224, mio, sockets, the file
      system, the clock) is a parameter or a class: [Conn], [FramedSession],
      [UdpNet], [TlsNet], [TproxyNet]. A class of
      laws states the documented behaviour of [Read] and [Write]; each theorem
      that uses laws is also applied to a concrete instance. [TlsRelay] proves
      that the framed session satisfies the interface [TrojanDatagram] uses,
      [Dot] that the DNS-over-TLS resolver satisfies the one [DnsEngine] uses.

    ** What the theorems show

    - The daemon: a TCP session, whatever the inbound, client and network do,
      opens nothing or opens exactly the endpoint that the configuration text
      gives for the target the client asked for, and looks up a name only for
      a direct flow ([System]); every datagram of
      the UDP inbounds comes from its own client and leaves through the
      endpoint the text gives for its destination ([UdpPolicy]). A flow
      planned for a proxy is never sent directly.
    - Policy and configuration: the first matching line of the strongest tier
      decides, where "matching" is defined on the words of the line
      ([RuleMeaning]); an accepted file satisfies every limit and cross
      reference, and listeners and resolvers are those its words name; a
      blocklist blocks what the text of its lines says; an error names the offending line; a failed reload leaves the
      running configuration in place.
    - DNS: hosts before cache before resolvers, in order; an accepted response
      answers the question through its own alias chain; names and messages
      round-trip; the cache is bounded and never extends a lifetime. All this
      holds under any interleaving of calls: a hit is the last answer stored,
      what a resolver replied is stored and returned unchanged, the counters
      are exact, no lock is held across a resolver call, and every call
      returns under a fair schedule ([DnsThreads]).
    - Wire formats: SOCKS5, HTTP CONNECT and Trojan messages are read exactly,
      never past their end, and round-trip with their encoders; for SOCKS5
      and HTTP CONNECT the daemon's outbound and inbound complete each other's
      handshake, with targets that go through text ([HttpInterop]).
    - Associations: packets are taken from and returned to one client only,
      with the payload and source they came with; a direct association hears
      only addresses it has sent to; tokens are never shared, queues and
      tables are bounded. Over any run, a
      Trojan association delivers to the server's parser the datagrams sent,
      in order, and to its user those of the server ([TrojanStream]).
    - Relays, sockets and limiter: no byte is lost, duplicated or reordered
      inside the relays; at each poll a relay socket is registered for exactly
      what the relay can use; sessions are returned in the mode their use
      requires; the permit counter is exact under any interleaving and its
      retry loop lock-free; an accept loop ends exactly after the eighth error
      in a row.
    - Conformance: the model gives the results the repository's tests assert
      ([Conformance.repository_tests_pass] runs them all).
    - Liveness of the event loops: over an edge-triggered poll a SOCKS5 UDP
      association takes its client's datagrams in order, handles each as if it
      came alone, leaves none behind when no wakeup brings more than 32, and
      ends with the idle timeout ([UdpBacklog]); [EdgePoll] holds runs in which
      the relay and the datagram loops stop making progress because they do
      not drain an edge-triggered socket.

    ** Not modelled

    The inside of rustls (certificates, the handshake messages), the texts of
    errors, [Debug] and [Display] implementations that no other code parses,
    accessors that only return a field, the eBPF program and shell scripts. Of
    the tests: the few that assert the text of an error or ports chosen by the
    operating system.

    ** Outlook

    Every component of the Rust sources is modelled. Left are pieces without
    behaviour of their own: the texts above, the wrappers that hand a call to
    a socket or to rustls unchanged, and the parts of test fixtures that make
    certificates or wait for an operating system's socket. *)

From Stdlib Require Export ZArith Lia.
From Stdlib Require Strings.Byte.
From Stdlib Require Strings.String.
From stdpp Require Export base tactics option list gmap sorting.

Export Corelib.Init.Byte(byte(..)).
Export Stdlib.Strings.String.StringSyntax.
Delimit Scope string_scope with string.

(** ** Notation scope and hint databases of the development *)
Declare Scope commeatus_scope.
Delimit Scope commeatus_scope with commeatus.
Open Scope commeatus_scope.

Create HintDb commeatus.
Create HintDb bytes.
Create Rewrite HintDb bytes.

(** ** Results: Rust's [Result] with panics made observable

    [Panic] stands for a Rust panic (an out-of-range index, an arithmetic
    overflow in a checked build) and for a loop of the model that ran out of
    fuel, so that a theorem "never [Panic]" states both panic freedom and
    termination. *)
Inductive result (E A : Type) : Type :=
| Ok (a : A)
| Err (e : E)
| Panic.
Arguments Ok {E A} _.
Arguments Err {E A} _.
Arguments Panic {E A}.

#[global] Instance result_ret {E} : MRet (result E) := fun A a => Ok a.
#[global] Instance result_bind {E} : MBind (result E) := fun A B f r =>
  match r with Ok a => f a | Err e => Err e | Panic => Panic end.
#[global] Instance result_fmap {E} : FMap (result E) := fun A B f r =>
  match r with Ok a => Ok (f a) | Err e => Err e | Panic => Panic end.

(** [Result::map_err] *)
Definition map_err {E F A} (f : E → F) (r : result E A) : result F A :=
  match r with Ok a => Ok a | Err e => Err (f e) | Panic => Panic end.

(** [Option::ok_or] *)
Definition ok_or {E A} (o : option A) (e : E) : result E A :=
  match o with Some a => Ok a | None => Err e end.

(** [Result::is_ok] *)
Definition is_ok {E A} (r : result E A) : bool :=
  match r with Ok _ => true | _ => false end.

Definition no_panic {E A} (r : result E A) : Prop := r ≠ Panic.

#[global] Instance result_eq_dec {E A} `{EqDecision E, EqDecision A} : EqDecision (result E A).
Proof. solve_decision. Defined.

Lemma bind_ok_inv {E A B} (r : result E A) (f : A → result E B) b :
  r ≫= f = Ok b → ∃ a, r = Ok a ∧ f a = Ok b.
Proof. destruct r; naive_solver. Qed.

Lemma bind_no_panic {E A B} (r : result E A) (f : A → result E B) :
  no_panic r → (∀ a, r = Ok a → no_panic (f a)) → no_panic (r ≫= f).
Proof. destruct r; unfold no_panic; cbn; naive_solver. Qed.

Lemma ok_or_ok {E A} (o : option A) (e : E) a : ok_or o e = Ok a ↔ o = Some a.
Proof. destruct o; naive_solver. Qed.

Lemma ok_or_no_panic {E A} (o : option A) (e : E) : no_panic (ok_or o e).
Proof. by destruct o. Qed.

Lemma map_err_ok {E F A} (f : E → F) (r : result E A) a : map_err f r = Ok a ↔ r = Ok a.
Proof. destruct r; naive_solver. Qed.

Lemma map_err_no_panic {E F A} (f : E → F) (r : result E A) :
  no_panic r → no_panic (map_err f r).
Proof. by destruct r. Qed.

Lemma ok_no_panic {E A} (a : A) : no_panic (Ok (E:=E) a).
Proof. done. Qed.

Lemma err_no_panic {E A} (e : E) : no_panic (Err (A:=A) e).
Proof. done. Qed.

#[export] Hint Resolve ok_or_no_panic map_err_no_panic ok_no_panic err_no_panic : commeatus.

(** ** Tactics of the development *)

(** Invert a successful monadic computation down to its last call. *)
Ltac inv_ok :=
  repeat match goal with
  | H : mbind _ _ = Ok _ |- _ => apply bind_ok_inv in H as (? & ? & H)
  | H : ok_or _ _ = Ok _ |- _ => apply ok_or_ok in H
  | H : map_err _ _ = Ok _ |- _ => apply map_err_ok in H
  | H : mret _ = Ok _ |- _ => injection H as H
  | H : Ok _ = Ok _ |- _ => injection H as H
  | H : Err _ = Ok _ |- _ => discriminate H
  | H : Panic = Ok _ |- _ => discriminate H
  end.

(** Case on the conditionals and matches of a computation, keeping the
    equations, and drop the branches that contradict a hypothesis. *)
Ltac case_ok H :=
  repeat (inv_ok; match type of H with
  | context [match ?x with _ => _ end] => destruct x eqn:?; try discriminate H
  end); inv_ok; simplify_eq.

(** Walk through a sequence of calls that do not panic. *)
Ltac np := repeat first
  [ progress intros
  | match goal with x : _ * _ |- _ => destruct x end
  | match goal with |- no_panic (mbind _ _) => apply bind_no_panic end
  | match goal with |- no_panic (match _ with _ => _ end) => case_match end
  | solve [auto with commeatus] ].

(** Case on boolean tests into propositions. *)
Ltac bool_to_prop :=
  repeat match goal with
  | H : _ && _ = true |- _ => apply andb_true_iff in H as [? ?]
  | H : _ || _ = false |- _ => apply orb_false_iff in H as [? ?]
  | H : negb _ = true |- _ => apply negb_true_iff in H
  | H : negb _ = false |- _ => apply negb_false_iff in H
  | H : bool_decide _ = true |- _ => apply bool_decide_eq_true in H
  | H : bool_decide _ = false |- _ => apply bool_decide_eq_false in H
  | H : (_ <? _) = true |- _ => apply Nat.ltb_lt in H
  | H : (_ <? _) = false |- _ => apply Nat.ltb_ge in H
  | H : (_ <=? _) = true |- _ => apply Nat.leb_le in H
  | H : (_ <=? _) = false |- _ => apply Nat.leb_gt in H
  | H : (_ =? _) = true |- _ => apply Nat.eqb_eq in H
  | H : (_ =? _) = false |- _ => apply Nat.eqb_neq in H
  | H : (_ <? _)%Z = true |- _ => apply Z.ltb_lt in H
  | H : (_ <? _)%Z = false |- _ => apply Z.ltb_ge in H
  | H : (_ <=? _)%Z = true |- _ => apply Z.leb_le in H
  | H : (_ <=? _)%Z = false |- _ => apply Z.leb_gt in H
  | H : (_ =? _)%Z = true |- _ => apply Z.eqb_eq in H
  | H : (_ =? _)%Z = false |- _ => apply Z.eqb_neq in H
  end.

(** ** Bytes

    A Rust [u8] is [Corelib]'s 256-constructor [byte]; a [Vec<u8>], a
    [&[u8]], a [String] and a [&str] are all [list byte] (a Rust string is
    its UTF-8 bytes). Wider integers are [Z] with their range stated. *)
Abbreviation bytes := (list byte).
Abbreviation str := (list byte).

Definition b2z (b : byte) : Z := Z.of_N (Byte.to_N b).

(** Truncating cast [z as u8]. *)
Definition z2b (z : Z) : byte :=
  match Byte.of_N (Z.to_N (z mod 256)) with Some b => b | None => x00 end.

#[global] Instance byte_eq_dec : EqDecision byte := Byte.byte_eq_dec.

Lemma b2z_range b : (0 ≤ b2z b < 256)%Z.
Proof. unfold b2z. pose proof (Byte.to_N_bounded b). lia. Qed.

Lemma z2b_b2z b : z2b (b2z b) = b.
Proof.
  unfold z2b, b2z. pose proof (Byte.to_N_bounded b).
  rewrite Z.mod_small by lia. by rewrite N2Z.id, Byte.of_to_N.
Qed.

Lemma b2z_z2b z : b2z (z2b z) = (z mod 256)%Z.
Proof.
  unfold z2b. pose proof (Z.mod_pos_bound z 256 ltac:(lia)).
  destruct (Byte.of_N _) eqn:E.
  - apply Byte.to_of_N in E. unfold b2z. rewrite E. lia.
  - apply Byte.of_N_None_iff in E. lia.
Qed.

Lemma b2z_z2b_small z : (0 ≤ z < 256)%Z → b2z (z2b z) = z.
Proof. intros. by rewrite b2z_z2b, Z.mod_small. Qed.

Lemma b2z_inj b c : b2z b = b2z c → b = c.
Proof. intros H. by rewrite <- (z2b_b2z b), <- (z2b_b2z c), H. Qed.

#[global] Instance b2z_Inj : Inj (=) (=) b2z := b2z_inj.

#[global] Program Instance byte_countable : Countable byte :=
  inj_countable b2z (λ z, Some (z2b z)) _.
Next Obligation. intros b. cbn. by rewrite z2b_b2z. Qed.

#[export] Hint Resolve b2z_range : bytes.
#[export] Hint Rewrite z2b_b2z b2z_z2b : bytes.

(** A byte or string literal of the source. *)
Definition lit (s : String.string) : bytes := String.list_byte_of_string s.
Arguments lit _%_string_scope.
Notation "'#' s" := (lit s%string) (at level 1, format "# s") : commeatus_scope.

(** ** Big-endian integers ([to_be_bytes] / [from_be_bytes]) *)
Fixpoint be_bytes (n : nat) (z : Z) : bytes :=
  match n with
  | O => []
  | S n' => be_bytes n' (Z.shiftr z 8) ++ [z2b z]
  end.

Definition be_value (bs : bytes) : Z :=
  foldl (λ acc b, acc * 256 + b2z b)%Z 0%Z bs.

Lemma length_be_bytes n z : length (be_bytes n z) = n.
Proof.
  revert z; induction n as [|n IH]; intros z; cbn; [done|].
  rewrite length_app, IH; cbn; lia.
Qed.

Lemma be_value_snoc bs b : be_value (bs ++ [b]) = (be_value bs * 256 + b2z b)%Z.
Proof. unfold be_value. by rewrite foldl_app. Qed.

Lemma be_value_range bs : (0 ≤ be_value bs < 256 ^ Z.of_nat (length bs))%Z.
Proof.
  induction bs as [|b bs IH] using rev_ind; [done|].
  rewrite be_value_snoc, length_app. cbn [length].
  rewrite Nat2Z.inj_add, Z.pow_add_r by lia.
  pose proof (b2z_range b). lia.
Qed.

Lemma be_value_be_bytes n z : be_value (be_bytes n z) = (z mod 256 ^ Z.of_nat n)%Z.
Proof.
  revert z; induction n as [|n IH]; intros z; cbn [be_bytes].
  - by rewrite Z.mod_1_r.
  - rewrite be_value_snoc, IH, b2z_z2b, Nat2Z.inj_succ, Z.pow_succ_r by lia.
    rewrite Z.shiftr_div_pow2 by lia. change (2 ^ 8)%Z with 256%Z.
    rewrite Z.rem_mul_r by lia. lia.
Qed.

Lemma be_bytes_be_value bs : be_bytes (length bs) (be_value bs) = bs.
Proof.
  induction bs as [|b bs IH] using rev_ind; [done|].
  rewrite length_app, Nat.add_comm; cbn [length Nat.add be_bytes].
  rewrite be_value_snoc, Z.shiftr_div_pow2 by lia. change (2 ^ 8)%Z with 256%Z.
  pose proof (b2z_range b).
  rewrite Z.div_add_l, (Z.div_small (b2z b)), Z.add_0_r, IH by lia.
  do 2 f_equal. apply b2z_inj. rewrite b2z_z2b.
  rewrite Z.add_comm, Z.mod_add, Z.mod_small; lia.
Qed.

Lemma be_bytes_be_value' n bs : length bs = n → be_bytes n (be_value bs) = bs.
Proof. intros <-. apply be_bytes_be_value. Qed.

Lemma be_value_be_bytes_small n z :
  (0 ≤ z < 256 ^ Z.of_nat n)%Z → be_value (be_bytes n z) = z.
Proof. intros. by rewrite be_value_be_bytes, Z.mod_small. Qed.

#[export] Hint Rewrite length_be_bytes : bytes.

(** [u16::to_be_bytes], [u16::from_be_bytes] on a two-byte slice. *)
Definition u16_be (v : Z) : bytes := be_bytes 2 v.

Definition is_u8 (z : Z) : Prop := (0 ≤ z < 256)%Z.
Definition is_u16 (z : Z) : Prop := (0 ≤ z < 65536)%Z.
Definition is_u32 (z : Z) : Prop := (0 ≤ z < 2 ^ 32)%Z.
Definition is_u128 (z : Z) : Prop := (0 ≤ z < 2 ^ 128)%Z.

Lemma be_value_u16 bs : length bs = 2 → is_u16 (be_value bs).
Proof. intros H. pose proof (be_value_range bs) as R. rewrite H in R. exact R. Qed.

(** ** Slices and [usize] arithmetic *)

(** [slice.get(a..b)] *)
Definition slice_get {A} (l : list A) (a b : nat) : option (list A) :=
  if (a <=? b) && (b <=? length l) then Some (take (b - a) (drop a l)) else None.

(** [slice[a..b]], which panics out of range. *)
Definition slice {E A} (l : list A) (a b : nat) : result E (list A) :=
  match slice_get l a b with Some s => Ok s | None => Panic end.

(** [slice[i]], which panics out of range. *)
Definition index {E A} (l : list A) (i : nat) : result E A :=
  match l !! i with Some x => Ok x | None => Panic end.

(** [usize] is 64 bits wide on both supported targets. *)
Definition checked_add (a b : nat) : option nat :=
  if (Z.of_nat a + Z.of_nat b <? 2 ^ 64)%Z then Some (a + b) else None.

Lemma slice_get_Some {A} (l : list A) a b s :
  slice_get l a b = Some s ↔ a ≤ b ≤ length l ∧ s = take (b - a) (drop a l).
Proof.
  unfold slice_get. destruct (_ && _) eqn:E; bool_to_prop; [naive_solver|].
  apply andb_false_iff in E as [E|E]; bool_to_prop; naive_solver lia.
Qed.

Lemma slice_get_length {A} (l : list A) a b s :
  slice_get l a b = Some s → length s = b - a.
Proof.
  intros (Hab & ->)%slice_get_Some. rewrite length_take, length_drop. lia.
Qed.

Lemma slice_get_mid {A} (l1 l2 l3 : list A) :
  slice_get (l1 ++ l2 ++ l3) (length l1) (length l1 + length l2) = Some l2.
Proof.
  apply slice_get_Some. rewrite !length_app. split; [lia|].
  rewrite drop_app_length. replace (length l1 + length l2 - length l1) with (length l2) by lia.
  by rewrite take_app_length.
Qed.

Lemma slice_get_mid' {A} (l1 l2 l3 : list A) a b :
  a = length l1 → b = length l1 + length l2 → slice_get (l1 ++ l2 ++ l3) a b = Some l2.
Proof. intros -> ->. apply slice_get_mid. Qed.

Lemma checked_add_Some a b c : checked_add a b = Some c → c = a + b.
Proof. unfold checked_add. case_match; naive_solver. Qed.

Lemma checked_add_small a b :
  (Z.of_nat a + Z.of_nat b < 2 ^ 64)%Z → checked_add a b = Some (a + b).
Proof. intros. unfold checked_add. by rewrite (proj2 (Z.ltb_lt _ _)). Qed.

(** ** Invariants of step relations *)
Lemma rtc_preserves {A} (R : relation A) (P : A → Prop) s s' :
  (∀ x y, R x y → P x → P y) → rtc R s s' → P s → P s'.
Proof. intros HR Hs. induction Hs; eauto. Qed.
