(* ===== verification/RustStr.v ===== *)
(** * The [str] and [slice] operations of Rust's standard library

    The part of [core::str], [core::slice], [core::num] and [alloc::str] that
    the program calls, as functions on [list byte]. A [&str] is its UTF-8
    bytes; operations whose pattern is an ASCII character work on bytes, those
    on white space work on characters. *)

From S2P Require Import Prelude.

(** ** Bytes and ASCII case *)
Definition is_ascii_byte (b : byte) : bool := (b2z b <? 128)%Z.
Definition is_ascii (s : str) : bool := forallb is_ascii_byte s.

Definition is_digit_byte (b : byte) : bool := ((48 <=? b2z b) && (b2z b <=? 57))%Z.
Definition is_upper_byte (b : byte) : bool := ((65 <=? b2z b) && (b2z b <=? 90))%Z.
Definition is_lower_byte (b : byte) : bool := ((97 <=? b2z b) && (b2z b <=? 122))%Z.
Definition is_ascii_alphanumeric (b : byte) : bool :=
  is_digit_byte b || is_upper_byte b || is_lower_byte b.

(** [u8::to_ascii_lowercase], [str::to_ascii_lowercase] *)
Definition lower_byte (b : byte) : byte :=
  if is_upper_byte b then z2b (b2z b + 32) else b.
Definition to_ascii_lowercase (s : str) : str := lower_byte <$> s.

(** [str::eq_ignore_ascii_case] *)
Definition eq_ignore_ascii_case (s t : str) : bool :=
  bool_decide (to_ascii_lowercase s = to_ascii_lowercase t).

(** ** Trimming, prefixes and searching with an ASCII pattern *)
Fixpoint trim_start_byte (c : byte) (s : str) : str :=
  match s with
  | b :: r => if bool_decide (b = c) then trim_start_byte c r else s
  | [] => []
  end.

(** [trim_end_matches] with a character, [trim_matches] with a character *)
Definition trim_end_matches (c : byte) (s : str) : str :=
  reverse (trim_start_byte c (reverse s)).
Definition trim_matches (c : byte) (s : str) : str :=
  trim_end_matches c (trim_start_byte c s).

(** [str::starts_with], [strip_prefix], [strip_suffix] *)
Fixpoint strip_prefix (p s : str) : option str :=
  match p, s with
  | [], _ => Some s
  | a :: p', b :: s' => if bool_decide (a = b) then strip_prefix p' s' else None
  | _ :: _, [] => None
  end.
Definition starts_with (p s : str) : bool :=
  match strip_prefix p s with Some _ => true | None => false end.
Definition strip_suffix (p s : str) : option str :=
  reverse <$> strip_prefix (reverse p) (reverse s).

(** [str::find] of an ASCII character: the byte index of its first occurrence *)
Fixpoint find_byte (c : byte) (s : str) : option nat :=
  match s with
  | [] => None
  | b :: r => if bool_decide (b = c) then Some 0 else S <$> find_byte c r
  end.
Definition contains_byte (c : byte) (s : str) : bool :=
  match find_byte c s with Some _ => true | None => false end.

(** [str::split] by an ASCII character: always at least one piece *)
Fixpoint split_on (c : byte) (s : str) : list str :=
  match s with
  | [] => [[]]
  | b :: r =>
      if bool_decide (b = c) then [] :: split_on c r
      else match split_on c r with
           | p :: ps => (b :: p) :: ps
           | [] => [[b]]
           end
  end.

(** [split(c).next().unwrap_or_default()]: the text before the first [c] *)
Definition before_first (c : byte) (s : str) : str := default [] (head (split_on c s)).

(** [str::split_once], [str::rsplit_once] *)
Fixpoint split_once (c : byte) (s : str) : option (str * str) :=
  match s with
  | [] => None
  | b :: r =>
      if bool_decide (b = c) then Some ([], r)
      else (λ '(x, y), (b :: x, y)) <$> split_once c r
  end.
Definition rsplit_once (c : byte) (s : str) : option (str * str) :=
  (λ '(x, y), (reverse y, reverse x)) <$> split_once c (reverse s).

(** [[String]::join] *)
Fixpoint join (sep : str) (ls : list str) : str :=
  match ls with
  | [] => []
  | [l] => l
  | l :: ls' => l ++ sep ++ join sep ls'
  end.

(** ** UTF-8 ([core::str::from_utf8]) and characters *)
Definition is_cont (b : byte) : bool := ((128 <=? b2z b) && (b2z b <=? 191))%Z.
Definition byte_in (lo hi : Z) (b : byte) : bool := ((lo <=? b2z b) && (b2z b <=? hi))%Z.

(** Width of the well-formed character at the head of [s], if there is one. *)
Definition utf8_head (s : str) : option nat :=
  match s with
  | [] => None
  | b0 :: r =>
      if is_ascii_byte b0 then Some 1
      else match r with
      | [] => None
      | b1 :: r1 =>
          if byte_in 0xc2 0xdf b0 then (if is_cont b1 then Some 2 else None)
          else match r1 with
          | [] => None
          | b2 :: r2 =>
              if (byte_in 0xe0 0xe0 b0 && byte_in 0xa0 0xbf b1)
                 || (byte_in 0xe1 0xec b0 && is_cont b1)
                 || (byte_in 0xed 0xed b0 && byte_in 0x80 0x9f b1)
                 || (byte_in 0xee 0xef b0 && is_cont b1)
              then (if is_cont b2 then Some 3 else None)
              else match r2 with
              | [] => None
              | b3 :: _ =>
                  if ((byte_in 0xf0 0xf0 b0 && byte_in 0x90 0xbf b1)
                      || (byte_in 0xf1 0xf3 b0 && is_cont b1)
                      || (byte_in 0xf4 0xf4 b0 && byte_in 0x80 0x8f b1))
                     && is_cont b2 && is_cont b3
                  then Some 4 else None
              end
          end
      end
  end.

(** [skip] continuation bytes of the current character are still to come. *)
Fixpoint utf8_valid_go (skip : nat) (s : str) : bool :=
  match s with
  | [] => true
  | _ :: r =>
      match skip with
      | S k => utf8_valid_go k r
      | O => match utf8_head s with
             | Some w => utf8_valid_go (w - 1) r
             | None => false
             end
      end
  end.
Definition utf8_valid (s : bytes) : bool := utf8_valid_go 0 s.

(** [core::str::from_utf8] *)
Definition from_utf8 (s : bytes) : option str := if utf8_valid s then Some s else None.

(** The characters of a string, each as its bytes; fuel [length s]. *)
Fixpoint chars_go (fuel : nat) (s : str) : list str :=
  match fuel, s with
  | S n, _ :: _ =>
      let w := default 1 (utf8_head s) in take w s :: chars_go n (drop w s)
  | _, _ => []
  end.
Definition chars (s : str) : list str := chars_go (length s) s.

(** [char::is_whitespace]: the Unicode White_Space property *)
Definition is_whitespace (c : str) : bool :=
  match c with
  | [b] => byte_in 0x09 0x0d b || byte_in 0x20 0x20 b
  | [b0; b1] => byte_in 0xc2 0xc2 b0 && (byte_in 0x85 0x85 b1 || byte_in 0xa0 0xa0 b1)
  | [b0; b1; b2] =>
      (byte_in 0xe1 0xe1 b0 && byte_in 0x9a 0x9a b1 && byte_in 0x80 0x80 b2)
      || (byte_in 0xe2 0xe2 b0 && byte_in 0x80 0x80 b1
          && (byte_in 0x80 0x8a b2 || byte_in 0xa8 0xa9 b2 || byte_in 0xaf 0xaf b2))
      || (byte_in 0xe2 0xe2 b0 && byte_in 0x81 0x81 b1 && byte_in 0x9f 0x9f b2)
      || (byte_in 0xe3 0xe3 b0 && byte_in 0x80 0x80 b1 && byte_in 0x80 0x80 b2)
  | _ => false
  end.

(** [str::trim] *)
Fixpoint drop_whitespace (cs : list str) : list str :=
  match cs with
  | c :: r => if is_whitespace c then drop_whitespace r else cs
  | [] => []
  end.
Definition trim (s : str) : str :=
  concat (reverse (drop_whitespace (reverse (drop_whitespace (chars s))))).

(** [str::split_whitespace] *)
Fixpoint group_words (cs : list str) (cur : str) : list str :=
  match cs with
  | [] => [cur]
  | c :: r => if is_whitespace c then cur :: group_words r [] else group_words r (cur ++ c)
  end.
Definition split_whitespace (s : str) : list str :=
  filter (λ w, w ≠ []) (group_words (chars s) []).

(** [str::lines]: a line ends at LF; a CR just before that LF is dropped, a
    final empty line is not produced. *)
Definition strip_cr (l : str) : str := default l (strip_suffix [x0d] l).
Fixpoint finish_lines (ps : list str) : list str :=
  match ps with
  | [] => []
  | [l] => if bool_decide (l = []) then [] else [l]
  | l :: ps' => strip_cr l :: finish_lines ps'
  end.
Definition lines (s : str) : list str := finish_lines (split_on x0a s).

(** ** Decimal and hexadecimal numbers *)
Definition digit_of (radix : Z) (b : byte) : option Z :=
  (let d :=
     if is_digit_byte b then b2z b - 48
     else if byte_in 97 122 b then b2z b - 87
     else if byte_in 65 90 b then b2z b - 55
     else 36 in
   if d <? radix then Some d else None)%Z.

Definition digits_value (radix : Z) (ds : list Z) : Z :=
  foldl (λ acc d, acc * radix + d)%Z 0%Z ds.

(** [<uN>::from_str] (radix 10) for the unsigned type with maximum [max] *)
Definition strip_plus (s : str) : str :=
  match s with b :: r => if bool_decide (b = x2b) then r else s | [] => [] end.
Definition parse_uint (max : Z) (s : str) : option Z :=
  match strip_plus s with
  | [] => None
  | digits =>
      ds ← mapM (digit_of 10) digits;
      let v := digits_value 10 ds in
      if (v <=? max)%Z then Some v else None
  end.
Definition parse_u8 (s : str) : option Z := parse_uint 255 s.
Definition parse_u16 (s : str) : option Z := parse_uint 65535 s.

(** [Display] of an unsigned integer, [LowerHex] without padding. [fuel]
    bounds the number of digits: 40 is enough for every 128-bit value. *)
Definition digit_byte (d : Z) : byte := if (d <? 10)%Z then z2b (48 + d) else z2b (87 + d).
Fixpoint show_radix (fuel : nat) (radix z : Z) : str :=
  match fuel with
  | O => []
  | S n =>
      (if z <? radix then [digit_byte z]
       else show_radix n radix (z / radix) ++ [digit_byte (z mod radix)])%Z
  end.
Definition show_dec (z : Z) : str := show_radix 40 10 z.
Definition show_hex (z : Z) : str := show_radix 40 16 z.

(** ** Ordered vectors *)

(** [Ord for str]: lexicographic on bytes *)
Fixpoint str_cmp (s t : str) : comparison :=
  match s, t with
  | [], [] => Eq
  | [], _ => Lt
  | _, [] => Gt
  | a :: s', b :: t' =>
      match (b2z a ?= b2z b)%Z with Eq => str_cmp s' t' | c => c end
  end.
Definition str_le (s t : str) : Prop := str_cmp s t ≠ Gt.
#[global] Instance str_le_dec : RelDecision str_le.
Proof. intros s t. unfold str_le. apply _. Defined.

(** [sort_unstable] on strings (equal strings are indistinguishable, so any
    sorting algorithm gives the same vector), [dedup]. *)
Definition sort_unstable (l : list str) : list str := merge_sort str_le l.
Fixpoint dedup (l : list str) : list str :=
  match l with
  | a :: ((b :: _) as r) => if bool_decide (a = b) then dedup r else a :: dedup r
  | _ => l
  end.

(** [slice::binary_search_by(|x| x.cmp(key)).is_ok()]: halve the range
    [base, base + size) until one candidate is left, then compare it. *)
Fixpoint binary_search_go (fuel : nat) (l : list str) (key : str) (base size : nat) : nat :=
  match fuel with
  | O => base
  | S n =>
      if 1 <? size then
        let half := size / 2 in
        let mid := base + half in
        let base' := match str_cmp (default [] (l !! mid)) key with Gt => base | _ => mid end in
        binary_search_go n l key base' (size - half)
      else base
  end.
Definition binary_search_ok (l : list str) (key : str) : bool :=
  if length l =? 0 then false
  else
    let base := binary_search_go (length l) l key 0 (length l) in
    match str_cmp (default [] (l !! base)) key with Eq => true | _ => false end.

(** * Lemmas *)

(** ** ASCII case *)
Lemma is_upper_byte_lower b : is_upper_byte (lower_byte b) = false.
Proof. by destruct b. Qed.

Lemma lower_byte_idem b : lower_byte (lower_byte b) = lower_byte b.
Proof. by destruct b. Qed.

Lemma lower_byte_dot b : lower_byte b = x2e ↔ b = x2e.
Proof. by destruct b. Qed.

Lemma is_ascii_lower_byte b : is_ascii_byte (lower_byte b) = is_ascii_byte b.
Proof. by destruct b. Qed.

Lemma lower_idem s : to_ascii_lowercase (to_ascii_lowercase s) = to_ascii_lowercase s.
Proof. unfold to_ascii_lowercase. rewrite <- list_fmap_compose. apply list_fmap_ext. intros. apply lower_byte_idem. Qed.

Lemma length_lower s : length (to_ascii_lowercase s) = length s.
Proof. apply length_fmap. Qed.

Lemma is_ascii_lower s : is_ascii (to_ascii_lowercase s) = is_ascii s.
Proof.
  unfold is_ascii, to_ascii_lowercase. induction s as [|b s IH]; cbn; [done|].
  by rewrite is_ascii_lower_byte, IH.
Qed.

Lemma lower_app s t : to_ascii_lowercase (s ++ t) = to_ascii_lowercase s ++ to_ascii_lowercase t.
Proof. apply fmap_app. Qed.

Lemma eq_ignore_ascii_case_true s t :
  eq_ignore_ascii_case s t = true ↔ to_ascii_lowercase s = to_ascii_lowercase t.
Proof. apply bool_decide_eq_true. Qed.

#[export] Hint Rewrite lower_idem length_lower is_ascii_lower lower_app : bytes.

(** ** Trimming *)
Lemma trim_start_byte_spec c s :
  ∃ n, s = replicate n c ++ trim_start_byte c s ∧ head (trim_start_byte c s) ≠ Some c.
Proof.
  induction s as [|b s (n & Hs & Hh)]; cbn.
  - by exists 0.
  - case_bool_decide as E; cbn.
    + exists (S n). subst b. cbn. by rewrite <- Hs.
    + exists 0. cbn. naive_solver.
Qed.

Lemma trim_start_byte_id c s : head s ≠ Some c → trim_start_byte c s = s.
Proof. destruct s as [|b s]; cbn; [done|]. intros. case_bool_decide; congruence. Qed.

Lemma trim_end_matches_spec c s :
  ∃ n, s = trim_end_matches c s ++ replicate n c ∧ last (trim_end_matches c s) ≠ Some c.
Proof.
  unfold trim_end_matches. destruct (trim_start_byte_spec c (reverse s)) as (n & Hs & Hh).
  exists n. rewrite last_reverse. split; [|done].
  apply (f_equal reverse) in Hs. rewrite reverse_involutive, reverse_app, reverse_replicate in Hs.
  exact Hs.
Qed.

Lemma trim_end_matches_id c s : last s ≠ Some c → trim_end_matches c s = s.
Proof.
  intros H. unfold trim_end_matches. rewrite trim_start_byte_id; [apply reverse_involutive|].
  by rewrite head_reverse.
Qed.

Lemma head_app_l {A} (l k : list A) : l ≠ [] → head (l ++ k) = head l.
Proof. by destruct l. Qed.

Lemma trim_matches_spec c s :
  ∃ m n, s = replicate m c ++ trim_matches c s ++ replicate n c
         ∧ head (trim_matches c s) ≠ Some c ∧ last (trim_matches c s) ≠ Some c.
Proof.
  unfold trim_matches.
  destruct (trim_start_byte_spec c s) as (m & Hs & Hh).
  destruct (trim_end_matches_spec c (trim_start_byte c s)) as (n & Ht & Hl).
  exists m, n. rewrite <- Ht. split_and!; [done| |done].
  destruct (trim_end_matches c (trim_start_byte c s)) as [|b r] eqn:E; [done|].
  rewrite Ht in Hh. by destruct n.
Qed.

Lemma trim_matches_id c s : head s ≠ Some c → last s ≠ Some c → trim_matches c s = s.
Proof. intros Hh Hl. unfold trim_matches. rewrite trim_start_byte_id by done. by apply trim_end_matches_id. Qed.

Lemma length_trim_matches c s : length (trim_matches c s) ≤ length s.
Proof.
  destruct (trim_matches_spec c s) as (m & n & Hs & _). rewrite Hs at 2.
  rewrite !length_app. lia.
Qed.

Lemma length_trim_end_matches c s : length (trim_end_matches c s) ≤ length s.
Proof.
  destruct (trim_end_matches_spec c s) as (n & Hs & _). rewrite Hs at 2.
  rewrite length_app. lia.
Qed.

(** ** Prefixes *)
Lemma strip_prefix_Some p s r : strip_prefix p s = Some r ↔ s = p ++ r.
Proof.
  revert s; induction p as [|a p IH]; intros s; cbn; [naive_solver|].
  destruct s as [|b s]; [naive_solver|].
  case_bool_decide; [rewrite IH|]; naive_solver.
Qed.

Lemma strip_suffix_Some p s r : strip_suffix p s = Some r ↔ s = r ++ p.
Proof.
  unfold strip_suffix. rewrite fmap_Some. split.
  - intros (x & H & ->). apply strip_prefix_Some in H.
    apply (f_equal reverse) in H. by rewrite reverse_involutive, reverse_app, reverse_involutive in H.
  - intros ->. exists (reverse r). rewrite reverse_involutive, strip_prefix_Some.
    by rewrite reverse_app.
Qed.

(** ** Splitting *)
Lemma split_on_cons_ne c b s : b ≠ c →
  ∃ p ps, split_on c s = p :: ps ∧ split_on c (b :: s) = (b :: p) :: ps.
Proof.
  intros Hb. cbn. rewrite bool_decide_eq_false_2 by done.
  destruct (split_on c s) as [|p ps] eqn:E; [|by eauto].
  destruct s as [|b' s]; cbn in E; [done|]. by repeat case_match.
Qed.

Lemma split_on_no_sep c s : c ∉ s → split_on c s = [s].
Proof.
  induction s as [|b s IH]; [done|]. intros [Hb Hs]%not_elem_of_cons.
  cbn. rewrite bool_decide_eq_false_2 by congruence. by rewrite IH.
Qed.

Lemma split_on_app c s t : c ∉ s → split_on c (s ++ c :: t) = s :: split_on c t.
Proof.
  induction s as [|b s IH]; cbn.
  - by rewrite bool_decide_eq_true_2.
  - intros [Hb Hs]%not_elem_of_cons. rewrite bool_decide_eq_false_2 by congruence.
    by rewrite IH.
Qed.

Lemma split_on_join c s : join [c] (split_on c s) = s.
Proof.
  induction s as [|b s IH]; [done|]. cbn.
  case_bool_decide as E.
  - subst b. destruct (split_on c s) as [|p ps] eqn:Es.
    + destruct s; cbn in Es; repeat case_match; done.
    + cbn in *. by rewrite IH.
  - destruct (split_on c s) as [|p ps] eqn:Es.
    + destruct s; cbn in Es; repeat case_match; done.
    + destruct ps; cbn in *; by rewrite <- IH.
Qed.

Lemma split_on_pieces c s : Forall (λ p, c ∉ p) (split_on c s).
Proof.
  induction s as [|b s IH]; cbn.
  - repeat constructor. apply not_elem_of_nil.
  - case_bool_decide; [constructor; [apply not_elem_of_nil|done]|].
    destruct (split_on c s) as [|p ps]; [repeat constructor; set_solver|].
    inversion IH; subst. constructor; [set_solver|done].
Qed.

Lemma join_split_on c ls :
  ls ≠ [] → Forall (λ p, c ∉ p) ls → split_on c (join [c] ls) = ls.
Proof.
  induction ls as [|l ls IH]; [done|]. intros _ [Hl Hls]%Forall_cons.
  destruct ls as [|l' ls].
  - by apply split_on_no_sep.
  - change (join [c] (l :: l' :: ls)) with (l ++ c :: join [c] (l' :: ls)).
    rewrite split_on_app by done. by rewrite IH.
Qed.

Lemma split_on_ne_nil c s : split_on c s ≠ [].
Proof. destruct s as [|b s]; cbn; repeat case_match; done. Qed.

Lemma split_on_lower s :
  split_on x2e (to_ascii_lowercase s) = to_ascii_lowercase <$> split_on x2e s.
Proof.
  induction s as [|b s IH]; [done|]. cbn.
  case_bool_decide as E.
  - rewrite (proj1 (lower_byte_dot b)) by done.
    rewrite bool_decide_eq_true_2 by done. cbn. by rewrite <- IH.
  - rewrite bool_decide_eq_false_2 by (intros ->; by apply E).
    fold (to_ascii_lowercase s). rewrite IH.
    by destruct (split_on x2e s).
Qed.

Lemma find_byte_Some c s n :
  find_byte c s = Some n ↔ ∃ r, s = take n s ++ c :: r ∧ c ∉ take n s ∧ n < length s.
Proof.
  revert n; induction s as [|b s IH]; intros n; cbn.
  - split; [done|]. intros (r & H & _). by destruct n.
  - case_bool_decide as E.
    + subst b. split.
      * intros [= <-]. exists s. split_and!; [done|apply not_elem_of_nil|lia].
      * intros (r & _ & Hn & _). destruct n; [done|]. cbn in Hn. set_solver.
    + destruct n as [|n].
      * split; [by destruct (find_byte c s)|]. intros (r & [= ->] & _). done.
      * rewrite fmap_Some. split.
        -- intros (m & (r & H1 & H2 & H3)%IH & [= ->]). exists r. cbn.
           split_and!; [by f_equal|set_solver|lia].
        -- intros (r & H1 & H2 & H3). cbn in H1. injection H1 as H1.
           exists n. split; [|done]. apply IH. exists r. cbn in H2.
           split_and!; [done|set_solver|lia].
Qed.

Lemma find_byte_None c s : find_byte c s = None ↔ c ∉ s.
Proof.
  induction s as [|b s IH]; cbn; [split; [intros _; apply not_elem_of_nil|done]|].
  case_bool_decide as E; [set_solver|]. rewrite fmap_None, IH. set_solver.
Qed.

(** ** The order on strings, sorting and binary search *)
Lemma str_cmp_Eq s t : str_cmp s t = Eq ↔ s = t.
Proof.
  revert t; induction s as [|a s IH]; intros [|b t]; cbn; [naive_solver..|].
  destruct (Z.compare_spec (b2z a) (b2z b)) as [E|E|E].
  - apply b2z_inj in E as ->. rewrite IH. naive_solver.
  - split; [done|]. intros [= -> _]. lia.
  - split; [done|]. intros [= -> _]. lia.
Qed.

Lemma str_cmp_antisym s t : str_cmp t s = CompOpp (str_cmp s t).
Proof.
  revert t; induction s as [|a s IH]; intros [|b t]; cbn; [done..|].
  rewrite (Z.compare_antisym (b2z a) (b2z b)).
  destruct (b2z a ?= b2z b)%Z; cbn; [apply IH|done|done].
Qed.

#[global] Instance str_le_trans : Transitive str_le.
Proof.
  unfold str_le. intros s; induction s as [|a s IH]; intros [|b t] [|c u]; cbn; try done.
  destruct (Z.compare_spec (b2z a) (b2z b)), (Z.compare_spec (b2z b) (b2z c));
    destruct (Z.compare_spec (b2z a) (b2z c)); try done; try lia.
  apply IH.
Qed.

#[global] Instance str_le_total : Total str_le.
Proof.
  intros s t. unfold str_le. rewrite (str_cmp_antisym s t).
  destruct (str_cmp s t); cbn; auto.
Qed.

#[global] Instance str_le_antisym : AntiSymm (=) str_le.
Proof.
  intros s t. unfold str_le. rewrite (str_cmp_antisym s t). rewrite <- str_cmp_Eq.
  by destruct (str_cmp s t).
Qed.

Lemma elem_of_dedup x l : x ∈ dedup l ↔ x ∈ l.
Proof.
  induction l as [|a l IH]; [done|]. cbn. destruct l as [|b l]; [done|].
  case_bool_decide as E; [subst|]; rewrite ?elem_of_cons in *; naive_solver.
Qed.

Lemma dedup_head a l : ∃ r, dedup (a :: l) = a :: r.
Proof.
  revert a; induction l as [|b l IH]; intros a; cbn; [eauto|].
  case_bool_decide as E; [subst; apply IH|eauto].
Qed.

Lemma dedup_NoDup l : StronglySorted str_le l → NoDup (dedup l).
Proof.
  induction 1 as [|a l Hl IH Ha]; [constructor|]. cbn.
  destruct l as [|b l]; [repeat constructor; apply not_elem_of_nil|].
  case_bool_decide as E; [done|]. constructor; [|done].
  rewrite elem_of_dedup. intros [->|Hin]%elem_of_cons; [done|].
  apply E. inversion Hl as [|? ? _ Hb]; subst.
  rewrite Forall_forall in Ha, Hb. apply (anti_symm str_le).
  - apply Ha. set_solver.
  - by apply Hb.
Qed.

Lemma dedup_sorted l : StronglySorted str_le l → StronglySorted str_le (dedup l).
Proof.
  induction 1 as [|a l Hl IH Ha]; [constructor|]. cbn.
  destruct l as [|b l]; [by repeat constructor|].
  case_bool_decide as E; [done|]. constructor; [done|].
  apply Forall_forall. intros x. rewrite elem_of_dedup.
  by apply (proj1 (Forall_forall _ _) Ha).
Qed.

Lemma sort_unstable_sorted l : StronglySorted str_le (sort_unstable l).
Proof. apply StronglySorted_merge_sort; apply _. Qed.

Lemma elem_of_sort_unstable x l : x ∈ sort_unstable l ↔ x ∈ l.
Proof. unfold sort_unstable. by rewrite merge_sort_Permutation. Qed.

Lemma sorted_lookup_le l i j x y :
  StronglySorted str_le l → i ≤ j → l !! i = Some x → l !! j = Some y → str_le x y.
Proof.
  intros Hs Hij Hi Hj. destruct (decide (i = j)) as [->|].
  - simplify_eq. unfold str_le. by rewrite (proj2 (str_cmp_Eq _ _)).
  - rewrite <- (take_drop_middle l i x Hi) in Hs.
    apply StronglySorted_app_1_r in Hs.
    inversion Hs as [|? ? _ Hall]; subst.
    rewrite Forall_lookup in Hall. apply (Hall (j - S i)).
    rewrite lookup_drop. by replace (S i + (j - S i)) with j by lia.
Qed.

Lemma binary_search_go_spec fuel l key base size i :
  StronglySorted str_le l →
  1 ≤ size ≤ S fuel → base + size ≤ length l →
  l !! i = Some key → base ≤ i < base + size →
  l !! binary_search_go fuel l key base size = Some key.
Proof.
  intros Hs. revert base size i.
  induction fuel as [|fuel IH]; intros base size i Hsz Hlen Hi Hr; cbn [binary_search_go].
  - by replace base with i by lia.
  - destruct (1 <? size) eqn:E; bool_to_prop; [|by replace base with i by lia].
    set (half := size / 2).
    assert (1 ≤ half ∧ 2 * half ≤ size) as [Hh1 Hh2].
    { unfold half. split; [apply Nat.div_le_lower_bound; lia|apply Nat.Div0.mul_div_le]. }
    clearbody half.
    destruct (lookup_lt_is_Some_2 l (base + half)) as [v Hv]; [lia|].
    rewrite Hv. change (default [] (Some v)) with v.
    destruct (str_cmp v key) eqn:Ec.
    + apply str_cmp_Eq in Ec; subst v. apply (IH (base + half) _ (base + half)); try lia; done.
    + assert (base + half ≤ i).
      { destruct (decide (base + half ≤ i)); [done|]. exfalso.
        assert (str_le key v) as Hle by (apply (sorted_lookup_le l i (base + half)); (done || lia)).
        apply Hle. rewrite str_cmp_antisym, Ec. done. }
      apply (IH _ _ i); try lia; done.
    + assert (i < base + half).
      { destruct (decide (i < base + half)); [done|]. exfalso.
        assert (str_le v key) as Hle by (apply (sorted_lookup_le l (base + half) i); (done || lia)).
        by apply Hle. }
      apply (IH _ _ i); try lia; done.
Qed.

Lemma binary_search_go_bound fuel l key base size :
  1 ≤ size → base + size ≤ length l → binary_search_go fuel l key base size < length l.
Proof.
  revert base size; induction fuel as [|fuel IH]; intros base size Hs Hl; cbn [binary_search_go]; [lia|].
  destruct (1 <? size) eqn:E; bool_to_prop; [|lia].
  assert (1 ≤ size / 2 ∧ 2 * (size / 2) ≤ size).
  { split; [apply Nat.div_le_lower_bound; lia|apply Nat.Div0.mul_div_le]. }
  apply IH; [lia|]. repeat case_match; lia.
Qed.

(** On a sorted vector the halving search finds exactly the members. *)
Lemma binary_search_ok_spec l key :
  StronglySorted str_le l → binary_search_ok l key = true ↔ key ∈ l.
Proof.
  intros Hs. unfold binary_search_ok.
  destruct (length l =? 0) eqn:E; bool_to_prop.
  - destruct l; [|done]. split; [done|]. by intros ?%not_elem_of_nil.
  - split.
    + intros H. set (i := binary_search_go _ _ _ _ _) in *.
      assert (i < length l) as Hi by (apply binary_search_go_bound; lia).
      destruct (lookup_lt_is_Some_2 l i Hi) as [v Hv]. rewrite Hv in H. cbn in H.
      destruct (str_cmp v key) eqn:Ec; [|done..]. apply str_cmp_Eq in Ec as ->.
      by eapply list_elem_of_lookup_2.
    + intros [i Hi]%list_elem_of_lookup_1.
      pose proof (lookup_lt_Some _ _ _ Hi).
      rewrite (binary_search_go_spec (length l) l key 0 (length l) i) by (done || lia).
      cbn. by rewrite (proj2 (str_cmp_Eq key key)).
Qed.

(** ** UTF-8 *)
Lemma utf8_valid_head b r : utf8_valid (b :: r) = true → is_cont b = false.
Proof.
  unfold utf8_valid. cbn [utf8_valid_go]. destruct (is_cont b) eqn:E; [|done].
  assert (utf8_head (b :: r) = None) as ->; [|done].
  destruct b; vm_compute in E; try discriminate E; destruct r as [|? [|? [|? ?]]]; reflexivity.
Qed.

Lemma utf8_valid_ascii_cons b r :
  is_ascii_byte b = true → utf8_valid (b :: r) = utf8_valid r.
Proof. intros H. unfold utf8_valid. cbn [utf8_valid_go utf8_head]. by rewrite H. Qed.

Lemma utf8_valid_replicate n b s :
  is_ascii_byte b = true → utf8_valid (replicate n b ++ s) = utf8_valid s.
Proof. intros H. induction n as [|n IH]; [done|]. cbn [replicate app]. by rewrite utf8_valid_ascii_cons. Qed.

Lemma utf8_valid_ascii s : is_ascii s = true → utf8_valid s = true.
Proof.
  induction s as [|b s IH]; [done|]. unfold is_ascii. cbn [forallb].
  intros [Hb Hs]%andb_true_iff. rewrite utf8_valid_ascii_cons by done. by apply IH.
Qed.

Lemma is_cont_lower b c : lower_byte b = lower_byte c → is_cont b = is_cont c.
Proof.
  assert (∀ x, is_cont (lower_byte x) = is_cont x) as H by (by intros []).
  intros E. by rewrite <- (H b), <- (H c), E.
Qed.

(** Lower-casing ASCII letters and dropping trailing dots keep a string valid. *)
Lemma byte_in_lower lo hi b : (128 ≤ lo)%Z → byte_in lo hi (lower_byte b) = byte_in lo hi b.
Proof.
  intros Hlo. unfold lower_byte. destruct (is_upper_byte b) eqn:E; [|done].
  unfold is_upper_byte, byte_in in *. bool_to_prop. rewrite b2z_z2b_small by lia.
  by rewrite !(proj2 (Z.leb_gt lo _)) by lia.
Qed.

Lemma is_cont_lower_byte b : is_cont (lower_byte b) = is_cont b.
Proof. by apply byte_in_lower. Qed.

Lemma utf8_head_lower s : utf8_head (to_ascii_lowercase s) = utf8_head s.
Proof.
  destruct s as [|b0 [|b1 [|b2 [|b3 r]]]]; cbn [to_ascii_lowercase fmap list_fmap utf8_head];
    rewrite ?is_ascii_lower_byte, ?is_cont_lower_byte, ?byte_in_lower by lia; done.
Qed.

Lemma utf8_valid_lower s : utf8_valid (to_ascii_lowercase s) = utf8_valid s.
Proof.
  unfold utf8_valid. generalize 0 as k. induction s as [|b s IH]; intros k; [done|].
  change (to_ascii_lowercase (b :: s)) with (lower_byte b :: to_ascii_lowercase s).
  destruct k as [|k]; cbn [utf8_valid_go]; [|apply IH].
  change (lower_byte b :: to_ascii_lowercase s) with (to_ascii_lowercase (b :: s)). rewrite utf8_head_lower.
  destruct (utf8_head (b :: s)) as [w|]; [apply IH|done].
Qed.

Lemma utf8_head_app_dot s t w : s ≠ [] → utf8_head (s ++ x2e :: t) = Some w → utf8_head s = Some w.
Proof.
  assert (byte_in 0xa0 0xbf x2e = false ∧ byte_in 0x80 0x9f x2e = false ∧ byte_in 0x90 0xbf x2e = false
    ∧ byte_in 0x80 0x8f x2e = false ∧ is_cont x2e = false) as (Z1 & Z2 & Z3 & Z4 & Z5) by done.
  destruct s as [|b0 [|b1 [|b2 [|b3 r]]]]; [done|..]; intros _; cbn [app utf8_head].
  - destruct t as [|c [|d t]]; rewrite ?Z1, ?Z2, ?Z3, ?Z4, ?Z5, ?andb_false_r; cbn [orb andb]; repeat case_match; done.
  - destruct t as [|c t]; rewrite ?Z5, ?andb_false_r; repeat case_match; done.
  - rewrite ?Z5, ?andb_false_r. repeat case_match; done.
  - done.
Qed.

Lemma utf8_valid_go_dots s k n : utf8_valid_go k (s ++ replicate n x2e) = true → utf8_valid_go k s = true.
Proof.
  destruct n as [|n]; [by rewrite app_nil_r|]. revert k; induction s as [|b s IH]; intros k; [done|].
  destruct k as [|k]; cbn [app utf8_valid_go]; [|apply IH].
  change (b :: s ++ replicate (S n) x2e) with ((b :: s) ++ x2e :: replicate n x2e).
  destruct (utf8_head ((b :: s) ++ _)) as [w|] eqn:E; [|done].
  apply utf8_head_app_dot in E; [|done]. rewrite E. apply IH.
Qed.

Lemma utf8_valid_trim_end s : utf8_valid s = true → utf8_valid (trim_end_matches x2e s) = true.
Proof.
  destruct (trim_end_matches_spec x2e s) as (n & Hs & _). rewrite Hs at 1. apply utf8_valid_go_dots.
Qed.

Lemma last_lower_dot d : last d ≠ Some x2e → last (to_ascii_lowercase d) ≠ Some x2e.
Proof.
  intros Hd. unfold to_ascii_lowercase. rewrite fmap_last. destruct (last d) as [b|] eqn:El; [|done].
  cbn. intros [= E]. apply (proj1 (lower_byte_dot b)) in E. by subst b.
Qed.
