(* ===== verification/RustNet.v ===== *)
(** * Socket addresses of Rust's standard library

    [core::net]: the address types with the fields their equality compares,
    the parser of [core::net::parser] and the [Display] implementations. An
    [Ipv4Addr] is its [u32] value, an [Ipv6Addr] its [u128] value. *)

From S2P Require Import Prelude RustStr.

Inductive IpAddr :=
| V4 (addr : Z)
| V6 (addr : Z).

(** [SocketAddrV4] is an address and a port; [SocketAddrV6] also has the
    flow information and the scope identifier. *)
Inductive SocketAddr :=
| SockV4 (addr port : Z)
| SockV6 (addr port flowinfo scope_id : Z).

#[global] Instance IpAddr_eq_dec : EqDecision IpAddr.
Proof. solve_decision. Defined.
#[global] Instance SocketAddr_eq_dec : EqDecision SocketAddr.
Proof. solve_decision. Defined.

#[global] Program Instance IpAddr_countable : Countable IpAddr :=
  inj_countable (λ a, match a with V4 z => inl z | V6 z => inr z end)
    (λ x, Some match x with inl z => V4 z | inr z => V6 z end) _.
Next Obligation. by intros []. Qed.

#[global] Program Instance SocketAddr_countable : Countable SocketAddr :=
  inj_countable
    (λ a, match a with SockV4 a p => inl (a, p) | SockV6 a p f s => inr (a, p, f, s) end)
    (λ x, Some match x with inl (a, p) => SockV4 a p | inr (a, p, f, s) => SockV6 a p f s end) _.
Next Obligation. by intros []. Qed.

(** Values of the Rust types *)
Definition ip_wf (a : IpAddr) : Prop :=
  match a with V4 z => is_u32 z | V6 z => is_u128 z end.
Definition sock_wf (a : SocketAddr) : Prop :=
  match a with
  | SockV4 z p => is_u32 z ∧ is_u16 p
  | SockV6 z p f s => is_u128 z ∧ is_u16 p ∧ is_u32 f ∧ is_u32 s
  end.

(** [SocketAddr::new], [ip], [port], [is_ipv4] *)
Definition sock_new (ip : IpAddr) (port : Z) : SocketAddr :=
  match ip with V4 a => SockV4 a port | V6 a => SockV6 a port 0 0 end.
Definition sock_ip (a : SocketAddr) : IpAddr :=
  match a with SockV4 a _ => V4 a | SockV6 a _ _ _ => V6 a end.
Definition sock_port (a : SocketAddr) : Z :=
  match a with SockV4 _ p => p | SockV6 _ p _ _ => p end.
Definition sock_is_ipv4 (a : SocketAddr) : bool :=
  match a with SockV4 _ _ => true | SockV6 _ _ _ _ => false end.

(** [octets], [IpAddr::is_loopback], [is_unspecified], [is_ipv6] *)
Definition v4_octets (a : Z) : bytes := be_bytes 4 a.
Definition v6_octets (a : Z) : bytes := be_bytes 16 a.
Definition ip_is_loopback (a : IpAddr) : bool :=
  match a with
  | V4 z => (Z.shiftr z 24 =? 127)%Z
  | V6 z => (z =? 1)%Z
  end.
Definition ip_is_unspecified (a : IpAddr) : bool :=
  match a with V4 z => (z =? 0)%Z | V6 z => (z =? 0)%Z end.
Definition ip_is_ipv6 (a : IpAddr) : bool :=
  match a with V4 _ => false | V6 _ => true end.

(** ** The parser: a recogniser returns its value and the rest of the input *)
Definition parser (A : Type) := str → option (A * str).

(** [read_given_char] *)
Definition read_given_char (c : byte) : parser unit := λ s,
  match s with b :: r => if bool_decide (b = c) then Some (tt, r) else None | [] => None end.

(** The maximal run of digits in the radix. *)
Fixpoint take_digits (radix : Z) (s : str) : list Z * str :=
  match s with
  | b :: r =>
      match digit_of radix b with
      | Some d => let '(ds, r') := take_digits radix r in (d :: ds, r')
      | None => ([], s)
      end
  | [] => ([], [])
  end.

(** [read_number]: [max_digits] bounds the digit count where it is given,
    [max] is the target type's maximum; a zero prefix may be refused. *)
Definition read_number (radix : Z) (max_digits : option nat) (allow_zero_prefix : bool)
    (max : Z) : parser Z := λ s,
  let '(ds, r) := take_digits radix s in
  let has_leading_zero := match s with b :: _ => bool_decide (b = x30) | [] => false end in
  if match max_digits with Some m => m <? length ds | None => false end then None
  else if length ds =? 0 then None
  else if negb allow_zero_prefix && has_leading_zero && (1 <? length ds) then None
  else
    let v := digits_value radix ds in
    if (v <=? max)%Z then Some (v, r) else None.

(** [read_separator]: the separator precedes every group but the first. *)
Definition read_separator {A} (sep : byte) (index : nat) (inner : parser A) : parser A := λ s,
  if 0 <? index then '(_, r) ← read_given_char sep s; inner r else inner s.

Definition read_octet (index : nat) : parser Z :=
  read_separator x2e index (read_number 10 (Some 3) false 255).

Definition read_ipv4_addr : parser Z := λ s,
  '(a, s) ← read_octet 0 s;
  '(b, s) ← read_octet 1 s;
  '(c, s) ← read_octet 2 s;
  '(d, s) ← read_octet 3 s;
  Some (((a * 256 + b) * 256 + c) * 256 + d, s)%Z.

(** [read_groups]: up to [left] groups from index [i]; the groups read,
    whether the last two came from an embedded IPv4 address, the rest. *)
Fixpoint read_groups (left i : nat) (s : str) : list Z * bool * str :=
  match left with
  | O => ([], false, s)
  | S left' =>
      let v4 := if 1 <? left then read_separator x3a i read_ipv4_addr s else None in
      match v4 with
      | Some (v, r) => ([v / 65536; v mod 65536]%Z, true, r)
      | None =>
          match read_separator x3a i (read_number 16 (Some 4) true 65535) s with
          | Some (g, r) =>
              let '(gs, b, r') := read_groups left' (S i) r in (g :: gs, b, r')
          | None => ([], false, s)
          end
      end
  end.

Definition groups_value (gs : list Z) : Z := digits_value 65536 gs.

Definition read_ipv6_addr : parser Z := λ s,
  let '(head, head_ipv4, s) := read_groups 8 0 s in
  if length head =? 8 then Some (groups_value head, s)
  else if head_ipv4 : bool then None
  else
    '(_, s) ← read_given_char x3a s;
    '(_, s) ← read_given_char x3a s;
    let limit := 8 - (length head + 1) in
    let '(tail, _, s) := read_groups limit 0 s in
    Some (groups_value (head ++ replicate (8 - length head - length tail) 0%Z ++ tail), s).

Definition read_port : parser Z := λ s,
  '(_, s) ← read_given_char x3a s; read_number 10 None true 65535 s.
Definition read_scope_id : parser Z := λ s,
  '(_, s) ← read_given_char x25 s; read_number 10 None true (2 ^ 32 - 1) s.

Definition read_socket_addr_v4 : parser SocketAddr := λ s,
  '(ip, s) ← read_ipv4_addr s;
  '(port, s) ← read_port s;
  Some (SockV4 ip port, s).
Definition read_socket_addr_v6 : parser SocketAddr := λ s,
  '(_, s) ← read_given_char x5b s;
  '(ip, s) ← read_ipv6_addr s;
  let '(scope, s) := default (0%Z, s) (read_scope_id s) in
  '(_, s) ← read_given_char x5d s;
  '(port, s) ← read_port s;
  Some (SockV6 ip port 0 scope, s).

Definition or_else {A} (p q : parser A) : parser A := λ s,
  match p s with Some x => Some x | None => q s end.
Definition map_parser {A B} (f : A → B) (p : parser A) : parser B := λ s,
  '(a, r) ← p s; Some (f a, r).
(** [parse_with]: the whole input must be consumed. *)
Definition parse_with {A} (p : parser A) (s : str) : option A :=
  match p s with Some (a, []) => Some a | _ => None end.

(** [IpAddr::from_str], [SocketAddr::from_str] *)
Definition parse_ip : str → option IpAddr :=
  parse_with (or_else (map_parser V4 read_ipv4_addr) (map_parser V6 read_ipv6_addr)).
Definition parse_socket_addr : str → option SocketAddr :=
  parse_with (or_else read_socket_addr_v4 read_socket_addr_v6).

(** ** Display *)
Definition show_ipv4 (a : Z) : str := join [x2e] ((λ b, show_dec (b2z b)) <$> v4_octets a).

Fixpoint segments_go (n : nat) (a : Z) : list Z :=
  match n with O => [] | S n' => segments_go n' (a / 65536) ++ [a mod 65536]%Z end.
Definition v6_segments (a : Z) : list Z := segments_go 8 a.

(** First longest run of zero segments: [(start, len)]. *)
Fixpoint longest_zeroes (i : nat) (gs : list Z) (cur best : nat * nat) : nat * nat :=
  match gs with
  | [] => best
  | g :: gs' =>
      if (g =? 0)%Z then
        let cur := if cur.2 =? 0 then (i, 1) else (cur.1, S cur.2) in
        longest_zeroes (S i) gs' cur (if best.2 <? cur.2 then cur else best)
      else longest_zeroes (S i) gs' (0, 0) best
  end.

Definition fmt_subslice (gs : list Z) : str := join [x3a] (show_hex <$> gs).

Definition show_ipv6 (a : Z) : str :=
  if (Z.shiftr a 32 =? 0xffff)%Z then #"::ffff:" ++ show_ipv4 (a mod 2 ^ 32)
  else
    let gs := v6_segments a in
    let '(start, len) := longest_zeroes 0 gs (0, 0) (0, 0) in
    if 1 <? len then
      fmt_subslice (take start gs) ++ #"::" ++ fmt_subslice (drop (start + len) gs)
    else fmt_subslice gs.

Definition show_ip (a : IpAddr) : str :=
  match a with V4 z => show_ipv4 z | V6 z => show_ipv6 z end.

Definition show_socket_addr (a : SocketAddr) : str :=
  match a with
  | SockV4 ip port => show_ipv4 ip ++ #":" ++ show_dec port
  | SockV6 ip port _ scope =>
      #"[" ++ show_ipv6 ip
      ++ (if (scope =? 0)%Z then [] else #"%" ++ show_dec scope)
      ++ #"]:" ++ show_dec port
  end.

(** * Lemmas: everything the parsers return is a value of the Rust type *)
Lemma digit_of_range radix b d : digit_of radix b = Some d → (0 ≤ d < radix)%Z.
Proof.
  unfold digit_of. pose proof (b2z_range b).
  destruct (is_digit_byte b) eqn:E1;
    [|destruct (byte_in 97 122 b) eqn:E2; [|destruct (byte_in 65 90 b) eqn:E3]];
    unfold is_digit_byte, byte_in in *; case_match; intros [= <-]; bool_to_prop; lia.
Qed.

Lemma take_digits_range radix s :
  Forall (λ d, 0 ≤ d < radix)%Z (take_digits radix s).1.
Proof.
  induction s as [|b s IH]; cbn; [constructor|].
  destruct (digit_of radix b) eqn:E; [|constructor].
  destruct (take_digits radix s). constructor; [by eapply digit_of_range|done].
Qed.

Lemma digits_value_snoc radix ds d :
  digits_value radix (ds ++ [d]) = (digits_value radix ds * radix + d)%Z.
Proof. unfold digits_value. by rewrite foldl_app. Qed.

Lemma digits_value_bound radix ds :
  (0 < radix)%Z → Forall (λ d, 0 ≤ d < radix)%Z ds →
  (0 ≤ digits_value radix ds < radix ^ Z.of_nat (length ds))%Z.
Proof.
  intros Hr. induction ds as [|d ds IH] using rev_ind; [done|].
  intros [Hds Hd]%Forall_app. rewrite Forall_singleton in Hd. specialize (IH Hds).
  rewrite digits_value_snoc, length_app. cbn [length].
  rewrite Nat2Z.inj_add, Z.pow_add_r by lia. change (radix ^ Z.of_nat 1)%Z with (radix ^ 1)%Z.
  rewrite Z.pow_1_r.
  assert ((digits_value radix ds + 1) * radix ≤ radix ^ Z.of_nat (length ds) * radix)%Z
    by (apply Z.mul_le_mono_nonneg_r; lia).
  split; [nia|lia].
Qed.

Lemma read_number_range radix md z max s v r :
  (0 < radix)%Z → read_number radix md z max s = Some (v, r) → (0 ≤ v ≤ max)%Z.
Proof.
  intros Hr. unfold read_number.
  pose proof (take_digits_range radix s) as Hd. destruct (take_digits radix s) as [ds r'].
  repeat case_match; intros [= <- <-]; bool_to_prop; cbn in Hd.
  all: pose proof (digits_value_bound radix ds Hr Hd); lia.
Qed.

Lemma read_separator_Some {A} sep i (p : parser A) s x :
  read_separator sep i p s = Some x → ∃ s', p s' = Some x.
Proof.
  unfold read_separator. destruct (0 <? i); [|by eauto].
  intros (y & _ & H)%bind_Some. destruct y. by eauto.
Qed.

Ltac inv_parser :=
  repeat match goal with
  | H : mbind _ _ = Some _ |- _ => apply bind_Some in H as ([] & ? & H)
  end.

Lemma read_ipv4_addr_range s v r : read_ipv4_addr s = Some (v, r) → is_u32 v.
Proof.
  unfold read_ipv4_addr. intros H. inv_parser. injection H as <- <-.
  repeat match goal with
  | H : read_octet _ _ = Some _ |- _ =>
      apply read_separator_Some in H as [? H]; apply read_number_range in H; [|lia]
  end. unfold is_u32. lia.
Qed.

Lemma read_groups_range left i s gs b r :
  read_groups left i s = (gs, b, r) →
  length gs ≤ left ∧ Forall (λ g, 0 ≤ g < 65536)%Z gs.
Proof.
  revert i s gs b r; induction left as [|left IH]; intros i s gs b r; cbn [read_groups].
  - intros [= <- <- <-]. split; [cbn; lia|constructor].
  - intros H.
    destruct (if 1 <? S left then _ else _) as [[v r']|] eqn:E4.
    + destruct (1 <? S left) eqn:El; [|done]. bool_to_prop.
      apply read_separator_Some in E4 as [? E4]. apply read_ipv4_addr_range in E4.
      injection H as <- <- <-. unfold is_u32 in E4. split; [cbn; lia|].
      repeat constructor; try (apply Z.mod_pos_bound; lia);
        [apply Z.div_pos; lia|apply Z.div_lt_upper_bound; lia].
    + destruct (read_separator _ _ (read_number _ _ _ _) _) as [[g r']|] eqn:Eg.
      * apply read_separator_Some in Eg as [? Eg]. apply read_number_range in Eg; [|lia].
        destruct (read_groups left (S i) r') as [[gs' b'] r''] eqn:Er.
        apply IH in Er as [? ?]. injection H as <- <- <-.
        split; [cbn; lia|]. constructor; [lia|done].
      * injection H as <- <- <-. split; [cbn; lia|constructor].
Qed.

Lemma groups_value_range gs :
  length gs = 8 → Forall (λ g, 0 ≤ g < 65536)%Z gs → is_u128 (groups_value gs).
Proof.
  intros Hl Hg. apply (digits_value_bound 65536 gs ltac:(lia)) in Hg. rewrite Hl in Hg.
  exact Hg.
Qed.

Lemma read_ipv6_addr_range s v r : read_ipv6_addr s = Some (v, r) → is_u128 v.
Proof.
  unfold read_ipv6_addr. destruct (read_groups 8 0 s) as [[gs b] s'] eqn:E.
  apply read_groups_range in E as [Hl Hg].
  destruct (length gs =? 8) eqn:E8; bool_to_prop.
  { intros [= <- <-]. by apply groups_value_range. }
  destruct b; [done|]. intros H. inv_parser.
  destruct (read_groups (8 - (length gs + 1)) 0 _) as [[ts tb] s''] eqn:Et.
  apply read_groups_range in Et as [Htl Htg]. injection H as <- <-.
  apply groups_value_range.
  - rewrite !length_app, length_replicate. lia.
  - rewrite !Forall_app. split_and!; [done| |done].
    apply Forall_replicate. lia.
Qed.

Lemma parse_with_Some {A} (p : parser A) s a : parse_with p s = Some a ↔ p s = Some (a, []).
Proof. unfold parse_with. destruct (p s) as [[x [|]]|]; naive_solver. Qed.

Lemma parse_ip_wf s a : parse_ip s = Some a → ip_wf a.
Proof.
  intros H%parse_with_Some. unfold or_else, map_parser in H.
  case_match; inv_parser; simplify_eq; cbn;
    eauto using read_ipv4_addr_range, read_ipv6_addr_range.
Qed.

Lemma read_port_range s v r : read_port s = Some (v, r) → is_u16 v.
Proof.
  unfold read_port. intros H. inv_parser. apply read_number_range in H; unfold is_u16; lia.
Qed.

Lemma read_scope_id_range s v r : read_scope_id s = Some (v, r) → is_u32 v.
Proof.
  unfold read_scope_id. intros H. inv_parser. apply read_number_range in H; unfold is_u32; lia.
Qed.

Lemma parse_socket_addr_wf s a : parse_socket_addr s = Some a → sock_wf a.
Proof.
  intros H%parse_with_Some. unfold or_else in H. case_match eqn:E.
  - simplify_eq. unfold read_socket_addr_v4 in E. inv_parser. simplify_eq. cbn.
    eauto using read_ipv4_addr_range, read_port_range.
  - clear E. unfold read_socket_addr_v6 in H. inv_parser.
    destruct (default _ _) as [scope s'] eqn:Es. inv_parser. simplify_eq. cbn.
    split_and!; eauto using read_ipv6_addr_range, read_port_range; [unfold is_u32; lia|].
    destruct (read_scope_id _) as [[]|] eqn:Ei; cbn in Es; simplify_eq.
    + by eapply read_scope_id_range.
    + unfold is_u32; lia.
Qed.

Lemma parse_uint_range m s v : parse_uint m s = Some v → (0 ≤ v ≤ m)%Z.
Proof.
  unfold parse_uint. destruct (strip_plus s) as [|b r]; [done|].
  intros (zs & Hm & H)%bind_Some. case_match; [|done]. bool_to_prop. injection H as <-.
  apply mapM_Some in Hm.
  assert (Forall (λ d, 0 ≤ d < 10)%Z zs) as Hz.
  { apply Forall_lookup. intros i z Hi.
    destruct (Forall2_lookup_r _ _ _ _ _ Hm Hi) as (x & _ & Hx). by eapply digit_of_range. }
  pose proof (digits_value_bound 10 zs ltac:(lia) Hz). lia.
Qed.
