(* ===== verification/NetText.v ===== *)
(** * Printing and parsing addresses

    [Display] of the standard library's integers and addresses is inverted by
    its parsers: decimal and hexadecimal numbers, IPv4 addresses, IPv6
    addresses with the longest run of zero groups written [::] and with an
    embedded IPv4 address. Each lemma allows any text after the printed value
    at which the parser has to stop. *)

From S2P Require Import Prelude RustStr RustNet.

(** ** Numbers *)
Definition is_digit (radix : Z) (b : byte) : bool := match digit_of radix b with Some _ => true | None => false end.

(** The text does not begin with a byte of the class. *)
Definition stops (P : byte → bool) (rest : str) : Prop := match rest with b :: _ => P b = false | [] => True end.

Definition digits_ok (radix : Z) (ds : list Z) : Prop := Forall (λ d, 0 ≤ d < radix)%Z ds.

Lemma digit_of_digit_byte radix d : (0 ≤ d < radix)%Z → (radix ≤ 16)%Z → digit_of radix (digit_byte d) = Some d.
Proof.
  intros Hd Hr.
  unfold digit_of, digit_byte, is_digit_byte, byte_in. destruct (d <? 10)%Z eqn:E; bool_to_prop; rewrite b2z_z2b_small by lia.
  - rewrite (proj2 (Z.leb_le 48 (48 + d))), (proj2 (Z.leb_le (48 + d) 57)) by lia. cbn [andb].
    replace (48 + d - 48)%Z with d by lia. by rewrite (proj2 (Z.ltb_lt d radix)) by lia.
  - rewrite (proj2 (Z.leb_le 48 (87 + d))), (proj2 (Z.leb_gt (87 + d) 57)) by lia. cbn [andb].
    rewrite (proj2 (Z.leb_le 97 (87 + d))), (proj2 (Z.leb_le (87 + d) 122)) by lia. cbn [andb].
    replace (87 + d - 87)%Z with d by lia. by rewrite (proj2 (Z.ltb_lt d radix)) by lia.
Qed.

Lemma take_digits_stop radix rest : stops (is_digit radix) rest → take_digits radix rest = ([], rest).
Proof. destruct rest as [|b r]; [done|]. cbn. unfold is_digit. by destruct (digit_of radix b). Qed.

Lemma take_digits_digits radix ds rest :
  digits_ok radix ds → (radix ≤ 16)%Z → stops (is_digit radix) rest →
  take_digits radix ((digit_byte <$> ds) ++ rest) = (ds, rest).
Proof.
  intros Hds Hr Hs. induction Hds as [|d ds Hd _ IH]; [by apply take_digits_stop|].
  rewrite fmap_cons. cbn [app take_digits]. by rewrite digit_of_digit_byte, IH.
Qed.

(** The digits of a printed number: their value, how many there are and that
    none but a single one begins with zero. *)
Lemma show_radix_digits fuel radix z :
  (2 ≤ radix)%Z → (0 ≤ z < radix ^ Z.of_nat fuel)%Z → 0 < fuel →
  ∃ ds, show_radix fuel radix z = digit_byte <$> ds ∧ digits_ok radix ds ∧ digits_value radix ds = z
    ∧ ds ≠ [] ∧ (head ds = Some 0%Z → length ds = 1)
    ∧ ∀ k, 0 < k → (z < radix ^ Z.of_nat k)%Z → length ds ≤ k.
Proof.
  intros Hr. revert z. induction fuel as [|fuel IH]; intros z Hz Hf; [lia|]. cbn [show_radix].
  destruct (z <? radix)%Z eqn:E; bool_to_prop.
  - exists [z]. split_and!; try done. apply Forall_singleton. lia.
  - assert (Z.of_nat (S fuel) = Z.of_nat fuel + 1)%Z as Ef by lia.
    rewrite Ef, Z.pow_add_r, Z.pow_1_r in Hz by lia.
    assert (0 < fuel) as Hfp by (destruct fuel; [cbn in Hz; lia|lia]).
    pose proof (Z.div_mod z radix ltac:(lia)) as Hdm. pose proof (Z.mod_pos_bound z radix ltac:(lia)) as Hm.
    assert (1 ≤ z / radix)%Z as H1 by (apply Z.div_le_lower_bound; lia).
    destruct (IH (z / radix)%Z) as (ds & E1 & E2 & E3 & E4 & E5 & E6); [|done|].
    { split; [lia|]. apply Z.div_lt_upper_bound; lia. }
    exists (ds ++ [z mod radix]%Z). split_and!.
    + by rewrite E1, fmap_app.
    + apply Forall_app. split; [done|by apply Forall_singleton].
    + rewrite digits_value_snoc, E3. lia.
    + by destruct ds.
    + destruct ds as [|d ds]; [done|]. cbn. intros [= ->]. specialize (E5 eq_refl). destruct ds; [|done].
      unfold digits_value in E3. cbn in E3. lia.
    + intros k Hk Hzk. rewrite length_app. cbn [length]. destruct k as [|k]; [lia|].
      assert (Z.of_nat (S k) = Z.of_nat k + 1)%Z as Ek by lia. rewrite Ek, Z.pow_add_r, Z.pow_1_r in Hzk by lia.
      destruct k as [|k]; [cbn in Hzk; lia|]. enough (length ds ≤ S k) by lia. apply E6; [lia|].
      apply Z.div_lt_upper_bound; lia.
Qed.

(** A number printed in the radix is read back, in at most as many digits as
    the reader allows. *)
Lemma read_number_show radix md zp max n rest :
  (2 ≤ radix ≤ 16)%Z → (0 ≤ n ≤ max)%Z → (n < 2 ^ 40)%Z → stops (is_digit radix) rest →
  (∀ m, md = Some m → 0 < m ∧ (n < radix ^ Z.of_nat m)%Z) →
  read_number radix md zp max (show_radix 40 radix n ++ rest) = Some (n, rest).
Proof.
  intros Hr Hn Hb Hs Hmd.
  destruct (show_radix_digits 40 radix n) as (ds & E1 & E2 & E3 & E4 & E5 & E6); [lia| |lia|].
  { split; [lia|]. apply (Z.lt_le_trans _ (2 ^ 40)); [done|]. apply Z.pow_le_mono_l. lia. }
  unfold read_number. rewrite E1, take_digits_digits by (done || lia).
  replace (match md with Some m => m <? length ds | None => false end) with false.
  2: { destruct md as [m|]; [|done]. destruct (Hmd m eq_refl). symmetry. apply Nat.ltb_ge, E6; [lia|done]. }
  destruct (length ds =? 0) eqn:E0; [by destruct ds|].
  replace (negb zp && _ && (1 <? length ds)) with false.
  2: { destruct (1 <? length ds) eqn:El; [|by rewrite andb_false_r]. bool_to_prop. rewrite andb_true_r.
       destruct ds as [|d ds]; [done|]. cbn. case_bool_decide as Ed; [|by rewrite andb_false_r].
       apply Forall_cons in E2 as [Hd _]. pose proof (digit_of_digit_byte radix d Hd ltac:(lia)) as Hdd.
       rewrite Ed in Hdd. change (digit_of radix x30) with (if (0 <? radix)%Z then Some 0%Z else None) in Hdd.
       destruct (0 <? radix)%Z; [|done]. injection Hdd as <-. specialize (E5 eq_refl).
       rewrite E5 in El. lia. }
  rewrite E3. by rewrite (proj2 (Z.leb_le n max)) by lia.
Qed.

(** The digits of a printed number are digits. *)
Lemma show_radix_is_digit radix n :
  (2 ≤ radix ≤ 16)%Z → (0 ≤ n < 2 ^ 40)%Z → Forall (λ b, is_digit radix b = true) (show_radix 40 radix n).
Proof.
  intros Hr Hn. destruct (show_radix_digits 40 radix n) as (ds & -> & E2 & _); [lia| |lia|].
  { split; [lia|]. apply (Z.lt_le_trans _ (2 ^ 40)); [lia|]. apply Z.pow_le_mono_l. lia. }
  apply Forall_fmap. eapply Forall_impl; [exact E2|]. intros d Hd. unfold is_digit. cbn.
  by rewrite digit_of_digit_byte by (done || lia).
Qed.

(** A number of at most [fuel] digits is printed. *)
Lemma show_radix_length fuel radix z : length (show_radix fuel radix z) ≤ fuel.
Proof.
  revert z. induction fuel as [|fuel IH]; intros z; [done|]. cbn [show_radix].
  destruct (z <? radix)%Z; [cbn; lia|]. rewrite length_app. specialize (IH (z / radix)%Z). cbn. lia.
Qed.

Lemma show_radix_ne radix n : show_radix 40 radix n ≠ [].
Proof. change 40 with (S 39). cbn [show_radix]. destruct (n <? radix)%Z; [done|]. intros H; by apply app_eq_nil in H as [_ H]. Qed.

Lemma mapM_digits ds : digits_ok 10 ds → mapM (digit_of 10) (digit_byte <$> ds) = Some ds.
Proof.
  intros Hds. induction Hds as [|d ds Hd _ IH]; [done|]. rewrite fmap_cons. cbn [mapM].
  rewrite digit_of_digit_byte by (done || lia). cbn. by rewrite IH.
Qed.

(** [<uN>::from_str] reads back what [Display] prints. *)
Lemma parse_uint_show max n : (0 ≤ n ≤ max)%Z → (n < 2 ^ 40)%Z → parse_uint max (show_dec n) = Some n.
Proof.
  intros Hn Hb. destruct (show_radix_digits 40 10 n) as (ds & E1 & E2 & E3 & E4 & _ & _); [lia| |lia|].
  { split; [lia|]. apply (Z.lt_le_trans _ (2 ^ 40)); [done|]. by apply Z.pow_le_mono_l. }
  unfold parse_uint, show_dec. rewrite E1. destruct ds as [|d ds]; [done|]. rewrite fmap_cons.
  replace (strip_plus (digit_byte d :: (digit_byte <$> ds))) with (digit_byte <$> d :: ds).
  - rewrite fmap_cons, <- (fmap_cons digit_byte d ds), mapM_digits by done. cbn [mbind option_bind].
    rewrite E3. by rewrite (proj2 (Z.leb_le n max)) by lia.
  - cbn. case_bool_decide as Ed; [|done]. apply Forall_cons in E2 as [Hd _].
    pose proof (digit_of_digit_byte 10 d Hd ltac:(lia)) as H. by rewrite Ed in H.
Qed.

#[local] Arguments show_radix : simpl never.
#[local] Arguments show_hex : simpl never.
#[local] Arguments show_dec : simpl never.

(** ** IPv4 addresses *)
Lemma read_octet_show b rest :
  stops (is_digit 10) rest →
  read_octet 0 (show_dec (b2z b) ++ rest) = Some (b2z b, rest)
  ∧ ∀ i, read_octet (S i) (x2e :: show_dec (b2z b) ++ rest) = Some (b2z b, rest).
Proof.
  intros Hs. pose proof (b2z_range b).
  assert (read_number 10 (Some 3) false 255 (show_dec (b2z b) ++ rest) = Some (b2z b, rest)) as H1.
  { apply read_number_show; [lia|lia|lia|done|]. intros m [= <-]. cbn. lia. }
  split; [exact H1|]. intros i. exact H1.
Qed.

Lemma stops_dot s : stops (is_digit 10) (x2e :: s).
Proof. done. Qed.

Lemma read_ipv4_addr_show a rest :
  is_u32 a → stops (is_digit 10) rest → read_ipv4_addr (show_ipv4 a ++ rest) = Some (a, rest).
Proof.
  intros Ha Hs. unfold show_ipv4. pose proof (length_be_bytes 4 a) as Hl.
  pose proof (be_value_be_bytes_small 4 a Ha) as Hv. unfold v4_octets.
  destruct (be_bytes 4 a) as [|b0 [|b1 [|b2 [|b3 [|]]]]]; try done.
  unfold is_u32, be_value in *. cbn [fmap list_fmap join]. rewrite <- !app_assoc. cbn [app]. unfold read_ipv4_addr.
  rewrite (proj1 (read_octet_show b0 _ (stops_dot _))). cbn [mbind option_bind].
  rewrite (proj2 (read_octet_show b1 _ (stops_dot _)) 0). cbn [mbind option_bind].
  rewrite (proj2 (read_octet_show b2 _ (stops_dot _)) 1). cbn [mbind option_bind].
  rewrite (proj2 (read_octet_show b3 _ Hs) 2). cbn [mbind option_bind]. do 2 f_equal.
  rewrite <- Hv. cbn. lia.
Qed.

(** ** IPv6 addresses *)
Definition group_ok (g : Z) : Prop := (0 ≤ g < 65536)%Z.

(** What may not follow a group, and an address. *)
Definition group_end (b : byte) : bool := is_digit 16 b || bool_decide (b = x2e).
Definition addr_end (b : byte) : bool := group_end b || bool_decide (b = x3a).

Lemma stops_weaken (P Q : byte → bool) rest : (∀ b, Q b = true → P b = true) → stops P rest → stops Q rest.
Proof. intros H. destruct rest as [|b r]; [done|]. cbn. destruct (Q b) eqn:E; [|done]. by rewrite (H b E). Qed.

Lemma group_end_dec b : is_digit 10 b = true → group_end b = true.
Proof. by destruct b. Qed.
Lemma group_end_hex b : is_digit 16 b = true → group_end b = true.
Proof. intros H. unfold group_end. by rewrite H. Qed.
Lemma addr_end_group b : group_end b = true → addr_end b = true.
Proof. intros H. unfold addr_end. by rewrite H. Qed.

(** An IPv4 address begins with digits and a dot, a group is never followed by
    one. *)
Lemma take_digits_split s : ∃ h, s = h ++ (take_digits 10 s).2 ∧ Forall (λ b, is_digit 16 b = true) h.
Proof.
  induction s as [|b s (h & Hs & Hh)]; [by exists []|]. cbn.
  destruct (digit_of 10 b) as [d|] eqn:Ed; [|by exists []].
  destruct (take_digits 10 s) as [ds t]. cbn in *. exists (b :: h). rewrite Hs at 1.
  split; [done|]. constructor; [|done]. revert Ed. by destruct b.
Qed.

Lemma read_ipv4_addr_dot s x :
  read_ipv4_addr s = Some x → ∃ h t, s = h ++ x2e :: t ∧ Forall (λ b, is_digit 16 b = true) h.
Proof.
  unfold read_ipv4_addr. intros ([v0 s0] & E0 & H)%bind_Some. apply bind_Some in H as ([v1 s1] & E1 & _).
  destruct (take_digits_split s) as (h & Hs & Hh). exists h.
  assert (s0 = (take_digits 10 s).2) as ->.
  { unfold read_octet, read_separator in E0. cbn in E0. unfold read_number in E0. destruct (take_digits 10 s) as [ds t].
    by repeat case_match; simplify_eq. }
  unfold read_octet, read_separator in E1. cbn in E1. apply bind_Some in E1 as ([u t] & E1 & _).
  destruct (take_digits 10 s).2 as [|b r]; [done|]. cbn in E1. case_bool_decide; [|done]. subst b. eauto.
Qed.

Lemma hex_no_dot l rest h t :
  Forall (λ b, is_digit 16 b = true) l → Forall (λ b, is_digit 16 b = true) h → stops group_end rest →
  l ++ rest = h ++ x2e :: t → False.
Proof.
  intros Hl. revert h. induction Hl as [|b l Hb Hl IH]; intros h Hh Hs E.
  - destruct Hh as [|c h Hc _]; cbn in E; subst rest; cbn in Hs; [done|]. by rewrite group_end_hex in Hs.
  - destruct Hh as [|c h Hc Hh]; cbn in E; injection E as -> E; [done|]. by eapply IH.
Qed.

Lemma show_hex_text g : group_ok g → Forall (λ b, is_digit 16 b = true) (show_hex g).
Proof. unfold group_ok. intros Hg. apply show_radix_is_digit; lia. Qed.

Lemma read_ipv4_addr_group g rest :
  group_ok g → stops group_end rest → read_ipv4_addr (show_hex g ++ rest) = None.
Proof.
  intros Hg Hs. destruct (read_ipv4_addr _) as [x|] eqn:E; [|done].
  apply read_ipv4_addr_dot in E as (h & t & E & Hh). exfalso. by eapply hex_no_dot; [apply show_hex_text| | |exact E].
Qed.

(** Groups with the separators that precede them from index [i] on. *)
Fixpoint groups_text (i : nat) (gs : list Z) : str :=
  match gs with [] => [] | g :: gs => (if 0 <? i then [x3a] else []) ++ show_hex g ++ groups_text (S i) gs end.

Lemma join_groups i g gs : join [x3a] (show_hex <$> g :: gs) = show_hex g ++ groups_text (S i) gs.
Proof.
  revert i g. induction gs as [|h gs IH]; intros i g; [cbn; by rewrite app_nil_r|].
  change (join [x3a] (show_hex <$> g :: h :: gs)) with (show_hex g ++ [x3a] ++ join [x3a] (show_hex <$> h :: gs)).
  by rewrite (IH (S i)).
Qed.
Lemma fmt_subslice_text gs : fmt_subslice gs = groups_text 0 gs.
Proof. destruct gs as [|g gs]; [done|]. apply (join_groups 0). Qed.

Lemma groups_text_stops i gs rest : stops group_end rest → stops group_end (groups_text (S i) gs ++ rest).
Proof. by destruct gs. Qed.

Lemma read_separator_group {A} i (p : parser A) s :
  read_separator x3a i p ((if 0 <? i then [x3a] else []) ++ s) = p s.
Proof. unfold read_separator. by destruct (0 <? i). Qed.

(** Groups are read one after the other, and then whatever follows. *)
Lemma read_groups_text left i gs rest :
  Forall group_ok gs → stops group_end rest →
  read_groups (length gs + left) i (groups_text i gs ++ rest)
  = let '(hs, b, r) := read_groups left (i + length gs) rest in (gs ++ hs, b, r).
Proof.
  intros Hgs Hs. revert i. induction Hgs as [|g gs Hg _ IH]; intros i.
  - cbn. rewrite Nat.add_0_r. by destruct (read_groups left i rest) as [[??]?].
  - cbn [length Nat.add groups_text read_groups]. rewrite <- !app_assoc, !read_separator_group.
    rewrite read_ipv4_addr_group by auto using groups_text_stops.
    replace (if 1 <? _ then None else None) with (@None (Z * str)) by (by destruct (1 <? _)).
    assert (read_number 16 (Some 4) true 65535 (show_hex g ++ groups_text (S i) gs ++ rest)
      = Some (g, groups_text (S i) gs ++ rest)) as ->.
    { unfold group_ok in Hg. apply read_number_show; [lia|lia|lia| |].
      - eapply stops_weaken; [apply group_end_hex|by apply groups_text_stops].
      - intros m [= <-]. cbn. lia. }
    rewrite IH. replace (i + S (length gs)) with (S i + length gs) by lia.
    by destruct (read_groups left (S i + length gs) rest) as [[??]?].
Qed.

(** The reader stops at [::] and at the end of the address. *)
Lemma read_groups_colons left i s : read_groups left i (x3a :: x3a :: s) = ([], false, x3a :: x3a :: s).
Proof.
  destruct left as [|left]; [done|]. cbn [read_groups]. unfold read_separator.
  destruct (0 <? i), (1 <? S left); done.
Qed.

Lemma read_groups_end left i rest : stops addr_end rest → read_groups left i rest = ([], false, rest).
Proof.
  intros Hs. destruct left as [|left]; [done|]. cbn [read_groups]. unfold read_separator.
  destruct rest as [|b r]; [by destruct (0 <? i), (1 <? S left)|]. cbn in Hs.
  destruct b; try (exfalso; clear -Hs; discriminate Hs); destruct (0 <? i), (1 <? S left); reflexivity.
Qed.

(** *** The eight groups *)
Lemma segments_go_length n a : length (segments_go n a) = n.
Proof. revert a. induction n as [|n IH]; intros a; cbn; [done|]. rewrite length_app, IH. cbn. lia. Qed.
Lemma segments_go_ok n a : Forall group_ok (segments_go n a).
Proof.
  revert a. induction n as [|n IH]; intros a; cbn [segments_go]; [constructor|]. apply Forall_app. split; [apply IH|].
  apply Forall_singleton. apply Z.mod_pos_bound. lia.
Qed.
Lemma segments_go_value n a : (0 ≤ a < 65536 ^ Z.of_nat n)%Z → groups_value (segments_go n a) = a.
Proof.
  unfold groups_value. revert a. induction n as [|n IH]; intros a Ha; cbn [segments_go]; [cbn in *; lia|].
  rewrite digits_value_snoc. rewrite Nat2Z.inj_succ, Z.pow_succ_r in Ha by lia.
  rewrite IH; [pose proof (Z.div_mod a 65536); lia|]. split; [apply Z.div_pos; lia|apply Z.div_lt_upper_bound; lia].
Qed.

Definition zero_run (gs : list Z) (run : nat * nat) : Prop := take run.2 (drop run.1 gs) = replicate run.2 0%Z.

Lemma longest_zeroes_run pre gs cur best :
  zero_run (pre ++ gs) cur → (cur.2 = 0 ∨ cur.1 + cur.2 = length pre) → zero_run (pre ++ gs) best →
  zero_run (pre ++ gs) (longest_zeroes (length pre) gs cur best).
Proof.
  revert pre cur best. induction gs as [|g gs IH]; intros pre cur best Hc Hi Hb; [done|]. cbn [longest_zeroes].
  rewrite (cons_middle g pre gs) in *. rewrite app_assoc in *.
  replace (S (length pre)) with (length (pre ++ [g])) by (rewrite length_app; cbn; lia).
  destruct (g =? 0)%Z eqn:E; bool_to_prop; [|by apply IH; [done|left|]]. subst g.
  set (cur' := if cur.2 =? 0 then _ else _).
  assert (zero_run ((pre ++ [0%Z]) ++ gs) cur' ∧ cur'.1 + cur'.2 = S (length pre)) as [H1 H2].
  { unfold cur'. destruct (cur.2 =? 0) eqn:E0; bool_to_prop; cbn [fst snd].
    - split; [|lia]. unfold zero_run. cbn [fst snd]. rewrite <- app_assoc, drop_app_length. done.
    - destruct Hi as [?|Hi]; [lia|]. split; [|lia]. unfold zero_run in *. cbn [fst snd].
      rewrite (take_S_r _ _ 0%Z).
      + rewrite Hc, <- replicate_S_end. done.
      + rewrite lookup_drop, Hi, <- app_assoc. apply list_lookup_middle. done. }
  apply IH; [done|right; rewrite length_app; cbn; lia|]. by destruct (best.2 <? cur'.2).
Qed.

(** An address of eight groups is the groups before the longest run of
    zeroes, the run and the groups after it. *)
Lemma longest_zeroes_split gs start len :
  longest_zeroes 0 gs (0, 0) (0, 0) = (start, len) → 0 < len →
  gs = take start gs ++ replicate len 0%Z ++ drop (start + len) gs ∧ start + len ≤ length gs.
Proof.
  intros E Hlen. pose proof (longest_zeroes_run [] gs (0, 0) (0, 0) eq_refl (or_introl eq_refl) eq_refl) as H.
  cbn [app length] in H. rewrite E in H. unfold zero_run in H. cbn in H. split.
  - rewrite <- H, <- drop_drop. rewrite take_drop, take_drop. done.
  - apply (f_equal length) in H. rewrite length_take, length_drop, length_replicate in H. lia.
Qed.

Lemma read_ipv6_addr_plain gs rest :
  Forall group_ok gs → length gs = 8 → stops group_end rest →
  read_ipv6_addr (fmt_subslice gs ++ rest) = Some (groups_value gs, rest).
Proof.
  intros Hgs Hl Hs. unfold read_ipv6_addr. rewrite fmt_subslice_text.
  pose proof (read_groups_text 0 0 gs rest Hgs Hs) as E. rewrite Hl in E.
  change (8 + 0) with 8 in E. change (read_groups 0 (0 + 8) rest) with (@nil Z, false, rest) in E.
  rewrite E, app_nil_r. by rewrite (proj2 (Nat.eqb_eq _ _) Hl).
Qed.

(** Both sides of [::]: the groups before it, and a tail that the reader of
    groups turns into [ts]. *)
Lemma read_ipv6_addr_colons hs tail ts b rest :
  Forall group_ok hs → length hs < 8 → read_groups (8 - (length hs + 1)) 0 tail = (ts, b, rest) →
  read_ipv6_addr (fmt_subslice hs ++ [x3a; x3a] ++ tail)
  = Some (groups_value (hs ++ replicate (8 - length hs - length ts) 0%Z ++ ts), rest).
Proof.
  intros Hhs Hl Ht. unfold read_ipv6_addr. rewrite fmt_subslice_text.
  pose proof (read_groups_text (8 - length hs) 0 hs ([x3a; x3a] ++ tail) Hhs eq_refl) as E.
  replace (length hs + (8 - length hs)) with 8 in E by lia. cbn [app] in *. rewrite read_groups_colons in E.
  rewrite E, app_nil_r, (proj2 (Nat.eqb_neq _ _)) by lia.
  change (read_given_char x3a (x3a :: x3a :: tail)) with (Some (tt, x3a :: tail)). cbn [mbind option_bind].
  change (read_given_char x3a (x3a :: tail)) with (Some (tt, tail)). cbn [mbind option_bind]. by rewrite Ht.
Qed.

(** The tail of a mapped address: a group and an embedded IPv4 address. *)
Lemma read_groups_mapped lo rest :
  is_u32 lo → stops addr_end rest →
  read_groups 7 0 (#"ffff:" ++ show_ipv4 lo ++ rest) = ([65535; lo / 65536; lo mod 65536]%Z, true, rest).
Proof.
  intros Hlo Hs. assert (Forall group_ok [65535%Z]) as Hg by (apply Forall_singleton; unfold group_ok; lia).
  pose proof (read_groups_text 6 0 [65535%Z] (x3a :: show_ipv4 lo ++ rest) Hg eq_refl) as E.
  change (#"ffff:" ++ show_ipv4 lo ++ rest) with (groups_text 0 [65535%Z] ++ x3a :: show_ipv4 lo ++ rest).
  change 7 with (length [65535%Z] + 6). rewrite E. cbn [length Nat.add read_groups]. cbn [Nat.ltb Nat.leb].
  pose proof (read_separator_group 1 read_ipv4_addr (show_ipv4 lo ++ rest)) as Es. cbn [Nat.ltb Nat.leb app] in Es.
  rewrite Es, read_ipv4_addr_show; [done|done|]. eapply stops_weaken; [|exact Hs].
  intros b Hb. by apply addr_end_group, group_end_dec.
Qed.

Lemma mapped_value a : Z.shiftr a 32 = 0xffff%Z →
  is_u32 (a mod 2 ^ 32) ∧ groups_value (replicate 5 0 ++ [65535; a mod 2 ^ 32 / 65536; (a mod 2 ^ 32) mod 65536])%Z = a.
Proof.
  rewrite Z.shiftr_div_pow2 by lia. intros Ha. pose proof (Z.mod_pos_bound a (2 ^ 32) ltac:(lia)) as Hm.
  split; [exact Hm|]. set (lo := (a mod 2 ^ 32)%Z) in *. pose proof (Z.div_mod a (2 ^ 32) ltac:(lia)) as Hd.
  pose proof (Z.div_mod lo 65536 ltac:(lia)) as Hl. unfold groups_value, digits_value. cbn [replicate app foldl].
  fold lo in Hd. lia.
Qed.

(** [Ipv6Addr]: what [Display] prints is read back, whatever follows. *)
Lemma read_ipv6_addr_show a rest :
  is_u128 a → stops addr_end rest → read_ipv6_addr (show_ipv6 a ++ rest) = Some (a, rest).
Proof.
  intros Ha Hs. unfold show_ipv6. destruct (_ =? 0xffff)%Z eqn:E; bool_to_prop.
  { apply mapped_value in E as [Hlo Hv]. rewrite <- app_assoc.
    pose proof (read_ipv6_addr_colons [] _ _ _ _ (Forall_nil_2 _) ltac:(cbn; lia) (read_groups_mapped _ rest Hlo Hs)) as H.
    cbn [length Nat.sub app] in H. rewrite Hv in H. exact H. }
  assert (Forall group_ok (v6_segments a)) as Hg by apply segments_go_ok.
  assert (length (v6_segments a) = 8) as Hl by apply segments_go_length.
  assert (groups_value (v6_segments a) = a) as Hv by (apply segments_go_value; exact Ha).
  destruct (longest_zeroes 0 (v6_segments a) (0, 0) (0, 0)) as [start len] eqn:El.
  destruct (1 <? len) eqn:E1; bool_to_prop.
  - apply longest_zeroes_split in El as [Hz Hle]; [|lia]. set (gs := v6_segments a) in *. rewrite Hl in Hle.
    rewrite <- !app_assoc. change (#"::") with [x3a; x3a]. set (ts := drop (start + len) gs) in *.
    assert (length (take start gs) = start) as Hls by (rewrite length_take; lia).
    assert (length ts = 8 - (start + len)) as Hlt by (unfold ts; rewrite length_drop; lia).
    assert (read_groups (8 - (length (take start gs) + 1)) 0 (fmt_subslice ts ++ rest) = (ts, false, rest)) as Ht.
    { rewrite fmt_subslice_text. replace (8 - _) with (length ts + (len - 1)) by lia.
      rewrite read_groups_text; [|by apply Forall_drop|by eapply stops_weaken; [apply addr_end_group|]].
      rewrite read_groups_end by done. by rewrite app_nil_r. }
    rewrite (read_ipv6_addr_colons _ _ _ _ _ (Forall_take _ start gs Hg) ltac:(lia) Ht).
    replace (8 - length (take start gs) - length ts) with len by lia. rewrite <- Hz, Hv. done.
  - rewrite read_ipv6_addr_plain, Hv; [done|done|done|]. by eapply stops_weaken; [apply addr_end_group|].
Qed.

(** ** Whole addresses *)
Definition is_addr_char (b : byte) : Prop := addr_end b = true.
Definition is_v4_char (b : byte) : Prop := is_digit 10 b = true ∨ b = x2e.

Lemma show_dec_chars n : is_u16 n → Forall (λ b, is_digit 10 b = true) (show_dec n).
Proof. unfold is_u16. intros Hn. apply show_radix_is_digit; lia. Qed.

Lemma show_ipv4_chars a : Forall is_v4_char (show_ipv4 a).
Proof.
  assert (∀ b : byte, Forall is_v4_char (show_dec (b2z b))) as Hb.
  { intros b. pose proof (b2z_range b). eapply Forall_impl; [apply show_dec_chars; unfold is_u16; lia|].
    intros c Hc. by left. }
  unfold show_ipv4. induction (v4_octets a) as [|b [|c l] IH]; [constructor|apply Hb|].
  change (join [x2e] _) with (show_dec (b2z b) ++ [x2e] ++ join [x2e] ((λ b, show_dec (b2z b)) <$> c :: l)).
  apply Forall_app. split; [apply Hb|]. constructor; [by right|done].
Qed.

Lemma groups_text_chars i gs : Forall group_ok gs → Forall is_addr_char (groups_text i gs).
Proof.
  intros Hgs. revert i. induction Hgs as [|g gs Hg _ IH]; intros i; [constructor|]. cbn [groups_text].
  rewrite !Forall_app. split_and!; [by destruct (0 <? i); repeat constructor| |apply IH].
  eapply Forall_impl; [by apply show_hex_text|]. intros b Hb. by apply addr_end_group, group_end_hex.
Qed.

Lemma v4_char_addr b : is_v4_char b → is_addr_char b.
Proof. intros [H| ->]; [by apply addr_end_group, group_end_dec|done]. Qed.

Lemma show_ipv6_chars a : Forall is_addr_char (show_ipv6 a).
Proof.
  unfold show_ipv6. case_match.
  - apply Forall_app. split; [by repeat constructor|]. eapply Forall_impl; [apply show_ipv4_chars|]. apply v4_char_addr.
  - pose proof (segments_go_ok 8 a) as Hg. unfold v6_segments. destruct (longest_zeroes _ _ _ _) as [start len].
    rewrite !fmt_subslice_text. case_match; [|by apply groups_text_chars]. rewrite !Forall_app.
    split_and!; [by apply groups_text_chars, Forall_take|by repeat constructor|by apply groups_text_chars, Forall_drop].
Qed.

(** The text of an IPv6 address never begins with an IPv4 address. *)
Lemma show_ipv6_not_ipv4 a : read_ipv4_addr (show_ipv6 a) = None.
Proof.
  assert (∀ gs t, Forall group_ok gs → stops group_end t →
    read_ipv4_addr (groups_text 0 gs ++ t) = None) as Hgen.
  { intros [|g gs] t Hg Ht.
    - destruct (read_ipv4_addr _) as [x|] eqn:E; [|done]. apply read_ipv4_addr_dot in E as (h & u & E & Hh).
      exfalso. by apply (hex_no_dot [] t h u).
    - apply Forall_cons in Hg as [Hg _]. cbn [groups_text Nat.ltb Nat.leb]. cbn [app]. rewrite <- app_assoc.
      apply read_ipv4_addr_group; [done|]. by apply groups_text_stops. }
  unfold show_ipv6. case_match; [done|]. pose proof (segments_go_ok 8 a) as Hg. unfold v6_segments.
  destruct (longest_zeroes _ _ _ _) as [start len]. rewrite !fmt_subslice_text. case_match.
  - by apply Hgen; [apply Forall_take|].
  - rewrite <- (app_nil_r (groups_text 0 _)). by apply Hgen.
Qed.

(** [IpAddr::from_str] inverts [Display]. *)
Lemma parse_ip_show a : ip_wf a → parse_ip (show_ip a) = Some a.
Proof.
  intros Ha. apply parse_with_Some. unfold or_else, map_parser. destruct a as [a|a]; cbn [show_ip ip_wf] in *.
  - rewrite <- (app_nil_r (show_ipv4 a)), read_ipv4_addr_show by done. done.
  - rewrite show_ipv6_not_ipv4. cbn [mbind option_bind].
    by rewrite <- (app_nil_r (show_ipv6 a)), read_ipv6_addr_show by done.
Qed.

(** A loose bound on the length of the text. *)
Lemma groups_text_length i gs : length (groups_text i gs) ≤ 41 * length gs.
Proof.
  revert i. induction gs as [|g gs IH]; intros i; [done|]. cbn [groups_text length]. rewrite !length_app.
  pose proof (show_radix_length 40 16 g) as Hg. specialize (IH (S i)). unfold show_hex. destruct (0 <? i); cbn; lia.
Qed.

Lemma show_ip_length a : length (show_ip a) ≤ 340.
Proof.
  assert (∀ z, length (show_ipv4 z) ≤ 163) as H4.
  { intros z. unfold show_ipv4, v4_octets. pose proof (length_be_bytes 4 z) as Hl.
    destruct (be_bytes 4 z) as [|b0 [|b1 [|b2 [|b3 [|]]]]]; try done. unfold show_dec. cbn [fmap list_fmap join].
    rewrite !length_app. cbn [length]. pose proof (show_radix_length 40 10 (b2z b0)). pose proof (show_radix_length 40 10 (b2z b1)).
    pose proof (show_radix_length 40 10 (b2z b2)). pose proof (show_radix_length 40 10 (b2z b3)). lia. }
  destruct a as [a|a]; cbn [show_ip]; [specialize (H4 a); lia|]. unfold show_ipv6. case_match.
  - rewrite length_app. specialize (H4 (a mod 2 ^ 32)%Z). change (length (#"::ffff:")) with 7. lia.
  - pose proof (segments_go_length 8 a) as Hl. unfold v6_segments in *.
    destruct (longest_zeroes _ _ _ _) as [start len]. rewrite !fmt_subslice_text. set (gs := segments_go 8 a) in *.
    pose proof (groups_text_length 0 (take start gs)). pose proof (groups_text_length 0 (drop (start + len) gs)).
    pose proof (groups_text_length 0 gs). rewrite length_take in *. rewrite length_drop in *.
    case_match; rewrite ?length_app; [change (length (#"::")) with 2|]; lia.
Qed.

(** [SocketAddr::from_str] inverts [Display], which leaves out the flow
    information of IPv6. *)
Lemma read_port_show p : is_u16 p → read_port (x3a :: show_dec p) = Some (p, []).
Proof.
  unfold is_u16. intros Hp. unfold read_port.
  change (read_given_char x3a (x3a :: show_dec p)) with (Some (tt, show_dec p)). cbn [mbind option_bind].
  rewrite <- (app_nil_r (show_dec p)) at 1. apply read_number_show; [lia|lia|lia|done|done].
Qed.

Lemma read_scope_id_show scope rest :
  is_u32 scope → stops (is_digit 10) rest → read_scope_id (x25 :: show_dec scope ++ rest) = Some (scope, rest).
Proof.
  unfold is_u32. intros Hs Hr. unfold read_scope_id.
  change (read_given_char x25 (x25 :: show_dec scope ++ rest)) with (Some (tt, show_dec scope ++ rest)).
  cbn [mbind option_bind]. apply read_number_show; [lia|lia|lia|done|done].
Qed.

Definition no_flowinfo (a : SocketAddr) : Prop := match a with SockV6 _ _ flow _ => flow = 0%Z | SockV4 _ _ => True end.

Lemma parse_socket_addr_show a : sock_wf a → no_flowinfo a → parse_socket_addr (show_socket_addr a) = Some a.
Proof.
  intros Hw Hf. apply parse_with_Some. unfold or_else. destruct a as [ip p|ip p flow scope]; cbn [show_socket_addr sock_wf no_flowinfo] in *.
  - destruct Hw as [Hip Hp]. unfold read_socket_addr_v4. rewrite read_ipv4_addr_show by done. cbn [mbind option_bind].
    change (#":" ++ show_dec p) with (x3a :: show_dec p). by rewrite read_port_show.
  - destruct Hw as (Hip & Hp & _ & Hs). subst flow.
    change (read_socket_addr_v4 (#"[" ++ ?t)) with (@None (SocketAddr * str)). unfold read_socket_addr_v6.
    change (read_given_char x5b (#"[" ++ ?t)) with (Some (tt, t)). cbn [mbind option_bind].
    rewrite read_ipv6_addr_show; [|done|by destruct (scope =? 0)%Z]. cbn [mbind option_bind].
    assert (default (0%Z, (if (scope =? 0)%Z then [] else #"%" ++ show_dec scope) ++ #"]:" ++ show_dec p)
      (read_scope_id ((if (scope =? 0)%Z then [] else #"%" ++ show_dec scope) ++ #"]:" ++ show_dec p))
      = (scope, #"]:" ++ show_dec p)) as ->.
    { destruct (scope =? 0)%Z eqn:E; bool_to_prop; [by subst scope|]. rewrite <- app_assoc.
      change (#"%" ++ show_dec scope ++ #"]:" ++ show_dec p) with (x25 :: show_dec scope ++ #"]:" ++ show_dec p).
      by rewrite read_scope_id_show. }
    change (read_given_char x5d (#"]:" ++ show_dec p)) with (Some (tt, x3a :: show_dec p)). cbn [mbind option_bind].
    by rewrite read_port_show.
Qed.


(** So an address that was configured is printed as a text for the same
    address. *)
Lemma parse_socket_addr_canonical s a : parse_socket_addr s = Some a → parse_socket_addr (show_socket_addr a) = Some a.
Proof.
  intros H. apply parse_socket_addr_show; [by eapply parse_socket_addr_wf|]. apply parse_with_Some in H.
  unfold or_else in H. case_match eqn:E.
  - simplify_eq. unfold read_socket_addr_v4 in E. inv_parser. by simplify_eq.
  - clear E. unfold read_socket_addr_v6 in H. inv_parser. destruct (default _ _) as [scope s']. inv_parser. by simplify_eq.
Qed.
