(* ===== verification/Flow.v ===== *)
(** * Flows, endpoints and execution actions ([core/src/flow.rs], [core/src/plan.rs])

    The canonical data of the core crate: what a flow is and what may be done
    with it. An [EndpointId] is validated text; the core never sees more of a
    proxy endpoint than that identity. *)

From S2P Require Import Prelude RustStr RustNet.

(** ** [flow.rs] *)
Abbreviation FlowId := Z.

Record SourceContext := {
  source_uid : option Z;
  source_package : option str;
}.
Definition SourceContext_default : SourceContext := {| source_uid := None; source_package := None |}.

Inductive DestinationHost :=
| Domain (name : str)
| Ip (addr : IpAddr).

Record Destination := {
  dest_host : DestinationHost;
  dest_port : Z;
}.

Inductive TransportProtocol := Tcp | Udp.

Inductive NetworkKind := NetUnknown | NetEthernet | NetWifi | NetCellular.

Record NetworkContext := {
  net_kind : NetworkKind;
  net_interface : option str;
}.
Definition NetworkContext_default : NetworkContext :=
  {| net_kind := NetUnknown; net_interface := None |}.

Record FlowContext := {
  flow_id : FlowId;
  flow_source : SourceContext;
  flow_destination : Destination;
  flow_transport : TransportProtocol;
  flow_network : NetworkContext;
}.
Definition FlowContext_new (id : FlowId) (source : SourceContext) (destination : Destination)
    (transport : TransportProtocol) (network : NetworkContext) : FlowContext :=
  {| flow_id := id; flow_source := source; flow_destination := destination;
     flow_transport := transport; flow_network := network |}.

(** ** [plan.rs] *)
Definition MAX_ENDPOINT_ID_LENGTH : nat := 64.

Record EndpointId := MkEndpointId { endpoint_id_str : str }.

Inductive EndpointIdError := MkEndpointIdError.

Definition endpoint_id_byte (b : byte) : bool :=
  is_ascii_alphanumeric b || bool_decide (b = x2d) || bool_decide (b = x5f) || bool_decide (b = x2e).

Definition EndpointId_new (value : str) : result EndpointIdError EndpointId :=
  if (length value =? 0) || (MAX_ENDPOINT_ID_LENGTH <? length value)
     || negb (forallb endpoint_id_byte value)
  then Err MkEndpointIdError
  else Ok (MkEndpointId value).

Inductive Endpoint :=
| Direct
| Proxy (id : EndpointId).

Inductive RejectReason := RejectPolicy | RejectSecurity | RejectUnsupported.

Inductive ExecutionAction :=
| Route (endpoint : Endpoint)
| Reject (reason : RejectReason).

#[global] Instance DestinationHost_eq_dec : EqDecision DestinationHost.
Proof. solve_decision. Defined.
#[global] Instance TransportProtocol_eq_dec : EqDecision TransportProtocol.
Proof. solve_decision. Defined.
#[global] Instance NetworkKind_eq_dec : EqDecision NetworkKind.
Proof. solve_decision. Defined.
#[global] Instance EndpointId_eq_dec : EqDecision EndpointId.
Proof. solve_decision. Defined.
#[global] Instance Endpoint_eq_dec : EqDecision Endpoint.
Proof. solve_decision. Defined.
#[global] Instance RejectReason_eq_dec : EqDecision RejectReason.
Proof. solve_decision. Defined.
#[global] Instance ExecutionAction_eq_dec : EqDecision ExecutionAction.
Proof. solve_decision. Defined.

#[global] Program Instance EndpointId_countable : Countable EndpointId :=
  inj_countable endpoint_id_str (λ s, Some (MkEndpointId s)) _.
Next Obligation. by intros []. Qed.
#[global] Program Instance Endpoint_countable : Countable Endpoint :=
  inj_countable (λ e, match e with Direct => None | Proxy id => Some id end)
    (λ o, Some match o with None => Direct | Some id => Proxy id end) _.
Next Obligation. by intros []. Qed.

(** ** Lemmas *)
Definition endpoint_id_wf (id : EndpointId) : Prop :=
  1 ≤ length (endpoint_id_str id) ≤ MAX_ENDPOINT_ID_LENGTH
  ∧ Forall (λ b, endpoint_id_byte b = true) (endpoint_id_str id).

Lemma EndpointId_new_ok value id :
  EndpointId_new value = Ok id ↔ id = MkEndpointId value ∧ endpoint_id_wf id.
Proof.
  unfold EndpointId_new, endpoint_id_wf.
  destruct (_ || _ || _) eqn:E.
  - split; [done|]. intros (-> & [H1 H2] & H3); cbn [endpoint_id_str] in *. exfalso.
    rewrite !orb_true_iff, negb_true_iff in E.
    destruct E as [[E|E]|E]; bool_to_prop; [lia..|].
    apply not_true_iff_false in E. apply E, forallb_forall.
    intros x Hx%list_elem_of_In. rewrite Forall_forall in H3. by apply H3.
  - bool_to_prop. split.
    + intros [= <-]. cbn. split; [done|]. split; [lia|].
      apply Forall_forall. intros x Hx%list_elem_of_In.
      match goal with H : forallb _ _ = true |- _ => by apply (proj1 (forallb_forall _ _) H) end.
    + by intros (-> & _).
Qed.

Lemma EndpointId_new_no_panic value : no_panic (EndpointId_new value).
Proof. unfold EndpointId_new. by case_match. Qed.
