(* ===== verification/Cidr.v ===== *)
(** * IP networks ([core/src/cidr.rs])

    [IpCidr] with its parser and membership test. The main theorem reads a
    network textually: an address belongs to [a/p] exactly when it has the
    family of [a] and shares its first [p] bits. *)

From S2P Require Import Prelude RustStr RustNet.

Inductive IpCidr :=
| CidrV4 (network prefix : Z)
| CidrV6 (network prefix : Z).

Inductive CidrParseError := MissingPrefix | InvalidAddress | InvalidPrefix | PrefixOutOfRange.

#[global] Instance IpCidr_eq_dec : EqDecision IpCidr.
Proof. solve_decision. Defined.
#[global] Instance CidrParseError_eq_dec : EqDecision CidrParseError.
Proof. solve_decision. Defined.

(** [x << n] on a [w]-bit unsigned type in a release build: the amount is
    taken modulo the width and the high bits fall off. *)
Definition shl_unsigned (w x n : Z) : Z := (Z.shiftl x (n mod w) mod 2 ^ w)%Z.

(** [w - prefix] is computed on [u8]. *)
Definition prefix_mask (w prefix : Z) : Z :=
  if (prefix =? 0)%Z then 0%Z
  else shl_unsigned w (2 ^ w - 1) ((w - prefix) mod 256).

Definition v4_mask (prefix : Z) : Z := prefix_mask 32 prefix.
Definition v6_mask (prefix : Z) : Z := prefix_mask 128 prefix.

Definition cidr_contains (c : IpCidr) (address : IpAddr) : bool :=
  match c, address with
  | CidrV4 network prefix, V4 a => (Z.land a (v4_mask prefix) =? network)%Z
  | CidrV6 network prefix, V6 a => (Z.land a (v6_mask prefix) =? network)%Z
  | _, _ => false
  end.

Definition cidr_from_str (value : str) : result CidrParseError IpCidr :=
  '(address, prefix) ← ok_or (split_once x2f value) MissingPrefix;
  address ← ok_or (parse_ip address) InvalidAddress;
  prefix ← ok_or (parse_u8 prefix) InvalidPrefix;
  match address with
  | V4 a => if (prefix <=? 32)%Z then Ok (CidrV4 (Z.land a (v4_mask prefix)) prefix)
            else Err PrefixOutOfRange
  | V6 a => if (prefix <=? 128)%Z then Ok (CidrV6 (Z.land a (v6_mask prefix)) prefix)
            else Err PrefixOutOfRange
  end.

(** ** Specification *)

Definition ip_bits (a : IpAddr) : Z := match a with V4 _ => 32 | V6 _ => 128 end.
Definition ip_value (a : IpAddr) : Z := match a with V4 z => z | V6 z => z end.
Definition same_family (a b : IpAddr) : bool := Bool.eqb (ip_is_ipv6 a) (ip_is_ipv6 b).

(** [b] has the family of [a] and the same first [p] bits. *)
Definition shares_prefix (p : Z) (a b : IpAddr) : Prop :=
  same_family a b = true
  ∧ Z.shiftr (ip_value b) (ip_bits a - p) = Z.shiftr (ip_value a) (ip_bits a - p).

(** ** Lemmas *)
Lemma shl_ones w p :
  (0 < p ≤ w)%Z → (w ≤ 255)%Z →
  prefix_mask w p = Z.shiftl (Z.ones p) (w - p).
Proof.
  intros Hp Hw. unfold prefix_mask, shl_unsigned.
  rewrite (proj2 (Z.eqb_neq p 0)) by lia.
  rewrite (Z.mod_small (w - p) 256), (Z.mod_small (w - p) w) by lia.
  replace (2 ^ w - 1)%Z with (Z.ones w) by (rewrite Z.ones_equiv; lia).
  apply Z.bits_inj'. intros i Hi.
  rewrite Z.testbit_mod_pow2, !Z.shiftl_spec, !Z.testbit_ones by lia.
  destruct (i <? w)%Z eqn:?, (0 <=? i - (w - p))%Z eqn:?, (i - (w - p) <? w)%Z eqn:?,
    (i - (w - p) <? p)%Z eqn:?; bool_to_prop; cbn; try done; lia.
Qed.

(** Masking keeps the first [p] bits and clears the rest. *)
Lemma land_prefix_mask w p a :
  (0 ≤ p ≤ w)%Z → (w ≤ 255)%Z → (0 ≤ a < 2 ^ w)%Z →
  Z.land a (prefix_mask w p) = Z.shiftl (Z.shiftr a (w - p)) (w - p).
Proof.
  intros Hp Hw Ha. destruct (decide (p = 0%Z)) as [->|].
  - unfold prefix_mask; cbn. rewrite Z.land_0_r, Z.sub_0_r.
    rewrite (Z.shiftr_div_pow2 a) by lia. rewrite Z.div_small by lia.
    by rewrite Z.shiftl_0_l.
  - rewrite shl_ones by lia. apply Z.bits_inj'. intros i Hi.
    rewrite Z.land_spec, !Z.shiftl_spec by lia.
    destruct (decide (i < w - p)%Z).
    + rewrite (Z.testbit_neg_r (Z.ones p)), (Z.testbit_neg_r (Z.shiftr _ _)) by lia.
      by rewrite andb_false_r.
    + rewrite Z.shiftr_spec by lia. replace (i - (w - p) + (w - p))%Z with i by lia.
      rewrite Z.testbit_ones by lia.
      destruct (decide (i < w)%Z).
      * rewrite (proj2 (Z.leb_le _ _)), (proj2 (Z.ltb_lt _ _)) by lia. by rewrite andb_true_r.
      * rewrite <- (Z.mod_small a (2 ^ w)) by lia.
        by rewrite Z.mod_pow2_bits_high by lia.
Qed.

Lemma shiftl_inj a b n : (0 ≤ n)%Z → Z.shiftl a n = Z.shiftl b n ↔ a = b.
Proof.
  intros Hn. split; [|by intros ->]. intros H%(f_equal (λ x, Z.shiftr x n)).
  by rewrite !Z.shiftr_shiftl_l, Z.sub_diag, !Z.shiftl_0_r in H by lia.
Qed.

(** The parser accepts exactly the texts [address/prefix] with the prefix in
    the range of the address family. *)
Lemma cidr_from_str_ok s c :
  cidr_from_str s = Ok c →
  ∃ at' pt a p, split_once x2f s = Some (at', pt) ∧ parse_ip at' = Some a ∧ parse_u8 pt = Some p
    ∧ (0 ≤ p ≤ ip_bits a)%Z
    ∧ c = match a with V4 z => CidrV4 (Z.land z (v4_mask p)) p
                     | V6 z => CidrV6 (Z.land z (v6_mask p)) p end.
Proof.
  unfold cidr_from_str. intros H. inv_ok. destruct x as [at' pt]. inv_ok.
  match goal with
  | Hp : parse_u8 pt = Some ?p |- _ => pose proof (parse_uint_range _ _ _ Hp)
  end.
  exists at', pt. case_match; case_match; inv_ok; bool_to_prop; do 2 eexists;
    split_and!; try done; cbn; lia.
Qed.

(** An address is in a parsed network [a/p] exactly when it is of the same
    family as [a] and has the same first [p] bits: the mask arithmetic on
    [u32]/[u128] computes prefix equality, for every prefix length including
    0 and the full width, and the stored network is normalised. *)
Lemma cidr_prefix s c b :
  cidr_from_str s = Ok c → ip_wf b →
  ∃ at' pt a p, split_once x2f s = Some (at', pt) ∧ parse_ip at' = Some a ∧ parse_u8 pt = Some p
    ∧ (cidr_contains c b = true ↔ shares_prefix p a b).
Proof.
  intros (at' & pt & a & p & Hs & Ha & Hp & Hr & ->)%cidr_from_str_ok Hb.
  exists at', pt, a, p. split_and!; [done..|].
  apply parse_ip_wf in Ha. unfold shares_prefix, same_family, v4_mask, v6_mask, is_u32, is_u128 in *.
  destruct a, b; cbn in *; [|naive_solver|naive_solver|]; unfold v4_mask, v6_mask, is_u32, is_u128 in *;
    rewrite !land_prefix_mask by lia; rewrite Z.eqb_eq, shiftl_inj by lia; naive_solver.
Qed.
