(* ===== verification/DomainSet.v ===== *)
(** * Domain sets and filters ([core/src/domain_set.rs])

    [DomainSet] holds sorted, deduplicated, normalised names and answers
    membership by binary search; suffixes match at label boundaries only.
    The name test below is shared: the dns and compat crates carry the same
    expression. *)

From S2P Require Import Prelude RustStr.

Definition MAX_DOMAIN_LENGTH : nat := 253.

(** The guard of [normalize_domain], [normalize_name] and [parse_domain]. *)
Definition bad_name (value : str) : bool :=
  (length value =? 0) || (MAX_DOMAIN_LENGTH <? length value) || negb (is_ascii value)
  || existsb (λ label, (length label =? 0) || (63 <? length label)) (split_on x2e value).

Inductive DomainSetError := InvalidDomain (value : str).

Definition normalize_domain (value : str) : result DomainSetError str :=
  let value := to_ascii_lowercase (trim_matches x2e value) in
  if bad_name value then Err (InvalidDomain value) else Ok value.

(** [collect::<Result<Vec<_>, _>>]: the first error stops the traversal. *)
Fixpoint collect_results {E A B} (f : A → result E B) (l : list A) : result E (list B) :=
  match l with
  | [] => Ok []
  | a :: l' => b ← f a; bs ← collect_results f l'; Ok (b :: bs)
  end.

Record DomainSet := {
  ds_exact : list str;
  ds_suffixes : list str;
}.

Definition DomainSet_compile (exact suffixes : list str) : result DomainSetError DomainSet :=
  exact ← collect_results normalize_domain exact;
  suffixes ← collect_results normalize_domain suffixes;
  Ok {| ds_exact := dedup (sort_unstable exact);
        ds_suffixes := dedup (sort_unstable suffixes) |}.

Definition DomainSet_is_empty (d : DomainSet) : bool :=
  (length (ds_exact d) =? 0) && (length (ds_suffixes d) =? 0).
Definition DomainSet_len (d : DomainSet) : nat := length (ds_exact d) + length (ds_suffixes d).

(** The loop of [matches] over the candidate tails; each step drops at least
    one byte, so [S (length candidate)] steps always suffice. *)
Fixpoint matches_loop (fuel : nat) (suffixes : list str) (candidate : str) : bool :=
  match fuel with
  | O => false
  | S n =>
      if binary_search_ok suffixes candidate then true
      else match find_byte x2e candidate with
           | None => false
           | Some dot => matches_loop n suffixes (drop (dot + 1) candidate)
           end
  end.

Definition DomainSet_matches (d : DomainSet) (domain : str) : bool :=
  let domain := trim_end_matches x2e domain in
  if (length domain =? 0) || (MAX_DOMAIN_LENGTH <? length domain) || negb (is_ascii domain)
  then false
  else if binary_search_ok (ds_exact d) domain then true
  else matches_loop (S (length domain)) (ds_suffixes d) domain.

Record DomainFilter := {
  df_blocked : DomainSet;
  df_allowed : DomainSet;
}.

Definition DomainFilter_is_blocked (f : DomainFilter) (domain : str) : bool :=
  DomainSet_matches (df_blocked f) domain && negb (DomainSet_matches (df_allowed f) domain).
Definition blocked_len (f : DomainFilter) : nat := DomainSet_len (df_blocked f).
Definition allowed_len (f : DomainFilter) : nat := DomainSet_len (df_allowed f).

(** ** Normalised names *)

(** What every accepted name satisfies. *)
Definition name_wf (s : str) : Prop :=
  1 ≤ length s ≤ MAX_DOMAIN_LENGTH ∧ is_ascii s = true ∧ to_ascii_lowercase s = s
  ∧ Forall (λ l, 1 ≤ length l ≤ 63) (split_on x2e s).

Lemma bad_name_false s :
  bad_name s = false ↔
  1 ≤ length s ≤ MAX_DOMAIN_LENGTH ∧ is_ascii s = true
  ∧ Forall (λ l, 1 ≤ length l ≤ 63) (split_on x2e s).
Proof.
  unfold bad_name. rewrite !orb_false_iff, negb_false_iff, Nat.eqb_neq, Nat.ltb_ge.
  rewrite Forall_forall, <- not_true_iff_false, existsb_exists.
  split.
  - intros [[[H1 H2] H3] H4]. split_and!; [lia|lia|done|]. intros l Hl.
    destruct (decide (1 ≤ length l ≤ 63)); [done|]. exfalso.
    apply H4. exists l. split; [by apply list_elem_of_In|].
    destruct (length l =? 0) eqn:E; [done|]. bool_to_prop. cbn [orb]. apply Nat.ltb_lt. lia.
  - intros (H1 & H3 & H4). split_and!; [lia|lia|done|].
    intros (l & Hl%list_elem_of_In & Hb). apply H4 in Hl.
    apply orb_true_iff in Hb as [Hb|Hb]; bool_to_prop; lia.
Qed.

(** Names with non-empty labels neither start nor end with a dot. *)
Lemma labels_no_edge_dot s :
  Forall (λ l, 1 ≤ length l ≤ 63) (split_on x2e s) → head s ≠ Some x2e ∧ last s ≠ Some x2e.
Proof.
  intros H. split; intros E.
  - destruct s as [|b s]; [done|]. cbn in E. injection E as ->. cbn in H.
    inversion H as [|? ? Hl]; subst. cbn in Hl. lia.
  - apply last_Some in E as [r ->].
    assert (∃ ls, split_on x2e (r ++ [x2e]) = ls ++ [[]]) as [ls Els].
    { clear. induction r as [|b r [ls IH]]; [by exists [[]]|]. cbn.
      case_bool_decide; [exists ([] :: ls); by rewrite IH|].
      rewrite IH. destruct ls as [|l ls]; [|by exists ((b :: l) :: ls)].
      exfalso. destruct r as [|b' r]; cbn in IH; [done|].
      repeat case_match; try done; simplify_eq.
      match goal with H : split_on _ _ = [] |- _ => by apply split_on_ne_nil in H end. }
    rewrite Els in H. apply Forall_app in H as [_ H]. inversion H as [|? ? Hl]; subst. cbn in Hl. lia.
Qed.

Lemma normalize_domain_ok s n :
  normalize_domain s = Ok n ↔ n = to_ascii_lowercase (trim_matches x2e s) ∧ name_wf n.
Proof.
  unfold normalize_domain, name_wf. destruct (bad_name _) eqn:E.
  - split; [done|]. intros (-> & H1 & H2 & _ & H3).
    rewrite (proj2 (bad_name_false _)) in E; done.
  - apply bad_name_false in E as (? & ? & ?). split.
    + intros [= <-]. split_and!; try done; try lia. by rewrite lower_idem.
    + by intros (-> & _).
Qed.

Lemma normalize_domain_id s : name_wf s → normalize_domain s = Ok s.
Proof.
  intros Hs. apply normalize_domain_ok. destruct Hs as (? & ? & Hlow & Hl).
  destruct (labels_no_edge_dot s Hl). rewrite trim_matches_id by done. by rewrite Hlow.
Qed.

Lemma collect_results_ok {E A B} (f : A → result E B) l bs :
  collect_results f l = Ok bs ↔ Forall2 (λ a b, f a = Ok b) l bs.
Proof.
  revert bs; induction l as [|a l IH]; intros bs; cbn.
  - split; [intros [= <-]; constructor|]. by inversion 1.
  - split.
    + intros H. inv_ok. subst. constructor; [done|by apply IH].
    + inversion 1 as [|? b ? bs' Ha Hl]; subst. rewrite Ha; cbn.
      rewrite (proj2 (IH bs')) by done. done.
Qed.

(** ** The tails the suffix loop visits *)

(** [n] is [d] or [d] without some leading labels. *)
Definition label_suffix (n d : str) : Prop := d = n ∨ ∃ p, d = p ++ x2e :: n.

Lemma matches_loop_spec fuel suffixes c :
  StronglySorted str_le suffixes → length c < fuel →
  matches_loop fuel suffixes c = true ↔ ∃ n, n ∈ suffixes ∧ label_suffix n c.
Proof.
  intros Hs. revert c. induction fuel as [|fuel IH]; intros c Hf; [lia|]. cbn.
  destruct (binary_search_ok suffixes c) eqn:Eb.
  - apply binary_search_ok_spec in Eb; [|done]. split; [|done]. intros _.
    exists c. split; [done|by left].
  - assert (c ∉ suffixes) as Hc.
    { intros H%(proj2 (binary_search_ok_spec suffixes c Hs)). congruence. }
    destruct (find_byte x2e c) as [dot|] eqn:Ef.
    + apply find_byte_Some in Ef as (r & Er & Hnot & Hlt).
      assert (drop (dot + 1) c = r) as Hr.
      { rewrite Er at 1. rewrite <- drop_drop, drop_app_length' by (rewrite length_take; lia).
        done. }
      rewrite Hr. rewrite IH by (apply (f_equal length) in Hr; rewrite length_drop in Hr; lia).
      split.
      * intros (n & Hn & [->|[p ->]]); exists n; (split; [done|right]).
        -- by exists (take dot c).
        -- exists (take dot c ++ x2e :: p). by rewrite Er at 1; rewrite <- app_assoc.
      * intros (n & Hn & [->|[p Hp]]); [done|]. exists n. split; [done|].
        rewrite Er in Hp. destruct (decide (p = take dot c)) as [->|Hne].
        -- apply app_inv_head in Hp. injection Hp as ->. by left.
        -- right. apply app_eq_app in Hp as (k & [[Hk1 Hk2]|[Hk1 Hk2]]).
           ++ destruct k as [|b k]; [exfalso; apply Hne; by rewrite app_nil_r in Hk1|].
              injection Hk2 as <- Hk2. exfalso. apply Hnot. rewrite Hk1. set_solver.
           ++ destruct k as [|b k]; [exfalso; apply Hne; by rewrite app_nil_r in Hk1|].
              injection Hk2 as <- Hk2. by exists k.
    + apply find_byte_None in Ef. split; [done|].
      intros (n & Hn & [->|[p ->]]); [done|]. exfalso. apply Ef. set_solver.
Qed.

Lemma collect_normalize_elem l ns n :
  collect_results normalize_domain l = Ok ns →
  n ∈ ns ↔ ∃ e, e ∈ l ∧ normalize_domain e = Ok n.
Proof.
  intros H%collect_results_ok. split.
  - intros [i Hi]%list_elem_of_lookup_1.
    destruct (Forall2_lookup_r _ _ _ _ _ H Hi) as (e & He & Hn).
    exists e. split; [by eapply list_elem_of_lookup_2|done].
  - intros (e & [i Hi]%list_elem_of_lookup_1 & He).
    destruct (Forall2_lookup_l _ _ _ _ _ H Hi) as (n' & Hn' & E). simplify_eq.
    rewrite He in E. injection E as ->. by eapply list_elem_of_lookup_2.
Qed.

(** The invariant of a compiled set: both vectors sorted, without
    duplicates, and holding normalised names only. *)
Definition domain_set_wf (d : DomainSet) : Prop :=
  ∀ l, l = ds_exact d ∨ l = ds_suffixes d →
    StronglySorted str_le l ∧ NoDup l ∧ Forall name_wf l.

Lemma compiled_vector_wf l ns :
  collect_results normalize_domain l = Ok ns →
  let v := dedup (sort_unstable ns) in
  StronglySorted str_le v ∧ NoDup v ∧ Forall name_wf v.
Proof.
  intros H. cbn. pose proof (sort_unstable_sorted ns). split_and!.
  - by apply dedup_sorted.
  - by apply dedup_NoDup.
  - apply Forall_forall. intros n. rewrite elem_of_dedup, elem_of_sort_unstable.
    rewrite (collect_normalize_elem l) by done. intros (e & _ & He).
    by apply normalize_domain_ok in He as [_ ?].
Qed.

Lemma DomainSet_compile_ok exact suffixes d :
  DomainSet_compile exact suffixes = Ok d →
  domain_set_wf d
  ∧ (∀ n, n ∈ ds_exact d ↔ ∃ e, e ∈ exact ∧ normalize_domain e = Ok n)
  ∧ (∀ n, n ∈ ds_suffixes d ↔ ∃ e, e ∈ suffixes ∧ normalize_domain e = Ok n).
Proof.
  unfold DomainSet_compile. intros H. inv_ok. subst d.
  split_and!.
  - intros l [->| ->]; by eapply compiled_vector_wf.
  - intros n. cbn. rewrite elem_of_dedup, elem_of_sort_unstable. by apply collect_normalize_elem.
  - intros n. cbn. rewrite elem_of_dedup, elem_of_sort_unstable. by apply collect_normalize_elem.
Qed.

Lemma DomainSet_matches_wf d domain :
  domain_set_wf d →
  DomainSet_matches d domain = true ↔
  let q := trim_end_matches x2e domain in
  1 ≤ length q ≤ MAX_DOMAIN_LENGTH ∧ is_ascii q = true
  ∧ (q ∈ ds_exact d ∨ ∃ n, n ∈ ds_suffixes d ∧ label_suffix n q).
Proof.
  intros Hwf. destruct (Hwf _ (or_introl eq_refl)) as (He & _ & _).
  destruct (Hwf _ (or_intror eq_refl)) as (Hsuf & _ & _).
  cbn zeta. unfold DomainSet_matches. set (q := trim_end_matches x2e domain).
  destruct (_ || _ || _) eqn:E.
  - split; [done|]. intros (H1 & H2 & _). exfalso.
    rewrite !orb_true_iff, negb_true_iff in E. destruct E as [[E|E]|E]; bool_to_prop; try lia. congruence.
  - bool_to_prop. destruct (binary_search_ok (ds_exact d) q) eqn:Eb.
    + apply binary_search_ok_spec in Eb; [|done]. split; [|done]. intros _.
      split_and!; [lia|lia|done|by left].
    + rewrite matches_loop_spec by (done || lia).
      assert (q ∉ ds_exact d) by (intros Hq%(proj2 (binary_search_ok_spec _ q He)); congruence).
      split; [|naive_solver]. intros Hn. split_and!; [lia|lia|done|by right].
Qed.

(** C25. A compiled domain set answers membership exactly as its source lists
    say: the query, without trailing dots, is a bounded ASCII name that equals
    the normal form of some exact entry, or equals the normal form of some
    suffix entry or ends with a dot followed by it. Sorting, deduplication and
    binary search change nothing, and [badexample.com] never matches the
    suffix [example.com]. *)
Theorem domain_set_matches_spec exact suffixes d domain :
  DomainSet_compile exact suffixes = Ok d →
  DomainSet_matches d domain = true ↔
  let q := trim_end_matches x2e domain in
  1 ≤ length q ≤ MAX_DOMAIN_LENGTH ∧ is_ascii q = true
  ∧ ((∃ e, e ∈ exact ∧ normalize_domain e = Ok q)
     ∨ ∃ e n, e ∈ suffixes ∧ normalize_domain e = Ok n ∧ label_suffix n q).
Proof.
  intros (Hwf & He & Hs)%DomainSet_compile_ok. rewrite DomainSet_matches_wf by done.
  cbn zeta. rewrite He. setoid_rewrite Hs. naive_solver.
Qed.

Lemma domain_set_matches_spec_witness :
  ∃ d, DomainSet_compile [ #"EXAMPLE.com." ] [ #"Ads.Example" ] = Ok d
    ∧ (DomainSet_matches d (#"x.ads.example") = true ↔
       let q := trim_end_matches x2e (#"x.ads.example") in
       1 ≤ length q ≤ MAX_DOMAIN_LENGTH ∧ is_ascii q = true
       ∧ ((∃ e, e ∈ [ #"EXAMPLE.com." ] ∧ normalize_domain e = Ok q)
          ∨ ∃ e n, e ∈ [ #"Ads.Example" ] ∧ normalize_domain e = Ok n ∧ label_suffix n q)).
Proof.
  eexists. split; [vm_compute; reflexivity|].
  apply domain_set_matches_spec. vm_compute. reflexivity.
Defined.

(** Every hit is lower case: an upper-case spelling of a listed name is not
    found, although DNS names are compared without case. *)
Lemma domain_set_matches_lower d domain :
  domain_set_wf d → DomainSet_matches d domain = true →
  ∃ n q, (n ∈ ds_exact d ∨ n ∈ ds_suffixes d) ∧ to_ascii_lowercase n = n
         ∧ q = trim_end_matches x2e domain ∧ label_suffix n q.
Proof.
  intros Hwf (_ & _ & [H|(n & Hn & Hl)])%DomainSet_matches_wf; [| |done].
  - exists (trim_end_matches x2e domain), (trim_end_matches x2e domain).
    destruct (Hwf _ (or_introl eq_refl)) as (_ & _ & Hw). rewrite Forall_forall in Hw.
    split_and!; [by left|by destruct (Hw _ H) as (_ & _ & ? & _)|done|by left].
  - exists n, (trim_end_matches x2e domain).
    destruct (Hwf _ (or_intror eq_refl)) as (_ & _ & Hw). rewrite Forall_forall in Hw.
    split_and!; [by right|by destruct (Hw _ Hn) as (_ & _ & ? & _)|done|done].
Qed.

Lemma DomainSet_compile_no_panic exact suffixes : no_panic (DomainSet_compile exact suffixes).
Proof.
  assert (∀ l, no_panic (collect_results normalize_domain l)) as H.
  { induction l as [|a l IH]; cbn; [done|]. apply bind_no_panic; [unfold normalize_domain; by case_match|intros].
    by apply bind_no_panic. }
  unfold DomainSet_compile. by repeat (apply bind_no_panic; [apply H|intros]).
Qed.
