(* ===== verification/Policy.v ===== *)
(** * Policy engine and runtime ([core/src/policy.rs], [core/src/runtime.rs])

    Typed matchers over flows, the tiered first-match engine and the
    translation of its decision into an execution plan. The contract is
    ADR-0003: authority tier before rule order, first match inside a tier. *)

From S2P Require Import Prelude RustStr RustNet Flow Cidr DomainSet.

Abbreviation RuleId := Z.

Inductive PolicyTier := UserHard | Safety | Compatibility | Adaptive | DefaultTier.

Definition rank (t : PolicyTier) : nat :=
  match t with
  | UserHard => 0
  | Safety => 1
  | Compatibility => 2
  | Adaptive => 3
  | DefaultTier => 4
  end.

Inductive Matcher :=
| MAny
| MUid (uid : Z)
| MPackage (package : str)
| MDomainExact (expected : str)
| MDomainSuffix (suffix : str)
| MDomainFilter (filter : DomainFilter)
| MIp (expected : IpAddr)
| MCidr (cidr : IpCidr)
| MPort (port : Z)
| MTransport (protocol : TransportProtocol)
| MNetwork (kind : NetworkKind)
| MAll (matchers : list Matcher)
| MAnyOf (matchers : list Matcher)
| MNot (matcher : Matcher).

(** [str::is_char_boundary], [str::get(i..)] *)
Definition is_char_boundary (s : str) (i : nat) : bool :=
  if i =? 0 then true
  else match s !! i with
       | Some b => negb (is_cont b)
       | None => i =? length s
       end.
Definition str_get_from (s : str) (i : nat) : option str :=
  if is_char_boundary s i then Some (drop i s) else None.

Definition domain_matches_suffix (domain suffix : str) : bool :=
  let domain := trim_end_matches x2e domain in
  let suffix := trim_matches x2e suffix in
  if length suffix =? 0 then false
  else if eq_ignore_ascii_case domain suffix then true
  else match checked_add (length suffix) 1 with
  | None => false
  | Some required_len =>
      if length domain <? required_len then false
      else
        let prefix_len := length domain - required_len in
        is_char_boundary domain prefix_len
        && bool_decide (domain !! prefix_len = Some x2e)
        && match str_get_from domain (prefix_len + 1) with
           | Some tail => eq_ignore_ascii_case tail suffix
           | None => false
           end
  end.

Fixpoint matcher_matches (m : Matcher) (flow : FlowContext) : bool :=
  match m with
  | MAny => true
  | MUid uid => bool_decide (source_uid (flow_source flow) = Some uid)
  | MPackage package =>
      match source_package (flow_source flow) with
      | Some value => bool_decide (value = package)
      | None => false
      end
  | MDomainExact expected =>
      match dest_host (flow_destination flow) with
      | Domain domain => eq_ignore_ascii_case domain expected
      | Ip _ => false
      end
  | MDomainSuffix suffix =>
      match dest_host (flow_destination flow) with
      | Domain domain => domain_matches_suffix domain suffix
      | Ip _ => false
      end
  | MDomainFilter filter =>
      match dest_host (flow_destination flow) with
      | Domain domain => DomainFilter_is_blocked filter domain
      | Ip _ => false
      end
  | MIp expected =>
      match dest_host (flow_destination flow) with
      | Ip actual => bool_decide (actual = expected)
      | Domain _ => false
      end
  | MCidr cidr =>
      match dest_host (flow_destination flow) with
      | Ip actual => cidr_contains cidr actual
      | Domain _ => false
      end
  | MPort port => (dest_port (flow_destination flow) =? port)%Z
  | MTransport protocol => bool_decide (flow_transport flow = protocol)
  | MNetwork kind => bool_decide (net_kind (flow_network flow) = kind)
  | MAll matchers => forallb (λ m, matcher_matches m flow) matchers
  | MAnyOf matchers => existsb (λ m, matcher_matches m flow) matchers
  | MNot m => negb (matcher_matches m flow)
  end.

Inductive PolicyAction :=
| PRoute (endpoint : Endpoint)
| PReject (reason : RejectReason).

Record PolicyRule := {
  rule_id : RuleId;
  rule_tier : PolicyTier;
  rule_matcher : Matcher;
  rule_action : PolicyAction;
}.

Record PolicyDecision := {
  decision_rule_id : option RuleId;
  decision_tier : PolicyTier;
  decision_action : PolicyAction;
}.

Record PolicyEngine := {
  engine_rules : list PolicyRule;
  engine_default_action : PolicyAction;
}.

(** [sort_by_key] is stable; insertion before the first rule of an equal or
    higher rank, from the right, is the stable sort. *)
Fixpoint insert_rule (r : PolicyRule) (l : list PolicyRule) : list PolicyRule :=
  match l with
  | [] => [r]
  | r' :: l' =>
      if rank (rule_tier r) <=? rank (rule_tier r') then r :: l else r' :: insert_rule r l'
  end.
Definition sort_by_rank (l : list PolicyRule) : list PolicyRule := foldr insert_rule [] l.

Definition PolicyEngine_new (rules : list PolicyRule) (default_action : PolicyAction) : PolicyEngine :=
  {| engine_rules := sort_by_rank rules; engine_default_action := default_action |}.

Definition rule_decision (rule : PolicyRule) : PolicyDecision :=
  {| decision_rule_id := Some (rule_id rule); decision_tier := rule_tier rule;
     decision_action := rule_action rule |}.

Definition PolicyEngine_decide (e : PolicyEngine) (flow : FlowContext) : PolicyDecision :=
  match List.find (λ rule, matcher_matches (rule_matcher rule) flow) (engine_rules e) with
  | Some rule => rule_decision rule
  | None => {| decision_rule_id := None; decision_tier := DefaultTier;
               decision_action := engine_default_action e |}
  end.

(** ** [runtime.rs] *)
Record ExecutionPlan := {
  plan_flow_id : FlowId;
  plan_execution : ExecutionAction;
  plan_matched_rule : option RuleId;
  plan_tier : PolicyTier;
}.

Record Runtime := { runtime_policy : PolicyEngine }.
Definition Runtime_new (policy : PolicyEngine) : Runtime := {| runtime_policy := policy |}.

Definition Runtime_plan (rt : Runtime) (flow : FlowContext) : ExecutionPlan :=
  let decision := PolicyEngine_decide (runtime_policy rt) flow in
  {| plan_flow_id := flow_id flow;
     plan_execution := match decision_action decision with
                    | PRoute endpoint => Route endpoint
                    | PReject reason => Reject reason
                    end;
     plan_matched_rule := decision_rule_id decision;
     plan_tier := decision_tier decision |}.

(** ** Specification of the engine: tier first, then source order *)
Definition rule_matches (flow : FlowContext) (r : PolicyRule) : bool :=
  matcher_matches (rule_matcher r) flow.
Definition rule_rank (r : PolicyRule) : nat := rank (rule_tier r).

(** Rule [i] of the source list has authority over every other rule that
    matches the flow. *)
Definition governs (rules : list PolicyRule) (flow : FlowContext) (i : nat) (r : PolicyRule) : Prop :=
  rules !! i = Some r ∧ rule_matches flow r = true ∧
  ∀ j r', rules !! j = Some r' → rule_matches flow r' = true →
    rule_rank r < rule_rank r' ∨ (rule_rank r = rule_rank r' ∧ i ≤ j).

(** ** Lemmas *)
Definition ranked (l : list PolicyRule) : Prop :=
  StronglySorted (λ r r', rule_rank r ≤ rule_rank r') l.

Lemma elem_of_insert_rule r x l : x ∈ insert_rule r l ↔ x = r ∨ x ∈ l.
Proof.
  induction l as [|r' l IH]; cbn; [set_solver|].
  case_match; [set_solver|]. rewrite !elem_of_cons, IH. naive_solver.
Qed.

Lemma insert_rule_ranked r l : ranked l → ranked (insert_rule r l).
Proof.
  unfold ranked. induction 1 as [|r' l Hl IH Hr']; cbn; [repeat constructor|].
  destruct (rank (rule_tier r) <=? rank (rule_tier r')) eqn:E; bool_to_prop.
  - constructor; [by constructor|]. constructor; [done|].
    eapply Forall_impl; [done|]. cbn. unfold rule_rank in *. intros; lia.
  - constructor; [done|]. apply Forall_forall. intros x [->|Hx]%elem_of_insert_rule.
    + unfold rule_rank. lia.
    + rewrite Forall_forall in Hr'. by apply Hr'.
Qed.

Lemma sort_by_rank_ranked l : ranked (sort_by_rank l).
Proof. induction l; cbn; [constructor|by apply insert_rule_ranked]. Qed.

(** The first match of the stable sort, one source rule at a time. *)
Definition pick (flow : FlowContext) (r : PolicyRule) (o : option PolicyRule) : option PolicyRule :=
  if rule_matches flow r then
    match o with
    | Some r' => if rule_rank r <=? rule_rank r' then Some r else Some r'
    | None => Some r
    end
  else o.

Lemma find_insert_rule flow r l :
  ranked l →
  List.find (rule_matches flow) (insert_rule r l) = pick flow r (List.find (rule_matches flow) l).
Proof.
  unfold pick. induction 1 as [|r' l Hl IH Hr']; cbn; [done|].
  fold (rule_rank r) (rule_rank r').
  destruct (rule_rank r <=? rule_rank r') eqn:E; cbn.
  - destruct (rule_matches flow r) eqn:Em; [|done].
    destruct (rule_matches flow r') eqn:Em'; [by rewrite E|].
    destruct (List.find (rule_matches flow) l) as [r''|] eqn:Ef; [|done].
    apply find_some in Ef as [Hin%list_elem_of_In _]. bool_to_prop.
    rewrite Forall_forall in Hr'. apply Hr' in Hin.
    rewrite (proj2 (Nat.leb_le _ _)) by lia. done.
  - destruct (rule_matches flow r') eqn:Em'.
    + destruct (rule_matches flow r); [|done]. by rewrite E.
    + rewrite IH. done.
Qed.

Lemma find_sort_by_rank flow l :
  List.find (rule_matches flow) (sort_by_rank l) = foldr (pick flow) None l.
Proof.
  induction l as [|r l IH]; [done|].
  change (sort_by_rank (r :: l)) with (insert_rule r (sort_by_rank l)).
  rewrite find_insert_rule by apply sort_by_rank_ranked. by rewrite IH.
Qed.

Lemma governs_cons_ne flow r l i r' :
  governs l flow i r' →
  (rule_matches flow r = true → rule_rank r' < rule_rank r) →
  governs (r :: l) flow (S i) r'.
Proof.
  intros (Hi & Hm & Hmin) Hr. split_and!; [done..|].
  intros [|j] r'' Hj Hm''; cbn in Hj; simplify_eq; [left; auto|].
  destruct (Hmin j r'' Hj Hm''); [by left|right; lia].
Qed.

Lemma foldr_pick_governs flow l :
  match foldr (pick flow) None l with
  | Some r => ∃ i, governs l flow i r
  | None => Forall (λ r, rule_matches flow r = false) l
  end.
Proof.
  induction l as [|r l IH]; cbn; [constructor|].
  unfold pick at 1. destruct (rule_matches flow r) eqn:Em.
  - destruct (foldr (pick flow) None l) as [r'|].
    + destruct IH as [i Hg]. destruct (rule_rank r <=? rule_rank r') eqn:E; bool_to_prop.
      * exists 0. split_and!; [done..|]. intros [|j] r'' Hj Hm''; cbn in Hj; simplify_eq; [right; lia|].
        destruct Hg as (_ & _ & Hmin). destruct (Hmin j r'' Hj Hm''); [left; lia|].
        destruct (decide (rule_rank r = rule_rank r'')); [right; lia|left; lia].
      * exists (S i). by apply governs_cons_ne.
    + exists 0. split_and!; [done..|]. intros [|j] r'' Hj Hm''; cbn in Hj; simplify_eq; [right; lia|].
      rewrite Forall_forall in IH. apply list_elem_of_lookup_2, IH in Hj. congruence.
  - destruct (foldr (pick flow) None l) as [r'|].
    + destruct IH as [i Hg]. exists (S i). apply governs_cons_ne; [done|]. congruence.
    + by constructor.
Qed.

(** Two governing rules are the same rule: the specification is a function. *)
Lemma governs_unique rules flow i j r r' :
  governs rules flow i r → governs rules flow j r' → i = j ∧ r = r'.
Proof.
  intros (Hi & Hm & Hmin) (Hj & Hm' & Hmin').
  destruct (Hmin _ _ Hj Hm'), (Hmin' _ _ Hi Hm); try lia.
  assert (i = j) as -> by lia. by simplify_eq.
Qed.

Lemma decide_find rules default flow :
  PolicyEngine_decide (PolicyEngine_new rules default) flow =
  match foldr (pick flow) None rules with
  | Some r => rule_decision r
  | None => {| decision_rule_id := None; decision_tier := DefaultTier; decision_action := default |}
  end.
Proof.
  unfold PolicyEngine_decide; cbn [engine_rules PolicyEngine_new engine_default_action].
  change (λ rule, matcher_matches (rule_matcher rule) flow) with (rule_matches flow).
  by rewrite find_sort_by_rank.
Qed.

Lemma governs_decide rules default flow i r :
  governs rules flow i r → PolicyEngine_decide (PolicyEngine_new rules default) flow = rule_decision r.
Proof.
  intros Hg. rewrite decide_find. pose proof (foldr_pick_governs flow rules) as H.
  destruct (foldr _ _ _) as [r'|].
  - destruct H as [j Hg']. by destruct (governs_unique _ _ _ _ _ _ Hg Hg') as [_ ->].
  - destruct Hg as (Hi & Hm & _). rewrite Forall_forall in H.
    apply list_elem_of_lookup_2, H in Hi. congruence.
Qed.

(** C4. The engine decides by authority: the decision is that of a matching
    rule whose tier is the strongest among all matching rules and which comes
    first in the source among those of its tier; with no matching rule it is
    the default action at the default tier. *)
Theorem decide_governs rules default flow :
  (∃ i r, governs rules flow i r
     ∧ PolicyEngine_decide (PolicyEngine_new rules default) flow = rule_decision r)
  ∨ (Forall (λ r, rule_matches flow r = false) rules
     ∧ PolicyEngine_decide (PolicyEngine_new rules default) flow
       = {| decision_rule_id := None; decision_tier := DefaultTier; decision_action := default |}).
Proof.
  rewrite decide_find. pose proof (foldr_pick_governs flow rules) as H.
  destruct (foldr _ _ _) as [r|]; [left|right; done].
  destruct H as [i Hg]. by exists i, r.
Qed.

Lemma governs_weaken l1 extra l2 flow i r :
  governs (l1 ++ l2) flow i r →
  Forall (λ r', rule_rank r < rule_rank r') extra →
  ∃ k, governs (l1 ++ extra ++ l2) flow k r.
Proof.
  intros (Hi & Hm & Hmin) Hex. destruct (decide (i < length l1)) as [Hlt|Hge].
  - rewrite lookup_app_l in Hi by done. exists i. split_and!; [by rewrite lookup_app_l|done|].
    intros j r' Hj Hm'. apply lookup_app_Some in Hj as [Hj|[Hl Hj]].
    + apply (Hmin j r'); [by rewrite lookup_app_l by (by eapply lookup_lt_Some)|done].
    + apply lookup_app_Some in Hj as [Hj|[Hl' Hj]].
      * left. rewrite Forall_forall in Hex. by eapply Hex, list_elem_of_lookup_2.
      * destruct (Hmin (length l1 + (j - length l1 - length extra)) r'); [|done|by left|right; lia].
        rewrite lookup_app_r by lia. rewrite <- Hj. f_equal. lia.
  - rewrite lookup_app_r in Hi by lia. exists (i + length extra). split_and!; [|done|].
    { rewrite !lookup_app_r by lia. rewrite <- Hi. f_equal. lia. }
    intros j r' Hj Hm'. apply lookup_app_Some in Hj as [Hj|[Hl Hj]].
    + pose proof (lookup_lt_Some _ _ _ Hj).
      destruct (Hmin j r'); [by rewrite lookup_app_l|done|by left|right; lia].
    + apply lookup_app_Some in Hj as [Hj|[Hl' Hj]].
      * left. rewrite Forall_forall in Hex. by eapply Hex, list_elem_of_lookup_2.
      * destruct (Hmin (length l1 + (j - length l1 - length extra)) r'); [|done|by left|right; lia].
        rewrite lookup_app_r by lia. rewrite <- Hj. f_equal. lia.
Qed.

(** Weaker authority cannot change a decision (ADR-0003): once a rule
    governs a flow, inserting any number of rules of strictly weaker tiers,
    anywhere in the rule list and whatever they match, leaves the execution
    plan of that flow unchanged. *)
Theorem weaker_rules_do_not_interfere l1 extra l2 default flow i r :
  governs (l1 ++ l2) flow i r →
  Forall (λ r', rule_rank r < rule_rank r') extra →
  Runtime_plan (Runtime_new (PolicyEngine_new (l1 ++ extra ++ l2) default)) flow
  = Runtime_plan (Runtime_new (PolicyEngine_new (l1 ++ l2) default)) flow.
Proof.
  intros Hg Hex. destruct (governs_weaken _ _ _ _ _ _ Hg Hex) as [k Hk].
  unfold Runtime_plan; cbn [runtime_policy Runtime_new].
  by rewrite (governs_decide _ default _ _ _ Hg), (governs_decide _ default _ _ _ Hk).
Qed.

(** A hard reject stays a reject when an adaptive rule that routes everything
    is learned in front of it. *)
Definition sample_flow (host : DestinationHost) : FlowContext :=
  FlowContext_new 7 SourceContext_default {| dest_host := host; dest_port := 443 |} Tcp
    NetworkContext_default.
Definition hard_reject : PolicyRule :=
  {| rule_id := 2; rule_tier := UserHard; rule_matcher := MPort 443; rule_action := PReject RejectPolicy |}.
Definition adaptive_direct : PolicyRule :=
  {| rule_id := 1; rule_tier := Adaptive; rule_matcher := MAny; rule_action := PRoute Direct |}.

Lemma weaker_rules_do_not_interfere_witness :
  plan_execution (Runtime_plan (Runtime_new (PolicyEngine_new [hard_reject] (PRoute Direct)))
                 (sample_flow (Domain (#"example.com")))) = Reject RejectPolicy
  ∧ Runtime_plan (Runtime_new (PolicyEngine_new ([] ++ [adaptive_direct] ++ [hard_reject]) (PRoute Direct)))
      (sample_flow (Domain (#"example.com")))
    = Runtime_plan (Runtime_new (PolicyEngine_new ([] ++ [hard_reject]) (PRoute Direct)))
        (sample_flow (Domain (#"example.com"))).
Proof.
  split; [vm_compute; reflexivity|].
  apply (weaker_rules_do_not_interfere [] [adaptive_direct] [hard_reject] _ _ 0 hard_reject).
  - split_and!; [reflexivity|vm_compute; reflexivity|].
    intros [|[|j]] r' Hj _; cbn in Hj; [right; injection Hj as <-; split; [reflexivity|lia]|discriminate..].
  - constructor; [cbn; lia|constructor].
Defined.

(** ** Suffix matching *)

(** The boundary tests of [domain_matches_suffix] never reject a real match:
    the byte after a dot starts a character of the suffix. *)
Lemma suffix_tail_boundary q t n suffix m :
  q = m ++ x2e :: t → utf8_valid suffix = true → n = trim_matches x2e suffix → n ≠ [] →
  to_ascii_lowercase t = to_ascii_lowercase n →
  is_char_boundary q (length m) = true ∧ str_get_from q (length m + 1) = Some t.
Proof.
  intros -> Hv -> Hne Hl.
  assert (is_char_boundary (m ++ x2e :: t) (length m) = true) as Hb.
  { unfold is_char_boundary. case_match; [done|]. by rewrite list_lookup_middle. }
  split; [done|]. unfold str_get_from, is_char_boundary.
  rewrite (proj2 (Nat.eqb_neq _ _)) by lia.
  assert ((m ++ x2e :: t) !! (length m + 1) = head t) as ->.
  { rewrite lookup_app_r by lia. by replace (length m + 1 - length m) with 1 by lia; destruct t. }
  assert (drop (length m + 1) (m ++ x2e :: t) = t) as ->.
  { rewrite <- drop_drop, drop_app_length. done. }
  destruct (trim_matches x2e suffix) as [|b r] eqn:En; [done|].
  destruct t as [|c t]; [done|]. cbn. injection Hl as Hc _.
  destruct (trim_matches_spec x2e suffix) as (k & k' & Hs & _). rewrite En in Hs.
  rewrite Hs, utf8_valid_replicate in Hv by done. apply utf8_valid_head in Hv.
  by rewrite (is_cont_lower c b), Hv.
Qed.

(** Suffix matchers respect label boundaries and ignore ASCII case: for a
    well-formed UTF-8 suffix, a domain matches exactly when the suffix,
    without surrounding dots, is not empty and equals (up to case) the domain
    without trailing dots or what follows one of its dots. *)
Lemma suffix_spec domain suffix :
  utf8_valid suffix = true → (Z.of_nat (length suffix) < 2 ^ 63)%Z →
  domain_matches_suffix domain suffix = true ↔
  let q := trim_end_matches x2e domain in
  let n := trim_matches x2e suffix in
  n ≠ [] ∧ ∃ t, label_suffix t q ∧ to_ascii_lowercase t = to_ascii_lowercase n.
Proof.
  intros Hv Hlen. cbn zeta. unfold domain_matches_suffix.
  set (q := trim_end_matches x2e domain). set (n := trim_matches x2e suffix).
  pose proof (length_trim_matches x2e suffix) as Hln. fold n in Hln.
  destruct (length n =? 0) eqn:En; bool_to_prop.
  { apply nil_length_inv in En. naive_solver. }
  assert (n ≠ []) as Hne by (by intros ->).
  destruct (eq_ignore_ascii_case q n) eqn:Eq.
  { apply eq_ignore_ascii_case_true in Eq. split; [|done]. intros _. split; [done|].
    exists q. split; [by left|done]. }
  assert (to_ascii_lowercase q ≠ to_ascii_lowercase n) as Hqn.
  { intros H%eq_ignore_ascii_case_true. congruence. }
  rewrite checked_add_small by lia.
  destruct (length q <? length n + 1) eqn:El; bool_to_prop.
  - split; [done|]. intros (_ & t & [->|[p Hp]] & Ht); [done|].
    apply (f_equal length) in Ht, Hp. rewrite !length_lower in Ht. rewrite length_app in Hp.
    cbn in Hp. lia.
  - split.
    + intros [[_ Hdot]%andb_true_iff Htail]%andb_true_iff. bool_to_prop. split; [done|].
      unfold str_get_from in Htail. destruct (is_char_boundary q (_ + 1)); [|done].
      apply eq_ignore_ascii_case_true in Htail. eexists. split; [|done]. right.
      exists (take (length q - (length n + 1)) q).
      rewrite <- (take_drop_middle q _ _ Hdot) at 1. do 3 f_equal. lia.
    + intros (_ & t & [->|[p Hp]] & Ht); [done|].
      assert (length t = length n) as Hlt
        by (apply (f_equal length) in Ht; by rewrite !length_lower in Ht).
      assert (length q - (length n + 1) = length p) as ->.
      { rewrite Hp, length_app. cbn. lia. }
      destruct (suffix_tail_boundary q t n suffix p Hp Hv eq_refl Hne Ht) as [-> ->].
      rewrite Hp, list_lookup_middle by done. rewrite bool_decide_eq_true_2 by done. cbn.
      by apply eq_ignore_ascii_case_true.
Qed.
