(* ===== verification/Blocklist.v ===== *)
(** * Blocklist compiler ([compat/src/lib.rs])

    Hosts lines, plain domains and AdBlock domain rules compiled into a
    [DomainFilter], with the source accounting and the size guards. *)

From S2P Require Import Prelude RustStr RustNet DomainSet.

Definition MAX_BLOCKLIST_BYTES : Z := 8 * 1024 * 1024.
Definition MAX_BLOCKLIST_ENTRIES : Z := 250000.

Record BlocklistStats := {
  source_lines : nat;
  accepted_block : nat;
  accepted_allow : nat;
  ignored : nat;
}.
Definition BlocklistStats_default : BlocklistStats :=
  {| source_lines := 0; accepted_block := 0; accepted_allow := 0; ignored := 0 |}.

Record CompiledBlocklist := {
  cb_filter : DomainFilter;
  cb_stats : BlocklistStats;
}.

(** The line an error names; message text is not modelled. *)
Record BlocklistError := MkBlocklistError { be_line : option nat }.
Definition BlocklistError_global : BlocklistError := MkBlocklistError None.
Definition BlocklistError_at (line : nat) : BlocklistError := MkBlocklistError (Some line).

Inductive RuleKind := BlockExact | BlockSuffix | AllowSuffix.

Definition enforce_entry_limit (current line : nat) : result BlocklistError unit :=
  if (MAX_BLOCKLIST_ENTRIES <=? Z.of_nat current)%Z then Err (BlocklistError_at line) else Ok tt.

Definition is_localhost_alias (value : str) : bool :=
  eq_ignore_ascii_case value (#"localhost")
  || eq_ignore_ascii_case value (#"localhost.localdomain")
  || eq_ignore_ascii_case value (#"broadcasthost")
  || eq_ignore_ascii_case value (#"ip6-localhost")
  || eq_ignore_ascii_case value (#"ip6-loopback").

Definition parse_domain (value : str) (line : nat) : result BlocklistError str :=
  let value := to_ascii_lowercase (trim_matches x2e value) in
  if bad_name value then Err (BlocklistError_at line) else Ok value.

(** The host names of a hosts line: at most one that is not a local alias. *)
Fixpoint parse_hosts_fields (fields : list str) (line : nat) (accepted : option str)
    : result BlocklistError (option str) :=
  match fields with
  | [] => Ok accepted
  | host :: fields' =>
      if is_localhost_alias host then parse_hosts_fields fields' line accepted
      else match accepted with
           | Some _ => Err (BlocklistError_at line)
           | None => d ← parse_domain host line; parse_hosts_fields fields' line (Some d)
           end
  end.

(** [strip_prefix(p).and_then(|v| v.strip_suffix(q))] *)
Definition strip_both (p q value : str) : option str :=
  match strip_prefix p value with
  | Some rest => strip_suffix q rest
  | None => None
  end.

Definition parse_line (raw : str) (line : nat) : result BlocklistError (option (RuleKind * str)) :=
  let value := trim raw in
  if (length value =? 0) || starts_with (#"#") value || starts_with (#"!") value then Ok None
  else match strip_both (#"@@||") (#"^") value with
  | Some domain => d ← parse_domain domain line; Ok (Some (AllowSuffix, d))
  | None =>
  match strip_both (#"||") (#"^") value with
  | Some domain => d ← parse_domain domain line; Ok (Some (BlockSuffix, d))
  | None =>
      let before_comment := trim (before_first x23 value) in
      match split_whitespace before_comment with
      | [] => Ok None
      | first :: fields =>
          match parse_ip first with
          | Some _ =>
              accepted ← parse_hosts_fields fields line None;
              match accepted with
              | Some domain => Ok (Some (BlockExact, domain))
              | None => Ok None
              end
          | None =>
              match fields with
              | _ :: _ => Err (BlocklistError_at line)
              | [] => d ← parse_domain first line; Ok (Some (BlockExact, d))
              end
          end
      end
  end end.

Record BlocklistState := {
  blocked_exact : list str;
  blocked_suffix : list str;
  allowed_suffix : list str;
  bl_stats : BlocklistStats;
}.
Definition BlocklistState_init : BlocklistState :=
  {| blocked_exact := []; blocked_suffix := []; allowed_suffix := []; bl_stats := BlocklistStats_default |}.

Definition bl_entries (st : BlocklistState) : nat :=
  length (blocked_exact st) + length (blocked_suffix st) + length (allowed_suffix st).

(** One line of the compile loop. *)
Definition blocklist_step (st : BlocklistState) (line_number : nat) (raw : str)
    : result BlocklistError BlocklistState :=
  let s := bl_stats st in
  let counted b a i :=
    {| source_lines := source_lines s + 1; accepted_block := accepted_block s + b;
       accepted_allow := accepted_allow s + a; ignored := ignored s + i |} in
  parsed ← parse_line raw line_number;
  match parsed with
  | Some (BlockExact, domain) =>
      _ ← enforce_entry_limit (bl_entries st) line_number;
      Ok {| blocked_exact := blocked_exact st ++ [domain]; blocked_suffix := blocked_suffix st;
            allowed_suffix := allowed_suffix st; bl_stats := counted 1 0 0 |}
  | Some (BlockSuffix, domain) =>
      _ ← enforce_entry_limit (bl_entries st) line_number;
      Ok {| blocked_exact := blocked_exact st; blocked_suffix := blocked_suffix st ++ [domain];
            allowed_suffix := allowed_suffix st; bl_stats := counted 1 0 0 |}
  | Some (AllowSuffix, domain) =>
      _ ← enforce_entry_limit (bl_entries st) line_number;
      Ok {| blocked_exact := blocked_exact st; blocked_suffix := blocked_suffix st;
            allowed_suffix := allowed_suffix st ++ [domain]; bl_stats := counted 0 1 0 |}
  | None =>
      Ok {| blocked_exact := blocked_exact st; blocked_suffix := blocked_suffix st;
            allowed_suffix := allowed_suffix st; bl_stats := counted 0 0 1 |}
  end.

Fixpoint blocklist_loop (index : nat) (ls : list str) (st : BlocklistState)
    : result BlocklistError BlocklistState :=
  match ls with
  | [] => Ok st
  | raw_line :: ls' => st ← blocklist_step st (index + 1) raw_line; blocklist_loop (S index) ls' st
  end.

Definition compile_blocklist (text : str) : result BlocklistError CompiledBlocklist :=
  if (MAX_BLOCKLIST_BYTES <? Z.of_nat (length text))%Z then Err BlocklistError_global
  else
    st ← blocklist_loop 0 (lines text) BlocklistState_init;
    blocked ← map_err (λ _, BlocklistError_global)
                (DomainSet_compile (blocked_exact st) (blocked_suffix st));
    allowed ← map_err (λ _, BlocklistError_global) (DomainSet_compile [] (allowed_suffix st));
    Ok {| cb_filter := {| df_blocked := blocked; df_allowed := allowed |}; cb_stats := bl_stats st |}.

(** ** What the source lines say *)

(** The domain a field names: without outer dots, in lower case, 1 to 253
    ASCII bytes in labels of 1 to 63. *)
Definition domain_of (field d : str) : Prop := d = to_ascii_lowercase (trim_matches x2e field) ∧ name_wf d.

(** The names a hosts file gives to the machine itself. *)
Definition local_name (field : str) : Prop :=
  to_ascii_lowercase field ∈ [ #"localhost"; #"localhost.localdomain"; #"broadcasthost"; #"ip6-localhost"; #"ip6-loopback"].

(** A line that is neither a [!] comment nor an AdBlock rule, and its words up
    to a [#]. *)
Definition plain (raw : str) (words : list str) : Prop :=
  (∀ rest, trim raw ≠ #"!" ++ rest) ∧ (∀ name, trim raw ≠ #"@@||" ++ name ++ #"^") ∧ (∀ name, trim raw ≠ #"||" ++ name ++ #"^")
  ∧ words = split_whitespace (trim (before_first x23 (trim raw))).

(** The rule of a line: [@@||name^] allows a domain and everything under it,
    [||name^] blocks them, an address with one name that is not local blocks
    that name alone, and so does a single name. *)
Inductive line_says (raw : str) : RuleKind → str → Prop :=
| says_allow name d : trim raw = #"@@||" ++ name ++ #"^" → domain_of name d → line_says raw AllowSuffix d
| says_block name d : trim raw = #"||" ++ name ++ #"^" → domain_of name d → line_says raw BlockSuffix d
| says_hosts ip before name after d :
    plain raw (ip :: before ++ name :: after) → is_Some (parse_ip ip) →
    Forall local_name (before ++ after) → ¬ local_name name → domain_of name d → line_says raw BlockExact d
| says_name name d : plain raw [name] → parse_ip name = None → domain_of name d → line_says raw BlockExact d.

(** A line without a rule: blank, a comment, or an address with local names. *)
Inductive line_void (raw : str) : Prop :=
| void_note rest : trim raw = #"!" ++ rest → line_void raw
| void_blank : plain raw [] → line_void raw
| void_local ip names : plain raw (ip :: names) → is_Some (parse_ip ip) → Forall local_name names → line_void raw.

(** Some line of the source carries the rule. *)
Definition has_rule (ls : list str) (k : RuleKind) (d : str) : Prop := ∃ raw, raw ∈ ls ∧ line_says raw k d.

Definition line_read (raw : str) : Prop := (∃ k d, line_says raw k d) ∨ line_void raw.

(** ** Lemmas *)
Lemma parse_domain_ok v line d : parse_domain v line = Ok d → normalize_domain v = Ok d ∧ name_wf d.
Proof.
  unfold parse_domain. intros H.
  assert (normalize_domain v = Ok d) as Hn by (unfold normalize_domain; case_match; [done|]; by simplify_eq).
  split; [done|]. by apply normalize_domain_ok in Hn as [_ ?].
Qed.

Lemma parse_domain_iff v line d : parse_domain v line = Ok d ↔ domain_of v d.
Proof.
  unfold domain_of. rewrite <- normalize_domain_ok. unfold parse_domain, normalize_domain. case_match; naive_solver.
Qed.

Lemma is_localhost_alias_iff v : is_localhost_alias v = true ↔ local_name v.
Proof.
  unfold is_localhost_alias, local_name. rewrite !orb_true_iff, !eq_ignore_ascii_case_true, !elem_of_cons, elem_of_nil.
  rewrite !(eq_comm (to_ascii_lowercase v)). vm_compute (to_ascii_lowercase (#"localhost")). tauto.
Qed.

Lemma parse_hosts_fields_accepted fields line a d :
  parse_hosts_fields fields line (Some a) = Ok (Some d) ↔ d = a ∧ Forall local_name fields.
Proof.
  induction fields as [|h fields IH]; cbn; [rewrite Forall_nil; naive_solver|]. rewrite Forall_cons, <- is_localhost_alias_iff.
  destruct (is_localhost_alias h); [rewrite IH; tauto|]. naive_solver.
Qed.

Lemma parse_hosts_fields_iff fields line d :
  parse_hosts_fields fields line None = Ok (Some d) ↔
  ∃ before name after, fields = before ++ name :: after ∧ Forall local_name (before ++ after) ∧ ¬ local_name name ∧ domain_of name d.
Proof.
  induction fields as [|h fields IH]; cbn; [split; [done|intros ([] & ? & ? & ? & _); done]|].
  destruct (is_localhost_alias h) eqn:Eh.
  - apply is_localhost_alias_iff in Eh. rewrite IH. split.
    + intros (before & name & after & -> & Hl & ?). exists (h :: before), name, after. split; [done|]. by split; [constructor|].
    + intros ([|h' before] & name & after & [= <- ->] & Hl & Hn & ?); [done|]. exists before, name, after. by inversion Hl.
  - assert (¬ local_name h) as Hn by (by rewrite <- is_localhost_alias_iff, Eh). split.
    + intros (d' & Hd%parse_domain_iff & [-> Hf]%parse_hosts_fields_accepted)%bind_ok_inv. by exists [], h, fields.
    + intros ([|h' before] & name & after & [= <- ->] & Hl & _ & Hd); [|by inversion Hl].
      apply (parse_domain_iff _ line) in Hd. rewrite Hd. cbn. by apply parse_hosts_fields_accepted.
Qed.

Lemma parse_hosts_fields_none fields line : parse_hosts_fields fields line None = Ok None → Forall local_name fields.
Proof.
  assert (∀ fields a, parse_hosts_fields fields line (Some a) ≠ Ok None) as Hs.
  { induction fields0 as [|h fields0 IH]; intros a; cbn; [done|]. by case_match. }
  induction fields as [|h fields IH]; cbn; [done|]. destruct (is_localhost_alias h) eqn:Eh.
  - intros H. constructor; [by apply is_localhost_alias_iff|auto].
  - by intros (d & _ & H%Hs)%bind_ok_inv.
Qed.

Lemma strip_both_Some p q v x : strip_both p q v = Some x ↔ v = p ++ x ++ q.
Proof.
  unfold strip_both. destruct (strip_prefix p v) as [r|] eqn:E.
  - apply strip_prefix_Some in E as ->. rewrite strip_suffix_Some. split; [by intros ->|]. by intros ?%app_inv_head.
  - split; [done|]. intros ->. by rewrite (proj2 (strip_prefix_Some p _ (x ++ q))) in E.
Qed.

Lemma strip_both_None p q v : strip_both p q v = None ↔ ∀ x, v ≠ p ++ x ++ q.
Proof. rewrite eq_None_not_Some. setoid_rewrite <- strip_both_Some. unfold is_Some. naive_solver. Qed.

Lemma starts_with_iff p v : starts_with p v = true ↔ ∃ rest, v = p ++ rest.
Proof.
  unfold starts_with. destruct (strip_prefix p v) as [r|] eqn:E.
  - apply strip_prefix_Some in E. split; [by exists r|done].
  - split; [done|]. intros (r & ->). by rewrite (proj2 (strip_prefix_Some p _ r)) in E.
Qed.

(** The branch of [parse_line] for lines that are no AdBlock rules. *)
Definition parse_words (words : list str) (line : nat) : result BlocklistError (option (RuleKind * str)) :=
  match words with
  | [] => Ok None
  | first :: fields =>
      match parse_ip first with
      | Some _ =>
          accepted ← parse_hosts_fields fields line None;
          match accepted with Some domain => Ok (Some (BlockExact, domain)) | None => Ok None end
      | None =>
          match fields with
          | _ :: _ => Err (BlocklistError_at line)
          | [] => d ← parse_domain first line; Ok (Some (BlockExact, d))
          end
      end
  end.

Lemma plain_empty raw words : trim raw = [] ∨ starts_with (#"#") (trim raw) = true → plain raw words ↔ words = [].
Proof.
  unfold plain. intros [E|(rest & E)%starts_with_iff]; rewrite E; (split; [intros (_ & _ & _ & ->); reflexivity|intros ->; split_and!; by try intros ? [=]]).
Qed.

(** The four kinds of line. *)
Lemma parse_line_cases raw line :
  ((∃ rest, trim raw = #"!" ++ rest) ∧ parse_line raw line = Ok None)
  ∨ (∃ name, trim raw = #"@@||" ++ name ++ #"^" ∧ parse_line raw line = (d ← parse_domain name line; Ok (Some (AllowSuffix, d))))
  ∨ (∃ name, trim raw = #"||" ++ name ++ #"^" ∧ parse_line raw line = (d ← parse_domain name line; Ok (Some (BlockSuffix, d))))
  ∨ (∃ words, plain raw words ∧ parse_line raw line = parse_words words line).
Proof.
  unfold parse_line. destruct (length (trim raw) =? 0) eqn:E0; cbn [orb].
  { apply Nat.eqb_eq, nil_length_inv in E0. do 3 right. exists []. split; [|done]. apply plain_empty; auto. }
  destruct (starts_with (#"#") _) eqn:E1; cbn [orb].
  { do 3 right. exists []. split; [|done]. apply plain_empty; auto. }
  destruct (starts_with (#"!") _) eqn:E2; [apply starts_with_iff in E2; by left|].
  destruct (strip_both (#"@@||") _ _) as [name|] eqn:E3; [apply strip_both_Some in E3; eauto|].
  destruct (strip_both (#"||") _ _) as [name|] eqn:E4; [apply strip_both_Some in E4; eauto 7|].
  do 3 right. eexists. split; [|reflexivity]. split; [|by rewrite <- !strip_both_None].
  intros rest Hr. assert (starts_with (#"!") (trim raw) = true) as H by (apply starts_with_iff; eauto). congruence.
Qed.

(** The forms exclude each other. *)
Lemma plain_functional raw w1 w2 : plain raw w1 → plain raw w2 → w1 = w2.
Proof. intros (_ & _ & _ & ->) (_ & _ & _ & ->). done. Qed.

Lemma adblock_name_inj (p q n1 n2 : str) : p ++ n1 ++ q = p ++ n2 ++ q → n1 = n2.
Proof. by intros ?%app_inv_head%app_inv_tail. Qed.

Lemma parse_words_says words line k d :
  parse_words words line = Ok (Some (k, d)) ↔ k = BlockExact
  ∧ ((∃ ip before name after, words = ip :: before ++ name :: after ∧ is_Some (parse_ip ip)
        ∧ Forall local_name (before ++ after) ∧ ¬ local_name name ∧ domain_of name d)
     ∨ ∃ name, words = [name] ∧ parse_ip name = None ∧ domain_of name d).
Proof.
  unfold parse_words. destruct words as [|first fields]; [naive_solver|]. destruct (parse_ip first) as [ip|] eqn:Ei.
  - pose proof (parse_hosts_fields_iff fields line d) as Hf. split.
    + intros ([a|] & Ha & [= <- <-])%bind_ok_inv. split; [done|]. left. apply Hf in Ha. naive_solver.
    + intros [-> [(i & b & n & a & [= -> ->] & Hr)|(n & [= -> ->] & ? & _)]]; [|congruence].
      rewrite (proj2 Hf); [done|]. naive_solver.
  - destruct fields as [|f fields].
    + split.
      * intros (d' & Hd%parse_domain_iff & [= <- <-])%bind_ok_inv. eauto 6.
      * intros [-> [(i & b & n & a & [= -> ?] & Hr)|(n & [= ->] & _ & Hd)]]; [by destruct b|].
        apply (parse_domain_iff _ line) in Hd. by rewrite Hd.
    + split; [done|]. intros [-> [(i & b & n & a & [= -> _] & [? ?] & _)|(n & [=] & _)]]. congruence.
Qed.

(** Lines are read as they say. *)
Lemma parse_line_says raw line k d : parse_line raw line = Ok (Some (k, d)) ↔ line_says raw k d.
Proof.
  assert (∀ K name, (d ← parse_domain name line; Ok (Some (K, d))) = Ok (Some (k, d)) ↔ k = K ∧ domain_of name d) as Hd.
  { intros K name. rewrite <- (parse_domain_iff name line). destruct (parse_domain name line); cbn; naive_solver. }
  destruct (parse_line_cases raw line) as [[[rest E] ->]|[(name & E & ->)|[(name & E & ->)|(words & Hp & ->)]]].
  - split; [done|]. intros [n d' H|n d' H|? ? ? ? ? [H _]|? ? [H _]]; try (rewrite E in H; discriminate H); by apply H in E.
  - rewrite Hd. split; [intros [-> ?]; by eapply says_allow|].
    intros [n d' H ?|n d' H|? ? ? ? ? (_ & H & _)|? ? (_ & H & _)]; try (by apply H in E); rewrite E in H; [|discriminate H].
    by apply adblock_name_inj in H as ->.
  - rewrite Hd. split; [intros [-> ?]; by eapply says_block|].
    intros [n d' H|n d' H ?|? ? ? ? ? (_ & _ & H & _)|? ? (_ & _ & H & _)]; try (by apply H in E); rewrite E in H; [discriminate H|].
    by apply adblock_name_inj in H as ->.
  - rewrite parse_words_says. split.
    + intros [-> [(ip & b & n & a & -> & ? & ? & ? & ?)|(n & -> & ? & ?)]]; [by eapply says_hosts|by eapply says_name].
    + intros [n d' H|n d' H|ip b n a d' H ? ? ? ?|n d' H ? ?].
      * by destruct Hp as (_ & Hp & _); apply Hp in H.
      * by destruct Hp as (_ & _ & Hp & _); apply Hp in H.
      * split; [done|left]. rewrite (plain_functional _ _ _ Hp H). naive_solver.
      * split; [done|right]. rewrite (plain_functional _ _ _ Hp H). naive_solver.
Qed.

Lemma parse_line_void raw line : parse_line raw line = Ok None → line_void raw.
Proof.
  destruct (parse_line_cases raw line) as [[[rest E] _]|[(name & E & ->)|[(name & E & ->)|(words & Hp & ->)]]].
  - intros _. by eapply void_note.
  - by intros (? & _ & [=])%bind_ok_inv.
  - by intros (? & _ & [=])%bind_ok_inv.
  - destruct words as [|first fields]; [intros _; by apply void_blank|]. cbn. destruct (parse_ip first) as [ip|] eqn:Ei.
    + intros ([a|] & Ha & H)%bind_ok_inv; [done|].
      apply parse_hosts_fields_none in Ha. by eapply void_local.
    + destruct fields; [|done]. by intros (? & _ & [=])%bind_ok_inv.
Qed.

(** The accumulated vectors are exactly the rules of the lines read so far. *)
Record bl_inv (ls : list str) (st : BlocklistState) : Prop := {
  inv_exact : ∀ d, d ∈ blocked_exact st ↔ has_rule ls BlockExact d;
  inv_suffix : ∀ d, d ∈ blocked_suffix st ↔ has_rule ls BlockSuffix d;
  inv_allow : ∀ d, d ∈ allowed_suffix st ↔ has_rule ls AllowSuffix d;
  inv_lines : source_lines (bl_stats st) = length ls;
  inv_sum : accepted_block (bl_stats st) + accepted_allow (bl_stats st) + ignored (bl_stats st)
            = source_lines (bl_stats st);
  inv_entries : accepted_block (bl_stats st) + accepted_allow (bl_stats st) = bl_entries st;
  inv_limit : (Z.of_nat (bl_entries st) ≤ MAX_BLOCKLIST_ENTRIES)%Z;
  inv_read : Forall line_read ls;
}.

Lemma has_rule_snoc ls raw k d line :
  has_rule (ls ++ [raw]) k d ↔ has_rule ls k d ∨ parse_line raw line = Ok (Some (k, d)).
Proof.
  rewrite parse_line_says. unfold has_rule. setoid_rewrite elem_of_app. setoid_rewrite list_elem_of_singleton. naive_solver.
Qed.

Lemma enforce_entry_limit_ok c l u : enforce_entry_limit c l = Ok u → (Z.of_nat c < MAX_BLOCKLIST_ENTRIES)%Z.
Proof. unfold enforce_entry_limit. case_match; [done|]. bool_to_prop. lia. Qed.

Lemma blocklist_step_inv ls raw st st' :
  bl_inv ls st → blocklist_step st (length ls + 1) raw = Ok st' → bl_inv (ls ++ [raw]) st'.
Proof.
  intros [Hex Hsu Hal Hli Hsum Hen Hlim Hre] H. unfold blocklist_step in H.
  apply bind_ok_inv in H as (parsed & Hp & H).
  assert (Forall line_read (ls ++ [raw])) as Hre'.
  { apply Forall_app. split; [done|]. apply Forall_singleton. destruct parsed as [[k d]|].
    - left. exists k, d. by eapply parse_line_says.
    - right. by eapply parse_line_void. }
  destruct parsed as [[[] d]|].
  4: { inv_ok. subst st'. constructor; unfold bl_entries in *; cbn in *; rewrite ?length_app; cbn;
       try lia; try done; intros d; rewrite (has_rule_snoc _ _ _ _ (length ls + 1)), Hp; naive_solver. }
  all: apply bind_ok_inv in H as (? & Hlt%enforce_entry_limit_ok & H); inv_ok; subst st';
    constructor; unfold bl_entries in *; cbn in *; rewrite ?length_app; cbn; try lia; try done;
    intros d'; rewrite (has_rule_snoc _ _ _ _ (length ls + 1)), Hp, ?elem_of_app, ?list_elem_of_singleton; naive_solver.
Qed.

Lemma blocklist_loop_inv ls done st st' :
  bl_inv done st → blocklist_loop (length done) ls st = Ok st' → bl_inv (done ++ ls) st'.
Proof.
  revert done st; induction ls as [|raw ls IH]; intros done st Hinv H; cbn in H.
  - inv_ok. subst. by rewrite app_nil_r.
  - inv_ok. rewrite cons_middle, app_assoc. eapply IH.
    + eapply blocklist_step_inv; eauto.
    + rewrite length_app; cbn. by rewrite Nat.add_1_r.
Qed.

Lemma bl_inv_init : bl_inv [] BlocklistState_init.
Proof.
  constructor; unfold has_rule; cbn; try done.
  all: intros d; split; [by intros ?%not_elem_of_nil|by intros (raw & ?%not_elem_of_nil & _)].
Qed.

Lemma compile_blocklist_ok text c :
  compile_blocklist text = Ok c →
  ∃ st, bl_inv (lines text) st ∧ cb_stats c = bl_stats st
    ∧ DomainSet_compile (blocked_exact st) (blocked_suffix st) = Ok (df_blocked (cb_filter c))
    ∧ DomainSet_compile [] (allowed_suffix st) = Ok (df_allowed (cb_filter c)).
Proof.
  unfold compile_blocklist. case_match; [done|]. intros Hc. inv_ok. subst c. cbn.
  eexists. split_and!; [|done..].
  by eapply (blocklist_loop_inv _ [] BlocklistState_init); [apply bl_inv_init|].
Qed.

Lemma has_rule_wf ls k d : has_rule ls k d → name_wf d.
Proof. by intros (raw & _ & [? ? _ [_ ?]|? ? _ [_ ?]|? ? ? ? ? _ _ _ _ [_ ?]|? ? _ _ [_ ?]]). Qed.

Lemma has_rule_normal ls k (l : list str) n :
  (∀ d, d ∈ l ↔ has_rule ls k d) →
  (∃ e, e ∈ l ∧ normalize_domain e = Ok n) ↔ has_rule ls k n.
Proof.
  intros Hl. split.
  - intros (e & He%Hl & Hn). rewrite normalize_domain_id in Hn by (by eapply has_rule_wf).
    by injection Hn as <-.
  - intros H. exists n. split; [by apply Hl|]. apply normalize_domain_id. by eapply has_rule_wf.
Qed.

Lemma collect_wf_ok l : Forall name_wf l → collect_results normalize_domain l = Ok l.
Proof.
  intros H. apply collect_results_ok. induction H; constructor; [by apply normalize_domain_id|done].
Qed.

(** The names the loop accumulates always compile. *)
Lemma bl_inv_compiles ls st :
  bl_inv ls st →
  is_ok (DomainSet_compile (blocked_exact st) (blocked_suffix st)) = true
  ∧ is_ok (DomainSet_compile [] (allowed_suffix st)) = true.
Proof.
  intros [Hex Hsu Hal _ _ _ _ _]. unfold DomainSet_compile.
  rewrite !collect_wf_ok; [done|..]; try constructor; apply Forall_forall; intros d Hd;
    [apply Hal in Hd|apply Hex in Hd|apply Hsu in Hd]; by eapply has_rule_wf.
Qed.

Lemma parse_domain_err v line e : parse_domain v line = Err e → e = BlocklistError_at line.
Proof. unfold parse_domain. case_match; naive_solver. Qed.

Lemma parse_hosts_fields_err fields line acc e :
  parse_hosts_fields fields line acc = Err e → e = BlocklistError_at line.
Proof.
  revert acc; induction fields as [|h fields IH]; intros acc; cbn; [done|].
  destruct (is_localhost_alias h); [apply IH|]. destruct acc; [naive_solver|].
  destruct (parse_domain h line) eqn:E; cbn; [apply IH| |done].
  intros [= ->]. by eapply parse_domain_err.
Qed.

Lemma parse_hosts_fields_no_panic fields line acc : no_panic (parse_hosts_fields fields line acc).
Proof.
  revert acc; induction fields as [|h fields IH]; intros acc; cbn; [done|].
  destruct (is_localhost_alias h); [apply IH|]. destruct acc; [done|].
  apply bind_no_panic; [|intros; apply IH]. unfold parse_domain. by case_match.
Qed.

Lemma parse_line_err raw line e : parse_line raw line = Err e → e = BlocklistError_at line.
Proof.
  unfold parse_line. intros H.
  repeat match type of H with
  | (parse_domain ?v ?l) ≫= _ = _ =>
      destruct (parse_domain v l) eqn:?; cbn in H; simplify_eq; by eapply parse_domain_err
  | (parse_hosts_fields ?f ?l ?a) ≫= _ = _ =>
      destruct (parse_hosts_fields f l a) eqn:?; cbn in H; [| |done]
  | context [match ?x with _ => _ end] => destruct x eqn:?; simplify_eq; try done
  end.
  injection H as <-. by eapply parse_hosts_fields_err.
Qed.

Lemma parse_line_no_panic raw line : no_panic (parse_line raw line).
Proof.
  unfold parse_line, parse_domain.
  repeat (case_match; try done); apply bind_no_panic; intros; try case_match; try done.
  apply parse_hosts_fields_no_panic.
Qed.

Lemma blocklist_step_total ls raw st :
  bl_inv ls st →
  match blocklist_step st (length ls + 1) raw with
  | Ok _ => True
  | Err e => e = BlocklistError_at (length ls + 1)
             ∧ (parse_line raw (length ls + 1) = Err e ∨ Z.of_nat (bl_entries st) = MAX_BLOCKLIST_ENTRIES)
  | Panic => False
  end.
Proof.
  intros Hinv. unfold blocklist_step.
  pose proof (parse_line_no_panic raw (length ls + 1)) as Hn.
  destruct (parse_line raw (length ls + 1)) as [[[[] d]|]|e|] eqn:Ep; cbn [mbind result_bind]; try done.
  4: { split; [|by left]. by apply parse_line_err in Ep. }
  all: unfold enforce_entry_limit; destruct (_ <=? _)%Z eqn:?; cbn [mbind result_bind]; [|done];
    split; [done|right]; pose proof (inv_limit _ _ Hinv); bool_to_prop; lia.
Qed.

(** Where a rejected source went wrong: the offending line is malformed or
    the entry limit was already used up by the lines before it. *)
Definition rejects_at (ls : list str) (n : nat) : Prop :=
  ∃ raw, ls !! n = Some raw
    ∧ ((∃ e, parse_line raw (n + 1) = Err e)
       ∨ ∃ st, bl_inv (take n ls) st ∧ Z.of_nat (bl_entries st) = MAX_BLOCKLIST_ENTRIES).

Lemma blocklist_loop_total ls done_ st :
  bl_inv done_ st →
  match blocklist_loop (length done_) ls st with
  | Ok _ => True
  | Err e => ∃ n, e = BlocklistError_at (n + 1) ∧ rejects_at (done_ ++ ls) n
  | Panic => False
  end.
Proof.
  revert done_ st; induction ls as [|raw ls IH]; intros dn st Hinv; cbn; [done|].
  pose proof (blocklist_step_total dn raw st Hinv) as Hstep.
  destruct (blocklist_step st (length dn + 1) raw) as [st'|e|] eqn:Es; cbn; [| |done].
  - specialize (IH (dn ++ [raw]) st' (blocklist_step_inv _ _ _ _ Hinv Es)).
    rewrite length_app in IH; cbn in IH. rewrite Nat.add_1_r in IH.
    by rewrite <- app_assoc in IH.
  - destruct Hstep as [-> Hwhy]. exists (length dn). split; [done|].
    exists raw. split; [by apply list_lookup_middle|].
    destruct Hwhy as [Hp|Hfull]; [left; eauto|right].
    exists st. by rewrite take_app_length.
Qed.

(** C24. A compiled blocklist blocks a name exactly when the source text says
    so. Every line is a rule or a void line (blank, comment, an address with
    local names only). [||x^] blocks the domain x and everything under it,
    [@@||x^] allows them, [address x] and [x] block x alone. A name is blocked
    if and only if it or a domain it lies under is blocked by some line and no
    line allows it or a domain it lies under. Names that are empty, over 253
    bytes or not ASCII are never blocked. *)
Theorem compile_blocklist_semantics text c :
  compile_blocklist text = Ok c →
  let ls := lines text in
  Forall line_read ls
  ∧ ∀ domain,
      let q := trim_end_matches x2e domain in
      DomainFilter_is_blocked (cb_filter c) domain = true ↔
      1 ≤ length q ≤ MAX_DOMAIN_LENGTH ∧ is_ascii q = true
      ∧ (has_rule ls BlockExact q ∨ ∃ n, has_rule ls BlockSuffix n ∧ label_suffix n q)
      ∧ ¬ (∃ n, has_rule ls AllowSuffix n ∧ label_suffix n q).
Proof.
  intros (st & Hinv & _ & (Hwb & Hbe & Hbs)%DomainSet_compile_ok & (Hwa & Hae & Has)%DomainSet_compile_ok)%compile_blocklist_ok.
  destruct Hinv as [Hex Hsu Hal _ _ _ _ Hre]. cbn zeta. split; [done|]. intros domain.
  unfold DomainFilter_is_blocked. rewrite andb_true_iff, negb_true_iff, <- not_true_iff_false.
  rewrite !DomainSet_matches_wf by done. cbn zeta.
  setoid_rewrite Hbe. setoid_rewrite Hbs. setoid_rewrite Hae. setoid_rewrite Has.
  setoid_rewrite (has_rule_normal _ _ _ _ Hex). setoid_rewrite (has_rule_normal _ _ _ _ Hsu).
  setoid_rewrite (has_rule_normal _ _ _ _ Hal).
  assert (∀ q : str, (∃ e, e ∈ ([] : list str) ∧ normalize_domain e = Ok q) ↔ False) as Hnil
    by (intros q; split; [intros (? & []%not_elem_of_nil & _)|done]).
  setoid_rewrite Hnil. naive_solver.
Qed.

(** The second line takes [api.ads.example] out of what the first blocks. *)
Lemma compile_blocklist_semantics_witness :
  ∃ c, compile_blocklist (#"||ads.example^" ++ [x0a] ++ #"@@||api.ads.example^") = Ok c
    ∧ DomainFilter_is_blocked (cb_filter c) (#"x.ads.example") = true
    ∧ DomainFilter_is_blocked (cb_filter c) (#"x.api.ads.example") = false
    ∧ ∃ n, has_rule [ #"||ads.example^"; #"@@||api.ads.example^"] BlockSuffix n ∧ label_suffix n (#"x.ads.example").
Proof.
  set (text := #"||ads.example^" ++ [x0a] ++ #"@@||api.ads.example^").
  assert (match compile_blocklist text with
          | Ok c => (DomainFilter_is_blocked (cb_filter c) (#"x.ads.example"), DomainFilter_is_blocked (cb_filter c) (#"x.api.ads.example"))
          | _ => (false, false)
          end = (true, false)) as Hrun by (vm_compute; reflexivity).
  destruct (compile_blocklist text) as [c|e|] eqn:Ec; [|discriminate Hrun..]. injection Hrun as R1 R2.
  exists c. split; [reflexivity|]. split; [exact R1|]. split; [exact R2|].
  destruct (compile_blocklist_semantics text c Ec) as [_ H]. specialize (H (#"x.ads.example")). cbn zeta in H.
  change (lines text) with [ #"||ads.example^"; #"@@||api.ads.example^"] in H.
  destruct (proj1 H R1) as (_ & _ & [Hb|Hb] & _); [|exact Hb].
  exfalso. destruct Hb as (raw & Hin & Hs). apply (parse_line_says raw 0) in Hs. revert Hs.
  apply elem_of_cons in Hin as [->|Hin]; [vm_compute; discriminate|].
  apply list_elem_of_singleton in Hin as ->. vm_compute. discriminate.
Defined.

(** Compiling a blocklist always ends in a verdict. An accepted source has
    every line accounted for once (blocked, allowed or ignored) and at most
    250,000 entries; a rejected one is either over 8 MiB, reported without a
    line, or is reported at the 1-based number of a line that is malformed or
    that comes after the entry limit has been used up. The final
    [DomainSet::compile] calls never fail. *)
Theorem compile_blocklist_verdict text :
  match compile_blocklist text with
  | Ok c => let s := cb_stats c in
      source_lines s = length (lines text)
      ∧ accepted_block s + accepted_allow s + ignored s = source_lines s
      ∧ (Z.of_nat (accepted_block s + accepted_allow s) ≤ MAX_BLOCKLIST_ENTRIES)%Z
      ∧ (Z.of_nat (length text) ≤ MAX_BLOCKLIST_BYTES)%Z
  | Err e =>
      match be_line e with
      | None => (MAX_BLOCKLIST_BYTES < Z.of_nat (length text))%Z
      | Some line => 1 ≤ line ∧ rejects_at (lines text) (line - 1)
      end
  | Panic => False
  end.
Proof.
  unfold compile_blocklist. destruct (_ <? _)%Z eqn:El; bool_to_prop; [done|].
  pose proof (blocklist_loop_total (lines text) [] _ bl_inv_init) as Ht. cbn [length] in Ht.
  destruct (blocklist_loop 0 (lines text) BlocklistState_init) as [st|e|] eqn:E; cbn [mbind result_bind]; [| |done].
  - pose proof (blocklist_loop_inv _ [] _ _ bl_inv_init E) as Hinv. cbn in Hinv.
    pose proof (bl_inv_compiles _ _ Hinv) as [Hb Ha].
    destruct (DomainSet_compile (blocked_exact st) _); [|done..].
    destruct (DomainSet_compile [] _); [|done..]. cbn.
    destruct Hinv as [_ _ _ Hl Hs He Hlim _]. split_and!; [done|done| |done]. by rewrite He.
  - destruct Ht as (n & -> & Hr). cbn [BlocklistError_at be_line]. split; [lia|].
    by replace (n + 1 - 1) with n by lia.
Qed.

Lemma compile_blocklist_no_panic text : no_panic (compile_blocklist text).
Proof.
  assert (∀ ls index st, no_panic (blocklist_loop index ls st)) as H.
  { induction ls as [|l ls IH]; intros index st; cbn [blocklist_loop]; [done|].
    apply bind_no_panic; [|intros; apply IH]. unfold blocklist_step.
    apply bind_no_panic; [apply parse_line_no_panic|]. intros [[[] d]|] _; try done;
      (apply bind_no_panic; [unfold enforce_entry_limit; by case_match|done]). }
  unfold compile_blocklist. case_match; [done|]. apply bind_no_panic; [apply H|intros st _].
  do 2 (apply bind_no_panic; [apply map_err_no_panic, DomainSet_compile_no_panic|intros ? _]). done.
Qed.
