(* ===== verification/DnsBase.v ===== *)
(** * Names, answers and the hosts table ([dns/src/lib.rs])

    The vocabulary every part of the dns crate shares, and the static hosts
    table with its parser and its merge. *)

From S2P Require Import Prelude RustStr RustNet DomainSet.

Definition MAX_HOSTS_BYTES : Z := 4 * 1024 * 1024.
Definition MAX_HOSTS_ENTRIES : Z := 100000.
Definition MAX_RESOLVED_ADDRESSES : nat := 16.

Inductive DnsErrorKind :=
| InvalidName | HostsParse | NoResolvers | NoRecords
| ResolverFailure | InvalidResponse | InvalidConfiguration.

#[global] Instance DnsErrorKind_eq_dec : EqDecision DnsErrorKind.
Proof. solve_decision. Defined.

(** The kind of an error; its message text is not modelled. *)
Record DnsError := DnsError_new { kind : DnsErrorKind }.

#[global] Instance DnsError_eq_dec : EqDecision DnsError.
Proof. solve_decision. Defined.

Definition invalid_response : DnsError := DnsError_new InvalidResponse.
Definition hosts_error : DnsError := DnsError_new HostsParse.

Definition normalize_name (name : str) : result DnsError str :=
  let name := to_ascii_lowercase (trim_matches x2e name) in
  if bad_name name then Err (DnsError_new InvalidName) else Ok name.

Record DnsQuery := { query_name : str }.

Definition DnsQuery_new (name : str) : result DnsError DnsQuery :=
  name ← normalize_name name; Ok {| query_name := name |}.

(** ** Address vectors without repetition *)

(** [if !v.contains(&a) { v.push(a) }] *)
Definition push_unique {A} `{EqDecision A} (v : list A) (a : A) : list A :=
  if bool_decide (a ∈ v) then v else v ++ [a].

Definition deduplicate_bounded (addresses : list IpAddr) : list IpAddr :=
  foldl push_unique [] (take MAX_RESOLVED_ADDRESSES addresses).

Record DnsAnswer := {
  addresses : list IpAddr;
  (** nanoseconds of the [Duration] *)
  ttl : option Z;
}.

#[global] Instance DnsAnswer_eq_dec : EqDecision DnsAnswer.
Proof. solve_decision. Defined.

Definition DnsAnswer_new (addrs : list IpAddr) (ttl : option Z) : result DnsError DnsAnswer :=
  let addrs := deduplicate_bounded addrs in
  if length addrs =? 0 then Err (DnsError_new NoRecords)
  else Ok {| addresses := addrs; ttl := ttl |}.

(** ** The hosts table *)
Record HostsTable := { records : gmap str (list IpAddr) }.
Definition HostsTable_default : HostsTable := {| records := ∅ |}.

(** [records.entry(name).or_default()] followed by the guarded push. *)
Definition add_record (records : gmap str (list IpAddr)) (name : str) (address : IpAddr)
    : gmap str (list IpAddr) :=
  <[name := push_unique (default [] (records !! name)) address]> records.

(** The host names of one line: the records, the entries used so far and the
    names seen on this line. *)
Fixpoint parse_hosts_names (address : IpAddr) (fields : list str)
    (records : gmap str (list IpAddr)) (entries : Z) (names : nat)
    : result DnsError (gmap str (list IpAddr) * Z * nat) :=
  match fields with
  | [] => Ok (records, entries, names)
  | name :: fields' =>
      if (MAX_HOSTS_ENTRIES <=? entries)%Z then Err hosts_error
      else
        name ← map_err (λ _, hosts_error) (normalize_name name);
        parse_hosts_names address fields' (add_record records name address)
          (entries + 1)%Z (S names)
  end.

Definition parse_hosts_line (raw_line : str) (records : gmap str (list IpAddr)) (entries : Z)
    : result DnsError (gmap str (list IpAddr) * Z) :=
  let line := trim (before_first x23 raw_line) in
  if length line =? 0 then Ok (records, entries)
  else match split_whitespace line with
  | [] => Err hosts_error
  | first :: fields =>
      address ← ok_or (parse_ip first) hosts_error;
      '(records, entries, names) ← parse_hosts_names address fields records entries 0;
      if names =? 0 then Err hosts_error else Ok (records, entries)
  end.

Fixpoint parse_hosts_lines (ls : list str) (records : gmap str (list IpAddr)) (entries : Z)
    : result DnsError (gmap str (list IpAddr) * Z) :=
  match ls with
  | [] => Ok (records, entries)
  | l :: ls' => '(records, entries) ← parse_hosts_line l records entries;
                parse_hosts_lines ls' records entries
  end.

Definition HostsTable_parse (text : str) : result DnsError HostsTable :=
  if (MAX_HOSTS_BYTES <? Z.of_nat (length text))%Z then Err hosts_error
  else '(records, _) ← parse_hosts_lines (lines text) ∅ 0;
       Ok {| records := records |}.

(** [merge] visits the other table in the order its hash map yields; the
    visit is given as the list of the entries in that order. *)
Definition merge_entry (self : gmap str (list IpAddr)) (e : str * list IpAddr)
    : gmap str (list IpAddr) :=
  <[e.1 := foldl push_unique (default [] (self !! e.1)) e.2]> self.
Definition HostsTable_merge_entries (self : HostsTable) (entries : list (str * list IpAddr))
    : HostsTable :=
  {| records := foldl merge_entry (records self) entries |}.
Definition HostsTable_merge (self other : HostsTable) : HostsTable :=
  HostsTable_merge_entries self (map_to_list (records other)).

Definition HostsTable_resolve (t : HostsTable) (name : str) : option (list IpAddr) :=
  records t !! name.
Definition HostsTable_len (t : HostsTable) : nat := size (records t).

(** ** Lemmas *)
Lemma normalize_name_ok s n :
  normalize_name s = Ok n ↔ normalize_domain s = Ok n.
Proof. unfold normalize_name, normalize_domain. destruct (bad_name _); naive_solver. Qed.

Lemma normalize_name_wf s n : normalize_name s = Ok n → name_wf n.
Proof. by intros [_ ?]%normalize_name_ok%normalize_domain_ok. Qed.

Lemma normalize_name_id s : name_wf s → normalize_name s = Ok s.
Proof. intros. by apply normalize_name_ok, normalize_domain_id. Qed.

Lemma normalize_name_err s e : normalize_name s = Err e → e = DnsError_new InvalidName.
Proof. unfold normalize_name. case_match; naive_solver. Qed.

Lemma normalize_name_no_panic s : no_panic (normalize_name s).
Proof. unfold normalize_name. by case_match. Qed.
#[export] Hint Resolve normalize_name_no_panic : commeatus.

Section unique.
  Context {A} `{EqDecision A}.
  Implicit Types (v l : list A) (a x : A).

Lemma elem_of_push_unique v a x : x ∈ push_unique v a ↔ x ∈ v ∨ x = a.
Proof. unfold push_unique. case_bool_decide; set_solver. Qed.

Lemma push_unique_NoDup v a : NoDup v → NoDup (push_unique v a).
Proof.
  unfold push_unique. case_bool_decide; [done|]. intros Hv.
  apply NoDup_app. split_and!; [done| |apply NoDup_singleton].
  intros x Hx ->%list_elem_of_singleton. done.
Qed.

Lemma elem_of_push_all l v x : x ∈ foldl push_unique v l ↔ x ∈ v ∨ x ∈ l.
Proof.
  revert v; induction l as [|a l IH]; intros v; cbn; [set_solver|].
  rewrite IH, elem_of_push_unique. set_solver.
Qed.

Lemma push_all_NoDup l v : NoDup v → NoDup (foldl push_unique v l).
Proof. revert v; induction l; intros v Hv; cbn; auto using push_unique_NoDup. Qed.

Lemma push_unique_ne_nil v a : push_unique v a ≠ [].
Proof. unfold push_unique. destruct v; case_bool_decide as E; [by apply not_elem_of_nil in E|done..]. Qed.

Lemma push_all_ne_nil l v : l ≠ [] → foldl push_unique v l ≠ [].
Proof.
  intros Hl E. destruct l as [|a l]; [done|].
  assert (a ∈ foldl push_unique v (a :: l)) as Ha by (apply elem_of_push_all; set_solver).
  rewrite E in Ha. by apply not_elem_of_nil in Ha.
Qed.

Lemma length_push_all l v : length (foldl push_unique v l) ≤ length v + length l.
Proof.
  revert v; induction l as [|a l IH]; intros v; cbn; [lia|].
  rewrite IH. unfold push_unique. case_bool_decide; rewrite ?length_app; cbn; lia.
Qed.

Lemma push_all_id l v : NoDup (v ++ l) → foldl push_unique v l = v ++ l.
Proof.
  revert v; induction l as [|a l IH]; intros v Hv; cbn; [by rewrite app_nil_r|].
  assert (a ∉ v) as Ha.
  { apply NoDup_app in Hv as (_ & Hd & _). intros Hin. apply (Hd a Hin). set_solver. }
  unfold push_unique at 2. rewrite bool_decide_false by done.
  rewrite IH; rewrite <- app_assoc; [done|exact Hv].
Qed.
End unique.

(** Answers hold between one and sixteen distinct addresses. *)
Definition answer_wf (l : list IpAddr) : Prop :=
  1 ≤ length l ≤ MAX_RESOLVED_ADDRESSES ∧ NoDup l.

Lemma answer_wf_singleton a : answer_wf [a].
Proof. split; [cbn; unfold MAX_RESOLVED_ADDRESSES; lia|apply NoDup_singleton]. Qed.

Lemma deduplicate_bounded_spec l :
  NoDup (deduplicate_bounded l) ∧ length (deduplicate_bounded l) ≤ MAX_RESOLVED_ADDRESSES
  ∧ ∀ x, x ∈ deduplicate_bounded l ↔ x ∈ take MAX_RESOLVED_ADDRESSES l.
Proof.
  unfold deduplicate_bounded. split_and!.
  - apply push_all_NoDup. constructor.
  - pose proof (length_push_all (take MAX_RESOLVED_ADDRESSES l) []) as H. revert H.
    rewrite length_take. cbn [length]. lia.
  - intros x. rewrite elem_of_push_all. set_solver.
Qed.

Lemma deduplicate_bounded_id l : answer_wf l → deduplicate_bounded l = l.
Proof.
  intros [[_ Hl] Hnd]. unfold deduplicate_bounded. rewrite take_ge by done. by apply push_all_id.
Qed.

Lemma DnsAnswer_new_ok addrs t a :
  DnsAnswer_new addrs t = Ok a →
  answer_wf (addresses a) ∧ addresses a = deduplicate_bounded addrs ∧ ttl a = t.
Proof.
  unfold DnsAnswer_new, answer_wf. destruct (_ =? _) eqn:E; [done|]. intros [= <-]. bool_to_prop. cbn [addresses ttl].
  destruct (deduplicate_bounded_spec addrs) as (? & ? & _). split_and!; try done; lia.
Qed.

Lemma DnsAnswer_new_err addrs t e :
  DnsAnswer_new addrs t = Err e → e = DnsError_new NoRecords ∧ addrs = [].
Proof.
  unfold DnsAnswer_new. destruct (_ =? _) eqn:E; [|done]. intros [= <-]. bool_to_prop.
  split; [done|]. destruct addrs as [|a l]; [done|]. apply nil_length_inv in E.
  exfalso. revert E. by apply push_all_ne_nil.
Qed.

Lemma DnsAnswer_new_no_panic addrs t : no_panic (DnsAnswer_new addrs t).
Proof. unfold DnsAnswer_new. by case_match. Qed.
#[export] Hint Resolve DnsAnswer_new_no_panic : commeatus.

(** ** What a hosts source says *)

(** The (name, address) pairs of the source, in source order. *)
Definition line_entries (raw_line : str) : list (str * IpAddr) :=
  match split_whitespace (trim (before_first x23 raw_line)) with
  | first :: fields =>
      match parse_ip first with
      | Some address =>
          omap (λ name, match normalize_name name with Ok n => Some (n, address) | _ => None end) fields
      | None => []
      end
  | [] => []
  end.
Definition hosts_entries (text : str) : list (str * IpAddr) := mjoin (line_entries <$> lines text).

(** The distinct addresses a list of pairs gives a name, first mention first. *)
Definition addresses_of (es : list (str * IpAddr)) (name : str) : list IpAddr :=
  foldl push_unique [] ((filter (λ e, e.1 = name) es).*2).

(** A table that holds exactly the pairs [es]. *)
Definition table_of (es : list (str * IpAddr)) (m : gmap str (list IpAddr)) : Prop :=
  ∀ name, default [] (m !! name) = addresses_of es name
          ∧ (m !! name = None ↔ addresses_of es name = []).

Lemma addresses_of_snoc es name a n :
  addresses_of (es ++ [(name, a)]) n =
  if bool_decide (name = n) then push_unique (addresses_of es n) a else addresses_of es n.
Proof.
  unfold addresses_of. rewrite filter_app, fmap_app, foldl_app. cbn.
  unfold filter, list_filter. case_bool_decide; by rewrite ?decide_True, ?decide_False by done.
Qed.

Lemma table_of_add es m name a :
  table_of es m → table_of (es ++ [(name, a)]) (add_record m name a).
Proof.
  intros Hm n. rewrite addresses_of_snoc. unfold add_record.
  destruct (decide (name = n)) as [->|Hne].
  - rewrite bool_decide_true by done. rewrite lookup_insert_eq. cbn.
    rewrite (proj1 (Hm n)). split; [done|]. split; [done|]. by intros ?%push_unique_ne_nil.
  - rewrite bool_decide_false by done. rewrite lookup_insert_ne by done. apply Hm.
Qed.

Lemma parse_hosts_names_ok a fields m k names m' k' names' es :
  parse_hosts_names a fields m k names = Ok (m', k', names') → table_of es m →
  (k ≤ MAX_HOSTS_ENTRIES)%Z →
  let new := omap (λ name, match normalize_name name with Ok n => Some (n, a) | _ => None end) fields in
  table_of (es ++ new) m' ∧ length new = length fields
  ∧ k' = (k + Z.of_nat (length new))%Z ∧ (k' ≤ MAX_HOSTS_ENTRIES)%Z.
Proof.
  revert m k names es; induction fields as [|f fields IH]; intros m k names es H Hm Hk.
  - cbn in *. simplify_eq. rewrite app_nil_r. split_and!; [done|done|lia|done].
  - cbn [parse_hosts_names] in H. destruct (_ <=? _)%Z eqn:E; [done|]. bool_to_prop.
    apply bind_ok_inv in H as (n & Ef%map_err_ok & H).
    destruct (IH _ _ _ _ H (table_of_add _ _ n a Hm)) as (H1 & H2 & H3 & H4); [lia|].
    cbn. rewrite Ef. cbn. rewrite <- app_assoc in H1. split_and!; [done|by rewrite H2|lia|done].
Qed.

Lemma parse_hosts_line_ok raw m k m' k' es :
  parse_hosts_line raw m k = Ok (m', k') → table_of es m → (k ≤ MAX_HOSTS_ENTRIES)%Z →
  table_of (es ++ line_entries raw) m' ∧ k' = (k + Z.of_nat (length (line_entries raw)))%Z
  ∧ (k' ≤ MAX_HOSTS_ENTRIES)%Z.
Proof.
  unfold parse_hosts_line, line_entries. intros H Hm Hk.
  destruct (length _ =? 0) eqn:E.
  - bool_to_prop. apply nil_length_inv in E. rewrite E in *.
    change (split_whitespace []) with (@nil str). injection H as <- <-. rewrite app_nil_r. cbn [length]. split_and!; [done|lia|done].
  - destruct (split_whitespace _) as [|first fields]; [done|].
    destruct (parse_ip first) as [a|]; [|done]. cbn in H.
    apply bind_ok_inv in H as ([[m1 k1] n1] & H1 & H). case_match; [done|]. simplify_eq.
    destruct (parse_hosts_names_ok _ _ _ _ _ _ _ _ _ H1 Hm Hk) as (? & ? & ? & ?). done.
Qed.

Lemma parse_hosts_lines_ok ls m k m' k' es :
  parse_hosts_lines ls m k = Ok (m', k') → table_of es m → (k ≤ MAX_HOSTS_ENTRIES)%Z →
  table_of (es ++ mjoin (line_entries <$> ls)) m'
  ∧ k' = (k + Z.of_nat (length (mjoin (line_entries <$> ls))))%Z ∧ (k' ≤ MAX_HOSTS_ENTRIES)%Z.
Proof.
  revert m k es; induction ls as [|l ls IH]; intros m k es H Hm Hk.
  - cbn in *. simplify_eq. rewrite app_nil_r. split_and!; [done|lia|done].
  - cbn in H. apply bind_ok_inv in H as ([m1 k1] & H1 & H).
    destruct (parse_hosts_line_ok _ _ _ _ _ _ H1 Hm Hk) as (Hm1 & Hk1 & Hb).
    destruct (IH _ _ _ H Hm1 Hb) as (? & -> & ?).
    change (mjoin (line_entries <$> l :: ls)) with (line_entries l ++ mjoin (line_entries <$> ls)).
    rewrite app_assoc, length_app. split_and!; [done|lia|lia].
Qed.

Lemma hosts_lookup text t name :
  HostsTable_parse text = Ok t →
  HostsTable_resolve t name =
    (let l := addresses_of (hosts_entries text) name in if bool_decide (l = []) then None else Some l)
  ∧ (Z.of_nat (length (hosts_entries text)) ≤ MAX_HOSTS_ENTRIES)%Z
  ∧ (is_Some (HostsTable_resolve t name) → name_wf name).
Proof.
  unfold HostsTable_parse. intros H. case_match; [done|].
  apply bind_ok_inv in H as ([m k] & H & E). injection E as <-.
  assert (table_of [] ∅) as Hnil by (intros n; by rewrite lookup_empty).
  destruct (parse_hosts_lines_ok _ _ _ _ _ [] H Hnil) as (Ht & Hk & Hb); [done|].
  unfold HostsTable_resolve. cbn. specialize (Ht name) as [Hd Hn].
  change (mjoin (line_entries <$> lines text)) with (hosts_entries text) in *. cbn in Hd, Hn.
  assert (m !! name = (let l := addresses_of (hosts_entries text) name in
    if bool_decide (l = []) then None else Some l)) as E.
  { cbn. case_bool_decide as El; [by apply Hn|]. destruct (m !! name); cbn in Hd; [by subst|].
    exfalso. by apply El, Hn. }
  split_and!; [done|lia|]. intros [l Hl]. rewrite E in Hl. cbn in Hl. case_bool_decide as Hne; [done|].
  destruct (addresses_of (hosts_entries text) name) as [|a l'] eqn:Ea; [done|].
  assert (a ∈ addresses_of (hosts_entries text) name) as Ha by (rewrite Ea; set_solver).
  unfold addresses_of in Ha. apply elem_of_push_all in Ha as [Ha|Ha]; [by apply not_elem_of_nil in Ha|].
  apply list_elem_of_fmap in Ha as ([n x] & _ & [Hx He]%list_elem_of_filter). cbn in Hx. subst n.
  unfold hosts_entries in He. apply list_elem_of_join in He as (es & He & Hes).
  apply list_elem_of_fmap in Hes as (raw & -> & _). unfold line_entries in He.
  repeat (case_match; [|by apply not_elem_of_nil in He] || (case_match; [by apply not_elem_of_nil in He|])).
  apply list_elem_of_omap in He as (f & _ & Hf). destruct (normalize_name f) eqn:Ef; simplify_eq.
  by eapply normalize_name_wf.
Qed.

Lemma merge_entries_lookup es self name :
  NoDup es.*1 →
  foldl merge_entry self es !! name =
  match (list_to_map es : gmap str (list IpAddr)) !! name with
  | Some incoming => Some (foldl push_unique (default [] (self !! name)) incoming)
  | None => self !! name
  end.
Proof.
  revert self; induction es as [|[n l] es IH]; intros self Hnd; [done|].
  cbn in Hnd. apply NoDup_cons in Hnd as [Hn Hnd]. cbn [foldl]. rewrite IH by done.
  unfold merge_entry. cbn [fst snd list_to_map foldr]. cbn.
  destruct (decide (n = name)) as [->|Hne].
  - rewrite (not_elem_of_list_to_map_1 es) by done. by rewrite !lookup_insert_eq.
  - by rewrite !lookup_insert_ne by done.
Qed.

(** Merging appends, name by name, the incoming addresses that are not there
    yet; the order in which the other table is visited does not matter. *)
Lemma hosts_merge_lookup self other order name :
  order ≡ₚ map_to_list (records other) →
  HostsTable_resolve (HostsTable_merge_entries self order) name =
    match HostsTable_resolve other name with
    | Some incoming =>
        Some (foldl push_unique (default [] (HostsTable_resolve self name)) incoming)
    | None => HostsTable_resolve self name
    end
  ∧ HostsTable_merge_entries self order = HostsTable_merge self other.
Proof.
  intros Hp.
  assert (∀ o, o ≡ₚ map_to_list (records other) →
    ∀ n, foldl merge_entry (records self) o !! n =
      match records other !! n with
      | Some incoming => Some (foldl push_unique (default [] (records self !! n)) incoming)
      | None => records self !! n
      end) as Hlook.
  { intros o Ho n. assert (NoDup o.*1) as Hnd.
    { rewrite Ho. apply NoDup_fst_map_to_list. }
    rewrite merge_entries_lookup by done.
    by rewrite (list_to_map_proper o (map_to_list (records other))), list_to_map_to_list. }
  unfold HostsTable_resolve, HostsTable_merge, HostsTable_merge_entries. cbn. split.
  - by apply Hlook.
  - f_equal. apply map_eq. intros n. by rewrite !Hlook.
Qed.

Lemma push_all_push_all {A} `{EqDecision A} (l v : list A) :
  foldl push_unique v (foldl push_unique [] l) = foldl push_unique v l.
Proof.
  induction l as [|a l IH] using rev_ind; [done|]. rewrite !foldl_app. cbn.
  unfold push_unique at 2. case_bool_decide as E.
  - rewrite IH. apply elem_of_push_all in E as [E|E]; [by apply not_elem_of_nil in E|].
    unfold push_unique at 2. rewrite bool_decide_true; [done|]. apply elem_of_push_all. by right.
  - rewrite foldl_app. cbn. by rewrite IH.
Qed.

Lemma addresses_of_app es es' name :
  addresses_of (es ++ es') name = foldl push_unique (addresses_of es name) (addresses_of es' name).
Proof. unfold addresses_of. by rewrite push_all_push_all, filter_app, fmap_app, foldl_app. Qed.

(** What a table says of a name mentioned with the addresses [l]. *)
Definition answer_of (l : list IpAddr) : option (list IpAddr) := if bool_decide (l = []) then None else Some l.

Lemma hosts_merge_parsed text t self es name :
  HostsTable_parse text = Ok t →
  HostsTable_resolve self name = answer_of (addresses_of es name) →
  HostsTable_resolve (HostsTable_merge self t) name = answer_of (addresses_of (es ++ hosts_entries text) name).
Proof.
  intros Hp Hs. destruct (hosts_merge_lookup self t _ name (reflexivity (map_to_list (records t)))) as [Hm _].
  unfold HostsTable_merge. rewrite Hm, (proj1 (hosts_lookup text t name Hp)), addresses_of_app, Hs. cbn zeta.
  unfold answer_of. destruct (addresses_of (hosts_entries text) name) as [|b l]; [done|].
  rewrite (bool_decide_false (b :: l = [])) by done.
  rewrite (bool_decide_false (foldl push_unique (addresses_of es name) (b :: l) = [])) by (by apply push_all_ne_nil).
  by destruct (addresses_of es name).
Qed.

(** C26. Hosts files mean what their lines say. The table merged from any
    number of parsed files maps a name to exactly the distinct addresses the
    lines of all files give it, in the order they first mention them, and to
    nothing when no line mentions it; every name of the table is normalised,
    each file has at most 100,000 (name, address) pairs, and a merge does not
    depend on the order in which the other table's hash map is visited. *)
Theorem hosts_files_spec texts tables name :
  Forall2 (λ text t, HostsTable_parse text = Ok t) texts tables →
  HostsTable_resolve (foldl HostsTable_merge HostsTable_default tables) name =
    answer_of (addresses_of (concat (map hosts_entries texts)) name)
  ∧ Forall (λ t, is_Some (HostsTable_resolve t name) → name_wf name) tables
  ∧ Forall (λ text, (Z.of_nat (length (hosts_entries text)) ≤ MAX_HOSTS_ENTRIES)%Z) texts
  ∧ ∀ self other order, order ≡ₚ map_to_list (records other) →
      HostsTable_merge_entries self order = HostsTable_merge self other.
Proof.
  intros Hp. split_and!.
  - assert (∀ self es, HostsTable_resolve self name = answer_of (addresses_of es name) →
      HostsTable_resolve (foldl HostsTable_merge self tables) name =
      answer_of (addresses_of (es ++ concat (map hosts_entries texts)) name)) as Hgen.
    { induction Hp as [|text t texts tables Ht _ IH]; intros self es Hs; cbn [foldl map concat]; [by rewrite app_nil_r|].
      rewrite app_assoc. apply IH. by apply hosts_merge_parsed. }
    by apply (Hgen HostsTable_default []).
  - induction Hp as [|text t texts tables Ht _ IH]; constructor; [apply (hosts_lookup text t name Ht)|done].
  - induction Hp as [|text t texts tables Ht _ IH]; constructor; [apply (hosts_lookup text t name Ht)|done].
  - intros self other order Ho. by apply (hosts_merge_lookup self other order name Ho).
Qed.

Lemma hosts_files_spec_witness :
  ∃ t u, HostsTable_parse (#"127.0.0.1 A.example b.example # c") = Ok t
    ∧ HostsTable_parse (#"10.0.0.1 a.example") = Ok u
    ∧ HostsTable_resolve (foldl HostsTable_merge HostsTable_default [t; u]) (#"a.example")
      = Some [V4 2130706433; V4 167772161].
Proof.
  assert (is_ok (HostsTable_parse (#"127.0.0.1 A.example b.example # c")) = true) as Hok by (vm_compute; reflexivity).
  assert (is_ok (HostsTable_parse (#"10.0.0.1 a.example")) = true) as Hok' by (vm_compute; reflexivity).
  destruct (HostsTable_parse (#"127.0.0.1 A.example b.example # c")) as [t| |] eqn:E; [|discriminate Hok..].
  destruct (HostsTable_parse (#"10.0.0.1 a.example")) as [u| |] eqn:E'; [|discriminate Hok'..].
  exists t, u. split; [reflexivity|]. split; [reflexivity|].
  refine (eq_trans (proj1 (hosts_files_spec [ #"127.0.0.1 A.example b.example # c"; #"10.0.0.1 a.example"] [t; u]
    (#"a.example") _)) _); [by repeat constructor|]. vm_compute. reflexivity.
Defined.

Lemma HostsTable_parse_no_panic text : no_panic (HostsTable_parse text).
Proof.
  assert (∀ a fields m n k, no_panic (parse_hosts_names a fields m n k)) as Hn.
  { intros a fields. induction fields as [|f fields IH]; intros m n k; cbn [parse_hosts_names]; [done|].
    case_match; [done|]. apply bind_no_panic; [auto with commeatus|intros; apply IH]. }
  assert (∀ ls m n, no_panic (parse_hosts_lines ls m n)) as Hl.
  { induction ls as [|l ls IH]; intros m n; cbn [parse_hosts_lines]; [done|].
    apply bind_no_panic; [|by intros [m' n'] _]. unfold parse_hosts_line.
    repeat case_match; try done. apply bind_no_panic; [auto with commeatus|intros a _].
    apply bind_no_panic; [apply Hn|]. intros [[m1 n1] k1] _. by case_match. }
  unfold HostsTable_parse. case_match; [done|]. apply bind_no_panic; [apply Hl|by intros []].
Qed.
