(* ===== verification/DnsWire.v ===== *)
(** * DNS messages ([dns/src/wire.rs])

    The query encoder and the response parser: header checks, name
    decompression, resource records, and address selection through CNAME
    aliases. Offsets into a message are [nat]; 16- and 32-bit fields are [Z]. *)

From S2P Require Import Prelude RustStr RustNet DomainSet DnsBase.

Definition DNS_HEADER_BYTES : nat := 12.
Definition MAX_DNS_MESSAGE_BYTES : Z := 65535.
Definition MAX_DNS_ANSWER_RECORDS : Z := 512.
Definition MAX_DNS_NAME_POINTER_HOPS : nat := 32.
Definition MAX_DNS_ALIAS_HOPS : nat := 16.

Definition FLAG_QR : Z := 0x8000.
Definition FLAG_TC : Z := 0x0200.
Definition FLAG_RD : Z := 0x0100.
Definition RCODE_MASK : Z := 0x000f.
Definition CLASS_IN : Z := 1.
Definition TYPE_A : Z := 1.
Definition TYPE_CNAME : Z := 5.
Definition TYPE_AAAA : Z := 28.

Inductive AddressRecordType := A | Aaaa.
Definition code (t : AddressRecordType) : Z := match t with A => TYPE_A | Aaaa => TYPE_AAAA end.

Record ResourceRecord := {
  owner : str;
  rr_type : Z;
  class : Z;
  (** nanoseconds *)
  rr_ttl : Z;
  (** [rdata : Range<usize>] *)
  rdata_start : nat;
  rdata_end : nat;
}.

(** ** Fields *)
Definition read_u16 (message : bytes) (offset : nat) : result DnsError Z :=
  bytes ← ok_or (slice_get message offset (offset + 2)) invalid_response;
  Ok (be_value bytes).

Definition take_u16 (message : bytes) (offset : nat) : result DnsError (Z * nat) :=
  value ← read_u16 message offset; Ok (value, offset + 2).

Definition take_u32 (message : bytes) (offset : nat) : result DnsError (Z * nat) :=
  bytes ← ok_or (slice_get message offset (offset + 4)) invalid_response;
  Ok (be_value bytes, offset + 4).

Definition push_u16 (output : bytes) (value : Z) : bytes := output ++ u16_be value.

(** ** Names *)
Fixpoint encode_labels (labels : list str) (output : bytes) : result DnsError bytes :=
  match labels with
  | [] => Ok output
  | label :: labels' =>
      if (255 <? Z.of_nat (length label))%Z then Err (DnsError_new InvalidName)
      else if (length label =? 0) || (63 <? length label) then Err (DnsError_new InvalidName)
      else encode_labels labels' (output ++ [z2b (Z.of_nat (length label))] ++ label)
  end.

Definition encode_name (name : str) (output : bytes) : result DnsError bytes :=
  output ← encode_labels (split_on x2e name) output;
  let output := output ++ [x00] in
  if (MAX_DNS_MESSAGE_BYTES <? Z.of_nat (length output))%Z
  then Err (DnsError_new InvalidConfiguration)
  else Ok output.

(** The loop of [decode_name]. A pass follows one compression pointer or
    takes one label; 33 pointers and 254 label bytes end it, so
    [DECODE_FUEL] passes always suffice. *)
Definition DECODE_FUEL : nat := 300.

Fixpoint decode_name_loop (fuel : nat) (message : bytes) (cursor : nat) (resume : option nat)
    (labels : list str) (hops decoded_bytes : nat) : result DnsError (list str * nat) :=
  match fuel with
  | O => Panic
  | S fuel' =>
      length_byte ← ok_or (message !! cursor) invalid_response;
      let len := b2z length_byte in
      if (Z.land len 0xc0 =? 0xc0)%Z then
        second ← ok_or (message !! (cursor + 1)) invalid_response;
        let pointer := Z.to_nat (Z.lor (Z.shiftl (Z.land len 0x3f) 8) (b2z second)) in
        if length message <=? pointer then Err invalid_response
        else if cursor <=? pointer then Err invalid_response
        else
          let resume := match resume with None => Some (cursor + 2) | Some r => Some r end in
          let hops := hops + 1 in
          if MAX_DNS_NAME_POINTER_HOPS <? hops then Err invalid_response
          else decode_name_loop fuel' message pointer resume labels hops decoded_bytes
      else if negb (Z.land len 0xc0 =? 0)%Z then Err invalid_response
      else
        let cursor := cursor + 1 in
        if (len =? 0)%Z then Ok (labels, default cursor resume)
        else
          let len := Z.to_nat len in
          if 63 <? len then Err invalid_response
          else
            end_ ← ok_or (match checked_add cursor len with
                          | Some e => if e <=? length message then Some e else None
                          | None => None
                          end) invalid_response;
            raw ← slice message cursor end_;
            label ← ok_or (from_utf8 raw) invalid_response;
            if negb (is_ascii label) then Err invalid_response
            else
              decoded_bytes ← ok_or
                (checked_add decoded_bytes (len + (if length labels =? 0 then 0 else 1)))
                invalid_response;
              if 253 <? decoded_bytes then Err invalid_response
              else decode_name_loop fuel' message end_ resume
                     (labels ++ [to_ascii_lowercase label]) hops decoded_bytes
  end.

(** The name at [offset] and the offset after it. *)
Definition decode_name (message : bytes) (offset : nat) : result DnsError (str * nat) :=
  '(labels, offset) ← decode_name_loop DECODE_FUEL message offset None [] 0 0;
  if length labels =? 0 then Err invalid_response
  else
    name ← map_err (λ _, invalid_response) (normalize_name (join [x2e] labels));
    Ok (name, offset).

(** ** Queries *)
Definition encode_address_query (id : Z) (query : DnsQuery) (record_type : AddressRecordType)
    : result DnsError bytes :=
  let message := push_u16 [] id in
  let message := push_u16 message FLAG_RD in
  let message := push_u16 message 1 in
  let message := push_u16 message 0 in
  let message := push_u16 message 0 in
  let message := push_u16 message 0 in
  message ← encode_name (query_name query) message;
  let message := push_u16 message (code record_type) in
  Ok (push_u16 message CLASS_IN).

(** ** Responses *)
Definition min_ttl (current : option Z) (candidate : Z) : Z :=
  match current with Some c => Z.min c candidate | None => candidate end.

(** [Duration::from_secs] *)
Definition from_secs (s : Z) : Z := s * 1000000000.

(** The answer section: [n] records from [offset]. *)
Fixpoint parse_records (n : nat) (message : bytes) (offset : nat) (records : list ResourceRecord)
    : result DnsError (list ResourceRecord) :=
  match n with
  | O => Ok records
  | S n' =>
      '(owner, offset) ← decode_name message offset;
      '(rr_type, offset) ← take_u16 message offset;
      '(class, offset) ← take_u16 message offset;
      '(secs, offset) ← take_u32 message offset;
      '(rdlength, offset) ← take_u16 message offset;
      end_ ← ok_or (match checked_add offset (Z.to_nat rdlength) with
                    | Some e => if e <=? length message then Some e else None
                    | None => None
                    end) invalid_response;
      parse_records n' message end_
        (records ++ [{| owner := owner; rr_type := rr_type; class := class;
                        rr_ttl := from_secs secs; rdata_start := offset; rdata_end := end_ |}])
  end.

(** One pass over the records following CNAMEs of accepted owners: the
    accepted names, the least TTL of the aliases used, whether a name is new. *)
Fixpoint cname_pass (message : bytes) (records : list ResourceRecord)
    (accepted_names : gset str) (chain_ttl : option Z) (changed : bool)
    : result DnsError (gset str * option Z * bool) :=
  match records with
  | [] => Ok (accepted_names, chain_ttl, changed)
  | record :: records' =>
      if negb (class record =? CLASS_IN)%Z || negb (rr_type record =? TYPE_CNAME)%Z
         || negb (bool_decide (owner record ∈ accepted_names))
      then cname_pass message records' accepted_names chain_ttl changed
      else
        '(target, offset) ← decode_name message (rdata_start record);
        if negb (offset =? rdata_end record) then Err invalid_response
        else cname_pass message records' ({[ target ]} ∪ accepted_names)
               (Some (min_ttl chain_ttl (rr_ttl record)))
               (changed || negb (bool_decide (target ∈ accepted_names)))
  end.

Fixpoint alias_rounds (n : nat) (message : bytes) (records : list ResourceRecord)
    (accepted_names : gset str) (chain_ttl : option Z) : result DnsError (gset str * option Z) :=
  match n with
  | O => Ok (accepted_names, chain_ttl)
  | S n' =>
      '(accepted_names, chain_ttl, changed) ← cname_pass message records accepted_names chain_ttl false;
      if negb changed then Ok (accepted_names, chain_ttl)
      else if MAX_DNS_ALIAS_HOPS + 1 <? size accepted_names then Err invalid_response
      else alias_rounds n' message records accepted_names chain_ttl
  end.

(** The address a record of the requested type carries. *)
Definition record_address (record_type : AddressRecordType) (message : bytes) (record : ResourceRecord)
    : result DnsError IpAddr :=
  match record_type with
  | A =>
      if negb (rdata_end record - rdata_start record =? 4) then Err invalid_response
      else
        a ← index message (rdata_start record);
        b ← index message (rdata_start record + 1);
        c ← index message (rdata_start record + 2);
        d ← index message (rdata_start record + 3);
        Ok (V4 (be_value [a; b; c; d]))
  | Aaaa =>
      if negb (rdata_end record - rdata_start record =? 16) then Err invalid_response
      else
        octets ← slice message (rdata_start record) (rdata_end record);
        Ok (V6 (be_value octets))
  end.

Fixpoint collect_addresses (record_type : AddressRecordType) (message : bytes)
    (records : list ResourceRecord) (accepted_names : gset str)
    (addresses : list IpAddr) (ttl : option Z) : result DnsError (list IpAddr * option Z) :=
  match records with
  | [] => Ok (addresses, ttl)
  | record :: records' =>
      if negb (class record =? CLASS_IN)%Z || negb (rr_type record =? code record_type)%Z
         || negb (bool_decide (owner record ∈ accepted_names))
      then collect_addresses record_type message records' accepted_names addresses ttl
      else
        address ← record_address record_type message record;
        collect_addresses record_type message records' accepted_names
          (push_unique addresses address) (Some (min_ttl ttl (rr_ttl record)))
  end.

Definition resolve_addresses_through_aliases (query : DnsQuery) (record_type : AddressRecordType)
    (message : bytes) (records : list ResourceRecord) : result DnsError DnsAnswer :=
  '(accepted_names, chain_ttl) ←
    alias_rounds MAX_DNS_ALIAS_HOPS message records {[ query_name query ]} None;
  '(addresses, ttl) ← collect_addresses record_type message records accepted_names [] chain_ttl;
  DnsAnswer_new addresses ttl.

Definition parse_address_response (expected_id : Z) (query : DnsQuery)
    (record_type : AddressRecordType) (message : bytes) : result DnsError DnsAnswer :=
  if (length message <? DNS_HEADER_BYTES) || (MAX_DNS_MESSAGE_BYTES <? Z.of_nat (length message))%Z
  then Err invalid_response
  else
  id ← read_u16 message 0;
  if negb (id =? expected_id)%Z then Err invalid_response else
  flags ← read_u16 message 2;
  if (Z.land flags FLAG_QR =? 0)%Z then Err invalid_response else
  if negb (Z.land flags FLAG_TC =? 0)%Z then Err (DnsError_new ResolverFailure) else
  _ ← (if (Z.land flags RCODE_MASK =? 0)%Z then Ok tt
       else if (Z.land flags RCODE_MASK =? 3)%Z then Err (DnsError_new NoRecords)
       else Err (DnsError_new ResolverFailure));
  question_count ← read_u16 message 4;
  answer_count ← read_u16 message 6;
  if negb (question_count =? 1)%Z then Err invalid_response else
  if (MAX_DNS_ANSWER_RECORDS <? answer_count)%Z then Err invalid_response else
  '(question_name, offset) ← decode_name message DNS_HEADER_BYTES;
  if negb (bool_decide (question_name = query_name query)) then Err invalid_response else
  '(question_type, offset) ← take_u16 message offset;
  '(question_class, offset) ← take_u16 message offset;
  if negb (question_type =? code record_type)%Z || negb (question_class =? CLASS_IN)%Z
  then Err invalid_response else
  records ← parse_records (Z.to_nat answer_count) message offset [];
  resolve_addresses_through_aliases query record_type message records.

(** ** Decoding always terminates, within the message *)

(** How a decoding that started at [cursor] may end: after the name when no
    pointer was followed, and at the recorded offset otherwise. *)
Definition resume_ok (message : bytes) (cursor : nat) (resume : option nat) (off : nat) : Prop :=
  match resume with Some r => off = r | None => cursor < off ≤ length message end.

Lemma decode_name_loop_total fuel message cursor resume labels hops decoded :
  (MAX_DNS_NAME_POINTER_HOPS - hops) + (253 - decoded) < fuel →
  hops ≤ MAX_DNS_NAME_POINTER_HOPS → decoded ≤ 253 →
  match decode_name_loop fuel message cursor resume labels hops decoded with
  | Ok (_, off) => resume_ok message cursor resume off
  | Err e => e = invalid_response
  | Panic => False
  end.
Proof.
  revert cursor resume labels hops decoded; induction fuel as [|fuel IH];
    intros cursor resume labels hops decoded Hf Hh Hd; [lia|]. cbn [decode_name_loop].
  destruct (message !! cursor) as [b|] eqn:Eb; cbn [ok_or mbind result_bind]; [|done].
  apply lookup_lt_Some in Eb.
  destruct (Z.land _ _ =? 0xc0)%Z.
  - destruct (message !! (cursor + 1)) as [c|] eqn:Ec; cbn [ok_or mbind result_bind]; [|done].
    apply lookup_lt_Some in Ec. set (p := Z.to_nat _). clearbody p.
    destruct (length message <=? p) eqn:E1; [done|]. destruct (cursor <=? p) eqn:E2; [done|].
    cbv zeta. destruct (_ <? _) eqn:E3; [done|]. bool_to_prop.
    match goal with |- context [decode_name_loop _ _ p ?r] => specialize (IH p r labels (hops + 1) decoded) end.
    destruct (decode_name_loop fuel _ _ _ _ _ _) as [[ls off]|e|]; [|apply IH; lia..].
    assert (H : resume_ok message p (match resume with Some r => Some r | None => Some (cursor + 2) end) off)
      by (apply IH; lia).
    unfold resume_ok in *. destruct resume; [done|]. lia.
  - destruct (negb _); [done|]. destruct (_ =? 0)%Z eqn:E0.
    { destruct resume; cbn; lia. }
    destruct (63 <? _) eqn:E63; [done|]. bool_to_prop.
    set (len := Z.to_nat (b2z b)) in *. pose proof (b2z_range b).
    assert (1 ≤ len) by lia. clearbody len. clear E0.
    destruct (checked_add _ len) as [e|] eqn:Ece; cbn [ok_or mbind result_bind]; [|done].
    apply checked_add_Some in Ece as ->.
    destruct (_ <=? _) eqn:Ele; cbn [ok_or mbind result_bind]; [|done]. bool_to_prop.
    unfold slice. rewrite (proj2 (slice_get_Some _ _ _ _)) by (split; [lia|reflexivity]).
    cbn [ok_or mbind result_bind]. destruct (from_utf8 _) as [label|]; cbn [ok_or mbind result_bind]; [|done].
    destruct (negb _); [done|].
    destruct (checked_add decoded _) as [d|] eqn:Ed; cbn [ok_or mbind result_bind]; [|done].
    apply checked_add_Some in Ed. destruct (253 <? d) eqn:E4; [done|]. bool_to_prop.
    specialize (IH (cursor + 1 + len) resume (labels ++ [to_ascii_lowercase label]) hops d).
    destruct (decode_name_loop fuel _ _ _ _ _ _) as [[ls off]|er|]; [|apply IH; lia..].
    assert (Hr : resume_ok message (cursor + 1 + len) resume off) by (apply IH; lia).
    unfold resume_ok in *. destruct resume; [done|lia].
Qed.

Lemma decode_name_total message offset :
  match decode_name message offset with
  | Ok (name, off) => name_wf name ∧ offset < off ≤ length message
  | Err e => e = invalid_response
  | Panic => False
  end.
Proof.
  unfold decode_name.
  pose proof (decode_name_loop_total DECODE_FUEL message offset None [] 0 0) as H.
  destruct (decode_name_loop _ _ _ _ _ _ _) as [[labels off]|e|]; cbn [mbind result_bind].
  - destruct (_ =? 0); [done|].
    pose proof (normalize_name_no_panic (join [x2e] labels)).
    destruct (normalize_name _) as [n|e|] eqn:E; cbn; [|done..].
    split; [by eapply normalize_name_wf|].
    apply H; unfold DECODE_FUEL, MAX_DNS_NAME_POINTER_HOPS; lia.
  - apply H; unfold DECODE_FUEL, MAX_DNS_NAME_POINTER_HOPS; lia.
  - apply H; unfold DECODE_FUEL, MAX_DNS_NAME_POINTER_HOPS; lia.
Qed.

Lemma decode_name_ok message offset name off :
  decode_name message offset = Ok (name, off) → name_wf name ∧ offset < off ≤ length message.
Proof. intros H. pose proof (decode_name_total message offset) as T. by rewrite H in T. Qed.

Lemma decode_name_no_panic message offset : no_panic (decode_name message offset).
Proof. intros H. pose proof (decode_name_total message offset) as T. by rewrite H in T. Qed.
#[export] Hint Resolve decode_name_no_panic : commeatus.

(** ** Encoding *)

(** The wire form of a name. *)
Definition wire_labels (labels : list str) : bytes :=
  mjoin ((λ l, z2b (Z.of_nat (length l)) :: l) <$> labels).
Definition wire_name (name : str) : bytes := wire_labels (split_on x2e name) ++ [x00].

Lemma encode_labels_wf labels output :
  Forall (λ l, 1 ≤ length l ≤ 63) labels →
  encode_labels labels output = Ok (output ++ wire_labels labels).
Proof.
  intros H. revert output. induction H as [|l labels Hl _ IH]; intros output; cbn [encode_labels].
  - by rewrite app_nil_r.
  - rewrite (proj2 (Z.ltb_ge _ _)) by lia.
    rewrite (proj2 (Nat.eqb_neq _ _)), (proj2 (Nat.ltb_ge _ _)) by lia. cbn [orb].
    rewrite IH. unfold wire_labels. cbn. by rewrite <- !app_assoc.
Qed.

Lemma length_join sep labels :
  length (join sep labels) = sum_list (length <$> labels) + (length labels - 1) * length sep.
Proof.
  induction labels as [|l labels IH]; [done|]. destruct labels as [|l' labels]; [cbn; lia|].
  cbn [join]. rewrite !length_app. cbn [join] in IH. rewrite IH. cbn. lia.
Qed.

Lemma length_wire_labels labels : length (wire_labels labels) = sum_list (length <$> labels) + length labels.
Proof.
  induction labels as [|l labels IH]; [done|].
  change (wire_labels (l :: labels)) with ((z2b (Z.of_nat (length l)) :: l) ++ wire_labels labels).
  rewrite length_app, IH. cbn. lia.
Qed.

Lemma length_wire_name name : length (wire_name name) = length name + 2.
Proof.
  unfold wire_name. rewrite length_app, length_wire_labels.
  pose proof (length_join [x2e] (split_on x2e name)) as H. rewrite split_on_join in H.
  pose proof (split_on_ne_nil x2e name). destruct (split_on x2e name); [done|]. cbn in *. lia.
Qed.

Lemma encode_name_wf name output :
  name_wf name → encode_name name output =
    if (Z.of_nat (length output + length name + 2) <=? MAX_DNS_MESSAGE_BYTES)%Z then Ok (output ++ wire_name name)
    else Err (DnsError_new InvalidConfiguration).
Proof.
  intros (Hl & _ & _ & Hlab). unfold encode_name. rewrite encode_labels_wf by done.
  cbn [mbind result_bind]. pose proof (length_wire_name name) as Hw. unfold wire_name in Hw.
  rewrite <- app_assoc, length_app, Hw, Nat.add_assoc, Z.ltb_antisym. by destruct (_ <=? _)%Z.
Qed.

Lemma land_c0_small b : (b2z b < 64)%Z → Z.land (b2z b) 0xc0 = 0%Z.
Proof. by destruct b. Qed.

Lemma from_utf8_ascii s : is_ascii s = true → from_utf8 s = Some s.
Proof. intros H. unfold from_utf8. by rewrite (utf8_valid_ascii s H). Qed.

(** Decoding one plain label. *)
Lemma decode_label_step fuel pre l rest resume labels hops decoded :
  1 ≤ length l ≤ 63 → is_ascii l = true →
  let message := pre ++ (z2b (Z.of_nat (length l)) :: l) ++ rest in
  let sep := if length labels =? 0 then 0 else 1 in
  (Z.of_nat (length message) < 2 ^ 64)%Z → decoded + (length l + sep) ≤ 253 →
  decode_name_loop (S fuel) message (length pre) resume labels hops decoded =
  decode_name_loop fuel message (length (pre ++ z2b (Z.of_nat (length l)) :: l)) resume
    (labels ++ [to_ascii_lowercase l]) hops (decoded + (length l + sep)).
Proof.
  intros Hl Ha message sep Hm Hd. cbn [decode_name_loop].
  assert (message !! length pre = Some (z2b (Z.of_nat (length l)))) as -> by (by apply list_lookup_middle).
  cbn [ok_or mbind result_bind].
  assert (b2z (z2b (Z.of_nat (length l))) = Z.of_nat (length l)) as Hb by (apply b2z_z2b_small; lia).
  rewrite land_c0_small by lia. rewrite Hb.
  change (0 =? 0xc0)%Z with false. change (negb (0 =? 0)%Z) with false. cbn [negb].
  rewrite (proj2 (Z.eqb_neq _ _)) by lia. rewrite Nat2Z.id.
  rewrite (proj2 (Nat.ltb_ge 63 (length l))) by lia.
  assert (length message = length pre + S (length l) + length rest) as Hlen
    by (unfold message; rewrite !length_app; cbn; lia).
  rewrite (checked_add_small (length pre + 1)) by lia. cbv beta iota.
  rewrite (proj2 (Nat.leb_le (length pre + 1 + length l) (length message))) by lia. cbn [ok_or mbind result_bind].
  unfold slice.
  assert (slice_get message (length pre + 1) (length pre + 1 + length l) = Some l) as ->.
  { unfold message. replace (pre ++ (z2b (Z.of_nat (length l)) :: l) ++ rest)
      with ((pre ++ [z2b (Z.of_nat (length l))]) ++ l ++ rest) by (by rewrite <- app_assoc).
    apply slice_get_mid'; rewrite length_app; cbn; lia. }
  cbn [ok_or mbind result_bind]. rewrite from_utf8_ascii by done. cbn [ok_or mbind result_bind].
  rewrite Ha. cbn [negb]. fold sep. rewrite checked_add_small by lia. cbn [ok_or mbind result_bind].
  rewrite (proj2 (Nat.ltb_ge _ _)) by lia. f_equal. rewrite length_app. cbn. lia.
Qed.

Lemma decode_labels fuel pre ls post resume labels hops decoded :
  Forall (λ l, 1 ≤ length l ≤ 63 ∧ is_ascii l = true) ls →
  let message := pre ++ wire_labels ls ++ [x00] ++ post in
  (Z.of_nat (length message) < 2 ^ 64)%Z →
  decoded + sum_list (length <$> ls) + (if length labels =? 0 then length ls - 1 else length ls) ≤ 253 →
  length ls < fuel →
  decode_name_loop fuel message (length pre) resume labels hops decoded =
  Ok (labels ++ (to_ascii_lowercase <$> ls),
      default (length pre + length (wire_labels ls) + 1) resume).
Proof.
  intros Hls. revert fuel pre labels decoded.
  induction Hls as [|l ls [Hl Ha] _ IH]; intros fuel pre labels decoded message Hm Hd Hf;
    (destruct fuel as [|fuel]; [cbn in Hf; lia|]).
  - cbn [decode_name_loop].
    assert (message !! length pre = Some x00) as -> by (by apply list_lookup_middle). cbn.
    rewrite app_nil_r. do 2 f_equal. destruct resume; cbn; lia.
  - assert (message = pre ++ (z2b (Z.of_nat (length l)) :: l) ++ (wire_labels ls ++ [x00] ++ post)) as Em.
    { unfold message, wire_labels. cbn. by rewrite <- app_assoc. }
    rewrite Em. rewrite decode_label_step; [|done..|by rewrite <- Em|].
    2: { revert Hd. cbn. destruct (length labels =? 0); lia. }
    rewrite app_assoc. rewrite IH.
    + rewrite <- app_assoc. do 2 f_equal. destruct resume; [done|]. cbn [default].
      rewrite !length_wire_labels, !length_app. cbn. lia.
    + rewrite <- app_assoc, <- Em. done.
    + revert Hd. destruct labels; cbn; lia.
    + cbn in Hf. lia.
Qed.

Lemma is_ascii_pieces c s : is_ascii s = true → Forall (λ l, is_ascii l = true) (split_on c s).
Proof.
  intros H. apply Forall_forall. intros l Hl. unfold is_ascii in *.
  rewrite forallb_forall in *. intros b Hb. apply H.
  apply list_elem_of_In in Hb. apply list_elem_of_In.
  rewrite <- (split_on_join c s). clear H. revert Hl. generalize (split_on c s).
  intros ls Hl. induction ls as [|k ls IH]; [by apply not_elem_of_nil in Hl|].
  destruct ls as [|k' ls]; cbn [join].
  - apply list_elem_of_singleton in Hl as ->. done.
  - apply elem_of_cons in Hl as [->|Hl]; [apply elem_of_app; by left|].
    apply elem_of_app; right. apply elem_of_app; right. by apply IH.
Qed.

Lemma lower_pieces s :
  to_ascii_lowercase s = s → to_ascii_lowercase <$> split_on x2e s = split_on x2e s.
Proof. intros H. rewrite <- split_on_lower. by rewrite H. Qed.

(** The loop reads a name in wire form back, with or without a pointer
    followed before. *)
Lemma decode_wire_name fuel name pre post resume hops :
  name_wf name → (Z.of_nat (length pre + length name + 2 + length post) < 2 ^ 64)%Z → 200 < fuel →
  decode_name_loop fuel (pre ++ wire_name name ++ post) (length pre) resume [] hops 0 =
  Ok (split_on x2e name, default (length pre + length name + 2) resume).
Proof.
  intros (Hl & Ha & Hlow & Hlab) Hm Hf. unfold wire_name. rewrite <- !app_assoc.
  pose proof (length_join [x2e] (split_on x2e name)) as Hj. rewrite split_on_join in Hj. cbn [length] in Hj.
  pose proof (length_wire_labels (split_on x2e name)) as Hw.
  assert (length (split_on x2e name) ≤ sum_list (length <$> split_on x2e name)) as Hk.
  { clear -Hlab. induction Hlab as [|l ls Hl' _ IH]; cbn; lia. }
  pose proof (split_on_ne_nil x2e name).
  assert (1 ≤ length (split_on x2e name)) by (destruct (split_on x2e name); [done|cbn; lia]).
  unfold MAX_DOMAIN_LENGTH in Hl.
  rewrite decode_labels; cbn [length Nat.eqb]; [| |rewrite !length_app; cbn; lia|lia|lia].
  - rewrite lower_pieces by done. cbn [app]. do 2 f_equal. destruct resume; cbn [default]; [done|]. unfold default. lia.
  - apply Forall_and. split; [done|]. by apply is_ascii_pieces.
Qed.

Lemma decode_name_finish message offset name off :
  name_wf name →
  decode_name_loop DECODE_FUEL message offset None [] 0 0 = Ok (split_on x2e name, off) →
  decode_name message offset = Ok (name, off).
Proof.
  intros Hwf H. unfold decode_name. rewrite H. cbn [mbind result_bind].
  pose proof (split_on_ne_nil x2e name).
  rewrite (proj2 (Nat.eqb_neq _ _)) by (by destruct (split_on x2e name)).
  by rewrite split_on_join, normalize_name_id.
Qed.

Lemma decode_name_at name pre post :
  name_wf name → (Z.of_nat (length pre + length name + 2 + length post) < 2 ^ 64)%Z →
  decode_name (pre ++ wire_name name ++ post) (length pre) = Ok (name, length pre + length name + 2).
Proof.
  intros Hwf Hm. apply decode_name_finish; [done|].
  by rewrite decode_wire_name by (done || unfold DECODE_FUEL; lia).
Qed.

(** A compression pointer to an earlier name decodes to that name. *)
Lemma decode_pointer name pre post off :
  name_wf name → length pre < 256 → length pre < off →
  (Z.of_nat (length pre + length name + 2 + length post) < 2 ^ 64)%Z →
  let message := pre ++ wire_name name ++ post in
  message !! off = Some xc0 → message !! (off + 1) = Some (z2b (Z.of_nat (length pre))) →
  decode_name message off = Ok (name, off + 2).
Proof.
  intros Hwf Hp Hlt Hm message H0 H1. apply decode_name_finish; [done|].
  assert (∃ f, DECODE_FUEL = S f ∧ 200 < f) as (f & -> & Hf) by (exists 299; split; [done|lia]).
  cbn [decode_name_loop]. rewrite H0, H1. cbn [ok_or mbind result_bind].
  change (Z.land (b2z xc0) 0xc0 =? 0xc0)%Z with true. cbv iota.
  change (Z.shiftl (Z.land (b2z xc0) 0x3f) 8) with 0%Z. rewrite Z.lor_0_l, b2z_z2b_small by lia.
  rewrite Nat2Z.id. apply lookup_lt_Some in H0.
  rewrite (proj2 (Nat.leb_gt _ _)) by lia. rewrite (proj2 (Nat.leb_gt _ _)) by lia. cbv zeta.
  change (MAX_DNS_NAME_POINTER_HOPS <? 0 + 1) with false. cbv iota.
  unfold message. rewrite decode_wire_name by (done || lia). done.
Qed.

(** C27. Encoding a normalised name and decoding it again gives the same name,
    wherever in a message it stands and whatever follows it, and decoding
    stops right after it. The encoder refuses exactly when the message with
    the name would be over 65,535 bytes long. *)
Theorem name_round_trip name pre post :
  name_wf name → (Z.of_nat (length pre + length name + 2 + length post) < 2 ^ 64)%Z →
  if (Z.of_nat (length pre + length name + 2) <=? 65535)%Z
  then ∃ out, encode_name name pre = Ok out ∧ length out = length pre + length name + 2
         ∧ take (length pre) out = pre ∧ decode_name (out ++ post) (length pre) = Ok (name, length out)
  else encode_name name pre = Err (DnsError_new InvalidConfiguration).
Proof.
  intros Hwf Hm. rewrite encode_name_wf by done. change MAX_DNS_MESSAGE_BYTES with 65535%Z.
  destruct (_ <=? _)%Z; [|done]. exists (pre ++ wire_name name). split; [done|].
  assert (length (pre ++ wire_name name) = length pre + length name + 2) as Hlen
    by (rewrite length_app, length_wire_name; lia).
  split; [done|]. split; [by rewrite take_app_length|]. by rewrite <- app_assoc, decode_name_at, Hlen.
Qed.

Lemma name_round_trip_witness :
  ∃ out, encode_name (#"a.example") [x07] = Ok out ∧ length out = 12 ∧ take 1 out = [x07]
         ∧ decode_name (out ++ [x01]) 1 = Ok (#"a.example", 12).
Proof.
  pose proof (name_round_trip (#"a.example") [x07] [x01]) as H.
  change (Z.of_nat (length [x07] + length (#"a.example") + 2) <=? 65535)%Z with true in H.
  destruct H as (out & H1 & H2 & H3 & H4).
  - repeat split; try (vm_compute; lia || reflexivity).
    vm_compute. repeat constructor.
  - vm_compute. reflexivity.
  - exists out. change (length [x07]) with 1 in *. rewrite H2 in H4. split; [exact H1|].
    split; [exact H2|]. split; [exact H3|exact H4].
Defined.

(** ** The parser never panics *)
#[local] Opaque decode_name.

(** The data of a parsed record lies inside the message. *)
Definition rdata_ok (message : bytes) (r : ResourceRecord) : Prop :=
  rdata_start r ≤ rdata_end r ≤ length message.

Lemma read_u16_no_panic message offset : no_panic (read_u16 message offset).
Proof. apply bind_no_panic; auto with commeatus. Qed.
Lemma take_u16_no_panic message offset : no_panic (take_u16 message offset).
Proof. apply bind_no_panic; auto using read_u16_no_panic with commeatus. Qed.
Lemma take_u32_no_panic message offset : no_panic (take_u32 message offset).
Proof. apply bind_no_panic; auto with commeatus. Qed.
#[export] Hint Resolve read_u16_no_panic take_u16_no_panic take_u32_no_panic : commeatus.

Lemma parse_records_no_panic n message offset rs : no_panic (parse_records n message offset rs).
Proof. revert offset rs; induction n as [|n IH]; intros offset rs; cbn [parse_records]; np; apply IH. Qed.

Lemma take_u16_ok message offset v off : take_u16 message offset = Ok (v, off) → off = offset + 2.
Proof. unfold take_u16. intros H. inv_ok. by simplify_eq. Qed.

Lemma parse_records_ok n message offset rs rs' :
  parse_records n message offset rs = Ok rs' → Forall (rdata_ok message) rs →
  Forall (rdata_ok message) rs'.
Proof.
  revert offset rs; induction n as [|n IH]; intros offset rs H Hrs; cbn [parse_records] in H.
  - by inv_ok; subst.
  - repeat (apply bind_ok_inv in H as ([? ?] & _ & H)).
    apply bind_ok_inv in H as (e & He & H). inv_ok.
    eapply IH; [exact H|]. apply Forall_app. split; [done|]. apply Forall_singleton.
    destruct (checked_add _ _) eqn:Ec; [|done]. apply checked_add_Some in Ec.
    destruct (_ <=? _) eqn:El; [|done]. bool_to_prop. unfold rdata_ok. cbn. simplify_eq. lia.
Qed.

Lemma index_no_panic {E X} (l : list X) i : i < length l → no_panic (index (E:=E) l i).
Proof. intros H. unfold index. destruct (lookup_lt_is_Some_2 l i H) as [x ->]. done. Qed.

Lemma record_address_no_panic ty message r :
  rdata_ok message r → no_panic (record_address ty message r).
Proof.
  unfold rdata_ok, record_address. intros Hr. destruct ty; destruct (negb _) eqn:E; try done; bool_to_prop.
  - do 4 (apply bind_no_panic; [apply index_no_panic; lia|intros]). done.
  - apply bind_no_panic; [|done]. unfold slice.
    by rewrite (proj2 (slice_get_Some _ _ _ _)) by (split; [lia|reflexivity]).
Qed.

Lemma cname_pass_no_panic message rs acc c ch : no_panic (cname_pass message rs acc c ch).
Proof. revert acc c ch; induction rs; intros acc c ch; cbn [cname_pass]; np; auto. Qed.
#[export] Hint Resolve cname_pass_no_panic parse_records_no_panic : commeatus.

Lemma alias_rounds_no_panic n message rs acc c : no_panic (alias_rounds n message rs acc c).
Proof. revert acc c; induction n; intros acc c; cbn [alias_rounds]; np; auto. Qed.
#[export] Hint Resolve alias_rounds_no_panic : commeatus.

Lemma collect_addresses_no_panic ty message rs acc addrs t :
  Forall (rdata_ok message) rs → no_panic (collect_addresses ty message rs acc addrs t).
Proof.
  intros H. revert addrs t; induction H as [|r rs Hr _ IH]; intros addrs t; cbn [collect_addresses]; [done|].
  case_match; [done|]. apply bind_no_panic; [by apply record_address_no_panic|auto].
Qed.

Lemma parse_address_response_total id query ty message :
  no_panic (parse_address_response id query ty message).
Proof.
  unfold parse_address_response, resolve_addresses_through_aliases. np.
  all: apply collect_addresses_no_panic; eapply parse_records_ok; [eassumption|constructor].
Qed.

(** ** What an accepted answer rests on *)

(** [n] is the queried name or is reached from it through IN CNAME records of
    the message, none of which may be kept for less than [t]. *)
Inductive alias_chain (message : bytes) (records : list ResourceRecord) (q : str) (t : Z) : str → Prop :=
| chain_query : alias_chain message records q t q
| chain_link r target :
    alias_chain message records q t (owner r) → r ∈ records →
    class r = CLASS_IN → rr_type r = TYPE_CNAME →
    decode_name message (rdata_start r) = Ok (target, rdata_end r) → (t ≤ rr_ttl r)%Z →
    alias_chain message records q t target.

(** A bound below the least alias TTL seen so far. *)
Definition within (t : Z) (chain_ttl : option Z) : Prop :=
  match chain_ttl with Some c => (t ≤ c)%Z | None => True end.

Lemma within_min t c x : within t (Some (min_ttl c x)) ↔ within t c ∧ (t ≤ x)%Z.
Proof. destruct c; cbn; [|tauto]. lia. Qed.

Definition accepted_ok (message : bytes) (records : list ResourceRecord) (q : str)
    (accepted : gset str) (chain_ttl : option Z) : Prop :=
  ∀ t n, within t chain_ttl → n ∈ accepted → alias_chain message records q t n.

Lemma cname_pass_ok message all rs q acc c ch acc' c' ch' :
  rs ⊆ all → accepted_ok message all q acc c →
  cname_pass message rs acc c ch = Ok (acc', c', ch') → accepted_ok message all q acc' c'.
Proof.
  revert acc c ch; induction rs as [|r rs IH]; intros acc c ch Hsub Hacc H; cbn [cname_pass] in H.
  - by simplify_eq.
  - destruct (_ || _ || _) eqn:E.
    { eapply IH; [|exact Hacc|exact H]. set_solver. }
    bool_to_prop. apply bind_ok_inv in H as ([target off] & Hd & H).
    destruct (negb _) eqn:Eo; [done|]. bool_to_prop. subst off.
    eapply IH; [set_solver| |exact H].
    intros t n [Ht Hr]%within_min Hn. apply elem_of_union in Hn as [->%elem_of_singleton|Hn].
    + eapply chain_link; eauto. set_solver.
    + by apply Hacc.
Qed.

Lemma alias_rounds_ok n message all q acc c acc' c' :
  accepted_ok message all q acc c → alias_rounds n message all acc c = Ok (acc', c') →
  accepted_ok message all q acc' c'.
Proof.
  revert acc c; induction n as [|n IH]; intros acc c Hacc H; cbn [alias_rounds] in H; [by simplify_eq|].
  apply bind_ok_inv in H as ([[a1 c1] ch] & Hp & H).
  eapply cname_pass_ok in Hp; [|done|exact Hacc].
  destruct (negb ch); [by simplify_eq|]. case_match; [done|]. by eapply IH.
Qed.

(** An address the message carries for a name of the chain. *)
Definition supported (ty : AddressRecordType) (message : bytes) (records : list ResourceRecord)
    (q : str) (t : Z) (a : IpAddr) : Prop :=
  ∃ r, r ∈ records ∧ class r = CLASS_IN ∧ rr_type r = code ty
    ∧ alias_chain message records q t (owner r) ∧ (t ≤ rr_ttl r)%Z
    ∧ record_address ty message r = Ok a.

Lemma collect_addresses_ok ty message all rs q acc addrs t0 addrs' t' :
  rs ⊆ all → accepted_ok message all q acc t0 →
  (∀ t a, within t t0 → a ∈ addrs → supported ty message all q t a) →
  (addrs ≠ [] → is_Some t0) →
  collect_addresses ty message rs acc addrs t0 = Ok (addrs', t') →
  (∀ t a, within t t' → a ∈ addrs' → supported ty message all q t a)
  ∧ (addrs' ≠ [] → is_Some t').
Proof.
  revert addrs t0; induction rs as [|r rs IH]; intros addrs t0 Hsub Hacc Hadd Hne H;
    cbn [collect_addresses] in H.
  - by simplify_eq.
  - destruct (_ || _ || _) eqn:E.
    { eapply IH; [| | | |exact H]; [set_solver|done..]. }
    bool_to_prop. apply bind_ok_inv in H as (a & Ha & H).
    eapply IH; [| | | |exact H]; [set_solver|..].
    + intros t n [Ht _]%within_min Hn. by apply Hacc.
    + intros t x [Ht Hr]%within_min Hx. apply elem_of_push_unique in Hx as [Hx| ->]; [by apply Hadd|].
      exists r. split_and!; try done; [set_solver|by apply Hacc].
    + intros _. by eexists.
Qed.

(** C14. Parsing a response never panics, on any byte string: name
    decompression terminates, every slice and index is in range. An accepted
    response answers the question that was asked: it carries
    the expected transaction identifier, is an untruncated response without an
    error code, and its single question names the query, its type and class
    IN. Every address of the answer (one to sixteen, distinct) is the data of
    an IN record of the requested type whose owner is the queried name or is
    reached from it through CNAME records of the same message, and the answer's
    TTL exceeds neither that record's TTL nor the TTL of a link of that chain. *)
Theorem parse_address_response_sound id query ty message :
  parse_address_response id query ty message ≠ Panic
  ∧ ∀ a, parse_address_response id query ty message = Ok a →
  read_u16 message 0 = Ok id
  ∧ (∃ flags, read_u16 message 2 = Ok flags ∧ Z.land flags FLAG_QR ≠ 0
       ∧ Z.land flags FLAG_TC = 0 ∧ Z.land flags RCODE_MASK = 0)%Z
  ∧ read_u16 message 4 = Ok 1%Z
  ∧ ∃ n off records t,
      decode_name message DNS_HEADER_BYTES = Ok (query_name query, off)
      ∧ take_u16 message off = Ok (code ty, off + 2)
      ∧ take_u16 message (off + 2) = Ok (CLASS_IN, off + 2 + 2)
      ∧ read_u16 message 6 = Ok (Z.of_nat n)
      ∧ parse_records n message (off + 2 + 2) [] = Ok records
      ∧ answer_wf (addresses a) ∧ ttl a = Some t
      ∧ ∀ x, x ∈ addresses a → supported ty message records (query_name query) t x.
Proof.
  split; [apply parse_address_response_total|]. intros a H. unfold parse_address_response in H.
  destruct (_ || _); [done|].
  apply bind_ok_inv in H as (id' & Hid & H). destruct (negb _) eqn:E1; [done|]. bool_to_prop. subst id'.
  apply bind_ok_inv in H as (flags & Hfl & H). destruct (_ =? 0)%Z eqn:E2; [done|].
  destruct (negb _) eqn:E3; [done|]. bool_to_prop. apply bind_ok_inv in H as (? & Hrc & H).
  destruct (_ =? 0)%Z eqn:E4 in Hrc; [|by case_match]. bool_to_prop. clear Hrc.
  apply bind_ok_inv in H as (qc & Hqc & H). apply bind_ok_inv in H as (ac & Hac & H).
  destruct (negb _) eqn:E5; [done|]. destruct (_ <? _)%Z eqn:E6; [done|]. bool_to_prop. subst qc.
  apply bind_ok_inv in H as ([qn off] & Hqn & H). destruct (negb _) eqn:E7; [done|]. bool_to_prop. subst qn.
  apply bind_ok_inv in H as ([qt off1] & Hqt & H). apply bind_ok_inv in H as ([qcl off2] & Hqcl & H).
  destruct (_ || _) eqn:E8; [done|]. bool_to_prop.
  apply bind_ok_inv in H as (records & Hrs & H).
  pose proof (take_u16_ok _ _ _ _ Hqt) as ->. pose proof (take_u16_ok _ _ _ _ Hqcl) as ->. subst qt qcl.
  split; [done|]. split; [by exists flags|]. split; [done|].
  assert (0 ≤ ac)%Z as Hac0.
  { unfold read_u16 in Hac. inv_ok. pose proof (be_value_range x0). lia. }
  unfold resolve_addresses_through_aliases in H.
  apply bind_ok_inv in H as ([acc c] & Hal & H).
  apply bind_ok_inv in H as ([addrs t'] & Hco & H).
  eapply (alias_rounds_ok _ _ _ (query_name query)) in Hal.
  2: { intros t n _ ->%elem_of_singleton. constructor. }
  eapply (collect_addresses_ok _ _ records) in Hco; [|done|exact Hal|set_solver|done].
  destruct Hco as [Hsup Hne]. apply DnsAnswer_new_ok in H as (Hwf & Haddr & Httl).
  assert (addrs ≠ []) as Hnil.
  { intros ->. destruct Hwf as [[Hl _] _]. rewrite Haddr in Hl. cbn in Hl. lia. }
  destruct (Hne Hnil) as [t ->].
  exists (Z.to_nat ac), off, records, t. rewrite Z2Nat.id by done.
  split_and!; try done. intros y Hy. apply Hsup; [cbn; lia|].
  rewrite Haddr in Hy. apply deduplicate_bounded_spec in Hy.
  by eapply subseteq_take.
Qed.

(** ** TTLs are not negative *)
Definition ttl_ok (t : option Z) : Prop := ∀ s, t = Some s → (0 ≤ s)%Z.

Lemma min_ttl_ok t x : ttl_ok t → (0 ≤ x)%Z → ttl_ok (Some (min_ttl t x)).
Proof. intros Ht Hx s [= <-]. destruct t as [c|]; cbn; [specialize (Ht c eq_refl)|]; lia. Qed.

Lemma parse_records_ttl n message offset rs rs' :
  parse_records n message offset rs = Ok rs' → Forall (λ r, 0 ≤ rr_ttl r)%Z rs →
  Forall (λ r, 0 ≤ rr_ttl r)%Z rs'.
Proof.
  revert offset rs; induction n as [|n IH]; intros offset rs H Hrs; cbn [parse_records] in H.
  - by inv_ok; subst.
  - do 3 apply bind_ok_inv in H as ([? ?] & _ & H).
    apply bind_ok_inv in H as ([secs ?] & Hs & H).
    apply bind_ok_inv in H as ([? ?] & _ & H). apply bind_ok_inv in H as (e & _ & H).
    eapply IH; [exact H|]. apply Forall_app. split; [done|]. apply Forall_singleton. cbn.
    unfold take_u32 in Hs. apply bind_ok_inv in Hs as (bs & _ & [= <- _]).
    pose proof (be_value_range bs). unfold from_secs. lia.
Qed.

Lemma cname_pass_ttl message rs acc c ch acc' c' ch' :
  cname_pass message rs acc c ch = Ok (acc', c', ch') → Forall (λ r, 0 ≤ rr_ttl r)%Z rs →
  ttl_ok c → ttl_ok c'.
Proof.
  revert acc c ch; induction rs as [|r rs IH]; intros acc c ch H Hrs Hc; cbn [cname_pass] in H; [by simplify_eq|].
  apply Forall_cons in Hrs as [Hr Hrs]. case_match; [by eapply IH|].
  apply bind_ok_inv in H as ([? ?] & _ & H). case_match; [done|].
  eapply IH; [exact H|done|by apply min_ttl_ok].
Qed.

Lemma alias_rounds_ttl n message rs acc c acc' c' :
  alias_rounds n message rs acc c = Ok (acc', c') → Forall (λ r, 0 ≤ rr_ttl r)%Z rs →
  ttl_ok c → ttl_ok c'.
Proof.
  revert acc c; induction n as [|n IH]; intros acc c H Hrs Hc; cbn [alias_rounds] in H; [by simplify_eq|].
  apply bind_ok_inv in H as ([[a1 c1] ch] & Hp & H). eapply cname_pass_ttl in Hp; [|done..].
  case_match; [by simplify_eq|]. case_match; [done|]. by eapply IH.
Qed.

Lemma collect_addresses_ttl ty message rs acc addrs t addrs' t' :
  collect_addresses ty message rs acc addrs t = Ok (addrs', t') → Forall (λ r, 0 ≤ rr_ttl r)%Z rs →
  ttl_ok t → ttl_ok t'.
Proof.
  revert addrs t; induction rs as [|r rs IH]; intros addrs t H Hrs Ht; cbn [collect_addresses] in H; [by simplify_eq|].
  apply Forall_cons in Hrs as [Hr Hrs]. case_match; [by eapply IH|].
  apply bind_ok_inv in H as (a & _ & H). eapply IH; [exact H|done|by apply min_ttl_ok].
Qed.

(** What the resolver interface needs of a parsed answer. *)
Lemma parse_address_response_answer id query ty message a :
  parse_address_response id query ty message = Ok a → answer_wf (addresses a) ∧ ttl_ok (ttl a).
Proof.
  unfold parse_address_response. intros H. case_match; [done|].
  apply bind_ok_inv in H as (? & _ & H). case_match; [done|].
  apply bind_ok_inv in H as (? & _ & H). case_match; [done|]. case_match; [done|].
  apply bind_ok_inv in H as (? & _ & H). apply bind_ok_inv in H as (? & _ & H).
  apply bind_ok_inv in H as (? & _ & H). case_match; [done|]. case_match; [done|].
  apply bind_ok_inv in H as ([? ?] & _ & H). case_match; [done|].
  do 2 apply bind_ok_inv in H as ([? ?] & _ & H). case_match; [done|].
  apply bind_ok_inv in H as (rs & Hrs & H).
  apply parse_records_ttl in Hrs; [|constructor]. unfold resolve_addresses_through_aliases in H.
  apply bind_ok_inv in H as ([acc c] & Hal & H). apply alias_rounds_ttl in Hal; [|done..].
  apply bind_ok_inv in H as ([addrs t] & Hco & H). apply collect_addresses_ttl in Hco; [|done..].
  by apply DnsAnswer_new_ok in H as (? & _ & ->).
Qed.

(** ** A conforming response *)

(** One answer record whose owner is a pointer to the question name. *)
Definition addr_octets (a : IpAddr) : bytes :=
  match a with V4 z => be_bytes 4 z | V6 z => be_bytes 16 z end.
Definition answer_bytes (ty : AddressRecordType) (e : Z * IpAddr) : bytes :=
  [xc0; x0c] ++ u16_be (code ty) ++ u16_be CLASS_IN ++ be_bytes 4 e.1
  ++ u16_be (Z.of_nat (length (addr_octets e.2))) ++ addr_octets e.2.
Definition header_bytes (id n : Z) : bytes :=
  u16_be id ++ u16_be 0x8180 ++ u16_be 1 ++ u16_be n ++ u16_be 0 ++ u16_be 0.
Definition response_bytes (id : Z) (name : str) (ty : AddressRecordType) (es : list (Z * IpAddr)) : bytes :=
  header_bytes id (Z.of_nat (length es)) ++ wire_name name ++ u16_be (code ty) ++ u16_be CLASS_IN
  ++ mjoin (answer_bytes ty <$> es).

(** Addresses of the family the record type asks for. *)
Definition of_type (ty : AddressRecordType) (a : IpAddr) : Prop :=
  ip_wf a ∧ match ty, a with A, V4 _ | Aaaa, V6 _ => True | _, _ => False end.

Lemma slice_get_at {X} (l pre mid post : list X) a :
  l = pre ++ mid ++ post → a = length pre → slice_get l a (a + length mid) = Some mid.
Proof. intros -> ->. apply slice_get_mid. Qed.

Lemma take_u16_at message pre v post off :
  message = pre ++ u16_be v ++ post → off = length pre → is_u16 v →
  take_u16 message off = Ok (v, off + 2).
Proof.
  intros Hm -> Hv. unfold take_u16, read_u16.
  change 2 with (length (u16_be v)) at 1. rewrite (slice_get_at _ pre (u16_be v) post) by done.
  cbn [ok_or mbind result_bind]. unfold u16_be. by rewrite be_value_be_bytes_small.
Qed.

Lemma take_u32_at message pre v post off :
  message = pre ++ be_bytes 4 v ++ post → off = length pre → is_u32 v →
  take_u32 message off = Ok (v, off + 4).
Proof.
  intros Hm -> Hv. unfold take_u32.
  change 4 with (length (be_bytes 4 v)) at 1. rewrite (slice_get_at _ pre (be_bytes 4 v) post) by done.
  cbn [ok_or mbind result_bind]. by rewrite be_value_be_bytes_small.
Qed.

(** The four fixed fields between an owner and its data. *)
Lemma take_fixed_fields message pre t c s r post :
  message = pre ++ u16_be t ++ u16_be c ++ be_bytes 4 s ++ u16_be r ++ post →
  is_u16 t → is_u16 c → is_u32 s → is_u16 r →
  let off := length pre in
  take_u16 message off = Ok (t, off + 2) ∧ take_u16 message (off + 2) = Ok (c, off + 2 + 2)
  ∧ take_u32 message (off + 2 + 2) = Ok (s, off + 2 + 2 + 4)
  ∧ take_u16 message (off + 2 + 2 + 4) = Ok (r, off + 2 + 2 + 4 + 2).
Proof.
  intros -> Ht Hc Hs Hr off. split_and!.
  - by eapply take_u16_at.
  - eapply (take_u16_at _ (pre ++ u16_be t)); [by rewrite <- !app_assoc| |done]. by rewrite length_app.
  - eapply (take_u32_at _ (pre ++ u16_be t ++ u16_be c)); [by rewrite <- !app_assoc| |done].
    rewrite !length_app. unfold off, u16_be. rewrite !length_be_bytes. lia.
  - eapply (take_u16_at _ (pre ++ u16_be t ++ u16_be c ++ be_bytes 4 s)); [by rewrite <- !app_assoc| |done].
    rewrite !length_app. unfold off, u16_be. rewrite !length_be_bytes. lia.
Qed.

(** The records [parse_records] builds for the answers from offset [off]. *)
Fixpoint answer_records (name : str) (ty : AddressRecordType) (off : nat) (es : list (Z * IpAddr))
    : list ResourceRecord :=
  match es with
  | [] => []
  | e :: es' =>
      let start := off + 12 in
      let end_ := start + length (addr_octets e.2) in
      {| owner := name; rr_type := code ty; class := CLASS_IN; rr_ttl := from_secs e.1;
         rdata_start := start; rdata_end := end_ |} :: answer_records name ty end_ es'
  end.

Lemma is_u16_code ty : is_u16 (code ty).
Proof. by destruct ty. Qed.

Lemma length_addr_octets a : length (addr_octets a) = 4 ∨ length (addr_octets a) = 16.
Proof. destruct a; [by left|by right]. Qed.

Section conforming.
  Context (name : str) (ty : AddressRecordType) (header tail : bytes).
  Hypothesis (Hname : name_wf name) (Hheader : length header = 12).
(** The message up to the answer section. *)
Let front : bytes := header ++ wire_name name.

Lemma front_long : 12 < length front.
Proof. unfold front. rewrite length_app, length_wire_name. lia. Qed.

(** The owner of an answer is a pointer to the question's name. *)
Lemma answer_owner dn body :
  (Z.of_nat (length (front ++ dn ++ [xc0; x0c] ++ body)) < 2 ^ 64)%Z →
  decode_name (front ++ dn ++ [xc0; x0c] ++ body) (length (front ++ dn)) = Ok (name, length (front ++ dn) + 2).
Proof.
  pose proof front_long as Hfront. intros Hm. set (message := front ++ dn ++ [xc0; x0c] ++ body) in *.
  set (p0 := front ++ dn).
  assert (Hmsg : message = p0 ++ [xc0; x0c] ++ body) by (unfold message, p0; by rewrite <- !app_assoc).
  unfold message, front. rewrite <- app_assoc. apply decode_pointer; try done; rewrite ?Hheader; try lia.
  - unfold p0. rewrite length_app. lia.
  - unfold message, front in Hm. rewrite !length_app, length_wire_name in Hm. rewrite !length_app. lia.
  - rewrite app_assoc. fold front. fold message. rewrite Hmsg. by apply list_lookup_middle.
  - rewrite app_assoc. fold front. fold message. rewrite Hmsg. cbn [app]. rewrite cons_middle, app_assoc.
    apply list_lookup_middle. rewrite length_app. done.
Qed.

Lemma parse_records_conforming es done_ off rs :
  (Z.of_nat (length (front ++ done_ ++ mjoin (answer_bytes ty <$> es) ++ tail)) < 2 ^ 64)%Z →
  Forall (λ e, is_u32 e.1) es → off = length (front ++ done_) →
  parse_records (length es) (front ++ done_ ++ mjoin (answer_bytes ty <$> es) ++ tail) off rs
  = Ok (rs ++ answer_records name ty off es).
Proof.
  pose proof front_long as Hfront. intros Hm Hes. revert done_ off rs Hm. induction Hes as [|e es He _ IH]; intros dn off rs Hm ->.
  { cbn. by rewrite app_nil_r. }
  cbn [length parse_records answer_records].
  change (mjoin (answer_bytes ty <$> e :: es)) with (answer_bytes ty e ++ mjoin (answer_bytes ty <$> es)) in *.
  set (rest := mjoin (answer_bytes ty <$> es)) in *.
  assert (Hlen : length (answer_bytes ty e) = 12 + length (addr_octets e.2))
    by (unfold answer_bytes, u16_be; rewrite !length_app, !length_be_bytes; cbn; lia).
  set (message := front ++ dn ++ (answer_bytes ty e ++ rest) ++ tail) in *.
  set (p0 := front ++ dn).
  assert (Hmsg : message = p0 ++ [xc0; x0c] ++ u16_be (code ty) ++ u16_be CLASS_IN ++ be_bytes 4 e.1
    ++ u16_be (Z.of_nat (length (addr_octets e.2))) ++ addr_octets e.2 ++ rest ++ tail).
  { unfold message, p0, answer_bytes. by rewrite <- !app_assoc. }
  clearbody rest.
  assert (Hml : length message = length p0 + (12 + length (addr_octets e.2)) + length rest + length tail).
  { unfold message, p0. rewrite !length_app, Hlen. lia. }
  assert (Hdec : decode_name message (length p0) = Ok (name, length p0 + 2)).
  { rewrite Hmsg in Hm |- *. unfold p0 in Hm |- *. rewrite <- app_assoc in Hm |- *. by apply answer_owner. }
  rewrite Hdec. cbn [mbind result_bind].
  pose proof (length_addr_octets e.2).
  assert (is_u16 (Z.of_nat (length (addr_octets e.2)))) by (unfold is_u16; lia).
  destruct (take_fixed_fields message (p0 ++ [xc0; x0c]) (code ty) CLASS_IN e.1
    (Z.of_nat (length (addr_octets e.2))) (addr_octets e.2 ++ rest ++ tail)) as (F1 & F2 & F3 & F4);
    [by rewrite Hmsg, <- !app_assoc|apply is_u16_code|done..|].
  rewrite length_app in F1, F2, F3, F4. change (length [xc0; x0c]) with 2 in *.
  rewrite F1; cbn [mbind result_bind]. rewrite F2; cbn [mbind result_bind].
  rewrite F3; cbn [mbind result_bind]. rewrite F4; cbn [mbind result_bind].
  replace (length p0 + 2 + 2 + 2 + 4 + 2) with (length p0 + 12) by lia.
  rewrite Nat2Z.id, checked_add_small by lia. cbv beta iota.
  rewrite (proj2 (Nat.leb_le _ _)) by lia. cbn [ok_or mbind result_bind].
  replace message with (front ++ (dn ++ answer_bytes ty e) ++ rest ++ tail)
    by (unfold message; by rewrite <- !app_assoc).
  rewrite IH.
  - by rewrite <- app_assoc.
  - unfold message in Hm. rewrite <- !app_assoc in *. exact Hm.
  - unfold p0. rewrite !length_app, Hlen. lia.
Qed.
End conforming.

Lemma cname_pass_answers message name ty off es acc c ch :
  cname_pass message (answer_records name ty off es) acc c ch = Ok (acc, c, ch).
Proof.
  revert off; induction es as [|e es IH]; intros off; [done|]. cbn [answer_records cname_pass class rr_type].
  replace (code ty =? TYPE_CNAME)%Z with false by (by destruct ty). cbn [negb orb]. rewrite orb_true_r.
  cbn [orb]. apply IH.
Qed.

Lemma record_address_at ty message pre a post r :
  message = pre ++ addr_octets a ++ post → of_type ty a →
  rdata_start r = length pre → rdata_end r = length pre + length (addr_octets a) →
  record_address ty message r = Ok a.
Proof.
  intros -> [Hwf Hty] Hs He. unfold record_address. rewrite Hs, He.
  replace (length pre + length (addr_octets a) - length pre) with (length (addr_octets a)) by lia.
  destruct ty, a as [z|z]; try done; cbn [addr_octets].
  - assert (be_value (be_bytes 4 z) = z) as Hv by (apply be_value_be_bytes_small; exact Hwf).
    pose proof (length_be_bytes 4 z) as Hl. rewrite Hl. cbn [negb Nat.eqb].
    destruct (be_bytes 4 z) as [|b0 [|b1 [|b2 [|b3 [|]]]]]; cbn in Hl; try lia. clear Hl.
    assert (∀ i b, [b0; b1; b2; b3] !! i = Some b →
      index (E:=DnsError) (pre ++ [b0; b1; b2; b3] ++ post) (length pre + i) = Ok b) as Hi.
    { intros i b Hb. unfold index. rewrite lookup_app_r by lia.
      replace (length pre + i - length pre) with i by lia.
      rewrite lookup_app_l by (by eapply lookup_lt_Some). by rewrite Hb. }
    rewrite <- (Nat.add_0_r (length pre)) at 1.
    rewrite (Hi 0 b0), (Hi 1 b1), (Hi 2 b2), (Hi 3 b3) by done. cbn [mbind result_bind]. by rewrite Hv.
  - rewrite length_be_bytes. cbn [negb Nat.eqb]. unfold slice.
    rewrite (slice_get_mid' pre (be_bytes 16 z) post) by (rewrite ?length_be_bytes; done).
    cbn [mbind result_bind]. by rewrite be_value_be_bytes_small.
Qed.

(** The least TTL of the answers, in nanoseconds. *)
Definition answers_ttl (t : option Z) (es : list (Z * IpAddr)) : option Z :=
  foldl (λ t e, Some (min_ttl t (from_secs e.1))) t es.

Lemma collect_addresses_conforming (name : str) (ty : AddressRecordType) (message pre tail : bytes) (es : list (Z * IpAddr))
    (acc : gset str) addrs t :
  message = pre ++ mjoin (answer_bytes ty <$> es) ++ tail → name ∈ acc →
  Forall (λ e, of_type ty e.2) es →
  collect_addresses ty message (answer_records name ty (length pre) es) acc addrs t
  = Ok (foldl push_unique addrs es.*2, answers_ttl t es).
Proof.
  intros Hm Hin Hes. revert pre addrs t Hm. induction Hes as [|e es He _ IH]; intros pre addrs t Hm; [done|].
  cbn [answer_records collect_addresses owner class rr_type rr_ttl].
  rewrite !Z.eqb_refl, bool_decide_true by done. cbn [negb orb].
  set (pre' := pre ++ [xc0; x0c] ++ u16_be (code ty) ++ u16_be CLASS_IN ++ be_bytes 4 e.1
    ++ u16_be (Z.of_nat (length (addr_octets e.2)))).
  assert (length pre' = length pre + 12) as Hp'
    by (unfold pre', u16_be; rewrite !length_app, !length_be_bytes; cbn; lia).
  assert (message = pre' ++ addr_octets e.2 ++ mjoin (answer_bytes ty <$> es) ++ tail) as Hm'.
  { rewrite Hm. unfold pre'. cbn. unfold answer_bytes. by rewrite <- !app_assoc. }
  rewrite (record_address_at ty message pre' e.2 (mjoin (answer_bytes ty <$> es) ++ tail))
    by (done || (cbn; lia)). cbn [mbind result_bind].
  replace (length pre + 12 + length (addr_octets e.2)) with (length (pre' ++ addr_octets e.2))
    by (rewrite length_app; lia).
  rewrite IH by (rewrite Hm', <- !app_assoc; done). done.
Qed.

(** The header fields, whatever follows the header. *)
Lemma header_fields id n rest :
  is_u16 id → is_u16 n →
  let message := header_bytes id n ++ rest in
  read_u16 message 0 = Ok id ∧ read_u16 message 2 = Ok 0x8180%Z
  ∧ read_u16 message 4 = Ok 1%Z ∧ read_u16 message 6 = Ok n.
Proof.
  intros Hid Hn message.
  assert (∀ pre v post off, message = pre ++ u16_be v ++ post → off = length pre → is_u16 v →
    read_u16 message off = Ok v) as Hfield.
  { intros pre v post off E Ho Hv. pose proof (take_u16_at _ pre v post off E Ho Hv) as T.
    unfold take_u16 in T. by apply bind_ok_inv in T as (w & -> & [= ->]). }
  unfold message, header_bytes in *. rewrite <- !app_assoc in *. split_and!.
  - by eapply (Hfield []).
  - by eapply (Hfield (u16_be id)).
  - eapply (Hfield (u16_be id ++ u16_be 0x8180)); [by rewrite <- !app_assoc|done|done].
  - eapply (Hfield (u16_be id ++ u16_be 0x8180 ++ u16_be 1)); [by rewrite <- !app_assoc|done|done].
Qed.

Lemma resolve_conforming (name : str) (ty : AddressRecordType) (message pre tail : bytes) (es : list (Z * IpAddr)) :
  message = pre ++ mjoin (answer_bytes ty <$> es) ++ tail → answer_wf es.*2 →
  Forall (λ e, of_type ty e.2) es →
  resolve_addresses_through_aliases {| query_name := name |} ty message
    (answer_records name ty (length pre) es)
  = Ok {| addresses := es.*2; ttl := answers_ttl None es |}.
Proof.
  intros Hm Hwf Hty. unfold resolve_addresses_through_aliases, MAX_DNS_ALIAS_HOPS.
  cbn [alias_rounds query_name]. rewrite cname_pass_answers. cbn [mbind result_bind negb].
  rewrite (collect_addresses_conforming name ty message pre tail es) by (done || set_solver).
  cbn [mbind result_bind]. rewrite push_all_id by (cbn; apply Hwf). cbn [app].
  unfold DnsAnswer_new. rewrite deduplicate_bounded_id by done.
  rewrite (proj2 (Nat.eqb_neq _ _)); [done|]. destruct Hwf as [[Hl _] _]. lia.
Qed.

(** The question of a conforming response, read at the end of the header. *)
Lemma question_fields id n name ty (rest : bytes) :
  is_u16 id → name_wf name →
  let pre := header_bytes id n ++ wire_name name in
  let message := pre ++ (u16_be (code ty) ++ u16_be CLASS_IN) ++ rest in
  (Z.of_nat (length message) < 2 ^ 64)%Z →
  decode_name message DNS_HEADER_BYTES = Ok (name, length pre)
  ∧ take_u16 message (length pre) = Ok (code ty, length pre + 2)
  ∧ take_u16 message (length pre + 2) = Ok (CLASS_IN, length pre + 2 + 2).
Proof.
  intros Hid Hname pre message Hlen.
  assert (Hhdr : length (header_bytes id n) = 12)
    by (unfold header_bytes, u16_be; by rewrite !length_app, !length_be_bytes).
  assert (length pre = 12 + length name + 2) as Hpre
    by (unfold pre; rewrite length_app, Hhdr, length_wire_name; lia).
  split_and!.
  - unfold message, pre. rewrite <- !app_assoc. change DNS_HEADER_BYTES with 12. rewrite <- Hhdr at 1.
    rewrite decode_name_at; [do 2 f_equal; fold pre; rewrite Hpre, Hhdr; lia|done|].
    unfold message in Hlen. rewrite !length_app in *. lia.
  - apply (take_u16_at message pre (code ty) (u16_be CLASS_IN ++ rest)); [|done|apply is_u16_code].
    unfold message. by rewrite <- !app_assoc.
  - apply (take_u16_at message (pre ++ u16_be (code ty)) CLASS_IN rest);
      [unfold message; by rewrite <- !app_assoc|rewrite length_app; change (length (u16_be (code ty))) with 2; lia|done].
Qed.

(** C28. A conforming response is understood: for a normalised query and
    between one and sixteen distinct addresses of the requested family, the
    response that echoes the question and lists one record per address (owner
    compressed to the question name) parses to exactly those addresses, in
    order, with the least of the record TTLs. *)
Theorem parse_address_response_complete id name ty (es : list (Z * IpAddr)) (tail : bytes) :
  is_u16 id → name_wf name → answer_wf es.*2 →
  Forall (λ e, is_u32 e.1) es → Forall (λ e, of_type ty e.2) es →
  (Z.of_nat (length (response_bytes id name ty es ++ tail)) ≤ MAX_DNS_MESSAGE_BYTES)%Z →
  parse_address_response id {| query_name := name |} ty (response_bytes id name ty es ++ tail)
  = Ok {| addresses := es.*2; ttl := answers_ttl None es |}.
Proof.
  intros Hid Hname Hwf Hu32 Hty Hlen. set (n := Z.of_nat (length es)).
  assert (is_u16 n ∧ n ≤ MAX_DNS_ANSWER_RECORDS)%Z as [Hn Hn512].
  { destruct Hwf as [[_ Hle] _]. rewrite length_fmap in Hle.
    unfold n, is_u16, MAX_DNS_ANSWER_RECORDS, MAX_RESOLVED_ADDRESSES in *. lia. }
  set (message := response_bytes id name ty es ++ tail) in *. set (pre := header_bytes id n ++ wire_name name).
  set (q := u16_be (code ty) ++ u16_be CLASS_IN). set (ans := mjoin (answer_bytes ty <$> es)).
  assert (message = pre ++ q ++ ans ++ tail) as Hmsg.
  { unfold message, response_bytes, q, pre. by rewrite <- !app_assoc. }
  assert (length q = 4) as Hq by done.
  assert (12 ≤ length pre) as Hpre
    by (unfold pre, header_bytes, u16_be; rewrite !length_app, !length_be_bytes; lia).
  assert (length message = length pre + 4 + length ans + length tail) as Hlen'
    by (rewrite Hmsg, !length_app, Hq; lia).
  unfold MAX_DNS_MESSAGE_BYTES in Hlen.
  destruct (header_fields id n (wire_name name ++ q ++ ans ++ tail) Hid Hn) as (F0 & F2 & F4 & F6).
  rewrite app_assoc in F0, F2, F4, F6. fold pre in F0, F2, F4, F6. rewrite <- Hmsg in F0, F2, F4, F6.
  destruct (question_fields id n name ty (ans ++ tail) Hid Hname) as (Q0 & Q1 & Q2); [fold pre q; rewrite <- Hmsg; lia|].
  fold pre q in Q0, Q1, Q2. rewrite <- Hmsg in Q0, Q1, Q2. unfold parse_address_response.
  rewrite (proj2 (Nat.ltb_ge _ _)), (proj2 (Z.ltb_ge _ _)) by (unfold DNS_HEADER_BYTES, MAX_DNS_MESSAGE_BYTES; lia).
  cbn [orb]. rewrite F0; cbn [mbind result_bind]. rewrite Z.eqb_refl; cbn [negb].
  rewrite F2; cbn [mbind result_bind].
  change (Z.land 0x8180 FLAG_QR =? 0)%Z with false. change (Z.land 0x8180 FLAG_TC =? 0)%Z with true.
  change (Z.land 0x8180 RCODE_MASK =? 0)%Z with true. cbn [negb mbind result_bind].
  rewrite F4; cbn [mbind result_bind]. rewrite F6; cbn [mbind result_bind].
  change (1 =? 1)%Z with true. cbn [negb]. rewrite (proj2 (Z.ltb_ge _ _)) by done.
  rewrite Q0; cbn [mbind result_bind query_name]. rewrite bool_decide_true by done. cbn [negb].
  rewrite Q1; cbn [mbind result_bind]. rewrite Q2; cbn [mbind result_bind]. rewrite !Z.eqb_refl; cbn [negb orb].
  replace (length pre + 2 + 2) with (length (pre ++ q)) by (rewrite length_app, Hq; lia).
  rewrite app_assoc in Hmsg. unfold n. rewrite Nat2Z.id.
  assert (parse_records (length es) message (length (pre ++ q)) []
    = Ok ([] ++ answer_records name ty (length (pre ++ q)) es)) as ->.
  { rewrite Hmsg, <- app_assoc. apply (parse_records_conforming name ty (header_bytes id n) tail); try done.
    fold pre ans. rewrite !length_app, Hq. lia. }
  cbn [mbind result_bind app]. by apply (resolve_conforming name ty message (pre ++ q) tail).
Qed.

#[local] Transparent decode_name.

Lemma name_wf_example : name_wf (#"a.example").
Proof. repeat split; try (vm_compute; lia || reflexivity). vm_compute. repeat constructor. Qed.

Lemma parse_address_response_complete_witness :
  parse_address_response 7 {| query_name := #"a.example" |} A
    (response_bytes 7 (#"a.example") A [(60, V4 16909060)]%Z ++ [])
  = Ok {| addresses := [V4 16909060]; ttl := Some 60000000000%Z |}.
Proof.
  refine (parse_address_response_complete 7 (#"a.example") A [(60, V4 16909060)]%Z [] _ name_wf_example _ _ _ _).
  - done.
  - split; [cbn; unfold MAX_RESOLVED_ADDRESSES; lia|apply NoDup_singleton].
  - by repeat constructor.
  - by repeat constructor.
  - vm_compute. discriminate.
Defined.

Lemma parse_address_response_sound_witness :
  let message := response_bytes 7 (#"a.example") A [(60, V4 16909060)]%Z in
  ∃ a, parse_address_response 7 {| query_name := #"a.example" |} A message = Ok a
       ∧ V4 16909060 ∈ addresses a ∧ read_u16 message 0 = Ok 7%Z.
Proof.
  eexists. split; [vm_compute; reflexivity|]. split; [by constructor|].
  eapply (proj2 (parse_address_response_sound 7 {| query_name := #"a.example" |} A _)). vm_compute. reflexivity.
Defined.

(** A label that itself contains a dot is read as if it were two labels. *)
Lemma decode_name_dotted_label :
  decode_name [x03; x61; x2e; x62; x00] 0 = decode_name [x01; x61; x01; x62; x00] 0.
Proof. vm_compute. reflexivity. Qed.
