(* ===== verification/DnsCache.v ===== *)
(** * The resolver cache ([dns/src/lib.rs], [DnsCache])

    A bounded map from normalised names to address lists with an expiry.
    Instants and durations are nanoseconds in [Z]; the order in which the
    hash map yields its entries is a parameter. *)

From S2P Require Import Prelude RustStr RustNet DomainSet DnsBase.

Definition DEFAULT_CACHE_CAPACITY : Z := 4096.
Definition DEFAULT_CACHE_TTL : Z := 60 * 1000000000.
Definition MAX_CACHE_TTL : Z := 300 * 1000000000.

Record CacheEntry := {
  entry_addresses : list IpAddr;
  inserted : Z;
  expires : Z;
}.

Record DnsCache := {
  entries : gmap str CacheEntry;
  capacity : Z;
  max_ttl : Z;
}.

Definition DnsCache_defaults : DnsCache :=
  {| entries := ∅; capacity := DEFAULT_CACHE_CAPACITY; max_ttl := DEFAULT_CACHE_TTL |}.

Definition DnsCache_new (capacity ttl : Z) : result DnsError DnsCache :=
  if (capacity =? 0)%Z || (ttl =? 0)%Z || (MAX_CACHE_TTL <? ttl)%Z
  then Err (DnsError_new InvalidConfiguration)
  else Ok {| entries := ∅; capacity := capacity; max_ttl := ttl |}.

Definition set_entries (c : DnsCache) (m : gmap str CacheEntry) : DnsCache :=
  {| entries := m; capacity := capacity c; max_ttl := max_ttl c |}.

Definition DnsCache_get (c : DnsCache) (name : str) (now : Z) : DnsCache * option (list IpAddr) :=
  if match entries c !! name with Some e => (expires e <=? now)%Z | None => false end
  then (set_entries c (delete name (entries c)), None)
  else (c, match entries c !! name with Some e => Some (entry_addresses e) | None => None end).

(** [iter().min_by_key(|(_, entry)| entry.inserted)]: the first entry with
    the least key. *)
Definition min_by_inserted (l : list (str * CacheEntry)) : option (str * CacheEntry) :=
  foldl (λ best x,
    match best with
    | Some b => if (inserted b.2 <=? inserted x.2)%Z then Some b else Some x
    | None => Some x
    end) None l.

(** The lifetime an insertion grants. *)
Definition effective_ttl (c : DnsCache) (resolver_ttl : option Z) : Z :=
  Z.min (default (max_ttl c) resolver_ttl) (max_ttl c).

Section cache.
  (** The order of a hash map's iterator, some permutation of its entries. *)
  Context (iter : gmap str CacheEntry → list (str * CacheEntry)).

Definition DnsCache_insert (c : DnsCache) (name : str) (addrs : list IpAddr)
    (resolver_ttl : option Z) (now : Z) : DnsCache :=
  let ttl := effective_ttl c resolver_ttl in
  if (ttl =? 0)%Z then c
  else
    let m := filter (λ kv, (now < expires kv.2)%Z) (entries c) in
    let m :=
      if negb (bool_decide (is_Some (m !! name))) && (capacity c <=? Z.of_nat (size m))%Z
      then match min_by_inserted (iter m) with
           | Some oldest => delete oldest.1 m
           | None => m
           end
      else m in
    set_entries c (<[name := {| entry_addresses := addrs; inserted := now;
                                expires := (now + ttl)%Z |}]> m).

  Hypothesis iter_perm : ∀ m, iter m ≡ₚ map_to_list m.

(** The invariant: a bounded number of entries, each holding one to sixteen
    distinct addresses and living for at most the cache's TTL. *)
Definition cache_ok (c : DnsCache) : Prop :=
  (0 < capacity c ∧ 0 < max_ttl c ≤ MAX_CACHE_TTL)%Z
  ∧ (Z.of_nat (size (entries c)) ≤ capacity c)%Z
  ∧ ∀ name e, entries c !! name = Some e →
      answer_wf (entry_addresses e) ∧ (inserted e < expires e ≤ inserted e + max_ttl c)%Z.

Lemma DnsCache_new_ok capacity ttl c :
  (0 ≤ capacity)%Z → (0 ≤ ttl)%Z → DnsCache_new capacity ttl = Ok c → cache_ok c.
Proof.
  unfold DnsCache_new. intros Hc Ht H. destruct (_ || _ || _) eqn:E; [done|]. bool_to_prop.
  injection H as <-. split_and!; cbn; rewrite ?map_size_empty; try lia.
  intros name e. by rewrite lookup_empty.
Qed.

Lemma DnsCache_defaults_ok : cache_ok DnsCache_defaults.
Proof.
  unfold cache_ok. split_and!; try done; intros name e; cbn; by rewrite lookup_empty.
Qed.

Lemma DnsCache_get_ok c name now : cache_ok c → cache_ok (DnsCache_get c name now).1.
Proof.
  intros (Hc & Hs & He). unfold DnsCache_get. case_match; [|done].
  split; [done|]. cbn [fst set_entries entries capacity max_ttl]. split.
  - etrans; [|exact Hs]. apply inj_le. rewrite map_size_delete. case_match; lia.
  - intros n e [_ Hn]%lookup_delete_Some. by apply He in Hn.
Qed.

Lemma min_by_inserted_spec l :
  match min_by_inserted l with
  | Some b => b ∈ l ∧ ∀ x, x ∈ l → (inserted b.2 ≤ inserted x.2)%Z
  | None => l = []
  end.
Proof.
  unfold min_by_inserted. induction l as [|x l IH] using rev_ind; [done|].
  rewrite foldl_app. cbn. destruct (foldl _ None l) as [b|].
  - destruct IH as [Hb Hmin]. destruct (_ <=? _)%Z eqn:E; bool_to_prop.
    + split; [set_solver|]. intros y [Hy| ->%list_elem_of_singleton]%elem_of_app; auto.
    + split; [set_solver|]. intros y [Hy| ->%list_elem_of_singleton]%elem_of_app; [|done].
      apply Hmin in Hy. lia.
  - subst l. split; [set_solver|]. by intros y ->%list_elem_of_singleton.
Qed.

(** What the insertion keeps: the live entries, minus the oldest one when the
    cache is full and the name is new. *)
Definition kept (c : DnsCache) (name : str) (now : Z) : gmap str CacheEntry :=
  let m := filter (λ kv, (now < expires kv.2)%Z) (entries c) in
  if negb (bool_decide (is_Some (m !! name))) && (capacity c <=? Z.of_nat (size m))%Z
  then match min_by_inserted (iter m) with Some oldest => delete oldest.1 m | None => m end
  else m.

Lemma DnsCache_insert_eq c name addrs t now :
  DnsCache_insert c name addrs t now =
  if (effective_ttl c t =? 0)%Z then c
  else set_entries c (<[name := {| entry_addresses := addrs; inserted := now;
                                   expires := (now + effective_ttl c t)%Z |}]> (kept c name now)).
Proof. done. Qed.

Lemma kept_lookup c name now k e :
  kept c name now !! k = Some e → entries c !! k = Some e ∧ (now < expires e)%Z.
Proof.
  unfold kept. intros H.
  assert (filter (λ kv : str * CacheEntry, (now < expires kv.2)%Z) (entries c) !! k = Some e) as Hf.
  { destruct (_ && _); [|done]. destruct (min_by_inserted _); [|done].
    by apply lookup_delete_Some in H as [_ H]. }
  by apply map_lookup_filter_Some in Hf.
Qed.

Lemma kept_size c name now :
  (0 < capacity c)%Z → (Z.of_nat (size (entries c)) ≤ capacity c)%Z →
  (Z.of_nat (size (kept c name now)) < capacity c)%Z ∨ is_Some (kept c name now !! name).
Proof.
  intros Hc Hs. unfold kept. set (m := filter _ _).
  assert (size m ≤ size (entries c)) as Hle.
  { apply map_subseteq_size, map_filter_subseteq. }
  destruct (negb _) eqn:En; cbn [andb]; bool_to_prop; [|right; done].
  destruct (_ <=? _)%Z eqn:Ef; bool_to_prop; [|left; lia].
  left. pose proof (min_by_inserted_spec (iter m)) as Hmin.
  destruct (min_by_inserted (iter m)) as [[k e]|].
  - destruct Hmin as [Hin _]. rewrite iter_perm in Hin. apply elem_of_map_to_list in Hin.
    cbn. rewrite map_size_delete_Some by done. 
    assert (size m ≠ 0) by (intros E; apply map_size_empty_inv in E; by rewrite E, lookup_empty in Hin). lia.
  - assert (map_to_list m = []) as Hnil.
    { apply Permutation_nil. rewrite <- iter_perm, Hmin. done. }
    apply map_to_list_empty_iff in Hnil. rewrite Hnil, map_size_empty in *. lia.
Qed.

Lemma DnsCache_insert_ok c name addrs t now :
  answer_wf addrs → (∀ s, t = Some s → 0 ≤ s)%Z →
  cache_ok c → cache_ok (DnsCache_insert c name addrs t now).
Proof.
  intros Ha Ht (Hc & Hs & He). rewrite DnsCache_insert_eq.
  assert (0 ≤ effective_ttl c t ≤ max_ttl c)%Z as Hett.
  { unfold effective_ttl. destruct t as [s|]; cbn; [specialize (Ht s eq_refl)|]; lia. }
  destruct (_ =? 0)%Z eqn:E0; [done|]. bool_to_prop.
  split; [done|]. cbn [set_entries entries capacity max_ttl]. split.
  - destruct (kept_size c name now) as [Hk|[x Hk]]; [lia|done| |].
    + rewrite map_size_insert. case_match; unfold id; lia.
    + rewrite map_size_insert, Hk. unfold id.
      assert (size (kept c name now) ≤ size (entries c)); [|lia].
      apply map_subseteq_size, map_subseteq_spec. intros k e H. by apply kept_lookup in H as [? _].
  - intros n e [[<- <-]|[Hne H]]%lookup_insert_Some; cbn; [split; [done|lia]|].
    apply kept_lookup in H as [H _]. by apply He in H.
Qed.

(** The operations any interleaving of resolver threads performs on the
    shared cache, each under its lock; the instants are those the threads
    read, in any order. *)
Inductive cache_step (c : DnsCache) : DnsCache → Prop :=
| step_get name now : cache_step c (DnsCache_get c name now).1
| step_insert name addrs t now :
    answer_wf addrs → (∀ s, t = Some s → 0 ≤ s)%Z → cache_step c (DnsCache_insert c name addrs t now).

Lemma cache_steps_ok c c' :
  rtc cache_step c c' → cache_ok c → cache_ok c' ∧ capacity c' = capacity c ∧ max_ttl c' = max_ttl c.
Proof.
  induction 1 as [c|c c1 c2 Hs _ IH]; intros Hc; [done|].
  assert (cache_ok c1 ∧ capacity c1 = capacity c ∧ max_ttl c1 = max_ttl c) as (H1 & Hcap & Htt).
  { inversion Hs as [name now|name addrs t now Ha Ht]; subst; clear Hs.
    - split; [by apply DnsCache_get_ok|]. unfold DnsCache_get. by case_match.
    - split; [by apply DnsCache_insert_ok|]. rewrite DnsCache_insert_eq. by case_match. }
  destruct (IH H1) as (? & ? & ?). split_and!; [done|congruence..].
Qed.

(** C29. Whatever the threads do to it and whatever their clocks say, a cache
    created with a capacity and a TTL never holds more entries than its
    capacity, every entry holds one to sixteen distinct addresses, and no
    entry outlives the configured TTL, which is at most 300 seconds. *)
Theorem cache_bounded cap t c0 c :
  (0 ≤ cap)%Z → (0 ≤ t)%Z → DnsCache_new cap t = Ok c0 → rtc cache_step c0 c →
  (Z.of_nat (size (entries c)) ≤ cap)%Z
  ∧ ∀ name e, entries c !! name = Some e →
      answer_wf (entry_addresses e)
      ∧ (inserted e < expires e ≤ inserted e + t)%Z ∧ (t ≤ MAX_CACHE_TTL)%Z.
Proof.
  intros Hcap Ht Hnew Hs. pose proof (DnsCache_new_ok _ _ _ Hcap Ht Hnew) as H0.
  destruct (cache_steps_ok _ _ Hs H0) as ((Hb & Hsz & He) & Ec & Et).
  unfold DnsCache_new in Hnew. destruct (_ || _ || _); [done|]. injection Hnew as <-.
  cbn in Ec, Et. rewrite Ec, Et in *. split; [done|]. intros name e Hn.
  destruct (He _ _ Hn). split_and!; [done|lia..].
Qed.

Lemma DnsCache_insert_lookup c name addrs t now :
  effective_ttl c t ≠ 0%Z →
  entries (DnsCache_insert c name addrs t now) !! name =
  Some {| entry_addresses := addrs; inserted := now; expires := (now + effective_ttl c t)%Z |}.
Proof.
  intros Ht. rewrite DnsCache_insert_eq, (proj2 (Z.eqb_neq _ _)) by done.
  cbn. by rewrite lookup_insert_eq.
Qed.

(** An inserted answer is served until, and only until, its effective TTL has
    passed. *)
Lemma cache_get_after_insert c name addrs t now now' :
  let c' := DnsCache_insert c name addrs t now in
  let life := effective_ttl c t in
  (life = 0%Z → c' = c)
  ∧ (life ≠ 0%Z → (now' < now + life)%Z → DnsCache_get c' name now' = (c', Some addrs))
  ∧ (life ≠ 0%Z → (now + life ≤ now')%Z →
       (DnsCache_get c' name now').2 = None ∧ entries (DnsCache_get c' name now').1 !! name = None).
Proof.
  cbn zeta. split_and!.
  - intros Ht. by rewrite DnsCache_insert_eq, Ht.
  - intros Ht Hn. unfold DnsCache_get. rewrite DnsCache_insert_lookup by done. cbn [expires entry_addresses].
    by rewrite (proj2 (Z.leb_gt _ _)).
  - intros Ht Hn. unfold DnsCache_get. rewrite DnsCache_insert_lookup by done. cbn [expires entry_addresses].
    rewrite (proj2 (Z.leb_le _ _)) by done. cbn. by rewrite lookup_delete_eq.
Qed.

(** What an insertion does to the entries of other names. *)
Lemma cache_insert_others c name addrs t now k :
  k ≠ name → effective_ttl c t ≠ 0%Z →
  let c' := DnsCache_insert c name addrs t now in
  (∀ e, entries c' !! k = Some e → entries c !! k = Some e ∧ (now < expires e)%Z)
  ∧ (∀ e, entries c !! k = Some e → (now < expires e)%Z → entries c' !! k = None →
       let live := filter (λ kv, (now < expires kv.2)%Z) (entries c) in
       live !! name = None ∧ (capacity c ≤ Z.of_nat (size live))%Z
       ∧ ∀ k' e', live !! k' = Some e' → (inserted e ≤ inserted e')%Z).
Proof.
  intros Hk Ht. cbn zeta. rewrite DnsCache_insert_eq, (proj2 (Z.eqb_neq _ _)) by done.
  cbn [set_entries entries]. rewrite lookup_insert_ne by done. split.
  - intros e He. by apply kept_lookup in He.
  - intros e He Hl Hnone. unfold kept in Hnone. set (live := filter _ _) in *.
    assert (live !! k = Some e) as Hlive by (by apply map_lookup_filter_Some).
    destruct (negb _ && _) eqn:Ev; [|congruence]. bool_to_prop.
    split; [by apply eq_None_not_Some|]. split; [done|].
    pose proof (min_by_inserted_spec (iter live)) as Hmin.
    destruct (min_by_inserted (iter live)) as [[o eo]|]; [|congruence].
    destruct Hmin as [Hin Hmin]. apply lookup_delete_None in Hnone as [Ho|Ho]; [|congruence].
    cbn in Ho. subst o. rewrite iter_perm in Hin. apply elem_of_map_to_list in Hin. simplify_eq.
    intros k' e' Hk'. apply (Hmin (k', e')). rewrite iter_perm. by apply elem_of_map_to_list.
Qed.

(** C30. What an insertion does to the cache. The inserted answer is served
    unchanged until, and only until, its effective TTL (the resolver's, capped
    by the cache's) has passed; an answer with TTL zero is not stored at all.
    No other name's entry is invented or altered, and a live entry of another
    name is dropped only when the inserted name is new, the live entries fill
    the capacity, and no live entry is older. *)
Theorem cache_insert_spec c name addrs t now :
  let c' := DnsCache_insert c name addrs t now in
  let life := effective_ttl c t in
  let live := filter (λ kv, (now < expires kv.2)%Z) (entries c) in
  (life = 0%Z → c' = c)
  ∧ (life ≠ 0%Z → ∀ now', (now' < now + life)%Z → DnsCache_get c' name now' = (c', Some addrs))
  ∧ (life ≠ 0%Z → ∀ now', (now + life ≤ now')%Z →
       (DnsCache_get c' name now').2 = None ∧ entries (DnsCache_get c' name now').1 !! name = None)
  ∧ (life ≠ 0%Z → ∀ k e, k ≠ name → entries c' !! k = Some e → entries c !! k = Some e ∧ (now < expires e)%Z)
  ∧ (life ≠ 0%Z → ∀ k e, k ≠ name → entries c !! k = Some e → (now < expires e)%Z → entries c' !! k = None →
       live !! name = None ∧ (capacity c ≤ Z.of_nat (size live))%Z
       ∧ ∀ k' e', live !! k' = Some e' → (inserted e ≤ inserted e')%Z).
Proof.
  cbn zeta. split; [apply (cache_get_after_insert c name addrs t now now)|]. split_and!.
  - intros Ht now' Hn. by apply cache_get_after_insert.
  - intros Ht now' Hn. by apply cache_get_after_insert.
  - intros Ht k e Hk. by apply (cache_insert_others c name addrs t now k Hk Ht).
  - intros Ht k e Hk. by apply (cache_insert_others c name addrs t now k Hk Ht).
Qed.
End cache.

Lemma cache_bounded_witness :
  ∃ c0, DnsCache_new 1 5 = Ok c0
    ∧ (Z.of_nat (size (entries (DnsCache_insert map_to_list
          (DnsCache_insert map_to_list c0 (#"a") [V4 1] None 0) (#"b") [V4 2] (Some 3) 1))) ≤ 1)%Z.
Proof.
  eexists. split; [reflexivity|].
  eapply (cache_bounded map_to_list (λ m, reflexivity (map_to_list m)) 1 5); [done|done|reflexivity|].
  eapply rtc_l; [apply (step_insert map_to_list _ (#"a") [V4 1] None 0); [apply answer_wf_singleton|done]|].
  eapply rtc_once. apply (step_insert map_to_list _ (#"b") [V4 2] (Some 3%Z) 1); [apply answer_wf_singleton|].
  by intros s [= <-].
Defined.

Definition full_cache : DnsCache :=
  {| entries := {[ #"a" := {| entry_addresses := [V4 1]; inserted := 0; expires := 10 |} ]};
     capacity := 1; max_ttl := 10 |}.

Lemma cache_insert_spec_witness :
  let live := filter (λ kv, (3 < expires kv.2)%Z) (entries full_cache) in
  entries (DnsCache_insert map_to_list full_cache (#"b") [V4 2] None 3) !! (#"a") = None
  ∧ live !! (#"b") = None ∧ (capacity full_cache ≤ Z.of_nat (size live))%Z.
Proof.
  destruct (cache_insert_spec map_to_list (λ m, reflexivity (map_to_list m)) full_cache (#"b") [V4 2] None 3)
    as (_ & _ & _ & _ & H).
  assert (entries (DnsCache_insert map_to_list full_cache (#"b") [V4 2] None 3) !! (#"a") = None) as Hn
    by (vm_compute; reflexivity).
  split; [exact Hn|].
  destruct (H ltac:(done) (#"a") {| entry_addresses := [V4 1]; inserted := 0; expires := 10 |} ltac:(done)
    eq_refl eq_refl Hn) as (H1 & H2 & _).
  split; [exact H1|exact H2].
Defined.
