(* ===== verification/DnsEngine.v ===== *)
(** * The DNS engine ([dns/src/lib.rs], [Resolver], [SystemResolver], [DnsEngine])

    Hosts table, cache and resolver chain behind one [resolve]. A resolver is
    a function that may change the world it runs in (sockets, sessions); what
    it promises its client is the class [Resolver]. *)

From S2P Require Import Prelude RustStr RustNet DomainSet DnsBase DnsCache.

(** [trait Resolver] *)
Definition resolver (W : Type) : Type := W → DnsQuery → W * result DnsError DnsAnswer.

(** What the trait's implementations promise: answers come from
    [DnsAnswer::new], durations are not negative, and the call returns. *)
Class Resolver {W} (r : resolver W) : Prop := {
  resolver_answer : ∀ w q w' a, r w q = (w', Ok a) →
    answer_wf (addresses a) ∧ (∀ s, ttl a = Some s → 0 ≤ s)%Z;
  resolver_returns : ∀ w q w', r w q ≠ (w', Panic);
}.

(** [SystemResolver]: [to_socket_addrs] of the operating system is a
    parameter, [None] for its error. *)
Definition SystemResolver_resolve {W} (to_socket_addrs : W → str → W * option (list SocketAddr))
    : resolver W := λ w query,
  match to_socket_addrs w (query_name query) with
  | (w, None) => (w, Err (DnsError_new ResolverFailure))
  | (w, Some addresses) =>
      let result := foldl (λ v a, push_unique v (sock_ip a)) [] (take MAX_RESOLVED_ADDRESSES addresses) in
      (w, if length result =? 0 then Err (DnsError_new NoRecords) else DnsAnswer_new result None)
  end.

#[global] Instance SystemResolver_Resolver {W} (f : W → str → W * option (list SocketAddr)) :
  Resolver (SystemResolver_resolve f).
Proof.
  split; intros w q w'; unfold SystemResolver_resolve.
  - intros a. destruct (f w (query_name q)) as [w1 [l|]]; [|done]. intros [= <- H].
    case_match; [done|]. apply DnsAnswer_new_ok in H as (? & _ & ->). done.
  - destruct (f w (query_name q)) as [w1 [l|]]; [|done]. intros [= _ H].
    case_match; [done|]. by apply DnsAnswer_new_no_panic in H.
Qed.

Record DnsStats := {
  hosts_hits : Z;
  cache_hits : Z;
  cache_misses : Z;
  resolver_failures : Z;
}.
Definition DnsStats_default : DnsStats :=
  {| hosts_hits := 0; cache_hits := 0; cache_misses := 0; resolver_failures := 0 |}.

(** [AtomicU64::fetch_add(1)] wraps. *)
Definition fetch_add1 (v : Z) : Z := (v + 1) mod 2 ^ 64.

Section engine.
  Context {W : Type} (iter : gmap str CacheEntry → list (str * CacheEntry)).

Record DnsEngine := {
  hosts : HostsTable;
  cache : DnsCache;
  (** the cache's mutex is poisoned *)
  cache_poisoned : bool;
  resolvers : list (resolver W);
  stats : DnsStats;
}.

Definition set_cache (e : DnsEngine) (c : DnsCache) : DnsEngine :=
  {| hosts := hosts e; cache := c; cache_poisoned := cache_poisoned e;
     resolvers := resolvers e; stats := stats e |}.
Definition count (f : DnsStats → DnsStats) (e : DnsEngine) : DnsEngine :=
  {| hosts := hosts e; cache := cache e; cache_poisoned := cache_poisoned e;
     resolvers := resolvers e; stats := f (stats e) |}.
Definition count_hosts_hit : DnsEngine → DnsEngine := count (λ s,
  {| hosts_hits := fetch_add1 (hosts_hits s); cache_hits := cache_hits s;
     cache_misses := cache_misses s; resolver_failures := resolver_failures s |}).
Definition count_cache_hit : DnsEngine → DnsEngine := count (λ s,
  {| hosts_hits := hosts_hits s; cache_hits := fetch_add1 (cache_hits s);
     cache_misses := cache_misses s; resolver_failures := resolver_failures s |}).
Definition count_cache_miss : DnsEngine → DnsEngine := count (λ s,
  {| hosts_hits := hosts_hits s; cache_hits := cache_hits s;
     cache_misses := fetch_add1 (cache_misses s); resolver_failures := resolver_failures s |}).
Definition count_failure : DnsEngine → DnsEngine := count (λ s,
  {| hosts_hits := hosts_hits s; cache_hits := cache_hits s;
     cache_misses := cache_misses s; resolver_failures := fetch_add1 (resolver_failures s) |}).

Definition DnsEngine_system (to_socket_addrs : W → str → W * option (list SocketAddr))
    (hosts : HostsTable) : DnsEngine :=
  {| hosts := hosts; cache := DnsCache_defaults; cache_poisoned := false;
     resolvers := [SystemResolver_resolve to_socket_addrs]; stats := DnsStats_default |}.

Definition DnsEngine_with_resolvers (hosts : HostsTable) (resolvers : list (resolver W))
    (cache_capacity cache_ttl : Z) : result DnsError DnsEngine :=
  if length resolvers =? 0 then Err (DnsError_new NoResolvers)
  else
    cache ← DnsCache_new cache_capacity cache_ttl;
    Ok {| hosts := hosts; cache := cache; cache_poisoned := false;
          resolvers := resolvers; stats := DnsStats_default |}.

(** The loop over the resolvers. *)
Fixpoint try_resolvers (rs : list (resolver W)) (query : DnsQuery) (now : Z)
    (e : DnsEngine) (w : W) (last_error : option DnsError)
    : DnsEngine * W * result DnsError (list IpAddr) :=
  match rs with
  | [] => (e, w, Err (default (DnsError_new NoRecords) last_error))
  | r :: rs' =>
      match r w query with
      | (w, Ok answer) =>
          let addrs := deduplicate_bounded (addresses answer) in
          if length addrs =? 0
          then try_resolvers rs' query now e w (Some (DnsError_new NoRecords))
          else if cache_poisoned e then (e, w, Err (DnsError_new ResolverFailure))
          else (set_cache e (DnsCache_insert iter (cache e) (query_name query) addrs (ttl answer) now),
                w, Ok addrs)
      | (w, Err error) => try_resolvers rs' query now (count_failure e) w (Some error)
      | (w, Panic) => (e, w, Panic)
      end
  end.

(** [now] is the instant the call reads after the hosts lookup. *)
Definition DnsEngine_resolve (e : DnsEngine) (w : W) (now : Z) (name : str)
    : DnsEngine * W * result DnsError (list IpAddr) :=
  match DnsQuery_new name with
  | Err error => (e, w, Err error)
  | Panic => (e, w, Panic)
  | Ok query =>
      match HostsTable_resolve (hosts e) (query_name query) with
      | Some addresses => (count_hosts_hit e, w, Ok addresses)
      | None =>
          if cache_poisoned e then (e, w, Err (DnsError_new ResolverFailure))
          else
            let '(c, hit) := DnsCache_get (cache e) (query_name query) now in
            let e := set_cache e c in
            match hit with
            | Some addresses => (count_cache_hit e, w, Ok addresses)
            | None => try_resolvers (resolvers e) query now (count_cache_miss e) w None
            end
      end
  end.

(** ** Behaviour *)
  Hypothesis iter_perm : ∀ m, iter m ≡ₚ map_to_list m.

(** [fails q rs w w' err]: asked in turn, all of [rs] fail, leave the world
    at [w'] and report [err] last. *)
Inductive fails (q : DnsQuery) : list (resolver W) → W → W → option DnsError → Prop :=
| fails_nil w : fails q [] w w None
| fails_cons r rs w w1 w2 e err :
    r w q = (w1, Err e) → fails q rs w1 w2 err →
    fails q (r :: rs) w w2 (Some (default e err)).

(** The counters after [n] resolver failures. *)
Definition count_failures (n : nat) (e : DnsEngine) : DnsEngine := Nat.iter n count_failure e.

Lemma count_failures_S n e : count_failures (S n) e = count_failures n (count_failure e).
Proof. unfold count_failures. by rewrite Nat.iter_succ_r. Qed.

Lemma count_failures_frame n e :
  cache (count_failures n e) = cache e ∧ cache_poisoned (count_failures n e) = cache_poisoned e
  ∧ hosts (count_failures n e) = hosts e ∧ resolvers (count_failures n e) = resolvers e.
Proof. by induction n. Qed.

Lemma try_resolvers_spec rs q now e w last :
  Forall Resolver rs → cache_poisoned e = false →
  (∃ failed r rest w1 w2 err a,
      rs = failed ++ r :: rest ∧ fails q failed w w1 err ∧ r w1 q = (w2, Ok a)
      ∧ try_resolvers rs q now e w last =
          (set_cache (count_failures (length failed) e)
             (DnsCache_insert iter (cache e) (query_name q) (addresses a) (ttl a) now),
           w2, Ok (addresses a)))
  ∨ (∃ w' err, fails q rs w w' err
      ∧ try_resolvers rs q now e w last =
          (count_failures (length rs) e, w',
           Err (match err with Some x => x | None => default (DnsError_new NoRecords) last end))).
Proof.
  intros Hrs. revert e w last. induction Hrs as [|r rs Hr _ IH]; intros e w last Hp.
  { right. exists w, None. split; [constructor|done]. }
  cbn [try_resolvers]. destruct (r w q) as [w1 [a|er|]] eqn:Er.
  - destruct (resolver_answer _ _ _ _ Er) as [Hwf _].
    rewrite deduplicate_bounded_id by done.
    rewrite (proj2 (Nat.eqb_neq _ _)) by (destruct Hwf as [[? _] _]; lia). rewrite Hp.
    left. exists [], r, rs, w, w1, None, a. split_and!; try done. constructor.
  - destruct (IH (count_failure e) w1 (Some er) Hp)
      as [(failed & r' & rest & w2 & w3 & err & a & -> & Hf & Hr' & E)|(w' & err & Hf & E)].
    + left. exists (r :: failed), r', rest, w2, w3, (Some (default er err)), a.
      split_and!; [done|by econstructor|done|]. rewrite E. cbn [length]. by rewrite count_failures_S.
    + right. exists w', (Some (default er err)). split; [by econstructor|].
      rewrite E. cbn [length]. rewrite count_failures_S. by destruct err.
  - exfalso. by eapply resolver_returns.
Qed.

(** The cached answer still alive at [now]. *)
Definition live_answer (c : DnsCache) (n : str) (now : Z) : option (list IpAddr) :=
  match entries c !! n with
  | Some e => if (now <? expires e)%Z then Some (entry_addresses e) else None
  | None => None
  end.

(** The cache after a lookup: an expired entry of the name is dropped. *)
Definition after_get (c : DnsCache) (n : str) (now : Z) : DnsCache := (DnsCache_get c n now).1.

Lemma DnsCache_get_live c n now : (DnsCache_get c n now).2 = live_answer c n now.
Proof.
  unfold DnsCache_get, live_answer. destruct (entries c !! n) as [e|]; [|done].
  destruct (_ <=? _)%Z eqn:E; bool_to_prop; cbn [snd].
  - by rewrite (proj2 (Z.ltb_ge _ _)).
  - by rewrite (proj2 (Z.ltb_lt _ _)).
Qed.

Lemma DnsCache_get_hit c n now l : live_answer c n now = Some l → after_get c n now = c.
Proof.
  unfold live_answer, after_get, DnsCache_get. destruct (entries c !! n) as [e|]; [|done].
  case_match; [|done]. bool_to_prop. by rewrite (proj2 (Z.leb_gt _ _)).
Qed.

(** The specification of [resolve]: hosts first, then a live cache entry,
    then the resolvers in order. *)
Definition ordered_outcome (e : DnsEngine) (w : W) (now : Z) (name : str) : Prop :=
  match normalize_name name with
  | Ok n =>
      match HostsTable_resolve (hosts e) n, live_answer (cache e) n now with
      | Some l, _ => DnsEngine_resolve e w now name = (count_hosts_hit e, w, Ok l)
      | None, Some l => DnsEngine_resolve e w now name = (count_cache_hit e, w, Ok l)
      | None, None =>
          let q := {| query_name := n |} in
          let c := after_get (cache e) n now in
          let e0 := count_cache_miss (set_cache e c) in
          (∃ failed r rest w1 w2 err a,
             resolvers e = failed ++ r :: rest ∧ fails q failed w w1 err ∧ r w1 q = (w2, Ok a)
             ∧ DnsEngine_resolve e w now name =
                 (set_cache (count_failures (length failed) e0)
                    (DnsCache_insert iter c n (addresses a) (ttl a) now), w2, Ok (addresses a)))
          ∨ (∃ w' err, fails q (resolvers e) w w' err
             ∧ DnsEngine_resolve e w now name =
                 (count_failures (length (resolvers e)) e0, w',
                  Err (default (DnsError_new NoRecords) err)))
      end
  | Err er => DnsEngine_resolve e w now name = (e, w, Err er) ∧ er = DnsError_new InvalidName
  | Panic => False
  end.

Lemma resolve_cases e w now name :
  Forall Resolver (resolvers e) → cache_poisoned e = false → ordered_outcome e w now name.
Proof.
  intros Hrs Hp. unfold ordered_outcome, DnsEngine_resolve, DnsQuery_new.
  pose proof (normalize_name_no_panic name) as Hn.
  destruct (normalize_name name) as [n|er|] eqn:En; cbn [mbind result_bind query_name]; [| |done].
  2: { split; [done|]. by apply normalize_name_err in En. }
  destruct (HostsTable_resolve _ _) as [l|]; [done|].
  rewrite Hp. pose proof (DnsCache_get_live (cache e) n now) as Hg.
  destruct (live_answer (cache e) n now) as [l|] eqn:El.
  - apply DnsCache_get_hit in El. unfold after_get in El. destruct (DnsCache_get _ _ _) as [c hit].
    cbn in *. subst. by destruct e.
  - unfold after_get. destruct (DnsCache_get _ _ _) as [c hit]. cbn in Hg. subst hit. cbn [fst].
    destruct (try_resolvers_spec (resolvers e) {| query_name := n |} now (count_cache_miss (set_cache e c)) w None Hrs Hp)
      as [(failed & r & rest & w1 & w2 & err & a & Hsplit & Hf & Hr & E)|(w' & err & Hf & E)].
    + left. exists failed, r, rest, w1, w2, err, a. split_and!; try done.
    + right. exists w', err. split; [done|]. cbn [resolvers set_cache]. rewrite E. by destruct err.
Qed.

(** C11. [resolve] consults its sources in a fixed order. A name that does not
    normalise is refused without any effect. A hosts entry wins over
    everything and calls nothing. Otherwise a live cache entry is returned
    without touching the network. Only then are the resolvers asked, in
    configuration order: the first success is returned unchanged and cached
    under the normalised name, every failure before it is counted, and if all
    fail the last error is the result. *)
Theorem resolve_order e w now name :
  Forall Resolver (resolvers e) → cache_poisoned e = false → ordered_outcome e w now name.
Proof. apply resolve_cases. Qed.

(** The invariant of a running engine. *)
Definition engine_ok (e : DnsEngine) : Prop :=
  cache_ok (cache e) ∧ Forall Resolver (resolvers e) ∧ cache_poisoned e = false.

Lemma engine_ok_frame e c n :
  engine_ok e → cache_ok c → engine_ok (set_cache (count_failures n e) c).
Proof.
  intros (_ & Hr & Hp) Hc. destruct (count_failures_frame n e) as (_ & E2 & _ & E4).
  unfold engine_ok. cbn. by rewrite E2, E4.
Qed.

Lemma with_resolvers_ok hosts rs cap t e :
  (0 ≤ cap)%Z → (0 ≤ t)%Z → Forall Resolver rs →
  DnsEngine_with_resolvers hosts rs cap t = Ok e → engine_ok e.
Proof.
  unfold DnsEngine_with_resolvers. intros Hc Ht Hrs H. case_match; [done|]. inv_ok. subst e.
  split; [|done]. cbn. by eapply (DnsCache_new_ok cap t).
Qed.

(** Resolution always returns, keeps the engine's invariant (bounded
    cache, bounded answers), and never changes the hosts table, the resolver
    chain or the cache's limits; an address list it returns that does not come
    from the hosts table has between one and sixteen distinct addresses. *)
Theorem resolve_invariant e w now name :
  engine_ok e →
  let '(e', w', r) := DnsEngine_resolve e w now name in
  engine_ok e' ∧ hosts e' = hosts e ∧ resolvers e' = resolvers e
  ∧ match r with
    | Ok l => (∃ n, normalize_name name = Ok n ∧ HostsTable_resolve (hosts e) n = Some l) ∨ answer_wf l
    | Err _ => True
    | Panic => False
    end.
Proof.
  intros He. pose proof He as (Hc & Hrs & Hp). pose proof (resolve_cases e w now name Hrs Hp) as H. unfold ordered_outcome in H.
  destruct (normalize_name name) as [n|er|]; [| |done].
  2: { destruct H as [-> _]. done. }
  destruct (HostsTable_resolve (hosts e) n) as [l|] eqn:Eh.
  { rewrite H. split_and!; try done. left. eauto. }
  destruct (live_answer (cache e) n now) as [l|] eqn:El.
  { rewrite H. split_and!; try done. right. unfold live_answer in El.
    destruct (entries (cache e) !! n) eqn:Ee; [|done]. case_match; [|done]. simplify_eq.
    destruct Hc as (_ & _ & Hc). by apply Hc in Ee as [? _]. }
  cbn zeta in H. set (e0 := count_cache_miss _) in H.
  assert (engine_ok e0) as He0 by (split_and!; [by apply DnsCache_get_ok|done..]).
  destruct H as [(failed & r & rest & w1 & w2 & err & a & Hs & _ & Hr & ->)|(w' & err & _ & ->)].
  - assert (Resolver r) as HR by (rewrite Hs in Hrs; rewrite Forall_forall in Hrs; apply Hrs; set_solver).
    destruct (resolver_answer _ _ _ _ Hr) as [Ha Ht]. destruct (count_failures_frame (length failed) e0) as (_ & _ & E3 & E4).
    split_and!; [|by cbn; rewrite E3|by cbn; rewrite E4|by right].
    apply engine_ok_frame; [done|]. by apply DnsCache_insert_ok; [..|apply He0].
  - destruct (count_failures_frame (length (resolvers e)) e0) as (E1 & E2 & E3 & E4).
    split_and!; [|by rewrite E3|by rewrite E4|done]. split_and!; [|by rewrite E4|by rewrite E2].
    rewrite E1. apply He0.
Qed.

(** A resolved answer is remembered: resolving any spelling of the same
    name again before the stored entry expires returns the same addresses and
    leaves the world untouched. *)
Theorem resolve_again e w now name e1 w1 l n en name' w2 now' :
  Forall Resolver (resolvers e) → cache_poisoned e = false →
  DnsEngine_resolve e w now name = (e1, w1, Ok l) →
  normalize_name name = Ok n → HostsTable_resolve (hosts e) n = None →
  normalize_name name' = Ok n → entries (cache e1) !! n = Some en → (now' < expires en)%Z →
  entry_addresses en = l ∧ DnsEngine_resolve e1 w2 now' name' = (count_cache_hit e1, w2, Ok l).
Proof.
  intros Hrs Hp Hres Hn Hh Hn' Hen Hlt.
  pose proof (resolve_cases e w now name Hrs Hp) as H. unfold ordered_outcome in H. rewrite Hn, Hh in H.
  assert (entry_addresses en = l ∧ hosts e1 = hosts e ∧ cache_poisoned e1 = false ∧ resolvers e1 = resolvers e)
    as (Hl & Hh1 & Hp1 & Hr1).
  { destruct (live_answer (cache e) n now) as [l'|] eqn:El.
    - rewrite Hres in H. simplify_eq. unfold live_answer in El. cbn in Hen. rewrite Hen in El.
      case_match; [|done]. by simplify_eq.
    - cbn zeta in H. set (e0 := count_cache_miss _) in H.
      destruct H as [(failed & r & rest & w3 & w4 & err & a & _ & _ & _ & E)|(w' & err & _ & E)];
        rewrite Hres in E; [|done].
      injection E as -> _ ->. destruct (count_failures_frame (length failed) e0) as (_ & E2 & E3 & E4).
      cbn in Hen |- *. rewrite E2, E3, E4. split_and!; try done.
      rewrite DnsCache_insert_eq in Hen. destruct (_ =? 0)%Z.
      + exfalso. unfold live_answer in El. unfold after_get, DnsCache_get in Hen.
        destruct (entries (cache e) !! n) as [en'|] eqn:Ee; [|cbn in Hen; congruence].
        destruct (_ <=? _)%Z eqn:Ex; bool_to_prop; cbn in Hen; [by rewrite lookup_delete_eq in Hen|].
        rewrite (proj2 (Z.ltb_lt _ _)) in El by done. done.
      + cbn in Hen. rewrite lookup_insert_eq in Hen. by injection Hen as <-. }
  split; [done|]. pose proof (resolve_cases e1 w2 now' name') as H1. unfold ordered_outcome in H1.
  rewrite Hr1, Hn', Hh1, Hh in H1. specialize (H1 Hrs Hp1).
  unfold live_answer in H1. rewrite Hen, (proj2 (Z.ltb_lt _ _)) in H1 by done. by rewrite Hl in H1.
Qed.
End engine.
Arguments DnsEngine : clear implicits.

(** ** Concrete runs *)

(** An operating system that resolves every name to [1.2.3.4]. *)
Definition os_fixed (w : nat) (name : str) : nat * option (list SocketAddr) :=
  (S w, Some [SockV4 16909060 0]).
Definition example_engine : DnsEngine nat := DnsEngine_system os_fixed HostsTable_default.

Lemma example_engine_ok : engine_ok example_engine.
Proof.
  split_and!; [apply DnsCache_defaults_ok| |done]. apply Forall_singleton. apply SystemResolver_Resolver.
Qed.

Lemma resolve_order_witness : ordered_outcome map_to_list example_engine 0 5 (#"A.example").
Proof. apply resolve_order; [apply example_engine_ok|reflexivity]. Defined.

Lemma resolve_invariant_witness :
  engine_ok (DnsEngine_resolve map_to_list example_engine 0 5 (#"A.example")).1.1.
Proof.
  pose proof (resolve_invariant map_to_list (λ m, reflexivity (map_to_list m)) example_engine 0 5 (#"A.example")
    example_engine_ok) as H.
  destruct (DnsEngine_resolve _ _ _ _ _) as [[e' w'] r]. exact (proj1 H).
Defined.

Lemma resolve_again_witness :
  let e1 := (DnsEngine_resolve map_to_list example_engine 0 5 (#"A.example")).1.1 in
  DnsEngine_resolve map_to_list e1 9 6 (#"a.EXAMPLE.") = (count_cache_hit e1, 9, Ok [V4 16909060]).
Proof.
  cbn zeta.
  destruct (DnsEngine_resolve map_to_list example_engine 0 5 (#"A.example")) as [[e1 w1] r] eqn:E.
  assert (r = Ok [V4 16909060]) as -> by (apply (f_equal snd) in E; cbn [snd] in E; rewrite <- E; vm_compute; reflexivity).
  cbn [fst].
  eapply (resolve_again map_to_list example_engine 0 5 (#"A.example") e1 w1 [V4 16909060] (#"a.example"));
    [apply example_engine_ok|reflexivity|exact E|vm_compute; reflexivity|reflexivity|vm_compute; reflexivity| | ].
  - apply (f_equal (λ x, x.1.1)) in E. cbn [fst] in E. subst e1. vm_compute. reflexivity.
  - vm_compute. reflexivity.
Defined.

(** A hosts entry is not subject to the sixteen-address bound. *)
Lemma hosts_answers_unbounded :
  ∃ t l, HostsTable_parse (join [x0a] ((λ i, show_ip (V4 i) ++ #" many.example") <$>
           [1; 2; 3; 4; 5; 6; 7; 8; 9; 10; 11; 12; 13; 14; 15; 16; 17]%Z)) = Ok t
    ∧ (DnsEngine_resolve map_to_list (DnsEngine_system os_fixed t) 0 0 (#"many.example")).2 = Ok l
    ∧ length l = 17.
Proof.
  destruct (HostsTable_parse _) as [t| |] eqn:E; [|vm_compute in E; discriminate E..].
  destruct (HostsTable_resolve t (#"many.example")) as [l|] eqn:El.
  - exists t, l. split; [done|]. split.
    + unfold DnsEngine_resolve.
      assert (DnsQuery_new (#"many.example") = Ok {| query_name := #"many.example" |}) as -> by (vm_compute; reflexivity).
      cbn [hosts DnsEngine_system query_name]. by rewrite El.
    + rewrite (proj1 (hosts_lookup _ t _ E)) in El. cbn zeta in El. vm_compute in El.
      by injection El as <-.
  - rewrite (proj1 (hosts_lookup _ t _ E)) in El. vm_compute in El. discriminate.
Qed.
