(* ===== verification/DnsThreads.v ===== *)
(** * The DNS engine shared by threads ([dns/src/lib.rs], [DnsEngine::resolve])

    Every connection of the daemon resolves names in its own thread, on one
    engine: the cache is behind a mutex that is held for a lookup and for an
    insertion but not while a resolver is asked, and the counters are atomics.
    Here a call of [resolve] is a state machine whose turns are the accesses
    to what is shared, and any number of calls are interleaved in any order.
    A resolver's reply is an input: other threads run while it is awaited, and
    all that is assumed of it is the contract of the trait ([Resolver]).

    The calls write a history of what they did; the theorems describe the
    histories that can occur, and that every call returns under any fair
    schedule. A call that runs alone is [DnsEngine_resolve]. *)

From S2P Require Import Prelude RustStr RustNet DomainSet DnsBase DnsCache DnsEngine.

(** ** One call *)
Inductive Thread :=
| Called (name : str)
| HostsHit (l : list IpAddr)                                          (** before [hosts_hits.fetch_add] *)
| Looking (q : DnsQuery) (now : Z)                                    (** at [cache.lock()] for the lookup *)
| LockedGet (q : DnsQuery) (now : Z)                                  (** holds the lock *)
| CacheHit (q : DnsQuery) (now : Z) (l : list IpAddr)                 (** holds the lock, before [cache_hits.fetch_add] *)
| Missed (q : DnsQuery) (now : Z)                                     (** before [cache_misses.fetch_add] *)
| Asking (q : DnsQuery) (now : Z) (todo : nat) (last : option DnsError)  (** waits for a resolver *)
| Failed (q : DnsQuery) (now : Z) (todo : nat) (error : DnsError)     (** before [resolver_failures.fetch_add] *)
| Storing (q : DnsQuery) (now : Z) (l : list IpAddr) (t : option Z)   (** at [cache.lock()] for the insertion *)
| LockedInsert (q : DnsQuery) (now : Z) (l : list IpAddr) (t : option Z)  (** holds the lock *)
| Done (r : result DnsError (list IpAddr)).

(** What a call does to the shared state, in the order in which it happens. *)
Inductive Note :=
| NHosts (i : nat) (l : list IpAddr)
| NHit (i : nat) (n : str) (now : Z) (l : list IpAddr)
| NMiss (i : nat)
| NFail (i : nat) (error : DnsError)
| NStore (i : nat) (n : str) (now : Z) (l : list IpAddr) (t : option Z).

(** What a call hears from outside: the instant it reads and the replies of
    the resolvers it asks, with the name it asked for. *)
Inductive Heard :=
| HStart (i : nat) (now : Z)
| HReply (i : nat) (n : str) (r : result DnsError DnsAnswer).

Section threads.
  Context {W : Type} (iter : gmap str CacheEntry → list (str * CacheEntry)).
  Notation DnsEngine := (DnsEngine W).

(** One turn of call [i], at the instant [t]; [reply] is the resolver's when
    one is awaited. [None] when the call has returned or waits for the lock. *)
Definition turn (i : nat) (t : Z) (reply : result DnsError DnsAnswer) (e : DnsEngine) (lock : option nat) (th : Thread)
    : option (DnsEngine * option nat * list Note * Thread) :=
  match th with
  | Called name =>
      Some (e, lock, [],
        match DnsQuery_new name with
        | Err error => Done (Err error)
        | Panic => Done Panic
        | Ok query =>
            match HostsTable_resolve (hosts e) (query_name query) with
            | Some l => HostsHit l
            | None => Looking query t
            end
        end)
  | HostsHit l => Some (count_hosts_hit e, lock, [NHosts i l], Done (Ok l))
  | Looking q now =>
      match lock with
      | Some _ => None
      | None => if cache_poisoned e then Some (e, None, [], Done (Err (DnsError_new ResolverFailure)))
                else Some (e, Some i, [], LockedGet q now)
      end
  | LockedGet q now =>
      let '(c, hit) := DnsCache_get (cache e) (query_name q) now in
      let e := set_cache e c in
      match hit with
      | Some l => Some (e, lock, [], CacheHit q now l)
      | None => Some (e, None, [], Missed q now)
      end
  | CacheHit q now l => Some (count_cache_hit e, None, [NHit i (query_name q) now l], Done (Ok l))
  | Missed q now => Some (count_cache_miss e, lock, [NMiss i], Asking q now (length (resolvers e)) None)
  | Asking q now 0 last => Some (e, lock, [], Done (Err (default (DnsError_new NoRecords) last)))
  | Asking q now (S todo) last =>
      match reply with
      | Ok answer =>
          let addrs := deduplicate_bounded (addresses answer) in
          Some (e, lock, [],
            if length addrs =? 0 then Asking q now todo (Some (DnsError_new NoRecords))
            else Storing q now addrs (ttl answer))
      | Err error => Some (e, lock, [], Failed q now todo error)
      | Panic => Some (e, lock, [], Done Panic)
      end
  | Failed q now todo error => Some (count_failure e, lock, [NFail i error], Asking q now todo (Some error))
  | Storing q now l t =>
      match lock with
      | Some _ => None
      | None => if cache_poisoned e then Some (e, None, [], Done (Err (DnsError_new ResolverFailure)))
                else Some (e, Some i, [], LockedInsert q now l t)
      end
  | LockedInsert q now l t =>
      Some (set_cache e (DnsCache_insert iter (cache e) (query_name q) l t now), None,
            [NStore i (query_name q) now l t], Done (Ok l))
  | Done _ => None
  end.

(** ** All calls *)
Record Shared := {
  engine : DnsEngine;
  lock : option nat;
  threads : list Thread;
  history : list Note;
  heard : list Heard;
}.
Record Event := {
  ev_thread : nat;
  ev_now : Z;
  ev_reply : result DnsError DnsAnswer;
}.
(** Recorded from the state in which the call takes its turn, whatever it then
    makes of it. *)
Definition hears (ev : Event) (th : Thread) : list Heard :=
  match th with
  | Called _ => [HStart (ev_thread ev) (ev_now ev)]
  | Asking q _ (S _) _ => [HReply (ev_thread ev) (query_name q) (ev_reply ev)]
  | _ => []
  end.
Definition shared_step (s : Shared) (ev : Event) : Shared :=
  match threads s !! ev_thread ev with
  | None => s
  | Some th =>
      match turn (ev_thread ev) (ev_now ev) (ev_reply ev) (engine s) (lock s) th with
      | None => s
      | Some (e, lk, notes, th') =>
          {| engine := e; lock := lk; threads := <[ev_thread ev := th']> (threads s); history := history s ++ notes;
             heard := heard s ++ hears ev th |}
      end
  end.
Definition shared_run (evs : list Event) (s : Shared) : Shared := foldl shared_step s evs.
Definition shared_start (e : DnsEngine) (names : list str) : Shared :=
  {| engine := e; lock := None; threads := Called <$> names; history := []; heard := [] |}.

(** The contract of the trait, for a reply. *)
Definition reply_ok (r : result DnsError DnsAnswer) : Prop :=
  match r with
  | Ok a => answer_wf (addresses a) ∧ (∀ s, ttl a = Some s → 0 ≤ s)%Z
  | Err _ => True
  | Panic => False
  end.

(** ** What a history says *)

(** The entry that the last effective insertion under [n] created. *)
Definition stored_by (c : DnsCache) (n : str) (acc : option CacheEntry) (x : Note) : option CacheEntry :=
  match x with
  | NStore _ n' now l t =>
      if bool_decide (n' = n) && negb (effective_ttl c t =? 0)%Z
      then Some {| entry_addresses := l; inserted := now; expires := (now + effective_ttl c t)%Z |}
      else acc
  | _ => acc
  end.
Definition last_stored (c : DnsCache) (h : list Note) (n : str) : option CacheEntry := foldl (stored_by c n) None h.

(** What call [i] did, and what it was told. *)
Definition note_thread (x : Note) : nat :=
  match x with NHosts i _ | NHit i _ _ _ | NMiss i | NFail i _ | NStore i _ _ _ _ => i end.
Definition notes_of (h : list Note) (i : nat) : list Note := List.filter (λ x, note_thread x =? i) h.
Definition replies_of (g : list Heard) (i : nat) : list (str * result DnsError DnsAnswer) :=
  omap (λ x, match x with HReply j n r => if j =? i then Some (n, r) else None | _ => None end) g.

(** The counters are the history's. *)
Definition tally_note (s : DnsStats) (x : Note) : DnsStats :=
  let b (c : bool) v := if c then fetch_add1 v else v in
  {| hosts_hits := b (match x with NHosts _ _ => true | _ => false end) (hosts_hits s);
     cache_hits := b (match x with NHit _ _ _ _ => true | _ => false end) (cache_hits s);
     cache_misses := b (match x with NMiss _ => true | _ => false end) (cache_misses s);
     resolver_failures := b (match x with NFail _ _ => true | _ => false end) (resolver_failures s) |}.
Definition tally (h : list Note) : DnsStats := foldl tally_note DnsStats_default h.

(** Every cache hit returns what the last effective insertion under the name
    stored, before it expires. *)
Definition served_fresh (c : DnsCache) (h : list Note) : Prop :=
  ∀ pre i n now l post, h = pre ++ NHit i n now l :: post →
    ∃ en, last_stored c pre n = Some en ∧ entry_addresses en = l ∧ (now < expires en)%Z.

(** What call [i] for [name] may return, with all it did and all it was told:
    the hosts table's addresses; those of a cache hit at the instant it read;
    those of the first resolver that answered, stored unchanged with their TTL
    after the failures before; or the last error when every resolver failed. *)
Definition outcome (e : DnsEngine) (h : list Note) (g : list Heard) (i : nat) (name : str)
    (r : result DnsError (list IpAddr)) : Prop :=
  match r with
  | Ok l => ∃ n, normalize_name name = Ok n ∧
      match HostsTable_resolve (hosts e) n with
      | Some l' => l' = l ∧ notes_of h i = [NHosts i l] ∧ replies_of g i = []
      | None =>
          ∃ now, HStart i now ∈ g ∧
            ((notes_of h i = [NHit i n now l] ∧ replies_of g i = [])
             ∨ ∃ errors a, l = addresses a
                 ∧ notes_of h i = NMiss i :: (NFail i <$> errors) ++ [NStore i n now l (ttl a)]
                 ∧ replies_of g i = ((λ er, (n, Err er)) <$> errors) ++ [(n, Ok a)])
      end
  | Err er =>
      (normalize_name name = Err er ∧ notes_of h i = [] ∧ replies_of g i = [])
      ∨ ∃ n errors, normalize_name name = Ok n ∧ HostsTable_resolve (hosts e) n = None
          ∧ notes_of h i = NMiss i :: (NFail i <$> errors) ∧ replies_of g i = (λ er, (n, Err er)) <$> errors
          ∧ length errors = length (resolvers e) ∧ er = default (DnsError_new NoRecords) (last errors)
  | Panic => False
  end.

(** Whatever is in the cache came from a resolver: the name asked for, its
    addresses and TTL, at the instant the asking call had read. *)
Definition stores_heard (h : list Note) (g : list Heard) : Prop :=
  ∀ i n now l t, NStore i n now l t ∈ h →
    HStart i now ∈ g ∧ ∃ a, (n, Ok a) ∈ replies_of g i ∧ l = addresses a ∧ t = ttl a.

(** ** The invariant *)
Definition holding (th : Thread) : bool :=
  match th with LockedGet _ _ | CacheHit _ _ _ | LockedInsert _ _ _ _ => true | _ => false end.

(** A name that is not in the hosts table, normalised. *)
Definition absent (e : DnsEngine) (name n : str) : Prop :=
  normalize_name name = Ok n ∧ HostsTable_resolve (hosts e) n = None.

(** A call that has asked resolvers and was refused by all so far. *)
Definition refused (h : list Note) (g : list Heard) (i : nat) (n : str) (now : Z) (errors : list DnsError)
    (more : list (str * result DnsError DnsAnswer)) : Prop :=
  HStart i now ∈ g ∧ notes_of h i = NMiss i :: (NFail i <$> errors)
  ∧ replies_of g i = ((λ er, (n, Err er)) <$> errors) ++ more.
Definition quiet (h : list Note) (g : list Heard) (i : nat) : Prop := notes_of h i = [] ∧ replies_of g i = [].

Definition thread_ok (e : DnsEngine) (c : DnsCache) (h : list Note) (g : list Heard) (i : nat) (name : str) (th : Thread) : Prop :=
  match th with
  | Called n => n = name ∧ quiet h g i
  | HostsHit l => (∃ n, normalize_name name = Ok n ∧ HostsTable_resolve (hosts e) n = Some l) ∧ quiet h g i
  | Looking q now | LockedGet q now | Missed q now => absent e name (query_name q) ∧ HStart i now ∈ g ∧ quiet h g i
  | CacheHit q now l =>
      absent e name (query_name q) ∧ HStart i now ∈ g ∧ quiet h g i ∧ live_answer c (query_name q) now = Some l
  | Asking q now todo er =>
      absent e name (query_name q)
      ∧ ∃ errors, refused h g i (query_name q) now errors [] ∧ length errors + todo = length (resolvers e) ∧ er = last errors
  | Failed q now todo er =>
      absent e name (query_name q)
      ∧ ∃ errors, refused h g i (query_name q) now errors [(query_name q, Err er)] ∧ length errors + S todo = length (resolvers e)
  | Storing q now l t | LockedInsert q now l t =>
      absent e name (query_name q) ∧ answer_wf l ∧ (∀ s, t = Some s → 0 ≤ s)%Z
      ∧ ∃ errors a, refused h g i (query_name q) now errors [(query_name q, Ok a)] ∧ l = addresses a ∧ t = ttl a
  | Done r => outcome e h g i name r
  end.

Record shared_ok (e0 : DnsEngine) (names : list str) (s : Shared) : Prop := {
  so_engine : engine_ok (engine s);
  so_hosts : hosts (engine s) = hosts e0;
  so_resolvers : resolvers (engine s) = resolvers e0;
  so_ttl : max_ttl (cache (engine s)) = max_ttl (cache e0);
  so_capacity : capacity (cache (engine s)) = capacity (cache e0);
  so_threads : length (threads s) = length names;
  so_thread : ∀ i name th, names !! i = Some name → threads s !! i = Some th →
    thread_ok e0 (cache (engine s)) (history s) (heard s) i name th;
  so_lock : ∀ i th, threads s !! i = Some th → holding th = bool_decide (lock s = Some i);
  so_lock_in : ∀ i, lock s = Some i → i < length (threads s);
  so_cache : ∀ n en, entries (cache (engine s)) !! n = Some en → last_stored (cache e0) (history s) n = Some en;
  so_stats : stats (engine s) = tally (history s);
  so_fresh : served_fresh (cache e0) (history s);
  so_heard : stores_heard (history s) (heard s);
}.

Lemma notes_of_app h h' i : notes_of (h ++ h') i = notes_of h i ++ notes_of h' i.
Proof. unfold notes_of. apply List.filter_app. Qed.
Lemma replies_of_app g g' i : replies_of (g ++ g') i = replies_of g i ++ replies_of g' i.
Proof. unfold replies_of. apply omap_app. Qed.
Lemma notes_of_own x : notes_of [x] (note_thread x) = [x].
Proof. unfold notes_of. cbn. by rewrite Nat.eqb_refl. Qed.
Lemma replies_of_own i n r : replies_of [HReply i n r] i = [(n, r)].
Proof. unfold replies_of. cbn. by rewrite Nat.eqb_refl. Qed.
Lemma last_stored_app c h x n : last_stored c (h ++ [x]) n = stored_by c n (last_stored c h n) x.
Proof. unfold last_stored. by rewrite foldl_app. Qed.
Lemma tally_app h h' : tally (h ++ h') = foldl tally_note (tally h) h'.
Proof. unfold tally. by rewrite foldl_app. Qed.

(** What others do later changes nothing for a call. *)
Lemma thread_ok_grows e c h g i name th notes more :
  notes_of notes i = [] → replies_of more i = [] →
  thread_ok e c h g i name th → thread_ok e c (h ++ notes) (g ++ more) i name th.
Proof.
  intros Hn Hr. assert (∀ now, HStart i now ∈ g → HStart i now ∈ g ++ more) as Hs by (intros; apply elem_of_app; by left).
  destruct th; unfold thread_ok, quiet, refused; try naive_solver; rewrite ?notes_of_app, ?replies_of_app, ?Hn, ?Hr, ?app_nil_r;
    try naive_solver.
  destruct r as [l|er|]; cbn [outcome]; rewrite ?notes_of_app, ?replies_of_app, ?Hn, ?Hr, ?app_nil_r; try done.
  intros (n & Hnn & H). exists n. split; [done|]. destruct (HostsTable_resolve _ _); [done|]. naive_solver.
Qed.

(** Takes a turn apart. *)
Ltac turn_cases H :=
  match type of H with turn _ _ _ _ _ ?th = _ => destruct th end; cbn [turn] in H;
  repeat match type of H with context [match ?x with _ => _ end] => destruct x eqn:? end; simplify_eq.

(** A turn writes notes of its own call only. *)
Lemma turn_notes i t reply e lk th e' lk' notes th' j :
  turn i t reply e lk th = Some (e', lk', notes, th') → j ≠ i → notes_of notes j = [].
Proof. intros H Hj. turn_cases H; try done; cbn; by rewrite (proj2 (Nat.eqb_neq _ _)) by done. Qed.
Lemma hears_other ev th j : j ≠ ev_thread ev → replies_of (hears ev th) j = [].
Proof. intros Hj. destruct th as [| | | | | |? ? [|] ?| | | |]; try done. cbn. by rewrite (proj2 (Nat.eqb_neq _ _)) by done. Qed.

(** A call changes the cache only while it holds the lock. *)
Lemma turn_cache i t reply e lk th e' lk' notes th' :
  turn i t reply e lk th = Some (e', lk', notes, th') → cache e' = cache e ∨ holding th = true.
Proof. intros H. turn_cases H; try (by left); try (by right). Qed.

Lemma turn_stats i t reply e lk th e' lk' notes th' :
  turn i t reply e lk th = Some (e', lk', notes, th') → stats e' = foldl tally_note (stats e) notes.
Proof. destruct e as [? ? ? ? []]. intros H. by turn_cases H. Qed.

Lemma turn_engine e0 h g i name t reply e lk th e' lk' notes th' :
  (∀ m, iter m ≡ₚ map_to_list m) → engine_ok e → thread_ok e0 (cache e) h g i name th →
  turn i t reply e lk th = Some (e', lk', notes, th') →
  engine_ok e' ∧ hosts e' = hosts e ∧ resolvers e' = resolvers e
  ∧ max_ttl (cache e') = max_ttl (cache e) ∧ capacity (cache e') = capacity (cache e).
Proof.
  intros Hit (Hc & Hr & Hp) Ht H. turn_cases H; try done.
  1,2: match goal with E : DnsCache_get ?c ?n ?now = _ |- _ =>
    pose proof (DnsCache_get_ok c n now Hc) as Hg; rewrite E in Hg; cbn [fst] in Hg;
    unfold DnsCache_get in E; case_match; simplify_eq end; (split; [by split_and!|done]).
  cbn in Ht. destruct Ht as (_ & Hl & Htt & _). split.
  - split; [|done]. by apply DnsCache_insert_ok.
  - cbn. rewrite DnsCache_insert_eq. by destruct (_ =? 0)%Z.
Qed.

Lemma DnsQuery_new_inv name :
  match DnsQuery_new name with
  | Ok q => normalize_name name = Ok (query_name q)
  | Err er => normalize_name name = Err er
  | Panic => False
  end.
Proof. unfold DnsQuery_new. pose proof (normalize_name_no_panic name). by destruct (normalize_name name). Qed.

(** The call's own state after its turn. *)
Lemma turn_own e0 h g name ev e lk th e' lk' notes th' :
  let i := ev_thread ev in
  engine_ok e → hosts e = hosts e0 → resolvers e = resolvers e0 → reply_ok (ev_reply ev) →
  thread_ok e0 (cache e) h g i name th → turn i (ev_now ev) (ev_reply ev) e lk th = Some (e', lk', notes, th') →
  thread_ok e0 (cache e') (h ++ notes) (g ++ hears ev th) i name th'.
Proof.
  destruct ev as [i t reply]. cbn [ev_thread ev_now ev_reply]. intros (_ & _ & Hp) Hh Hr Hre Ht H. unfold thread_ok, absent, quiet, refused in *.
  turn_cases H; cbn [outcome reply_ok hears ev_thread ev_now ev_reply] in Ht, Hre |- *; rewrite ?app_nil_r, ?notes_of_app, ?replies_of_app; try done.
  all: rewrite ?replies_of_own; try match goal with |- context [replies_of [HStart ?j ?t] ?k] => change (replies_of [HStart j t] k) with (@nil (str * result DnsError DnsAnswer)); rewrite app_nil_r end.
  1-4: destruct Ht as [-> Hf]; pose proof (DnsQuery_new_inv name) as Hq; rewrite Heqr, <- ?Hh in *.
  { eauto. }
  { split; [done|]. split; [set_solver|done]. }
  { by left. }
  { done. }
  all: repeat match goal with |- context [notes_of [?x] ?j] => change (notes_of [x] j) with (notes_of [x] (note_thread x)); rewrite notes_of_own end.
  - destruct Ht as ((n & Hn & Hl) & -> & ->). exists n. split; [done|]. by rewrite Hl.
  - destruct Ht as (Ha & Hs & Hq). split_and!; try apply Ha; try done; try apply Hq.
    pose proof (DnsCache_get_live (cache e) (query_name q) now) as Hl. rewrite Heqp in Hl. cbn in Hl.
    pose proof (DnsCache_get_hit _ _ _ _ (eq_sym Hl)) as Hc. unfold after_get in Hc. rewrite Heqp in Hc. cbn in Hc |- *. by subst d.
  - destruct Ht as ((Hn & Hl) & Hs & (-> & ->) & _). exists (query_name q). split; [done|]. rewrite Hl. exists now. split; [done|by left].
  - destruct Ht as (Ha & Hs & -> & ->). split; [done|]. exists []. rewrite Hr. done.
  - destruct Ht as ((Hn & Hl) & ers & (Hs & HN & HR) & Hlen & ->). right. exists (query_name q), ers. rewrite app_nil_r in HR. split_and!; try done; lia.
  - exfalso. bool_to_prop. destruct Hre as [Hw _]. rewrite deduplicate_bounded_id in Heqb by done. destruct Hw as [[? _] _]. lia.
  - destruct Ht as (Ha & ers & (Hs & HN & HR) & _), Hre as [Hw Htt]. rewrite deduplicate_bounded_id by done.
    split_and!; try apply Ha; try done; try apply Hw. exists ers, a. rewrite HR, app_nil_r. split_and!; try done. set_solver.
  - destruct Ht as (Ha & ers & (Hs & HN & HR) & Hlen & _). split; [done|]. exists ers. rewrite HR, app_nil_r. split_and!; try done. set_solver.
  - destruct Ht as (Ha & ers & (Hs & HN & HR) & Hlen). split; [done|]. exists (ers ++ [error]).
    rewrite HN, HR, !fmap_app, length_app, last_snoc, app_nil_r. cbn. split_and!; try done; lia.
  - destruct Ht as ((Hn & Hl) & _ & _ & ers & a & (Hs & HN & HR) & -> & ->). exists (query_name q). split; [done|]. rewrite Hl.
    exists now. split; [done|]. right. exists ers, a. by rewrite HN, HR.
Qed.

(** The others' state after it. *)
Lemma turn_other e0 h g ev j name e lk th e' lk' notes th' thj :
  turn (ev_thread ev) (ev_now ev) (ev_reply ev) e lk th = Some (e', lk', notes, th') → j ≠ ev_thread ev →
  (holding th = true → holding thj = false) →
  thread_ok e0 (cache e) h g j name thj → thread_ok e0 (cache e') (h ++ notes) (g ++ hears ev th) j name thj.
Proof.
  intros H Hj Hlock Ht. apply thread_ok_grows; [by eapply turn_notes|by apply hears_other|].
  destruct (turn_cache _ _ _ _ _ _ _ _ _ _ H) as [->|Hh]; [done|]. specialize (Hlock Hh). by destruct thj.
Qed.

(** Who holds the lock. *)
Lemma turn_lock i t reply e lk th e' lk' notes th' :
  turn i t reply e lk th = Some (e', lk', notes, th') → holding th = bool_decide (lk = Some i) →
  holding th' = bool_decide (lk' = Some i) ∧ (lk' = lk ∨ (lk = None ∧ lk' = Some i) ∨ (lk = Some i ∧ lk' = None)).
Proof.
  intros H Hh. turn_cases H; cbn [holding] in Hh |- *.
  all: try (split; [done|by left]).
  all: try (symmetry in Hh; apply bool_decide_eq_true in Hh; subst).
  all: try (split; [by rewrite bool_decide_eq_true_2|auto]).
  all: try (split; [done|auto]).
Qed.

Lemma turn_stored c0 h i t reply e lk th e' lk' notes th' :
  max_ttl (cache e) = max_ttl c0 → turn i t reply e lk th = Some (e', lk', notes, th') →
  (∀ n en, entries (cache e) !! n = Some en → last_stored c0 h n = Some en) →
  ∀ n en, entries (cache e') !! n = Some en → last_stored c0 (h ++ notes) n = Some en.
Proof.
  intros Hm H Hc n en. turn_cases H; rewrite ?app_nil_r, ?last_stored_app; try apply Hc.
  1,2: intros Hn; apply Hc; unfold DnsCache_get in Heqp; case_match; simplify_eq; cbn in Hn; try done;
    by apply lookup_delete_Some in Hn as [_ Hn].
  assert (effective_ttl c0 t0 = effective_ttl (cache e) t0) as Ht by (unfold effective_ttl; by rewrite Hm).
  cbn [cache set_cache stored_by]. rewrite DnsCache_insert_eq, Ht.
  destruct (_ =? 0)%Z; cbn [negb]; [rewrite andb_false_r; apply Hc|]. rewrite andb_true_r. cbn [entries set_entries].
  intros [[<- <-]|[Hne Hn]]%lookup_insert_Some; [by rewrite bool_decide_eq_true_2|].
  rewrite bool_decide_eq_false_2 by done. apply kept_lookup in Hn as [Hn _]. by apply Hc.
Qed.

Lemma served_fresh_app c h x :
  served_fresh c h →
  match x with
  | NHit i n now l => ∃ en, last_stored c h n = Some en ∧ entry_addresses en = l ∧ (now < expires en)%Z
  | _ => True
  end → served_fresh c (h ++ [x]).
Proof.
  intros Hh Hx pre i n now l post E. destruct post as [|y post _] using rev_ind.
  - apply app_inj_tail in E as [-> ->]. apply Hx.
  - change (NHit i n now l :: post ++ [y]) with ((NHit i n now l :: post) ++ [y]) in E. rewrite app_assoc in E.
    apply app_inj_tail in E as [-> _]. by eapply Hh.
Qed.

Lemma turn_fresh e0 h g i name t reply e lk th e' lk' notes th' :
  turn i t reply e lk th = Some (e', lk', notes, th') → thread_ok e0 (cache e) h g i name th →
  (∀ n en, entries (cache e) !! n = Some en → last_stored (cache e0) h n = Some en) →
  served_fresh (cache e0) h → served_fresh (cache e0) (h ++ notes).
Proof.
  intros H Ht Hc Hh. turn_cases H; rewrite ?app_nil_r; try done; apply served_fresh_app; try done.
  destruct Ht as (_ & _ & _ & Hl). unfold live_answer in Hl. destruct (entries (cache e) !! query_name q) as [en|] eqn:E; [|done].
  exists en. case_match; [|done]. bool_to_prop. simplify_eq. split_and!; [by apply Hc|done|done].
Qed.

Lemma turn_heard e0 h g ev name e lk th e' lk' notes th' :
  turn (ev_thread ev) (ev_now ev) (ev_reply ev) e lk th = Some (e', lk', notes, th') →
  thread_ok e0 (cache e) h g (ev_thread ev) name th → stores_heard h g → stores_heard (h ++ notes) (g ++ hears ev th).
Proof.
  intros H Ht Hh i n now l t [Hin|Hin]%elem_of_app.
  { destruct (Hh _ _ _ _ _ Hin) as (Hs & a & Ha & Hl). split; [apply elem_of_app; by left|]. exists a. split; [|done].
    rewrite replies_of_app. apply elem_of_app. by left. }
  turn_cases H; try (by apply not_elem_of_nil in Hin); apply list_elem_of_singleton in Hin; simplify_eq.
  cbn [thread_ok] in Ht. destruct Ht as (_ & _ & _ & ers & a & (Hs & _ & HR) & -> & ->). cbn [hears]. rewrite app_nil_r. split; [done|].
  exists a. split; [|done]. rewrite HR. apply elem_of_app. right. by apply list_elem_of_singleton.
Qed.

  Hypothesis iter_perm : ∀ m, iter m ≡ₚ map_to_list m.

Lemma shared_step_ok e0 names s ev :
  reply_ok (ev_reply ev) → shared_ok e0 names s → shared_ok e0 names (shared_step s ev).
Proof.
  intros Hre Hs. unfold shared_step. destruct (threads s !! ev_thread ev) as [th|] eqn:Eth; [|done].
  set (i := ev_thread ev) in *. destruct (turn _ _ _ _ _ _) as [[[[e lk] notes] th']|] eqn:H; [|done].
  pose proof (lookup_lt_Some _ _ _ Eth) as Hi. destruct Hs.
  destruct (lookup_lt_is_Some_2 names i) as [name En]; [lia|].
  pose proof (so_thread0 i name th En Eth) as Ht.
  destruct (turn_engine _ _ _ _ _ _ _ _ _ _ _ _ _ _ iter_perm so_engine0 Ht H) as (G1 & G2 & G3 & G4 & G5).
  destruct (turn_lock _ _ _ _ _ _ _ _ _ _ H (so_lock0 i th Eth)) as [L1 L2].
  split; cbn; [done|congruence..|by rewrite length_insert| | | | | | |].
  - intros j n thj Hn Hj. destruct (decide (j = i)) as [->|Hne].
    + rewrite list_lookup_insert_eq in Hj by done. simplify_eq. eapply turn_own; [exact so_engine0|done..|exact Ht|exact H].
    + rewrite list_lookup_insert_ne in Hj by done. eapply turn_other; [exact H|done| |by apply so_thread0].
      rewrite (so_lock0 _ _ Eth), (so_lock0 _ _ Hj). intros ->%bool_decide_eq_true.
      apply bool_decide_eq_false. congruence.
  - intros j thj Hj. destruct (decide (j = i)) as [->|Hne].
    + rewrite list_lookup_insert_eq in Hj by done. by simplify_eq.
    + rewrite list_lookup_insert_ne in Hj by done. rewrite (so_lock0 _ _ Hj). apply bool_decide_ext.
      destruct L2 as [->|[[-> ->]|[-> ->]]]; split; congruence.
  - intros j. rewrite length_insert. destruct L2 as [->|[[_ ->]|[_ ->]]]; [apply so_lock_in0|by intros [= <-]|done].
  - eapply turn_stored; [|done..]. done.
  - by rewrite (turn_stats _ _ _ _ _ _ _ _ _ _ H), so_stats0, tally_app.
  - by eapply turn_fresh.
  - by eapply turn_heard.
Qed.

Lemma shared_start_ok e names :
  engine_ok e → entries (cache e) = ∅ → stats e = DnsStats_default → shared_ok e names (shared_start e names).
Proof.
  intros He Hc Hs. split; cbn; try done.
  - by rewrite length_fmap.
  - intros i name th Hn Ht. apply list_lookup_fmap_Some in Ht as (n & -> & Ht). by simplify_eq.
  - intros i th Ht. by apply list_lookup_fmap_Some in Ht as (n & -> & _).
  - intros n en. by rewrite Hc, lookup_empty.
  - intros pre i n now l post E. by destruct pre.
  - intros i n now l t Hin. by apply not_elem_of_nil in Hin.
Qed.

Lemma shared_run_ok e0 names evs s :
  Forall (reply_ok ∘ ev_reply) evs → shared_ok e0 names s → shared_ok e0 names (shared_run evs s).
Proof.
  intros Hev. revert s. induction Hev as [|ev evs Hev _ IH]; intros s Hs; [done|]. apply IH. by apply shared_step_ok.
Qed.

(** C12. Threads may share one engine. However any number of calls of [resolve]
    interleave, whatever instants they read and whatever the resolvers reply,
    a call that has returned did and was told exactly this: nothing, for a name
    that does not normalise; the hosts table's addresses; one cache hit at the
    instant it read; or the replies of the resolvers in turn, all failures
    before the first answer, whose addresses it returns and stores unchanged
    with its TTL and that instant; or failures of all resolvers, of which the
    last is its error. Everything stored is some resolver's answer to that
    name. A cache hit is exactly the last answer stored with a lifetime under
    that name, by whichever call, and not expired for the call it serves. The
    counters are those of the history; the cache never exceeds its capacity. *)
Theorem shared_engine_history e names evs :
  engine_ok e → entries (cache e) = ∅ → stats e = DnsStats_default → Forall (reply_ok ∘ ev_reply) evs →
  let s := shared_run evs (shared_start e names) in
  (∀ i name r, names !! i = Some name → threads s !! i = Some (Done r) → outcome e (history s) (heard s) i name r)
  ∧ stores_heard (history s) (heard s)
  ∧ served_fresh (cache e) (history s)
  ∧ stats (engine s) = tally (history s)
  ∧ (Z.of_nat (size (entries (cache (engine s)))) ≤ capacity (cache e))%Z.
Proof.
  intros He Hc Hst Hev s. pose proof (shared_run_ok e names evs _ Hev (shared_start_ok e names He Hc Hst)) as Hok.
  fold s in Hok. destruct Hok. split_and!; [|done|done|done|].
  - intros i name r Hn Hr. exact (so_thread0 i name _ Hn Hr).
  - rewrite <- so_capacity0. apply so_engine0.
Qed.

(** ** Every call returns *)
Definition thread_work (n : nat) (th : Thread) : nat :=
  match th with
  | Called _ => 2 * n + 6
  | Looking _ _ => 2 * n + 5
  | LockedGet _ _ => 2 * n + 4
  | Missed _ _ => 2 * n + 3
  | Asking _ _ todo _ => 2 * todo + 2
  | Failed _ _ todo _ => 2 * todo + 3
  | Storing _ _ _ _ => 2
  | HostsHit _ | CacheHit _ _ _ | LockedInsert _ _ _ _ => 1
  | Done _ => 0
  end.
Definition shared_work (n : nat) (ths : list Thread) : nat := sum_list_with (thread_work n) ths.
Definition returned (th : Thread) : bool := match th with Done _ => true | _ => false end.

(** A turn brings the call nearer to its end. *)
Lemma turn_work i t reply e lk th e' lk' notes th' :
  turn i t reply e lk th = Some (e', lk', notes, th') →
  thread_work (length (resolvers e)) th' < thread_work (length (resolvers e)) th ∧ resolvers e' = resolvers e.
Proof. intros H. by turn_cases H; cbn [thread_work]; (split; [lia|]). Qed.

(** Only the lock can make a call wait. *)
Definition at_lock (th : Thread) : bool := match th with Looking _ _ | Storing _ _ _ _ => true | _ => false end.
Lemma turn_waits i t reply e lk th :
  turn i t reply e lk th = None → returned th = true ∨ (is_Some lk ∧ at_lock th = true ∧ holding th = false).
Proof.
  intros H. destruct th; cbn [turn] in H; repeat (case_match; simplify_eq); try (by left); try (by right).
Qed.

Lemma shared_work_insert n ths i th th' :
  ths !! i = Some th → shared_work n (<[i := th']> ths) + thread_work n th = shared_work n ths + thread_work n th'.
Proof.
  unfold shared_work. revert i. induction ths as [|x ths IH]; intros [|i] H; [done|done| |].
  - injection H as ->. cbn [insert list_insert sum_list_with]. lia.
  - specialize (IH i H). change (<[S i := th']> (x :: ths)) with (x :: <[i := th']> ths). cbn [sum_list_with]. lia.
Qed.

(** A step does nothing, or makes less to do. *)
Lemma shared_step_work s ev :
  let n := length (resolvers (engine s)) in
  shared_step s ev = s
  ∨ (shared_work n (threads (shared_step s ev)) < shared_work n (threads s)
     ∧ resolvers (engine (shared_step s ev)) = resolvers (engine s)).
Proof.
  cbn zeta. unfold shared_step. destruct (threads s !! ev_thread ev) as [th|] eqn:Eth; [|by left].
  destruct (turn _ _ _ _ _ _) as [[[[e lk] notes] th']|] eqn:H; [|by left]. right. cbn [threads engine].
  apply turn_work in H as [H Hr]. pose proof (shared_work_insert (length (resolvers (engine s))) _ _ _ th' Eth). split; [lia|done].
Qed.

Lemma shared_step_waits s ev th :
  threads s !! ev_thread ev = Some th → returned th = false → (is_Some (lock s) → holding th = true) →
  shared_work (length (resolvers (engine s))) (threads (shared_step s ev))
  < shared_work (length (resolvers (engine s))) (threads s).
Proof.
  intros Eth Hr Hl. unfold shared_step. rewrite Eth. destruct (turn _ _ _ _ _ _) as [[[[e lk] notes] th']|] eqn:H.
  - cbn [threads]. apply turn_work in H as [H _]. pose proof (shared_work_insert (length (resolvers (engine s))) _ _ _ th' Eth). lia.
  - apply turn_waits in H as [H|(H & _ & H')]; [congruence|]. specialize (Hl H). congruence.
Qed.

(** While a call has not returned, some call can move: the one that holds the
    lock, or any when the lock is free. *)
Lemma someone_moves e0 names s :
  shared_ok e0 names s → Exists (λ th, returned th = false) (threads s) →
  ∃ i th, threads s !! i = Some th ∧ returned th = false ∧ (is_Some (lock s) → holding th = true).
Proof.
  intros [] Hex. destruct (lock s) as [i|] eqn:El.
  - destruct (lookup_lt_is_Some_2 (threads s) i) as [th Hi]; [by apply so_lock_in0|]. exists i, th.
    pose proof (so_lock0 i th Hi) as Hh. rewrite bool_decide_eq_true_2 in Hh by done. split_and!; [done| |done].
    by destruct th.
  - apply Exists_exists in Hex as (th & Hin & Hr). apply list_elem_of_lookup in Hin as [i Hi].
    exists i, th. split_and!; [done|done|]. by intros [].
Qed.

(** A round gives every call at least one turn. *)
Definition fair_round (n : nat) (evs : list Event) : Prop := ∀ i, i < n → i ∈ ev_thread <$> evs.

Lemma shared_run_work evs s :
  let n := length (resolvers (engine s)) in
  shared_work n (threads (shared_run evs s)) ≤ shared_work n (threads s)
  ∧ resolvers (engine (shared_run evs s)) = resolvers (engine s).
Proof.
  cbn zeta. revert s. induction evs as [|ev evs IH]; intros s; [done|]. cbn [shared_run foldl].
  fold (shared_run evs (shared_step s ev)). destruct (shared_step_work s ev) as [->|[H Hr]]; [done|].
  specialize (IH (shared_step s ev)). rewrite Hr in IH. destruct IH. split; [lia|done].
Qed.

Lemma round_moves i th s evs :
  threads s !! i = Some th → returned th = false → (is_Some (lock s) → holding th = true) → i ∈ ev_thread <$> evs →
  let n := length (resolvers (engine s)) in
  shared_work n (threads (shared_run evs s)) < shared_work n (threads s).
Proof.
  intros Hi Hr Hl. cbn zeta. revert s Hi Hl. induction evs as [|ev evs IH]; intros s Hi Hl Hin; [by apply not_elem_of_nil in Hin|].
  cbn [shared_run foldl]. fold (shared_run evs (shared_step s ev)).
  pose proof (shared_run_work evs (shared_step s ev)) as [Hw _].
  destruct (shared_step_work s ev) as [E|[H Hres]]; [|rewrite Hres in Hw; lia].
  cbn in Hin. apply elem_of_cons in Hin as [->|Hin]; [|rewrite E; by apply IH].
  pose proof (shared_step_waits s ev th Hi Hr Hl) as H. rewrite E in H. lia.
Qed.

Lemma shared_work_zero n ths : shared_work n ths = 0 → Forall (λ th, returned th = true) ths.
Proof.
  unfold shared_work. induction ths as [|th ths IH]; intros H; [constructor|]. cbn in H.
  constructor; [|apply IH; lia]. destruct th; cbn in H; try lia; done.
Qed.

Lemma shared_work_done n ths : Forall (λ th, returned th = true) ths → shared_work n ths = 0.
Proof. unfold shared_work. induction 1 as [|th ths H _ IH]; [done|]. cbn [sum_list_with]. rewrite IH. by destruct th. Qed.
Lemma shared_work_start n names : shared_work n (Called <$> names) = length names * (2 * n + 6).
Proof. unfold shared_work. induction names as [|name names IH]; [done|]. cbn [fmap list_fmap sum_list_with length thread_work]. rewrite IH. lia. Qed.

(** A fair round makes less to do, unless everything is done. *)
Lemma round_work e names s evs :
  shared_ok e names s → fair_round (length names) evs →
  let n := length (resolvers e) in
  shared_work n (threads (shared_run evs s)) ≤ pred (shared_work n (threads s)).
Proof.
  intros Hs Hfair. cbn zeta. pose proof (shared_run_work evs s) as [Hw _]. rewrite (so_resolvers _ _ _ Hs) in Hw.
  destruct (decide (Exists (λ th, returned th = false) (threads s))) as [Hex|Hno].
  - destruct (someone_moves e names s Hs Hex) as (i & th & Hi & Hr & Hl).
    assert (i ∈ ev_thread <$> evs) as Hin by (apply Hfair; rewrite <- (so_threads _ _ _ Hs); by apply lookup_lt_Some in Hi).
    pose proof (round_moves i th s evs Hi Hr Hl Hin) as Hm. cbn zeta in Hm. rewrite (so_resolvers _ _ _ Hs) in Hm. lia.
  - assert (shared_work (length (resolvers e)) (threads s) = 0); [|lia]. apply shared_work_done.
    rewrite <- Forall_Exists_neg in Hno. eapply Forall_impl; [exact Hno|]. intros th H. cbn in H. by destruct (returned th).
Qed.

Lemma rounds_work e names rounds s :
  shared_ok e names s → Forall (λ evs, Forall (reply_ok ∘ ev_reply) evs ∧ fair_round (length names) evs) rounds →
  let n := length (resolvers e) in
  shared_work n (threads s) ≤ length rounds → shared_work n (threads (shared_run (concat rounds) s)) = 0.
Proof.
  intros Hs Hrounds. cbn zeta. revert s Hs. induction Hrounds as [|evs rounds [Hre Hfair] _ IH]; intros s Hs Hle; cbn [concat length] in *; [cbn; lia|].
  unfold shared_run. rewrite foldl_app. fold (shared_run evs s). apply IH; [by apply shared_run_ok|].
  pose proof (round_work e names s evs Hs Hfair). cbn zeta in *. lia.
Qed.

(** *** How the lock is used *)

(** No call holds it while a resolver is asked, and whoever holds it gives it
    back within two of its own turns, whatever the others do between them. *)
Definition lock_brief (s : Shared) : Prop :=
  ∀ i, (∀ q now todo er, threads s !! i = Some (Asking q now todo er) → lock s ≠ Some i)
    ∧ (lock s = Some i → ∀ ev1 others ev2, ev_thread ev1 = i → Forall (λ ev, ev_thread ev ≠ i) others → ev_thread ev2 = i →
        lock (shared_step s ev1) = None ∨ lock (shared_step (shared_run others (shared_step s ev1)) ev2) = None).
(** A call that cannot take a turn has returned, or stands at [cache.lock()]
    while another holds the lock. *)
Definition waits_for_lock (s : Shared) : Prop :=
  ∀ ev th, threads s !! ev_thread ev = Some th → shared_step s ev = s →
    returned th = true ∨ (at_lock th = true ∧ ∃ j, lock s = Some j ∧ j ≠ ev_thread ev).

(** The lock is where the threads say it is. *)
Definition lock_known (s : Shared) : Prop := ∀ j th, threads s !! j = Some th → holding th = bool_decide (lock s = Some j).

Lemma step_lock_known s ev : lock_known s → lock_known (shared_step s ev).
Proof.
  intros Hl. unfold shared_step. destruct (threads s !! ev_thread ev) as [th|] eqn:Eth; [|done].
  destruct (turn _ _ _ _ _ _) as [[[[e' lk] notes] th']|] eqn:H; [|done].
  destruct (turn_lock _ _ _ _ _ _ _ _ _ _ H (Hl _ _ Eth)) as [L1 L2]. intros j thj Hj. cbn in Hj |- *.
  destruct (decide (j = ev_thread ev)) as [->|Hne].
  - rewrite list_lookup_insert_eq in Hj by (by eapply lookup_lt_Some). by simplify_eq.
  - rewrite list_lookup_insert_ne in Hj by done. rewrite (Hl _ _ Hj). apply bool_decide_ext.
    destruct L2 as [->|[[-> ->]|[-> ->]]]; split; congruence.
Qed.

Lemma others_keep i others s :
  Forall (λ ev, ev_thread ev ≠ i) others → lock_known s → lock s = Some i →
  lock (shared_run others s) = Some i ∧ threads (shared_run others s) !! i = threads s !! i.
Proof.
  intros Hf. revert s. induction Hf as [|ev others Hev _ IH]; intros s Hl Hi; [done|]. cbn [shared_run foldl].
  fold (shared_run others (shared_step s ev)). pose proof (step_lock_known s ev Hl) as Hl'.
  assert (lock (shared_step s ev) = Some i ∧ threads (shared_step s ev) !! i = threads s !! i) as [E1 E2].
  { unfold shared_step. destruct (threads s !! ev_thread ev) as [th|] eqn:Eth; [|done].
    destruct (turn _ _ _ _ _ _) as [[[[e' lk] notes] th']|] eqn:H; [|done]. cbn.
    destruct (turn_lock _ _ _ _ _ _ _ _ _ _ H (Hl _ _ Eth)) as [L1 [->|[[E ->]|[E ->]]]]; [|congruence..].
    split; [done|by rewrite list_lookup_insert_ne]. }
  destruct (IH _ Hl' E1) as [-> ->]. done.
Qed.

Lemma shared_lock_brief e names s : shared_ok e names s → lock_brief s.
Proof.
  intros Hs i. pose proof (so_lock _ _ _ Hs) as Hl. split.
  { intros q now todo er Hi El. specialize (Hl i _ Hi). rewrite bool_decide_eq_true_2 in Hl by done. done. }
  intros El ev1 others ev2 E1 Ho E2. destruct (lookup_lt_is_Some_2 (threads s) i) as [th Hi]; [by apply (so_lock_in _ _ _ Hs)|].
  pose proof (Hl i th Hi) as Hh. rewrite bool_decide_eq_true_2 in Hh by done.
  destruct (decide (lock (shared_step s ev1) = None)) as [|Hn]; [by left|right].
  pose proof (step_lock_known s ev1 Hl) as Hl1.
  assert (lock (shared_step s ev1) = Some i ∧ ∃ q now l, threads (shared_step s ev1) !! i = Some (CacheHit q now l))
    as (El1 & q & now & l & Hc).
  { revert Hn. unfold shared_step. rewrite E1, Hi. destruct th; try done; cbn [turn].
    destruct (DnsCache_get _ _ _) as [c [l|]]; [|done]. cbn. intros _. split; [done|].
    rewrite list_lookup_insert_eq by (by eapply lookup_lt_Some). eauto. }
  destruct (others_keep i others _ Ho Hl1 El1) as [K1 K2]. unfold shared_step at 1. rewrite E2, K2, Hc. done.
Qed.

Lemma shared_waits e names s : shared_ok e names s → waits_for_lock s.
Proof.
  intros Hs ev th Hi E. pose proof (so_lock _ _ _ Hs _ _ Hi) as Hh. unfold shared_step in E. rewrite Hi in E.
  destruct (turn _ _ _ _ _ _) as [[[[e' lk] notes] th']|] eqn:H.
  - exfalso. apply turn_work in H as [H _]. apply (f_equal threads) in E. cbn in E.
    pose proof (shared_work_insert (length (resolvers (engine s))) _ _ _ th' Hi) as Hw. rewrite E in Hw. lia.
  - apply turn_waits in H as [H|([j Hj] & H & H')]; [by left|right]. split; [done|]. exists j. split; [done|].
    rewrite H' in Hh. symmetry in Hh. apply bool_decide_eq_false in Hh. congruence.
Qed.

(** C13. Every call returns, and the lock is never in the way of a resolver.
    Under any fair schedule and whatever the resolvers reply, after as many
    rounds as all calls together have turns to take at most, a round being any
    sequence that gives each call a turn, all calls have returned, none
    panicked, and the lock is free. At every moment until then no call holds
    the lock while it asks a resolver; who holds it returns it within two of
    its own turns; and a call waits only at [cache.lock()], for another that
    holds it. *)
Theorem shared_engine_returns e names rounds :
  engine_ok e → entries (cache e) = ∅ → stats e = DnsStats_default →
  Forall (λ evs, Forall (reply_ok ∘ ev_reply) evs ∧ fair_round (length names) evs) rounds →
  length names * (2 * length (resolvers e) + 6) ≤ length rounds →
  let s := shared_run (concat rounds) (shared_start e names) in
  lock s = None ∧ length (threads s) = length names ∧ Forall (λ th, ∃ r, th = Done r ∧ r ≠ Panic) (threads s)
  ∧ ∀ k, let s := shared_run (take k (concat rounds)) (shared_start e names) in lock_brief s ∧ waits_for_lock s.
Proof.
  intros He Hc Hst Hrounds Hlen s.
  assert (Forall (reply_ok ∘ ev_reply) (concat rounds)) as Hev
    by (apply Forall_concat; eapply Forall_impl; [exact Hrounds|]; by intros ? []).
  assert (shared_ok e names s) as Hok by (apply shared_run_ok; [done|by apply shared_start_ok]).
  assert (Forall (λ th, returned th = true) (threads s)) as Hd.
  { eapply shared_work_zero, rounds_work; [by apply shared_start_ok|done|]. cbn [threads shared_start]. by rewrite shared_work_start. }
  destruct Hok. split_and!; [|done| |].
  - destruct (lock s) as [i|] eqn:El; [|done]. destruct (lookup_lt_is_Some_2 (threads s) i) as [th Hi]; [by apply so_lock_in0|].
    pose proof (so_lock0 i th Hi) as Hh. rewrite bool_decide_eq_true_2 in Hh by done.
    rewrite Forall_lookup in Hd. specialize (Hd i th Hi). by destruct th.
  - rewrite Forall_lookup in Hd |- *. intros i th Hi. specialize (Hd i th Hi). destruct th; try done. exists r. split; [done|].
    destruct (lookup_lt_is_Some_2 names i) as [name Hn]; [rewrite <- so_threads0; by apply lookup_lt_Some in Hi|].
    pose proof (so_thread0 i name _ Hn Hi) as H. by destruct r.
  - intros k s'. assert (shared_ok e names s') as Hk by (apply shared_run_ok; [by apply Forall_take|by apply shared_start_ok]).
    split; [by eapply shared_lock_brief|by eapply shared_waits].
Qed.

(** ** The statistics *)

(** [DnsEngine::stats]: four loads, between which other calls take turns. *)
Definition AtomicDnsStats_snapshot (s : Shared) (evs1 evs2 evs3 : list Event) : DnsStats :=
  let s1 := shared_run evs1 s in
  let s2 := shared_run evs2 s1 in
  let s3 := shared_run evs3 s2 in
  {| hosts_hits := hosts_hits (stats (engine s)); cache_hits := cache_hits (stats (engine s1));
     cache_misses := cache_misses (stats (engine s2)); resolver_failures := resolver_failures (stats (engine s3)) |}.

Lemma shared_step_history s ev : history s `prefix_of` history (shared_step s ev).
Proof. unfold shared_step. repeat case_match; try done. by apply prefix_app_r. Qed.
Lemma shared_run_history evs s : history s `prefix_of` history (shared_run evs s).
Proof. revert s. induction evs as [|ev evs IH]; intros s; [done|]. etrans; [apply shared_step_history|apply (IH (shared_step s ev))]. Qed.

(** A snapshot is not one moment: each counter is that of the history when it
    was loaded, the later ones of longer histories. *)
Lemma snapshot_moments e names s evs1 evs2 evs3 :
  shared_ok e names s → Forall (reply_ok ∘ ev_reply) (evs1 ++ evs2 ++ evs3) →
  ∃ h1 h2 h3, history s `prefix_of` h1 ∧ h1 `prefix_of` h2 ∧ h2 `prefix_of` h3
    ∧ AtomicDnsStats_snapshot s evs1 evs2 evs3
      = {| hosts_hits := hosts_hits (tally (history s)); cache_hits := cache_hits (tally h1);
           cache_misses := cache_misses (tally h2); resolver_failures := resolver_failures (tally h3) |}.
Proof.
  intros Hs Hev. rewrite !Forall_app in Hev. destruct Hev as (H1 & H2 & H3). unfold AtomicDnsStats_snapshot.
  set (s1 := shared_run evs1 s). set (s2 := shared_run evs2 s1). set (s3 := shared_run evs3 s2).
  assert (shared_ok e names s1) as Hs1 by (by apply shared_run_ok). assert (shared_ok e names s2) as Hs2 by (by apply shared_run_ok).
  assert (shared_ok e names s3) as Hs3 by (by apply shared_run_ok).
  exists (history s1), (history s2), (history s3). split_and!; [apply shared_run_history..|].
  by rewrite (so_stats _ _ _ Hs), (so_stats _ _ _ Hs1), (so_stats _ _ _ Hs2), (so_stats _ _ _ Hs3).
Qed.

(** ** A call that runs alone *)

(** The reply the call waits for is the next resolver's. *)
Definition ask (s : Shared) (w : W) : W * result DnsError DnsAnswer :=
  match threads s with
  | [Asking q _ (S todo) _] =>
      match resolvers (engine s) !! (length (resolvers (engine s)) - S todo) with
      | Some r => r w q
      | None => (w, Panic)
      end
  | _ => (w, Panic)
  end.
Definition alone_step (now : Z) (sw : Shared * W) : Shared * W :=
  let '(w, reply) := ask sw.1 sw.2 in (shared_step sw.1 {| ev_thread := 0; ev_now := now; ev_reply := reply |}, w).

(** Within [n] steps the call returns [r] and leaves the engine at [e] and the
    world at [w]. *)
Definition returns_in (n : nat) (now : Z) (sw : Shared * W) (out : DnsEngine * W * result DnsError (list IpAddr)) : Prop :=
  ∃ h, Nat.iter n (alone_step now) sw
    = ({| engine := out.1.1; lock := None; threads := [Done out.2]; history := h.1; heard := h.2 |}, out.1.2).

Lemma returns_step n now sw out : returns_in n now (alone_step now sw) out → returns_in (S n) now sw out.
Proof. intros [h H]. exists h. by rewrite Nat.iter_succ_r. Qed.
Lemma returns_done n now e w r h g :
  returns_in n now ({| engine := e; lock := None; threads := [Done r]; history := h; heard := g |}, w) (e, w, r).
Proof. exists (h, g). cbn [fst snd]. induction n as [|n IH]; [done|]. by rewrite Nat.iter_succ, IH. Qed.

Lemma asking_returns rs pre q now t e w er h g n :
  resolvers e = pre ++ rs → 2 * length rs + 3 ≤ n →
  returns_in n t ({| engine := e; lock := None; threads := [Asking q now (length rs) er]; history := h; heard := g |}, w)
    (try_resolvers iter rs q now e w er).
Proof.
  revert pre e w er h g n. induction rs as [|r rs IH]; intros pre e w er h g n Hr Hn; cbn [length] in Hn.
  { destruct n as [|n]; [lia|]. apply returns_step. cbn. apply returns_done. }
  destruct n as [|[|[|n]]]; [lia..|]. apply returns_step. cbn [try_resolvers].
  unfold alone_step, ask. cbn [threads engine fst snd length]. rewrite Hr, length_app. cbn [length].
  replace (length pre + S (length rs) - S (length rs)) with (length pre) by lia. rewrite list_lookup_middle by done.
  assert (resolvers e = (pre ++ [r]) ++ rs) as Hr' by (by rewrite <- app_assoc).
  destruct (r w q) as [w1 [a|er1|]]; unfold shared_step; cbn.
  - destruct (_ =? 0); [apply (IH (pre ++ [r])); [done|lia]|]. apply returns_step. unfold alone_step, shared_step. cbn.
    destruct (cache_poisoned e); cbn; [apply returns_done|]. apply returns_step. cbn. apply returns_done.
  - apply returns_step. cbn. apply (IH (pre ++ [r])); [done|lia].
  - apply returns_done.
Qed.

(** The turns are those of [resolve]: a call that no other interrupts, whose
    replies come from the engine's resolvers, returns what [DnsEngine_resolve]
    does and leaves engine and world as it does. *)
Lemma alone_resolves e w now name :
  returns_in (2 * length (resolvers e) + 7) now (shared_start e [name], w) (DnsEngine_resolve iter e w now name).
Proof.
  unfold DnsEngine_resolve. replace (2 * length (resolvers e) + 7) with (S (S (S (S (2 * length (resolvers e) + 3))))) by lia.
  apply returns_step. unfold alone_step, shared_step, shared_start. cbn [ask threads fst snd fmap list_fmap lookup list_lookup ev_thread turn engine lock ev_now].
  destruct (DnsQuery_new name) as [q|er|]; cbn [insert list_insert]; [|apply returns_done..].
  destruct (HostsTable_resolve _ _) as [l|]; [apply returns_step; cbn; apply returns_done|].
  apply returns_step. unfold alone_step, shared_step. cbn. destruct (cache_poisoned e) eqn:Ep; cbn; [apply returns_done|].
  apply returns_step. unfold alone_step, shared_step. cbn. destruct (DnsCache_get _ _ _) as [c [l|]]; cbn.
  - apply returns_step. cbn. apply returns_done.
  - apply returns_step. cbn. by apply (asking_returns (resolvers e) []).
Qed.
End threads.

(** ** A concrete interleaving *)

(** Two spellings of one name miss the cache and are answered in the other
    order; a third call is served what was stored last; a fourth is refused. *)
Definition example_names : list str := [ #"A.example"; #"a.example."; #"a.EXAMPLE"; #"a..example"].
Definition example_event (i : nat) (now : Z) (a : Z) : Event :=
  {| ev_thread := i; ev_now := now; ev_reply := Ok {| addresses := [V4 a]; ttl := Some 9%Z |} |}.
Definition example_events : list Event :=
  (λ i, example_event i 1 (Z.of_nat i)) <$> [0; 1; 0; 1; 0; 1; 1; 0; 1; 1; 0; 1; 1; 0; 0; 3]
  ++ replicate 4 2.

Lemma example_events_ok : Forall (reply_ok ∘ ev_reply) example_events.
Proof.
  unfold example_events. apply Forall_fmap, Forall_true. intros i. split; [apply answer_wf_singleton|].
  cbn. intros s [= <-]. lia.
Qed.

Lemma shared_engine_history_witness :
  let s := shared_run map_to_list example_events (shared_start example_engine example_names) in
  threads s = [Done (Ok [V4 0]); Done (Ok [V4 1]); Done (Ok [V4 0]); Done (Err (DnsError_new InvalidName))]
  ∧ outcome example_engine (history s) (heard s) 2 (#"a.EXAMPLE") (Ok [V4 0])
  ∧ served_fresh (cache example_engine) (history s)
  ∧ stats (engine s) = {| hosts_hits := 0; cache_hits := 1; cache_misses := 2; resolver_failures := 0 |}.
Proof.
  cbn zeta. set (s := shared_run _ _ _).
  assert (threads s = [Done (Ok [V4 0]); Done (Ok [V4 1]); Done (Ok [V4 0]); Done (Err (DnsError_new InvalidName))]) as Et
    by (vm_compute; reflexivity).
  destruct (shared_engine_history map_to_list (λ m, reflexivity (map_to_list m)) example_engine example_names example_events
    example_engine_ok eq_refl eq_refl example_events_ok) as (H1 & _ & H2 & H3 & _). fold s in H1, H2, H3.
  split; [exact Et|]. split; [|split; [exact H2|]].
  - apply H1; [reflexivity|]. by rewrite Et.
  - rewrite H3. vm_compute. reflexivity.
Defined.

(** The same calls, one turn each per round. *)
Definition example_round : list Event := (λ i, example_event i 1 7) <$> [3; 2; 1; 0].

Lemma shared_engine_returns_witness :
  let s := shared_run map_to_list (concat (replicate 32 example_round)) (shared_start example_engine example_names) in
  lock s = None ∧ length (threads s) = 4 ∧ Forall (λ th, ∃ r, th = Done r ∧ r ≠ Panic) (threads s).
Proof.
  cbn zeta.
  destruct (shared_engine_returns map_to_list (λ m, reflexivity (map_to_list m)) example_engine example_names (replicate 32 example_round))
    as (H1 & H2 & H3 & _);
    [exact example_engine_ok|reflexivity|reflexivity| |by apply Nat.leb_le; vm_compute|by split_and!].
  apply Forall_replicate. split.
  - apply Forall_fmap, Forall_true. intros i. split; [apply answer_wf_singleton|]. cbn. intros s [= <-]. lia.
  - intros i Hi. cbn in Hi. cbn. do 4 (destruct i as [|i]; [set_solver|]). lia.
Defined.
