(* ===== verification/Dot.v ===== *)
(** * DNS over TLS ([dns/src/dot.rs])

    The resolver over one persistent session: length-prefixed messages,
    reconnection, two address families. The transport (rustls over TCP) is a
    parameter: a connector and the blocking reads and writes of a session. *)

From S2P Require Import Prelude RustStr RustNet DomainSet DnsBase DnsWire DnsCache DnsEngine.

Definition DOT_LENGTH_BYTES : nat := 2.
Definition DOT_CONNECT_ATTEMPTS : nat := 2.

Section dot.
  (** The connector's world, the sessions and their blocking operations
      ([false] and [None] stand for an [io::Error]). *)
  Context {W S : Type}.
  Context (connect : W → W * option S).
  Context (write_all : S → bytes → S * bool) (flush : S → S * bool)
          (read_exact : S → nat → S * option bytes).

(** [exchange_message]: one request and its response; [None] on any error. *)
Definition exchange_message (session : S) (request : bytes) : S * option bytes :=
  if (65535 <? Z.of_nat (length request))%Z then (session, None)
  else
    let framed := u16_be (Z.of_nat (length request)) ++ request in
    match write_all session framed with
    | (session, false) => (session, None)
    | (session, true) =>
    match flush session with
    | (session, false) => (session, None)
    | (session, true) =>
    match read_exact session DOT_LENGTH_BYTES with
    | (session, None) => (session, None)
    | (session, Some length_bytes) =>
        let length := Z.to_nat (be_value length_bytes) in
        if length <? DNS_HEADER_BYTES then (session, None)
        else read_exact session length
    end end end.

(** [DotState] with the connector's world. *)
Record DotState := {
  world : W;
  session : option S;
  next_id : Z;
}.
Definition set_session (st : DotState) (s : option S) : DotState :=
  {| world := world st; session := s; next_id := next_id st |}.
Definition set_world (st : DotState) (w : W) : DotState :=
  {| world := w; session := session st; next_id := next_id st |}.

(** [DotResolver::with_connector]: no session yet, identifiers from one. *)
Definition DotResolver_with_connector (w : W) : DotState := {| world := w; session := None; next_id := 1 |}.

(** The exchange on a session that is there. *)
Definition exchange_on (s : S) (st : DotState) (request : bytes) : DotState * option bytes :=
  match exchange_message s request with
  | (s, Some response) => (set_session st (Some s), Some response)
  | (_, None) => (set_session st None, None)
  end.

Fixpoint exchange_attempts (n : nat) (st : DotState) (request : bytes) : DotState * result DnsError bytes :=
  match n with
  | O => (st, Err (DnsError_new ResolverFailure))
  | Datatypes.S n' =>
      match session st with
      | Some s =>
          match exchange_on s st request with
          | (st, Some response) => (st, Ok response)
          | (st, None) => exchange_attempts n' st request
          end
      | None =>
          match connect (world st) with
          | (w, None) => exchange_attempts n' (set_world st w) request
          | (w, Some s) =>
              match exchange_on s (set_world st w) request with
              | (st, Some response) => (st, Ok response)
              | (st, None) => exchange_attempts n' st request
              end
          end
      end
  end.

Definition DotState_exchange (st : DotState) (request : bytes) : DotState * result DnsError bytes :=
  exchange_attempts DOT_CONNECT_ATTEMPTS st request.

Definition resolve_family (st : DotState) (query : DnsQuery) (record_type : AddressRecordType)
    : DotState * result DnsError DnsAnswer :=
  let id := next_id st in
  let st := {| world := world st; session := session st; next_id := (id + 1) mod 65536 |} in
  match encode_address_query id query record_type with
  | Err e => (st, Err e)
  | Panic => (st, Panic)
  | Ok request =>
      match DotState_exchange st request with
      | (st, Err e) => (st, Err e)
      | (st, Panic) => (st, Panic)
      | (st, Ok response) =>
          match parse_address_response id query record_type response with
          | Ok answer => (st, Ok answer)
          | Err error =>
              (if bool_decide (kind error = InvalidResponse) then set_session st None else st, Err error)
          | Panic => (st, Panic)
          end
      end
  end.

(** The accumulated addresses, TTL and last error of the family loop. *)
Definition add_family (acc : list IpAddr * option Z * option DnsError) (r : result DnsError DnsAnswer)
    : list IpAddr * option Z * option DnsError :=
  let '(addrs, t, last_error) := acc in
  match r with
  | Ok answer =>
      (foldl push_unique addrs (addresses answer),
       match ttl answer with Some x => Some (min_ttl t x) | None => t end, last_error)
  | Err error => (addrs, t, Some error)
  | Panic => acc
  end.

Definition DotResolver_resolve : resolver DotState := λ st query,
  match resolve_family st query A with
  | (st, Panic) => (st, Panic)
  | (st, ra) =>
  match resolve_family st query Aaaa with
  | (st, Panic) => (st, Panic)
  | (st, rb) =>
      let '(addrs, t, last_error) := add_family (add_family ([], None, None) ra) rb in
      (st, if length addrs =? 0 then Err (default (DnsError_new NoRecords) last_error)
           else DnsAnswer_new addrs t)
  end end.

(** ** Lemmas *)
Lemma exchange_attempts_no_panic n st req : (exchange_attempts n st req).2 ≠ Panic.
Proof.
  revert st; induction n as [|n IH]; intros st; [done|]. cbn [exchange_attempts].
  repeat case_match; try done; apply IH.
Qed.

Lemma encode_labels_no_panic ls out : no_panic (encode_labels ls out).
Proof. revert out; induction ls; intros out; cbn [encode_labels]; [done|]. by repeat case_match. Qed.

Lemma encode_address_query_no_panic id q ty : no_panic (encode_address_query id q ty).
Proof.
  unfold encode_address_query, encode_name.
  repeat (apply bind_no_panic; [|intros; try case_match; done]). apply encode_labels_no_panic.
Qed.

Lemma resolve_family_no_panic st q ty : (resolve_family st q ty).2 ≠ Panic.
Proof.
  unfold resolve_family. pose proof (encode_address_query_no_panic (next_id st) q ty).
  destruct (encode_address_query _ _ _) as [req|e|]; [|done..].
  match goal with |- context [DotState_exchange ?s req] => pose proof (exchange_attempts_no_panic DOT_CONNECT_ATTEMPTS s req) as Hx;
    change (exchange_attempts DOT_CONNECT_ATTEMPTS s req) with (DotState_exchange s req) in Hx;
    destruct (DotState_exchange s req) as [st' [resp|e|]] end; try done.
  pose proof (parse_address_response_total (next_id st) q ty resp) as Hp.
  by destruct (parse_address_response _ _ _ _).
Qed.

Lemma resolve_family_answer st q ty st' a :
  resolve_family st q ty = (st', Ok a) → answer_wf (addresses a) ∧ ttl_ok (ttl a).
Proof.
  unfold resolve_family. intros H. repeat case_match; simplify_eq.
  by eapply parse_address_response_answer.
Qed.

(** How the two families combine. *)
Definition combine_families (ra rb : result DnsError DnsAnswer) : result DnsError DnsAnswer :=
  match ra, rb with
  | Ok a, Ok b =>
      Ok {| addresses := deduplicate_bounded (foldl push_unique (addresses a) (addresses b));
            ttl := match ttl a, ttl b with
                   | Some x, Some y => Some (Z.min x y)
                   | Some x, None => Some x
                   | None, t => t
                   end |}
  | Ok a, _ => Ok a
  | _, Ok b => Ok b
  | _, rb => rb
  end.

Lemma DnsAnswer_new_wf l t : answer_wf l → DnsAnswer_new l t = Ok {| addresses := l; ttl := t |}.
Proof.
  intros H. unfold DnsAnswer_new. rewrite deduplicate_bounded_id by done.
  rewrite (proj2 (Nat.eqb_neq _ _)); [done|]. destruct H as [[? _] _]. lia.
Qed.

(** A DNS-over-TLS resolution asks for A and then for AAAA records on the
    same session state, and combines what it gets: both families' distinct
    addresses, A first, cut at sixteen, with the smaller TTL; one family's
    answer unchanged when the other fails; and the AAAA error only when both
    fail. *)
Lemma dot_resolve_cases st q :
  let '(st1, ra) := resolve_family st q A in
  let '(st2, rb) := resolve_family st1 q Aaaa in
  DotResolver_resolve st q = (st2, combine_families ra rb).
Proof.
  destruct (resolve_family st q A) as [st1 ra] eqn:Ea.
  destruct (resolve_family st1 q Aaaa) as [st2 rb] eqn:Eb.
  unfold DotResolver_resolve. rewrite Ea.
  pose proof (resolve_family_no_panic st q A) as Hna. rewrite Ea in Hna. cbn in Hna.
  pose proof (resolve_family_no_panic st1 q Aaaa) as Hnb. rewrite Eb in Hnb. cbn in Hnb.
  destruct ra as [a|ea|]; [| |done]; rewrite Eb; destruct rb as [b|eb|]; try done.
  - destruct (resolve_family_answer _ _ _ _ _ Ea) as [[Hla Hnda] _].
    unfold add_family. rewrite (push_all_id (addresses a)) by done. cbn [app combine_families].
    set (u := foldl push_unique (addresses a) (addresses b)).
    assert (u ≠ []) as Hu.
    { intros Hnil. destruct (addresses a) as [|x l] eqn:Ex; [cbn in Hla; lia|].
      assert (x ∈ u) as Hx by (apply elem_of_push_all; set_solver). rewrite Hnil in Hx. by apply not_elem_of_nil in Hx. }
    rewrite (proj2 (Nat.eqb_neq _ _)) by (by destruct u). unfold DnsAnswer_new.
    rewrite (proj2 (Nat.eqb_neq _ _)) by (intros Hl; apply nil_length_inv in Hl; revert Hl; apply push_all_ne_nil; by destruct u).
    do 3 f_equal. destruct (ttl a), (ttl b); done.
  - destruct (resolve_family_answer _ _ _ _ _ Ea) as [Hwf _]. unfold add_family.
    rewrite push_all_id by apply Hwf. cbn [app combine_families].
    rewrite (proj2 (Nat.eqb_neq _ _)) by (destruct Hwf as [[? _] _]; lia).
    rewrite DnsAnswer_new_wf by done. destruct a as [l t]. by destruct t.
  - destruct (resolve_family_answer _ _ _ _ _ Eb) as [Hwf _]. unfold add_family.
    rewrite push_all_id by apply Hwf. cbn [app combine_families].
    rewrite (proj2 (Nat.eqb_neq _ _)) by (destruct Hwf as [[? _] _]; lia).
    rewrite DnsAnswer_new_wf by done. destruct b as [l t]. by destruct t.
Qed.

(** The resolver honours the interface the engine relies on. *)
#[global] Instance DotResolver_Resolver : Resolver DotResolver_resolve.
Proof.
  split.
  - intros st q st' a H. pose proof (dot_resolve_cases st q) as Hc.
    destruct (resolve_family st q A) as [st1 ra] eqn:Ea.
    destruct (resolve_family st1 q Aaaa) as [st2 rb] eqn:Eb. rewrite H in Hc. injection Hc as _ Hc.
    destruct ra as [x|ex|]; cbn [combine_families] in Hc.
    + destruct (resolve_family_answer _ _ _ _ _ Ea) as [Hx Htx]. destruct rb as [y|ey|]; simplify_eq; try done.
      destruct (resolve_family_answer _ _ _ _ _ Eb) as [Hy Hty]. cbn [addresses ttl].
      destruct (deduplicate_bounded_spec (foldl push_unique (addresses x) (addresses y))) as (Hnd & Hle & _).
      split.
      * split; [split; [|done]|done].
        destruct (decide (length (deduplicate_bounded (foldl push_unique (addresses x) (addresses y))) = 0)) as [E|E]; [|lia].
        exfalso. apply nil_length_inv in E. revert E. apply push_all_ne_nil. destruct (addresses y) as [|b l] eqn:Ey; [destruct Hy as [[Hy _] _]; cbn in Hy; lia|].
        pose proof (push_all_ne_nil (b :: l) (addresses x) ltac:(done)) as Hne. cbn [foldl] in Hne |- *.
        by destruct (foldl _ _ l).
      * intros s. destruct (ttl x) as [tx|], (ttl y) as [ty|]; intros [= <-];
          try specialize (Htx _ eq_refl); try specialize (Hty _ eq_refl); lia.
    + destruct rb as [y|ey|]; simplify_eq. by eapply resolve_family_answer.
    + destruct rb as [y|ey|]; simplify_eq. by eapply resolve_family_answer.
  - intros st q st' H. pose proof (dot_resolve_cases st q) as Hc.
    destruct (resolve_family st q A) as [st1 ra] eqn:Ea.
    destruct (resolve_family st1 q Aaaa) as [st2 rb] eqn:Eb. rewrite H in Hc. injection Hc as _ Hc.
    pose proof (resolve_family_no_panic st1 q Aaaa) as Hnb. rewrite Eb in Hnb.
    by destruct ra, rb.
Qed.

(** ** The session *)
  (** [Read::read_exact] fills the whole buffer or fails. *)
  Hypothesis read_exact_length : ∀ s n s' b, read_exact s n = (s', Some b) → length b = n.

Lemma exchange_message_length s req s' resp :
  exchange_message s req = (s', Some resp) → DNS_HEADER_BYTES ≤ length resp.
Proof.
  unfold exchange_message. intros H.
  repeat match type of H with context [match ?x with _ => _ end] => destruct x eqn:?; try discriminate H end.
  bool_to_prop. apply read_exact_length in H. lia.
Qed.

(** The world after [k] connection attempts. *)
Definition connects (k : nat) (w : W) : W := Nat.iter k (λ w, (connect w).1) w.

Lemma exchange_attempts_ok n st req :
  let '(st', r) := exchange_attempts n st req in
  next_id st' = next_id st
  ∧ (∃ k, k ≤ n ∧ world st' = connects k (world st))
  ∧ match r with
    | Ok resp => is_Some (session st') ∧ DNS_HEADER_BYTES ≤ length resp
    | Err e => e = DnsError_new ResolverFailure ∧ (0 < n → session st' = None)
    | Panic => False
    end.
Proof.
  revert st; induction n as [|n IH]; intros st.
  { cbn. split_and!; try done; [by exists 0|lia]. }
  assert (∀ st1 k0, k0 ≤ 1 → session st1 = None → world st1 = connects k0 (world st) → next_id st1 = next_id st →
    let '(st', r) := exchange_attempts n st1 req in
    next_id st' = next_id st ∧ (∃ k, k ≤ Datatypes.S n ∧ world st' = connects k (world st))
    ∧ match r with
      | Ok resp => is_Some (session st') ∧ DNS_HEADER_BYTES ≤ length resp
      | Err e => e = DnsError_new ResolverFailure ∧ (0 < Datatypes.S n → session st' = None)
      | Panic => False
      end) as Hrec.
  { intros st1 k0 Hk Hs Hw Hid. specialize (IH st1). destruct (exchange_attempts n st1 req) as [st' r] eqn:E.
    destruct IH as (I1 & (k & Hk' & I2) & I3). split; [congruence|]. split.
    { exists (k + k0). split; [lia|]. rewrite I2, Hw. unfold connects. by rewrite Nat.iter_add. }
    destruct r; try done. destruct I3 as [-> I3]. split; [done|]. intros _.
    destruct n; [|by apply I3; lia]. cbn in E. by simplify_eq. }
  cbn [exchange_attempts]. destruct (session st) as [s|] eqn:Es.
  - unfold exchange_on. destruct (exchange_message s req) as [s' [resp|]] eqn:Ex.
    + cbn. split_and!; try done; [by exists 0; split; [lia|]|by eapply exchange_message_length].
    + apply (Hrec (set_session st None) 0); [lia|done..].
  - destruct (connect (world st)) as [w [s|]] eqn:Ec.
    + unfold exchange_on. destruct (exchange_message s req) as [s' [resp|]] eqn:Ex.
      * cbn. split_and!; try done; [|by eapply exchange_message_length].
        exists 1. split; [lia|]. cbn. by rewrite Ec.
      * apply (Hrec (set_session (set_world st w) None) 1); try done. cbn. by rewrite Ec.
    + apply (Hrec (set_world st w) 1); try done. cbn. by rewrite Ec.
Qed.

(** C31. One exchange opens at most two connections. It either delivers a
    response of at least a DNS header and keeps the session for the next
    query, or reports a resolver failure and keeps no session. A stale
    persistent session costs nothing but a reconnect: when it fails and a new
    connection serves the request, the exchange succeeds. *)
Theorem dot_exchange_spec st req :
  (let '(st', r) := DotState_exchange st req in
   next_id st' = next_id st
   ∧ (∃ k, k ≤ 2 ∧ world st' = connects k (world st))
   ∧ match r with
     | Ok resp => is_Some (session st') ∧ DNS_HEADER_BYTES ≤ length resp
     | Err e => e = DnsError_new ResolverFailure ∧ session st' = None
     | Panic => False
     end)
  ∧ (∀ s s1 w s2 s3 resp,
       session st = Some s → exchange_message s req = (s1, None) →
       connect (world st) = (w, Some s2) → exchange_message s2 req = (s3, Some resp) →
       DotState_exchange st req =
         ({| world := w; session := Some s3; next_id := next_id st |}, Ok resp)).
Proof.
  split.
  - pose proof (exchange_attempts_ok DOT_CONNECT_ATTEMPTS st req) as H.
    change (exchange_attempts DOT_CONNECT_ATTEMPTS st req) with (DotState_exchange st req) in H.
    destruct (DotState_exchange st req) as [st' r]. destruct H as (H1 & H2 & H3). split_and!; try done.
    destruct r; try done. destruct H3 as [-> H3]. split; [done|]. apply H3. unfold DOT_CONNECT_ATTEMPTS. lia.
  - intros s s1 w s2 s3 resp Hs H1 Hc H2. unfold DotState_exchange, DOT_CONNECT_ATTEMPTS.
    cbn [exchange_attempts]. rewrite Hs. unfold exchange_on. rewrite H1.
    cbn [session set_session world]. rewrite Hc, H2. done.
Qed.

(** A response the parser rejects as malformed ends the session it came on. *)
Lemma resolve_family_drops_session st q ty st' e :
  resolve_family st q ty = (st', Err e) → kind e = InvalidResponse → session st' = None.
Proof.
  unfold resolve_family. intros H Hk.
  destruct (encode_address_query _ _ _) as [req|e'|] eqn:Ee; [|exfalso|done].
  - match type of H with context [DotState_exchange ?s req] => pose proof (exchange_attempts_ok DOT_CONNECT_ATTEMPTS s req) as Hx;
      change (exchange_attempts DOT_CONNECT_ATTEMPTS s req) with (DotState_exchange s req) in Hx;
      destruct (DotState_exchange s req) as [st1 [resp|e1|]] end.
    + destruct (parse_address_response _ _ _ _) as [a|e2|]; try done.
      injection H as <- ->. by rewrite bool_decide_true.
    + injection H as <- ->. destruct Hx as (_ & _ & -> & _). done.
    + by destruct Hx as (_ & _ & []).
  - injection H as _ ->. unfold encode_address_query, encode_name in Ee.
    assert (∀ ls out, encode_labels ls out = Err e → kind e = InvalidName) as Hl.
    { induction ls as [|l ls IH]; intros out; cbn [encode_labels]; [done|].
      repeat case_match; intros He; simplify_eq; try done. by eapply IH. }
    destruct (encode_labels _ _) eqn:E1; cbn [mbind result_bind] in Ee; [|injection Ee as ->; apply Hl in E1; congruence|done].
    case_match; cbn in Ee; [injection Ee as <-; done|done].
Qed.
End dot.

(** A scripted session: what was written and the bytes still to be read. *)
Definition script_write (s : bytes * bytes) (b : bytes) : (bytes * bytes) * bool := ((s.1 ++ b, s.2), true).
Definition script_flush (s : bytes * bytes) : (bytes * bytes) * bool := (s, true).
Definition script_read (s : bytes * bytes) (n : nat) : (bytes * bytes) * option bytes :=
  if n <=? length s.2 then ((s.1, drop n s.2), Some (take n s.2)) else (s, None).

Lemma dot_exchange_spec_witness :
  let st := {| world := 0; session := Some ([], []); next_id := 1 |} in
  let connect (w : nat) := (Datatypes.S w, Some (@nil byte, [x00; x0c] ++ replicate 12 x07)) in
  DotState_exchange connect script_write script_flush script_read st [x01]
  = ({| world := 1; session := Some ([x00; x01; x01], []); next_id := 1 |}, Ok (replicate 12 x07)).
Proof.
  cbn zeta.
  eapply (proj2 (dot_exchange_spec _ script_write script_flush script_read _
    {| world := 0; session := Some ([], []); next_id := 1 |} [x01])).
  - reflexivity.
  - reflexivity.
  - reflexivity.
  - reflexivity.
  Unshelve.
  intros s n s' b. unfold script_read. destruct (_ <=? _) eqn:E; [|done]. bool_to_prop.
    intros [= _ <-]. rewrite length_take. lia.
Defined.
