(* ===== verification/Proxy.v ===== *)
(** * Targets and direct connections ([daemon/src/proxy.rs])

    Where a flow wants to go, the flow context and plan made for it, name
    resolution of a target and the sequential connection attempts of a direct
    TCP connection. An [io::Error] is its kind; messages are not modelled. *)

From S2P Require Import Prelude RustStr RustNet Flow Policy DnsBase.

(** [io::ErrorKind], the kinds the sources name and [Other]. *)
Inductive ErrorKind :=
| EInvalidInput | EInvalidData | ETimedOut | EAddrNotAvailable | EWouldBlock | EInterrupted
| EUnsupported | EUnexpectedEof | EQuotaExceeded | EPermissionDenied | EWriteZero | ENotFound
| EConnectionRefused | EOutOfMemory | EConnectionReset | EBrokenPipe | EAlreadyExists
| ENotConnected | EOther.

#[global] Instance ErrorKind_eq_dec : EqDecision ErrorKind.
Proof. solve_decision. Defined.

Record Target := {
  host : DestinationHost;
  port : Z;
}.

#[global] Instance Target_eq_dec : EqDecision Target.
Proof. solve_decision. Defined.

Definition Target_new (host : DestinationHost) (port : Z) : result ErrorKind Target :=
  if (port =? 0)%Z then Err EInvalidInput else Ok {| host := host; port := port |}.

(** [NEXT_FLOW_ID.fetch_add(1)]: the counter is the state. *)
Definition Target_flow (next_flow_id : Z) (t : Target) (transport : TransportProtocol) : Z * FlowContext :=
  ((next_flow_id + 1) mod 2 ^ 64,
   FlowContext_new next_flow_id SourceContext_default
     {| dest_host := host t; dest_port := port t |} transport NetworkContext_default)%Z.

Definition plan_action (runtime : Runtime) (next_flow_id : Z) (t : Target) (transport : TransportProtocol)
    : Z * ExecutionAction :=
  let '(next, flow) := Target_flow next_flow_id t transport in
  (next, plan_execution (Runtime_plan runtime flow)).

Section direct.
  (** The world of clock, resolver and sockets. *)
  Context {W Stream : Type}.
  Context (dns_resolve : W → str → W * result DnsError (list IpAddr)).
  Context (now : W → W * Z).
  Context (connect_timeout : W → SocketAddr → Z → W * result ErrorKind Stream).
  Context (set_nodelay : Stream → result ErrorKind unit).

Definition resolve_target (w : W) (t : Target) : W * result ErrorKind (list SocketAddr) :=
  let '(w, addresses) :=
    match host t with
    | Domain domain =>
        let '(w, r) := dns_resolve w domain in
        (w, match r with
            | Ok l => Ok ((λ a, sock_new a (port t)) <$> l)
            | Err _ => Err EAddrNotAvailable
            | Panic => Panic
            end)
    | Ip address => (w, Ok [sock_new address (port t)])
    end in
  (w, match addresses with
      | Ok l => if length l =? 0 then Err EAddrNotAvailable else Ok l
      | r => r
      end).

Definition CONNECT_TIMEOUT : Z := 10 * 1000000000.

(** One connection attempt after the other until one succeeds or the
    deadline passes; [saturating_duration_since] is the truncated difference. *)
Fixpoint connect_each (w : W) (deadline : Z) (addresses : list SocketAddr) (last_error : option ErrorKind)
    : W * result ErrorKind Stream :=
  match addresses with
  | [] => (w, Err (default ETimedOut last_error))
  | address :: addresses' =>
      let '(w, n) := now w in
      let remaining := Z.max 0 (deadline - n) in
      if (remaining =? 0)%Z then (w, Err (default ETimedOut last_error))
      else match connect_timeout w address remaining with
           | (w, Ok stream) =>
               (w, match set_nodelay stream with Ok _ => Ok stream | Err e => Err e | Panic => Panic end)
           | (w, Err error) => connect_each w deadline addresses' (Some error)
           | (w, Panic) => (w, Panic)
           end
  end.

Definition connect_direct (w : W) (t : Target) : W * result ErrorKind Stream :=
  match resolve_target w t with
  | (w, Ok addresses) =>
      let '(w, n) := now w in
      connect_each w (n + CONNECT_TIMEOUT) addresses None
  | (w, Err e) => (w, Err e)
  | (w, Panic) => (w, Panic)
  end.

(** A resolved target keeps its port and is never an empty list. *)
Lemma resolve_target_ok w t w' l :
  resolve_target w t = (w', Ok l) → l ≠ [] ∧ Forall (λ a, sock_port a = port t) l.
Proof.
  unfold resolve_target. intros H. destruct (host t) as [d|a].
  - destruct (dns_resolve w d) as [w1 [l1|e|]]; try done. destruct (_ =? 0) eqn:E; [done|]. bool_to_prop.
    injection H as _ <-. split; [by destruct l1|]. apply Forall_fmap, Forall_true. intros []; done.
  - injection H as _ <-. split; [done|]. apply Forall_singleton. by destruct a.
Qed.

(** [a] is an address of the target: its own, or one the name resolves to. *)
Definition aims (w : W) (t : Target) (a : SocketAddr) : Prop :=
  sock_port a = port t
  ∧ match host t with
    | Ip i => sock_ip a = i
    | Domain n => ∃ w' l, dns_resolve w n = (w', Ok l) ∧ sock_ip a ∈ l
    end.
Lemma resolve_target_aims w t w' l : resolve_target w t = (w', Ok l) → Forall (aims w t) l.
Proof.
  intros H. pose proof (resolve_target_ok _ _ _ _ H) as [_ Hp]. apply Forall_forall. intros a Ha. rewrite Forall_forall in Hp.
  split; [by apply Hp|]. unfold resolve_target in H. destruct (host t) as [d|i].
  - destruct (dns_resolve w d) as [w1 [l1|e|]] eqn:E; try done. destruct (_ =? 0); [done|]. injection H as _ <-.
    exists w1, l1. split; [done|]. apply list_elem_of_fmap in Ha as (x & -> & Hx). by destruct x.
  - injection H as _ <-. apply list_elem_of_singleton in Ha as ->. by destruct i.
Qed.
End direct.
