(* ===== verification/Trojan.v ===== *)
(** * The Trojan wire format ([daemon/src/trojan.rs])

    Verifier, request prefaces and UDP frames. SHA-224 (the [sha2] crate) is
    a parameter. A stored domain is a Rust [String], so [target_ok] requires
    it to be valid UTF-8. *)

From S2P Require Import Prelude RustStr RustNet Flow Proxy.

Definition TROJAN_VERIFIER_BYTES : nat := 56.
Definition MAX_TROJAN_PASSWORD_BYTES : Z := 1024.
Definition TROJAN_CONNECT : byte := x01.
Definition TROJAN_UDP_ASSOCIATE : byte := x03.
Definition CRLF : bytes := [x0d; x0a].

(** The verifier array. *)
Record TrojanVerifier := { as_bytes : bytes }.

(** [HEX[usize::from(n)]] *)
Definition HEX : bytes := #"0123456789abcdef".
Definition hex_pair (b : byte) : bytes :=
  [nth (Z.to_nat (Z.shiftr (b2z b) 4)) HEX x00; nth (Z.to_nat (Z.land (b2z b) 0x0f)) HEX x00].

Section verifier.
  Context (sha224 : bytes → bytes).

Definition TrojanVerifier_new (password : str) : result ErrorKind TrojanVerifier :=
  if (length password =? 0) || (MAX_TROJAN_PASSWORD_BYTES <? Z.of_nat (length password))%Z
  then Err EInvalidInput
  else Ok {| as_bytes := mjoin (hex_pair <$> sha224 password) |}.
End verifier.

(** ** Encoders *)
Definition encode_host (buffer : bytes) (host : DestinationHost) : result ErrorKind bytes :=
  match host with
  | Ip (V4 address) => Ok (buffer ++ [x01] ++ v4_octets address)
  | Domain domain =>
      if (255 <? Z.of_nat (length domain))%Z then Err EInvalidInput
      else if length domain =? 0 then Err EInvalidInput
      else Ok (buffer ++ [x03] ++ [z2b (Z.of_nat (length domain))] ++ domain)
  | Ip (V6 address) => Ok (buffer ++ [x04] ++ v6_octets address)
  end.

Definition encode_target (buffer : bytes) (target : Target) : result ErrorKind bytes :=
  buffer ← encode_host buffer (host target);
  Ok (buffer ++ u16_be (port target)).

Definition encode_connect_request (verifier : TrojanVerifier) (target : Target) : result ErrorKind bytes :=
  let request := as_bytes verifier ++ CRLF ++ [TROJAN_CONNECT] in
  request ← encode_target request target;
  Ok (request ++ CRLF).

Definition encode_udp_associate_request (verifier : TrojanVerifier) : bytes :=
  as_bytes verifier ++ CRLF ++ [TROJAN_UDP_ASSOCIATE]
  ++ [x01; x00; x00; x00; x00; x00; x00] ++ CRLF.

Definition encode_udp_frame (target : Target) (payload : bytes) : result ErrorKind bytes :=
  if (65535 <? Z.of_nat (length payload))%Z then Err EInvalidInput
  else
    frame ← encode_target [] target;
    Ok (frame ++ u16_be (Z.of_nat (length payload)) ++ CRLF ++ payload).

(** ** The frame parser *)
Record ParsedUdpFrame := {
  source : Target;
  (** [payload : Range<usize>] *)
  payload_start : nat;
  payload_end : nat;
  consumed : nat;
}.

(** The host and its end; [None] when more bytes are needed. *)
Definition parse_host (data : bytes) (address_type : byte) : result ErrorKind (option (DestinationHost * nat)) :=
  if bool_decide (address_type = x01) then
    if length data <? 5 then Ok None
    else
      octets ← slice data 1 5;
      Ok (Some (Ip (V4 (be_value octets)), 5))
  else if bool_decide (address_type = x03) then
    if length data <? 2 then Ok None
    else
      len ← index data 1;
      let len := Z.to_nat (b2z len) in
      if len =? 0 then Err EInvalidData
      else
        let end_ := 2 + len in
        if length data <? end_ then Ok None
        else
          raw ← slice data 2 end_;
          domain ← ok_or (from_utf8 raw) EInvalidData;
          Ok (Some (Domain domain, end_))
  else if bool_decide (address_type = x04) then
    if length data <? 17 then Ok None
    else
      octets ← slice data 1 17;
      Ok (Some (Ip (V6 (be_value octets)), 17))
  else Err EInvalidData.

Definition parse_target (data : bytes) : result ErrorKind (option (Target * nat)) :=
  match data with
  | [] => Ok None
  | address_type :: _ =>
      found ← parse_host data address_type;
      match found with
      | None => Ok None
      | Some (host, host_end) =>
          if length data <? host_end + 2 then Ok None
          else
            raw ← slice data host_end (host_end + 2);
            target ← map_err (λ _, EInvalidData) (Target_new host (be_value raw));
            Ok (Some (target, host_end + 2))
      end
  end.

Definition parse_udp_frame (data : bytes) : result ErrorKind (option ParsedUdpFrame) :=
  found ← parse_target data;
  match found with
  | None => Ok None
  | Some (source, address_len) =>
      if length data <? address_len + 4 then Ok None
      else
        raw ← slice data address_len (address_len + 2);
        let len := Z.to_nat (be_value raw) in
        crlf ← slice data (address_len + 2) (address_len + 4);
        if negb (bool_decide (crlf = CRLF)) then Err EInvalidData
        else
          let payload_start := address_len + 4 in
          consumed ← ok_or (checked_add payload_start len) EInvalidData;
          if length data <? consumed then Ok None
          else Ok (Some {| source := source; payload_start := payload_start;
                           payload_end := consumed; consumed := consumed |})
  end.

(** ** What a target must be for the format to carry it *)
Definition target_ok (t : Target) : Prop :=
  is_u16 (port t) ∧ port t ≠ 0%Z
  ∧ match host t with
    | Ip a => ip_wf a
    | Domain d => 1 ≤ length d ≤ 255 ∧ utf8_valid d = true
    end.

Definition wire_host (h : DestinationHost) : bytes :=
  match h with
  | Ip (V4 a) => x01 :: v4_octets a
  | Ip (V6 a) => x04 :: v6_octets a
  | Domain d => x03 :: z2b (Z.of_nat (length d)) :: d
  end.
Definition wire_target (t : Target) : bytes := wire_host (host t) ++ u16_be (port t).
Definition wire_frame (t : Target) (payload : bytes) : bytes :=
  wire_target t ++ u16_be (Z.of_nat (length payload)) ++ CRLF ++ payload.

Lemma slice_mid {E} (a b c : bytes) n m :
  n = length a → m = length a + length b → slice (E:=E) (a ++ b ++ c) n m = Ok b.
Proof. intros -> ->. unfold slice. by rewrite slice_get_mid. Qed.

Lemma slice_ok {E X} (l : list X) a b :
  a ≤ b ≤ length l → slice (E:=E) l a b = Ok (take (b - a) (drop a l)).
Proof. intros H. unfold slice. by rewrite (proj2 (slice_get_Some _ _ _ _) (conj H eq_refl)). Qed.

Lemma encode_target_ok t buffer :
  target_ok t → encode_target buffer t = Ok (buffer ++ wire_target t).
Proof.
  intros (_ & _ & Hh). unfold encode_target, encode_host, wire_target.
  destruct (host t) as [d|[a|a]]; cbn [wire_host].
  - destruct Hh as [Hl _]. rewrite (proj2 (Z.ltb_ge _ _)) by lia. rewrite (proj2 (Nat.eqb_neq _ _)) by lia.
    cbn. by rewrite <- app_assoc.
  - cbn [mbind result_bind]. by rewrite <- !app_assoc.
  - cbn [mbind result_bind]. by rewrite <- !app_assoc.
Qed.

(** Parsing a host: complete, and on every shorter input undecided. *)
Lemma parse_host_wire h rest ty tl :
  (match h with Ip a => ip_wf a | Domain d => 1 ≤ length d ≤ 255 ∧ utf8_valid d = true end) →
  wire_host h = ty :: tl →
  parse_host (wire_host h ++ rest) ty = Ok (Some (h, length (wire_host h))).
Proof.
  intros Hh Hty. destruct h as [d|[a|a]]; cbn [wire_host] in *; injection Hty as <- _; unfold parse_host.
  - destruct Hh as [Hl Hu]. rewrite bool_decide_false, bool_decide_true by done.
    rewrite (proj2 (Nat.ltb_ge _ _)) by (rewrite length_app; cbn; lia).
    assert (index (E:=ErrorKind) ((x03 :: z2b (Z.of_nat (length d)) :: d) ++ rest) 1
      = Ok (z2b (Z.of_nat (length d)))) as -> by done. cbn [mbind result_bind].
    rewrite b2z_z2b_small, Nat2Z.id by lia. rewrite (proj2 (Nat.eqb_neq _ _)) by lia.
    rewrite (proj2 (Nat.ltb_ge _ _)) by (rewrite length_app; cbn; lia).
    rewrite (slice_mid [x03; z2b (Z.of_nat (length d))] d rest) by done. cbn [mbind result_bind].
    unfold from_utf8. by rewrite Hu.
  - rewrite bool_decide_true by done.
    rewrite (proj2 (Nat.ltb_ge _ _)) by (rewrite length_app; cbn; lia).
    rewrite (slice_mid [x01] (v4_octets a) rest) by done. cbn [mbind result_bind].
    unfold v4_octets. by rewrite be_value_be_bytes_small.
  - rewrite bool_decide_false, bool_decide_false, bool_decide_true by done.
    rewrite (proj2 (Nat.ltb_ge _ _)) by (rewrite length_app; cbn; lia).
    rewrite (slice_mid [x04] (v6_octets a) rest) by done. cbn [mbind result_bind].
    unfold v6_octets. by rewrite be_value_be_bytes_small.
Qed.

Lemma parse_target_wire t rest :
  target_ok t → parse_target (wire_target t ++ rest) = Ok (Some (t, length (wire_target t))).
Proof.
  intros (Hp & Hp0 & Hh). unfold wire_target. rewrite <- app_assoc.
  destruct (wire_host (host t)) as [|ty tl] eqn:Ew; [by destruct (host t) as [|[]]|].
  cbn [app parse_target]. rewrite app_comm_cons, <- Ew.
  rewrite (parse_host_wire _ _ ty tl) by done. cbn [mbind result_bind].
  rewrite !length_app. cbn [u16_be]. rewrite (proj2 (Nat.ltb_ge _ _)) by (cbn; lia).
  rewrite (slice_mid (wire_host (host t)) (u16_be (port t)) rest) by done. cbn [mbind result_bind].
  unfold u16_be. rewrite be_value_be_bytes_small by done. unfold Target_new.
  rewrite (proj2 (Z.eqb_neq _ _)) by done. cbn [map_err mbind result_bind].
  rewrite Ew. cbn [length]. rewrite length_app, length_be_bytes. by destruct t.
Qed.

Lemma parse_host_prefix h ty tl k :
  (match h with Ip a => ip_wf a | Domain d => 1 ≤ length d ≤ 255 ∧ utf8_valid d = true end) →
  wire_host h = ty :: tl → 0 < k < length (wire_host h) →
  parse_host (take k (wire_host h)) ty = Ok None.
Proof.
  intros Hh Hty Hk. unfold parse_host. rewrite length_take, Nat.min_l by lia.
  destruct h as [d|[a|a]]; cbn [wire_host] in *; injection Hty as <- _.
  - rewrite bool_decide_false, bool_decide_true by done.
    destruct (k <? 2) eqn:E2; [done|]. bool_to_prop.
    destruct k as [|[|k]]; [lia..|].
    assert (index (E:=ErrorKind) (take (S (S k)) (x03 :: z2b (Z.of_nat (length d)) :: d)) 1
      = Ok (z2b (Z.of_nat (length d)))) as -> by done. cbn [mbind result_bind length] in *.
    rewrite b2z_z2b_small, Nat2Z.id by lia. rewrite (proj2 (Nat.eqb_neq _ _)) by lia.
    by rewrite (proj2 (Nat.ltb_lt _ _)) by lia.
  - rewrite bool_decide_true by done. cbn in Hk. by rewrite (proj2 (Nat.ltb_lt _ _)) by lia.
  - rewrite bool_decide_false, bool_decide_false, bool_decide_true by done.
    cbn in Hk. by rewrite (proj2 (Nat.ltb_lt _ _)) by lia.
Qed.

Lemma parse_target_prefix t k :
  target_ok t → k < length (wire_target t) → parse_target (take k (wire_target t)) = Ok None.
Proof.
  intros (Hp & Hp0 & Hh) Hk. unfold wire_target in *.
  destruct (wire_host (host t)) as [|ty tl] eqn:Ew; [by destruct (host t) as [|[]]|].
  destruct k as [|k]; [done|]. destruct (decide (S k < length (wire_host (host t)))) as [Hlt|Hge].
  - rewrite <- Ew. rewrite take_app_le by lia.
    assert (∃ tl', take (S k) (wire_host (host t)) = ty :: tl') as [tl' Et] by (rewrite Ew; cbn; eauto).
    unfold parse_target. rewrite Et at 1. rewrite (parse_host_prefix _ ty tl) by (done || lia). done.
  - rewrite <- Ew in *. rewrite take_app_ge by lia.
    set (r := take _ (u16_be (port t))). assert (length r < 2) as Hr.
    { unfold r. rewrite length_take. rewrite length_app in Hk. change (length (u16_be (port t))) with 2 in *. lia. }
    assert (∃ tl', wire_host (host t) ++ r = ty :: tl') as [tl' Et] by (rewrite Ew; cbn; eauto).
    unfold parse_target. rewrite Et at 1. rewrite (parse_host_wire _ _ ty tl) by done.
    cbn [mbind result_bind]. by rewrite (proj2 (Nat.ltb_lt _ _)) by (rewrite length_app; lia).
Qed.

Lemma length_wire_target t : target_ok t → length (wire_target t) ≤ 259.
Proof.
  intros (_ & _ & Hh). unfold wire_target, u16_be. rewrite length_app, length_be_bytes.
  destruct (host t) as [d|[a|a]]; cbn [wire_host length]; unfold v4_octets, v6_octets; rewrite ?length_be_bytes; lia.
Qed.

(** The frame parser past the address: what the next bytes must be. *)
Lemma parse_udp_frame_wire t payload rest :
  target_ok t → (Z.of_nat (length payload) ≤ 65535)%Z →
  parse_udp_frame (wire_frame t payload ++ rest) =
  Ok (Some {| source := t; payload_start := length (wire_target t) + 4;
              payload_end := length (wire_frame t payload); consumed := length (wire_frame t payload) |}).
Proof.
  intros Ht Hp. unfold parse_udp_frame, wire_frame. rewrite <- app_assoc, parse_target_wire by done.
  cbn [mbind result_bind]. set (addr := wire_target t). set (len := u16_be (Z.of_nat (length payload))).
  assert (length len = 2) as Hlen by done.
  rewrite (proj2 (Nat.ltb_ge _ _)) by (rewrite !length_app, Hlen; cbn; lia).
  rewrite <- !app_assoc. rewrite (slice_mid addr len _ (length addr) (length addr + 2)) by (rewrite ?Hlen; done). cbn [mbind result_bind].
  assert (slice (E:=ErrorKind) (addr ++ len ++ CRLF ++ payload ++ rest) (length addr + 2) (length addr + 4) = Ok CRLF) as ->.
  { rewrite (app_assoc addr len). apply slice_mid; rewrite length_app, Hlen; cbn; lia. }
  cbn [mbind result_bind]. rewrite bool_decide_true by done. cbn [negb].
  unfold len, u16_be. rewrite be_value_be_bytes_small by (cbn; lia). rewrite Nat2Z.id.
  pose proof (length_wire_target t Ht). fold addr in H.
  rewrite checked_add_small by lia. cbn [ok_or mbind result_bind].
  assert (length addr + 4 + length payload = length (addr ++ be_bytes 2 (Z.of_nat (length payload)) ++ CRLF ++ payload)) as Ec
    by (rewrite !length_app, length_be_bytes; cbn; lia).
  rewrite (proj2 (Nat.ltb_ge _ _)) by (rewrite !length_app, length_be_bytes; cbn; lia).
  by rewrite Ec.
Qed.

Lemma parse_udp_frame_prefix t payload k :
  target_ok t → (Z.of_nat (length payload) ≤ 65535)%Z → k < length (wire_frame t payload) →
  parse_udp_frame (take k (wire_frame t payload)) = Ok None.
Proof.
  intros Ht Hp Hk. unfold parse_udp_frame, wire_frame in *. set (addr := wire_target t) in *.
  set (len := u16_be (Z.of_nat (length payload))) in *. assert (length len = 2) as Hlen by done.
  rewrite !length_app, Hlen in Hk. cbn [CRLF length] in Hk.
  destruct (decide (k < length addr)) as [Hlt|Hge].
  { rewrite take_app_le by lia. unfold addr. by rewrite parse_target_prefix. }
  rewrite take_app_ge by lia. set (r := take _ _). unfold addr. rewrite parse_target_wire by done. fold addr.
  cbn [mbind result_bind]. assert (length (addr ++ r) = k) as Hk'.
  { unfold r. rewrite length_app, length_take, !length_app, Hlen. cbn. lia. }
  rewrite Hk'. destruct (k <? length addr + 4) eqn:E4; [done|]. bool_to_prop.
  assert (r = len ++ CRLF ++ take (k - length addr - 4) payload) as Er.
  { unfold r. rewrite app_assoc, take_app_ge by (rewrite length_app, Hlen; cbn; lia).
    rewrite length_app, Hlen. cbn [CRLF length]. by rewrite <- app_assoc. }
  rewrite Er. rewrite (slice_mid addr len _ (length addr) (length addr + 2)) by (rewrite ?Hlen; done). cbn [mbind result_bind].
  rewrite (app_assoc addr len), (slice_mid (addr ++ len) CRLF) by (rewrite length_app, Hlen; cbn; lia).
  cbn [mbind result_bind]. rewrite bool_decide_true by done. cbn [negb].
  unfold len, u16_be. rewrite be_value_be_bytes_small by (cbn; lia). rewrite Nat2Z.id.
  pose proof (length_wire_target t Ht). fold addr in H.
  rewrite checked_add_small by lia. cbn [ok_or mbind result_bind].
  by rewrite (proj2 (Nat.ltb_lt _ _)) by lia.
Qed.

(** ** The parser accepts nothing but frames *)
Lemma parse_host_inv data ty tl h e :
  data = ty :: tl → parse_host data ty = Ok (Some (h, e)) →
  (match h with Ip a => ip_wf a | Domain d => 1 ≤ length d ≤ 255 ∧ utf8_valid d = true end)
  ∧ e = length (wire_host h) ∧ ∃ rest, data = wire_host h ++ rest.
Proof.
  unfold parse_host. intros -> H. case_bool_decide as E1; [|case_bool_decide as E3; [|case_bool_decide as E4; [|done]]].
  - subst ty. destruct (_ <? _) eqn:El; [done|]. bool_to_prop. rewrite slice_ok in H by lia.
    cbn [mbind result_bind drop] in H. injection H as <- <-. cbn in El.
    assert (length (take (5 - 1) tl) = 4) as Hl by (rewrite length_take; lia).
    split; [|split; [done|exists (drop 4 tl)]]; cbn [wire_host].
    + pose proof (be_value_range (take (5 - 1) tl)) as R. rewrite Hl in R. exact R.
    + unfold v4_octets. rewrite be_bytes_be_value' by done. cbn. by rewrite firstn_skipn.
  - subst ty. destruct (_ <? 2) eqn:El; [done|]. bool_to_prop.
    destruct tl as [|lb tl]; [cbn in El; lia|]. change (index (E:=ErrorKind) (x03 :: lb :: tl) 1) with (Ok (E:=ErrorKind) lb) in H.
    cbn [mbind result_bind] in H. pose proof (b2z_range lb). destruct (_ =? 0) eqn:E0; [done|].
    destruct (_ <? _) eqn:El2; [done|]. bool_to_prop. rewrite slice_ok in H by lia. cbn [mbind result_bind drop] in H.
    unfold from_utf8 in H. destruct (utf8_valid _) eqn:Eu; [|done]. cbn [ok_or mbind result_bind] in H.
    injection H as <- <-. replace (2 + Z.to_nat (b2z lb) - 2) with (Z.to_nat (b2z lb)) in * by lia.
    assert (length (take (Z.to_nat (b2z lb)) tl) = Z.to_nat (b2z lb)) as Hl by (rewrite length_take; cbn in El2; lia).
    rewrite Nat.sub_0_r. change (drop 0 tl) with tl in *. split; [split; [rewrite Hl; lia|done]|]. split; [cbn; rewrite Hl; lia|]. exists (drop (Z.to_nat (b2z lb)) tl).
    cbn [wire_host]. rewrite Hl, Z2Nat.id, z2b_b2z by lia. cbn. by rewrite firstn_skipn.
  - subst ty. destruct (_ <? _) eqn:El; [done|]. bool_to_prop. rewrite slice_ok in H by lia.
    cbn [mbind result_bind drop] in H. injection H as <- <-. cbn [length] in El.
    assert (length (take (17 - 1) tl) = 16) as Hl by (rewrite length_take; lia).
    split; [|split; [done|exists (drop 16 tl)]]; cbn [wire_host].
    + pose proof (be_value_range (take (17 - 1) tl)) as R. rewrite Hl in R. exact R.
    + unfold v6_octets. rewrite be_bytes_be_value' by done. cbn [app]. f_equal. symmetry. apply (take_drop 16).
Qed.

Lemma slice_after {E} (a r : bytes) n x y :
  x = length a + n → y = length a + (n + 2) → length r ≥ n + 2 →
  slice (E:=E) (a ++ r) x y = Ok (take 2 (drop n r)).
Proof.
  intros -> -> Hr. rewrite slice_ok by (rewrite length_app; lia).
  rewrite <- drop_drop, drop_app_length.
  by replace (length a + (n + 2) - (length a + n)) with 2 by lia.
Qed.

Lemma parse_target_inv data t e :
  parse_target data = Ok (Some (t, e)) →
  target_ok t ∧ e = length (wire_target t) ∧ ∃ rest, data = wire_target t ++ rest.
Proof.
  unfold parse_target. destruct data as [|ty tl]; [done|]. intros H.
  apply bind_ok_inv in H as ([[h he]|] & Hh & H); [|done].
  apply (parse_host_inv _ ty tl) in Hh as (Hok & -> & rest & Er); [|done]. rewrite Er in H.
  destruct (_ <? _) eqn:El; [done|]. bool_to_prop. rewrite length_app in El.
  rewrite (slice_after _ _ 0 (length (wire_host h)) (length (wire_host h) + 2)) in H by lia. rewrite drop_0 in H. cbn [mbind result_bind] in H.
  assert (length (take 2 rest) = 2) as Hl by (rewrite length_take; lia).
  unfold Target_new in H. destruct (_ =? 0)%Z eqn:E0; [done|]. cbn [map_err mbind result_bind] in H.
  injection H as <- <-. bool_to_prop. unfold target_ok, wire_target, u16_be. cbn [host port].
  rewrite be_bytes_be_value' by done. split_and!; try done; try apply be_value_u16; try done.
  - rewrite length_app, Hl. lia.
  - exists (drop 2 rest). rewrite Er, <- app_assoc. by rewrite firstn_skipn.
Qed.

Lemma parse_udp_frame_inv data f :
  parse_udp_frame data = Ok (Some f) →
  ∃ payload rest, target_ok (source f) ∧ (Z.of_nat (length payload) ≤ 65535)%Z
    ∧ data = wire_frame (source f) payload ++ rest
    ∧ consumed f = length (wire_frame (source f) payload)
    ∧ payload_end f = consumed f ∧ payload_start f = length (wire_target (source f)) + 4
    ∧ take (payload_end f - payload_start f) (drop (payload_start f) data) = payload.
Proof.
  unfold parse_udp_frame. intros H. apply bind_ok_inv in H as ([[t e]|] & Ht & H); [|done].
  apply parse_target_inv in Ht as (Hok & -> & rest & ->).
  destruct (_ <? _) eqn:El; [done|]. bool_to_prop. rewrite length_app in El.
  rewrite (slice_after _ _ 0 (length (wire_target t)) (length (wire_target t) + 2)) in H by lia. rewrite drop_0 in H. cbn [mbind result_bind] in H.
  rewrite (slice_after _ _ 2 (length (wire_target t) + 2) (length (wire_target t) + 4)) in H by lia. cbn [mbind result_bind] in H.
  destruct (negb _) eqn:Ec; [done|]. bool_to_prop.
  assert (length (take 2 rest) = 2) as Hl by (rewrite length_take; lia).
  pose proof (be_value_u16 _ Hl) as Hv. unfold is_u16 in Hv.
  set (n := Z.to_nat (be_value (take 2 rest))) in *.
  destruct (checked_add _ _) as [c|] eqn:Ea; cbn [ok_or mbind result_bind] in H; [|done].
  apply checked_add_Some in Ea as ->. destruct (_ <? _) eqn:El2; [done|]. bool_to_prop. rewrite length_app in El2.
  injection H as <-. cbn [source payload_start payload_end consumed].
  set (payload := take n (drop 4 rest)).
  assert (length payload = n) as Hp by (unfold payload; rewrite length_take, length_drop; lia).
  assert (rest = take 2 rest ++ CRLF ++ drop 4 rest) as Er.
  { rewrite <- Ec. rewrite <- (take_drop 2 rest) at 1. f_equal. rewrite <- (take_drop 2 (drop 2 rest)) at 1.
    by rewrite drop_drop. }
  exists payload, (drop n (drop 4 rest)).
  assert (length (wire_frame t payload) = length (wire_target t) + 4 + n) as Hwf.
  { unfold wire_frame, u16_be. rewrite !length_app, length_be_bytes, Hp. cbn. lia. }
  split_and!; [done|lia| |lia|done|done|].
  - unfold wire_frame. rewrite Hp. unfold u16_be, n. rewrite Z2Nat.id by lia. rewrite be_bytes_be_value' by done.
    rewrite <- !app_assoc. f_equal. unfold payload. fold n. rewrite firstn_skipn. exact Er.
  - rewrite <- drop_drop, drop_app_length. unfold payload. f_equal. lia.
Qed.

(** More bytes are asked for only while less than a maximal frame is there. *)
Lemma parse_target_undecided data : parse_target data = Ok None → length data < 259.
Proof.
  unfold parse_target. destruct data as [|ty tl]; [cbn; lia|]. set (d := ty :: tl). intros H.
  apply bind_ok_inv in H as (found & Hf & H).
  assert (match found with Some (_, e) => e ≤ 257 | None => length d < 257 end) as Hb.
  { clear H. unfold parse_host in Hf. pose proof (b2z_range) as R.
    case_bool_decide; [|case_bool_decide; [|case_bool_decide; [|done]]].
    - destruct (_ <? _) eqn:E; inv_ok; simplify_eq; bool_to_prop; lia.
    - destruct (_ <? 2) eqn:E; [inv_ok; simplify_eq; bool_to_prop; lia|].
      apply bind_ok_inv in Hf as (lb & _ & Hf). specialize (R lb). destruct (_ =? 0); [done|].
      destruct (length d <? 2 + _) eqn:E2; inv_ok; simplify_eq; bool_to_prop; lia.
    - destruct (_ <? _) eqn:E; inv_ok; simplify_eq; bool_to_prop; lia. }
  destruct found as [[h e]|]; [|lia]. destruct (_ <? _) eqn:El; [bool_to_prop; lia|].
  exfalso. inv_ok. discriminate.
Qed.

Lemma parse_udp_frame_undecided data :
  parse_udp_frame data = Ok None → (Z.of_nat (length data) < 259 + 4 + 65535)%Z.
Proof.
  unfold parse_udp_frame. intros H. apply bind_ok_inv in H as ([[t e]|] & Ht & H).
  2: { apply parse_target_undecided in Ht. lia. }
  apply parse_target_inv in Ht as (Hok & -> & rest & ->). pose proof (length_wire_target t Hok).
  destruct (_ <? _) eqn:El; [bool_to_prop; lia|]. bool_to_prop. rewrite length_app in El.
  rewrite (slice_after _ _ 0 (length (wire_target t)) (length (wire_target t) + 2)) in H by lia.
  apply bind_ok_inv in H as (raw & Hraw & H). injection Hraw as <-.
  assert (length (take 2 (drop 0 rest)) = 2) as Hl by (rewrite length_take, length_drop; lia).
  pose proof (be_value_u16 _ Hl) as Hv. unfold is_u16 in Hv.
  apply bind_ok_inv in H as (crlf & _ & H). destruct (negb _); [done|].
  apply bind_ok_inv in H as (c & Hc%ok_or_ok%checked_add_Some & H).
  destruct (_ <? _) eqn:El2; [|done]. bool_to_prop. subst c. lia.
Qed.

Lemma parse_host_no_panic data ty tl : data = ty :: tl → no_panic (parse_host data ty).
Proof.
  intros ->. unfold parse_host. case_bool_decide; [|case_bool_decide; [|case_bool_decide; [|done]]].
  - destruct (_ <? _) eqn:El; [done|]. bool_to_prop. by rewrite slice_ok by lia.
  - destruct (_ <? 2) eqn:El; [done|]. bool_to_prop. destruct tl as [|lb tl]; [cbn in El; lia|].
    change (index (E:=ErrorKind) (ty :: lb :: tl) 1) with (Ok (E:=ErrorKind) lb). cbn [mbind result_bind].
    destruct (_ =? 0); [done|]. destruct (_ <? _) eqn:El2; [done|]. bool_to_prop. rewrite slice_ok by lia.
    cbn [mbind result_bind]. apply bind_no_panic; [auto with commeatus|done].
  - destruct (_ <? _) eqn:El; [done|]. bool_to_prop. by rewrite slice_ok by lia.
Qed.

Lemma parse_udp_frame_no_panic data : no_panic (parse_udp_frame data).
Proof.
  unfold parse_udp_frame. apply bind_no_panic.
  - unfold parse_target. destruct data as [|ty tl]; [done|]. apply bind_no_panic; [by eapply parse_host_no_panic|].
    intros [[h e]|] Hh; [|done]. destruct (_ <? _) eqn:El; [done|]. bool_to_prop.
    rewrite slice_ok by lia. cbn [mbind result_bind]. apply bind_no_panic; [|done].
    unfold Target_new. by case_match.
  - intros [[t e]|] Ht; [|done]. destruct (_ <? _) eqn:El; [done|]. bool_to_prop.
    rewrite !slice_ok by lia. cbn [mbind result_bind]. case_match; [done|].
    apply bind_no_panic; [auto with commeatus|]. intros c _. by case_match.
Qed.

Lemma encode_parse_udp_frame t payload rest :
  target_ok t → (Z.of_nat (length payload) ≤ 65535)%Z →
  ∃ frame f, encode_udp_frame t payload = Ok frame
    ∧ parse_udp_frame (frame ++ rest) = Ok (Some f)
    ∧ source f = t ∧ consumed f = length frame ∧ payload_end f = consumed f
    ∧ slice_get frame (payload_start f) (payload_end f) = Some payload.
Proof.
  intros Ht Hp. eexists (wire_frame t payload), _. unfold encode_udp_frame.
  rewrite (proj2 (Z.ltb_ge _ _)), encode_target_ok by (done || lia). cbn [mbind result_bind app].
  split; [done|]. rewrite parse_udp_frame_wire by done. split; [done|]. cbn. split_and!; try done.
  unfold wire_frame. rewrite (app_assoc (wire_target t)), (app_assoc (wire_target t ++ _)).
  rewrite <- (app_nil_r payload) at 2. apply slice_get_mid'; rewrite !length_app; unfold u16_be; rewrite !length_be_bytes; cbn; lia.
Qed.

(** C39. UDP frames round-trip and the parser's three verdicts are exact.
    Encoding a target and a payload of at most 65,535 bytes gives a frame that
    parses, whatever follows it, to that target and payload, consuming exactly
    the frame. The parser reports a frame only for
    data that starts with the canonical encoding of that frame; it asks for more bytes on every strict prefix of a frame; and it never panics. *)
Theorem udp_frame_round_trip :
  (∀ t payload rest, target_ok t → (Z.of_nat (length payload) ≤ 65535)%Z →
     ∃ frame f, encode_udp_frame t payload = Ok frame
       ∧ parse_udp_frame (frame ++ rest) = Ok (Some f)
       ∧ source f = t ∧ consumed f = length frame ∧ payload_end f = consumed f
       ∧ slice_get frame (payload_start f) (payload_end f) = Some payload)
  ∧ (∀ data, parse_udp_frame data ≠ Panic)
  ∧ (∀ data f, parse_udp_frame data = Ok (Some f) →
       ∃ payload frame rest, encode_udp_frame (source f) payload = Ok frame
         ∧ data = frame ++ rest ∧ consumed f = length frame
         ∧ slice_get data (payload_start f) (payload_end f) = Some payload)
  ∧ (∀ t payload frame k, target_ok t → encode_udp_frame t payload = Ok frame →
       k < length frame → parse_udp_frame (take k frame) = Ok None).
Proof.
  split; [exact encode_parse_udp_frame|]. split; [exact parse_udp_frame_no_panic|]. split.
  - intros data f H. apply parse_udp_frame_inv in H as (payload & rest & Hok & Hp & Hd & Hc & He & Hs & Hsl).
    exists payload, (wire_frame (source f) payload), rest. unfold encode_udp_frame.
    rewrite (proj2 (Z.ltb_ge _ _)), encode_target_ok by (done || lia). split_and!; try done.
    apply slice_get_Some. split; [|done]. rewrite He, Hs, Hc, Hd, length_app. split; [|lia].
    unfold wire_frame. rewrite !length_app. unfold u16_be. rewrite length_be_bytes. cbn. lia.
  - intros t payload frame k Ht He Hk. unfold encode_udp_frame in He. destruct (_ <? _)%Z eqn:El; [done|].
    bool_to_prop. rewrite encode_target_ok in He by done. injection He as <-. by apply parse_udp_frame_prefix.
Qed.

Definition sample_target : Target := {| host := Domain (#"a.example"); port := 53 |}.

Lemma sample_target_ok : target_ok sample_target.
Proof. split; [done|]. split; [done|]. split; [vm_compute; lia|vm_compute; reflexivity]. Qed.

Lemma udp_frame_round_trip_witness :
  ∃ frame f, encode_udp_frame sample_target [x01; x02] = Ok frame
    ∧ parse_udp_frame (frame ++ [x03]) = Ok (Some f)
    ∧ source f = sample_target ∧ consumed f = length frame ∧ payload_end f = consumed f
    ∧ slice_get frame (payload_start f) (payload_end f) = Some [x01; x02].
Proof. apply (proj1 udp_frame_round_trip); [apply sample_target_ok|vm_compute; discriminate]. Defined.
