(* ===== verification/Datagram.v ===== *)
(** * Datagram routes ([daemon/src/datagram.rs])

    The execution interface every datagram path implements, the token
    allocator, the per-association route set and the DIRECT association.
    Operating-system sockets and the poll registry are parameters. Tokens and
    [usize] counters are [Z]. *)

From S2P Require Import Prelude RustStr RustNet Flow Policy DnsBase Proxy.

Definition MAX_DATAGRAM_REMOTE_PEERS : nat := 256.
Definition MAX_DATAGRAM_ROUTES : nat := 32.
Definition MAX_UNTRUSTED_DRAIN_PER_RECEIVE : nat := 32.

(** A received datagram, with the bytes left in the caller's buffer. *)
Record ReceivedDatagram := {
  dg_source : Target;
  dg_payload : bytes;
}.

(** [trait DatagramExecution: DatagramAssociation]; [receive] is given the
    length of the caller's buffer. *)
Class DatagramExecution (X : Type) := {
  dg_send : X → Target → bytes → X * result ErrorKind unit;
  dg_receive : X → nat → X * result ErrorKind (option ReceivedDatagram);
  readiness_source_count : X → nat;
  register_readiness : X → list Z → X * result ErrorKind unit;
}.

(** ** Tokens *)
Record DatagramTokenAllocator := { next_token : Z }.
Definition DatagramTokenAllocator_new (first_token : Z) : DatagramTokenAllocator :=
  {| next_token := first_token |}.

(** [(next_token..end).map(Token)] *)
Definition token_range (first : Z) (count : nat) : list Z :=
  (λ i, first + Z.of_nat i)%Z <$> seq 0 count.

Definition allocate (a : DatagramTokenAllocator) (count : nat)
    : DatagramTokenAllocator * result ErrorKind (list Z) :=
  if count =? 0 then (a, Err EInvalidInput)
  else if (2 ^ 64 <=? next_token a + Z.of_nat count)%Z then (a, Err EOutOfMemory)
  else ({| next_token := (next_token a + Z.of_nat count)%Z |}, Ok (token_range (next_token a) count)).

(** ** Route sets *)
Section routes.
  Context {X : Type} `{DatagramExecution X}.

Record DatagramRoute := {
  execution : X;
  tokens : list Z;
}.
Record DatagramRouteSet := { routes : gmap Endpoint DatagramRoute }.
Definition DatagramRouteSet_new : DatagramRouteSet := {| routes := ∅ |}.

  Context {W : Type}.

(** [send_with]; [open] may act on the world [W]. *)
Definition send_with (rs : DatagramRouteSet) (alloc : DatagramTokenAllocator) (w : W)
    (endpoint : Endpoint) (target : Target) (payload : bytes)
    (open : W → Endpoint → W * result ErrorKind X)
    : DatagramRouteSet * DatagramTokenAllocator * W * result ErrorKind unit :=
  let send_on rs alloc w (route : DatagramRoute) :=
    let '(x, r) := dg_send (execution route) target payload in
    ({| routes := <[endpoint := {| execution := x; tokens := tokens route |}]> (routes rs) |}, alloc, w, r) in
  match routes rs !! endpoint with
  | Some route => send_on rs alloc w route
  | None =>
      if MAX_DATAGRAM_ROUTES <=? size (routes rs) then (rs, alloc, w, Err EQuotaExceeded)
      else
        match open w endpoint with
        | (w, Err e) => (rs, alloc, w, Err e)
        | (w, Panic) => (rs, alloc, w, Panic)
        | (w, Ok x) =>
            match allocate alloc (readiness_source_count x) with
            | (alloc, Err e) => (rs, alloc, w, Err e)
            | (alloc, Panic) => (rs, alloc, w, Panic)
            | (alloc, Ok tokens) =>
                match register_readiness x tokens with
                | (_, Err e) => (rs, alloc, w, Err e)
                | (_, Panic) => (rs, alloc, w, Panic)
                | (x, Ok _) =>
                    let route := {| execution := x; tokens := tokens |} in
                    send_on {| routes := <[endpoint := route]> (routes rs) |} alloc w route
                end
            end
        end
  end.

(** The iteration order of the routes' hash map is a parameter. *)
  Context (iter : gmap Endpoint DatagramRoute → list (Endpoint * DatagramRoute)).

Definition owned_tokens (rs : DatagramRouteSet) : list Z :=
  mjoin ((λ e, tokens e.2) <$> iter (routes rs)).
Definition owns_token (rs : DatagramRouteSet) (token : Z) : bool :=
  existsb (λ e, bool_decide (token ∈ tokens e.2)) (iter (routes rs)).

Definition receive_ready (rs : DatagramRouteSet) (token : Z) (buffer : nat)
    : DatagramRouteSet * result ErrorKind (option ReceivedDatagram) :=
  match List.find (λ e, bool_decide (token ∈ tokens e.2)) (iter (routes rs)) with
  | None => (rs, Ok None)
  | Some (endpoint, route) =>
      let '(x, r) := dg_receive (execution route) buffer in
      ({| routes := <[endpoint := {| execution := x; tokens := tokens route |}]> (routes rs) |}, r)
  end.

(** ** The token invariant *)

(** Every token was handed out by the allocator, and no token belongs to two
    routes (nor twice to one). *)
Definition routes_ok (rs : DatagramRouteSet) (alloc : DatagramTokenAllocator) : Prop :=
  size (routes rs) ≤ MAX_DATAGRAM_ROUTES
  ∧ (∀ e r, routes rs !! e = Some r → NoDup (tokens r) ∧ Forall (λ t, t < next_token alloc)%Z (tokens r))
  ∧ (∀ e1 e2 r1 r2 t, routes rs !! e1 = Some r1 → routes rs !! e2 = Some r2 →
       t ∈ tokens r1 → t ∈ tokens r2 → e1 = e2).

Lemma elem_of_token_range first count t :
  t ∈ token_range first count ↔ (first ≤ t < first + Z.of_nat count)%Z.
Proof.
  unfold token_range. rewrite list_elem_of_fmap. setoid_rewrite elem_of_seq. split.
  - intros (i & -> & Hi). lia.
  - intros Ht. exists (Z.to_nat (t - first)). lia.
Qed.

Lemma token_range_NoDup first count : NoDup (token_range first count).
Proof. unfold token_range. apply NoDup_fmap_2; [intros a b; lia|apply NoDup_seq]. Qed.

(** What a successful allocation hands out: as many tokens as asked for, all
    of them new. *)
Lemma allocate_ok a count a' ts :
  allocate a count = (a', Ok ts) →
  length ts = count ∧ NoDup ts ∧ (next_token a ≤ next_token a')%Z
  ∧ Forall (λ t, next_token a ≤ t < next_token a')%Z ts.
Proof.
  unfold allocate. intros E. repeat case_match; simplify_eq. cbn. split_and!.
  - unfold token_range. by rewrite length_fmap, length_seq.
  - apply token_range_NoDup.
  - lia.
  - apply Forall_forall. intros t Ht%elem_of_token_range. done.
Qed.

Lemma allocate_mono a count : (next_token a ≤ next_token (allocate a count).1)%Z.
Proof. unfold allocate. repeat case_match; cbn; lia. Qed.

Lemma routes_ok_mono rs a a' :
  routes_ok rs a → (next_token a ≤ next_token a')%Z → routes_ok rs a'.
Proof.
  intros (H1 & H2 & H3) Hle. split_and!; try done. intros e r Hr. destruct (H2 e r Hr) as [Hn Hf].
  split; [done|]. eapply Forall_impl; [exact Hf|]. cbn. lia.
Qed.

Lemma routes_ok_new a : routes_ok DatagramRouteSet_new a.
Proof.
  split_and!; cbn; [rewrite map_size_empty; unfold MAX_DATAGRAM_ROUTES; lia|..].
  - intros e r. by rewrite lookup_empty.
  - intros e1 e2 r1 r2 t. by rewrite lookup_empty.
Qed.

(** Replacing the execution behind a route keeps its tokens. *)
Lemma routes_ok_update rs a e r x :
  routes rs !! e = Some r → routes_ok rs a →
  routes_ok {| routes := <[e := {| execution := x; tokens := tokens r |}]> (routes rs) |} a.
Proof.
  intros Hr (H1 & H2 & H3). split_and!; cbn.
  - by rewrite map_size_insert, Hr.
  - intros e' r' [[<- <-]|[_ Hl]]%lookup_insert_Some; cbn; eauto.
  - intros e1 e2 r1 r2 t [[<- <-]|[_ L1]]%lookup_insert_Some [[<- <-]|[_ L2]]%lookup_insert_Some; cbn; eauto.
Qed.

Lemma routes_ok_insert rs a a' e x ts :
  routes rs !! e = None → size (routes rs) < MAX_DATAGRAM_ROUTES → routes_ok rs a →
  NoDup ts → (next_token a ≤ next_token a')%Z → Forall (λ t, next_token a ≤ t < next_token a')%Z ts →
  routes_ok {| routes := <[e := {| execution := x; tokens := ts |}]> (routes rs) |} a'.
Proof.
  intros Hn Hs (H1 & H2 & H3) Hnd Hle Hf. rewrite Forall_forall in Hf. split_and!; cbn.
  - rewrite map_size_insert, Hn. lia.
  - intros e' r' [[<- <-]|[_ Hl]]%lookup_insert_Some; cbn.
    + split; [done|]. apply Forall_forall. intros t Ht%Hf. lia.
    + destruct (H2 _ _ Hl) as [? Hf']. split; [done|]. eapply Forall_impl; [exact Hf'|]. cbn. lia.
  - assert (∀ e2 r2 t, routes rs !! e2 = Some r2 → t ∈ tokens r2 → t ∈ ts → False) as Hdisj.
    { intros e2 r2 t L2 T2 T1. destruct (H2 _ _ L2) as [_ Hf2]. rewrite Forall_forall in Hf2.
      apply Hf2 in T2. apply Hf in T1. lia. }
    intros e1 e2 r1 r2 t [[<- <-]|[_ L1]]%lookup_insert_Some [[<- <-]|[_ L2]]%lookup_insert_Some; cbn; eauto;
      intros T1 T2; exfalso; eauto.
Qed.

Lemma send_with_ok rs alloc w e target payload open :
  routes_ok rs alloc →
  let '(rs', alloc', _, _) := send_with rs alloc w e target payload open in
  routes_ok rs' alloc' ∧ (next_token alloc ≤ next_token alloc')%Z
  ∧ (∀ e' r', routes rs' !! e' = Some r' →
       (∃ r, routes rs !! e' = Some r ∧ tokens r = tokens r')
       ∨ (e' = e ∧ routes rs !! e = None
          ∧ Forall (λ t, next_token alloc ≤ t < next_token alloc')%Z (tokens r'))).
Proof.
  intros Hok. unfold send_with. destruct (routes rs !! e) as [route|] eqn:Er.
  - destruct (dg_send _ _ _) as [x r]. split; [by apply routes_ok_update|]. split; [lia|]. cbn.
    intros e' r' [[<- <-]|[_ Hl]]%lookup_insert_Some; left; eauto.
  - destruct (_ <=? _) eqn:El; [split_and!; [done|lia|eauto]|]. bool_to_prop.
    destruct (open w e) as [w1 [x|er|]]; [|split_and!; [done|lia|eauto]..].
    pose proof (allocate_mono alloc (readiness_source_count x)) as Hm.
    destruct (allocate alloc _) as [a' [ts|er|]] eqn:Ea; cbn in Hm;
      [|split_and!; [by eapply routes_ok_mono|done|eauto]..].
    destruct (allocate_ok _ _ _ _ Ea) as (_ & Hnd & _ & Hf).
    destruct (register_readiness x ts) as [x1 [u|er|]]; [|split_and!; [by eapply routes_ok_mono|done|eauto]..].
    cbn [execution]. destruct (dg_send x1 _ _) as [x2 r]. cbn [routes tokens].
    rewrite insert_insert_eq. split.
    + by eapply routes_ok_insert.
    + split; [done|]. intros e' r' [[<- <-]|[Hne Hl]]%lookup_insert_Some; [right; done|].
      left; eauto.
Qed.

(** Routes are never dropped and keep their tokens. *)
Lemma send_with_routes rs alloc w e target payload open e0 r0 :
  routes rs !! e0 = Some r0 →
  ∃ r, routes (send_with rs alloc w e target payload open).1.1.1 !! e0 = Some r ∧ tokens r = tokens r0.
Proof.
  intros H0. unfold send_with. destruct (routes rs !! e) as [route|] eqn:Er.
  - destruct (dg_send _ _ _) as [x r]. cbn. destruct (decide (e0 = e)) as [->|Hne].
    + simplify_eq. eexists. by rewrite lookup_insert_eq.
    + rewrite lookup_insert_ne by done. eauto.
  - destruct (_ <=? _); [by eauto|]. destruct (open w e) as [w1 [x|er|]]; [|by eauto..].
    destruct (allocate alloc _) as [a' [ts|er|]]; [|by eauto..].
    destruct (register_readiness x ts) as [x1 [u|er|]]; [|by eauto..].
    cbn [execution]. destruct (dg_send x1 _ _) as [x2 r]. cbn.
    rewrite !lookup_insert_ne by (intros ->; congruence). eauto.
Qed.

Lemma receive_ready_routes rs token n e0 r0 :
  (∀ m, iter m ≡ₚ map_to_list m) →
  (∃ r, routes (receive_ready rs token n).1 !! e0 = Some r ∧ tokens r = tokens r0)
  ↔ ∃ r, routes rs !! e0 = Some r ∧ tokens r = tokens r0.
Proof.
  intros Hp. unfold receive_ready. destruct (List.find _ _) as [[e r]|] eqn:Ef; [|done].
  apply find_some in Ef as [Hin _]. apply list_elem_of_In in Hin. rewrite Hp, elem_of_map_to_list in Hin.
  destruct (dg_receive _ _) as [x res]. cbn. destruct (decide (e0 = e)) as [->|Hne].
  - rewrite lookup_insert_eq, Hin. split; intros (r' & [= <-] & H'); eauto.
  - by rewrite lookup_insert_ne.
Qed.

  Hypothesis iter_perm : ∀ m, iter m ≡ₚ map_to_list m.

Lemma elem_of_iter rs e r : (e, r) ∈ iter (routes rs) ↔ routes rs !! e = Some r.
Proof. by rewrite iter_perm, elem_of_map_to_list. Qed.

Lemma elem_of_owned_tokens rs t :
  t ∈ owned_tokens rs ↔ ∃ e r, routes rs !! e = Some r ∧ t ∈ tokens r.
Proof.
  unfold owned_tokens. rewrite list_elem_of_join. split.
  - intros (l & Ht & ([e r] & -> & Hin)%list_elem_of_fmap). apply elem_of_iter in Hin. eauto.
  - intros (e & r & Hr & Ht). exists (tokens r). split; [done|]. apply list_elem_of_fmap. exists (e, r).
    split; [done|]. by apply elem_of_iter.
Qed.

Lemma receive_ready_cases rs alloc token n :
  routes_ok rs alloc →
  (∀ e r, routes rs !! e = Some r → token ∈ tokens r →
     receive_ready rs token n =
       ({| routes := <[e := {| execution := (dg_receive (execution r) n).1; tokens := tokens r |}]> (routes rs) |},
        (dg_receive (execution r) n).2))
  ∧ ((∀ e r, routes rs !! e = Some r → token ∉ tokens r) → receive_ready rs token n = (rs, Ok None)).
Proof.
  intros (_ & _ & Huniq). unfold receive_ready. split.
  - intros e r Hr Ht. destruct (List.find _ _) as [[e' r']|] eqn:Ef.
    + apply find_some in Ef as [Hin Hb]. apply list_elem_of_In, elem_of_iter in Hin. cbn in Hb.
      apply bool_decide_eq_true in Hb. assert (e' = e) as -> by eauto. simplify_eq.
      by destruct (dg_receive _ _).
    + exfalso. assert (In (e, r) (iter (routes rs))) as Hin by (by apply list_elem_of_In, elem_of_iter).
      apply (find_none _ _ Ef) in Hin. cbn in Hin. by apply bool_decide_eq_false in Hin.
  - intros Hno. destruct (List.find _ _) as [[e' r']|] eqn:Ef; [|done].
    apply find_some in Ef as [Hin Hb]. apply list_elem_of_In, elem_of_iter in Hin. cbn in Hb.
    apply bool_decide_eq_true in Hb. exfalso. by eapply Hno.
Qed.

(** A route set and the allocator it shares with others: its own sends and
    receives, and allocations made elsewhere. *)
Inductive route_step : DatagramRouteSet * DatagramTokenAllocator →
    DatagramRouteSet * DatagramTokenAllocator → Prop :=
| route_send rs alloc w e target payload open rs' alloc' w' r :
    send_with rs alloc w e target payload open = (rs', alloc', w', r) →
    route_step (rs, alloc) (rs', alloc')
| route_receive rs alloc token n rs' r :
    receive_ready rs token n = (rs', r) → route_step (rs, alloc) (rs', alloc)
| route_other rs alloc count :
    route_step (rs, alloc) (rs, (allocate alloc count).1).

Lemma receive_ready_ok rs alloc token n :
  routes_ok rs alloc → routes_ok (receive_ready rs token n).1 alloc.
Proof.
  intros Hok. unfold receive_ready. destruct (List.find _ _) as [[e r]|] eqn:Ef; [|done].
  apply find_some in Ef as [Hin _]. apply list_elem_of_In, elem_of_iter in Hin.
  destruct (dg_receive _ _) as [x res]. by apply routes_ok_update.
Qed.

Lemma route_step_ok s s' : route_step s s' → routes_ok s.1 s.2 → routes_ok s'.1 s'.2.
Proof.
  intros Hs Hok. inversion Hs as [rs alloc w e target payload open rs' alloc' w' r E|rs alloc token n rs' r E|rs alloc count];
    subst; cbn in *.
  - pose proof (send_with_ok rs alloc w e target payload open Hok) as Hw. rewrite E in Hw. by destruct Hw.
  - pose proof (receive_ready_ok rs alloc token n Hok) as Hw. by rewrite E in Hw.
  - eapply routes_ok_mono; [done|]. apply allocate_mono.
Qed.

(** C38. Readiness tokens identify routes. However sends, receives and other
    users of the token allocator interleave, a route set never has more than 32
    routes, all its tokens were handed out by the allocator, and no token is
    owned by two routes; so an event reaches exactly the route that owns its
    token, whatever order the route map is searched in, and an event for a
    foreign token changes nothing and yields no datagram. *)
Theorem route_tokens_unique first rs alloc :
  rtc route_step (DatagramRouteSet_new, DatagramTokenAllocator_new first) (rs, alloc) →
  size (routes rs) ≤ MAX_DATAGRAM_ROUTES
  ∧ (∀ e r, routes rs !! e = Some r → NoDup (tokens r) ∧ Forall (λ t, t < next_token alloc)%Z (tokens r))
  ∧ (∀ e1 e2 r1 r2 t, routes rs !! e1 = Some r1 → routes rs !! e2 = Some r2 →
       t ∈ tokens r1 → t ∈ tokens r2 → e1 = e2)
  ∧ ∀ token n,
      (∀ e r, routes rs !! e = Some r → token ∈ tokens r →
         receive_ready rs token n =
           ({| routes := <[e := {| execution := (dg_receive (execution r) n).1; tokens := tokens r |}]> (routes rs) |},
            (dg_receive (execution r) n).2))
      ∧ ((∀ e r, routes rs !! e = Some r → token ∉ tokens r) → receive_ready rs token n = (rs, Ok None)).
Proof.
  intros Hs. assert (routes_ok rs alloc) as Hok.
  { change (routes_ok (rs, alloc).1 (rs, alloc).2).
    eapply (rtc_preserves route_step (λ s, routes_ok s.1 s.2)); [by intros; eapply route_step_ok|exact Hs|apply routes_ok_new]. }
  pose proof Hok as (H1 & H2 & H3). split_and!; try done. intros token n. by eapply receive_ready_cases.
Qed.
End routes.
Arguments DatagramRouteSet : clear implicits.
Arguments DatagramRoute : clear implicits.

(** ** The DIRECT association *)
Section direct.
  (** The world of sockets and resolver, and the operations on it: [v6] says
      which socket. *)
  Context {W : Type}.
  Context (dns_resolve : W → str → W * result DnsError (list IpAddr)).
  Context (send_to : W → bool → bytes → SocketAddr → W * result ErrorKind nat).
  Context (recv_from : W → bool → nat → W * result ErrorKind (bytes * SocketAddr)).
  Context (bind : W → SocketAddr → W * result ErrorKind unit).
  Context (register : W → bool → Z → W * result ErrorKind unit).

Record DirectDatagramAssociation := {
  net : W;
  (** [ipv6 : Option<UdpSocket>] *)
  has_ipv6 : bool;
  remote_peers : gset SocketAddr;
}.
Definition set_net (d : DirectDatagramAssociation) (w : W) : DirectDatagramAssociation :=
  {| net := w; has_ipv6 := has_ipv6 d; remote_peers := remote_peers d |}.

Definition DirectDatagramAssociation_new (w : W) : W * result ErrorKind DirectDatagramAssociation :=
  match bind w (SockV4 0 0) with
  | (w, Err e) => (w, Err e)
  | (w, Panic) => (w, Panic)
  | (w, Ok _) =>
      match bind w (SockV6 0 0 0 0) with
      | (w, Ok _) => (w, Ok {| net := w; has_ipv6 := true; remote_peers := ∅ |})
      | (w, Err e) =>
          if bool_decide (e = EAddrNotAvailable) || bool_decide (e = EUnsupported)
          then (w, Ok {| net := w; has_ipv6 := false; remote_peers := ∅ |})
          else (w, Err e)
      | (w, Panic) => (w, Panic)
      end
  end.

Definition send_to_resolved (d : DirectDatagramAssociation) (address : SocketAddr) (payload : bytes)
    : DirectDatagramAssociation * result ErrorKind unit :=
  if negb (bool_decide (address ∈ remote_peers d))
     && (MAX_DATAGRAM_REMOTE_PEERS <=? size (remote_peers d))
  then (d, Err EQuotaExceeded)
  else
    let '(w, sent) :=
      match address with
      | SockV4 _ _ => send_to (net d) false payload address
      | SockV6 _ _ _ _ =>
          if has_ipv6 d then send_to (net d) true payload address else (net d, Err EAddrNotAvailable)
      end in
    let d := set_net d w in
    match sent with
    | Ok n =>
        if negb (n =? length payload) then (d, Err EWriteZero)
        else ({| net := net d; has_ipv6 := has_ipv6 d;
                 remote_peers := {[ address ]} ∪ remote_peers d |}, Ok tt)
    | Err e => (d, Err e)
    | Panic => (d, Panic)
    end.

Fixpoint receive_from_socket (n : nat) (w : W) (v6 : bool) (peers : gset SocketAddr) (buffer : nat)
    : W * result ErrorKind (option ReceivedDatagram) :=
  match n with
  | O => (w, Ok None)
  | S n' =>
      match recv_from w v6 buffer with
      | (w, Ok (payload, source)) =>
          if negb (bool_decide (source ∈ peers)) then receive_from_socket n' w v6 peers buffer
          else (w, match Target_new (Ip (sock_ip source)) (sock_port source) with
                   | Ok target => Ok (Some {| dg_source := target; dg_payload := payload |})
                   | Err e => Err e
                   | Panic => Panic
                   end)
      | (w, Err error) =>
          if bool_decide (error = EWouldBlock) then (w, Ok None)
          else if bool_decide (error = EInterrupted) then receive_from_socket n' w v6 peers buffer
          else (w, Err error)
      | (w, Panic) => (w, Panic)
      end
  end.

(** The loop of [send] over the resolved addresses. *)
Fixpoint send_first (d : DirectDatagramAssociation) (addresses : list SocketAddr) (payload : bytes)
    (last_error : option ErrorKind) : DirectDatagramAssociation * result ErrorKind unit :=
  match addresses with
  | [] => (d, Err (default EAddrNotAvailable last_error))
  | address :: addresses' =>
      match send_to_resolved d address payload with
      | (d, Ok _) => (d, Ok tt)
      | (d, Err error) => send_first d addresses' payload (Some error)
      | (d, Panic) => (d, Panic)
      end
  end.

Definition direct_send (d : DirectDatagramAssociation) (target : Target) (payload : bytes)
    : DirectDatagramAssociation * result ErrorKind unit :=
  match resolve_target dns_resolve (net d) target with
  | (w, Ok addresses) => send_first (set_net d w) addresses payload None
  | (w, Err e) => (set_net d w, Err e)
  | (w, Panic) => (set_net d w, Panic)
  end.

Definition direct_receive (d : DirectDatagramAssociation) (buffer : nat)
    : DirectDatagramAssociation * result ErrorKind (option ReceivedDatagram) :=
  if buffer =? 0 then (d, Err EInvalidInput)
  else
    let '(w, r) := receive_from_socket MAX_UNTRUSTED_DRAIN_PER_RECEIVE (net d) false (remote_peers d) buffer in
    let d := set_net d w in
    match r with
    | Ok None =>
        if has_ipv6 d then
          let '(w, r) := receive_from_socket MAX_UNTRUSTED_DRAIN_PER_RECEIVE (net d) true (remote_peers d) buffer in
          (set_net d w, r)
        else (d, Ok None)
    | r => (d, r)
    end.

Definition direct_source_count (d : DirectDatagramAssociation) : nat := 1 + (if has_ipv6 d then 1 else 0).

Definition direct_register (d : DirectDatagramAssociation) (tokens : list Z)
    : DirectDatagramAssociation * result ErrorKind unit :=
  if negb (length tokens =? direct_source_count d) then (d, Err EInvalidInput)
  else match tokens with
  | t4 :: rest =>
      match register (net d) false t4 with
      | (w, Ok _) =>
          let d := set_net d w in
          if has_ipv6 d then
            match rest with
            | t6 :: _ => let '(w, r) := register (net d) true t6 in (set_net d w, r)
            | [] => (d, Panic)
            end
          else (d, Ok tt)
      | (w, r) => (set_net d w, r)
      end
  | [] => (d, Panic)
  end.

#[local] Instance Direct_execution : DatagramExecution DirectDatagramAssociation := {
  dg_send := direct_send;
  dg_receive := direct_receive;
  readiness_source_count := direct_source_count;
  register_readiness := direct_register;
}.

(** ** Peer ownership *)

(** What the sockets have sent and received. *)
Record Sent := { on_v6 : bool; s_payload : bytes; s_to : SocketAddr; s_count : nat }.
Definition whole (x : Sent) : Prop := s_count x = length (s_payload x).

  Context (sent : W → list Sent) (got : W → list (bytes * SocketAddr)).
(** [traced w w'] : nothing was sent or received between them. *)
Definition traced (w w' : W) : Prop := sent w' = sent w ∧ got w' = got w.
(** Each call does what it reports, a failed one nothing. *)
Record DirectTrace : Prop := {
  send_ok_traced : ∀ w v6 b a w' n, send_to w v6 b a = (w', Ok n) →
    sent w' = sent w ++ [{| on_v6 := v6; s_payload := b; s_to := a; s_count := n |}] ∧ got w' = got w;
  send_err_traced : ∀ w v6 b a w' e, send_to w v6 b a = (w', Err e) → traced w w';
  send_returns_traced : ∀ w v6 b a, (send_to w v6 b a).2 ≠ Panic;
  recv_ok_traced : ∀ w v6 n w' p, recv_from w v6 n = (w', Ok p) → got w' = got w ++ [p] ∧ sent w' = sent w;
  recv_err_traced : ∀ w v6 n w' e, recv_from w v6 n = (w', Err e) → traced w w';
  recv_returns_traced : ∀ w v6 n, (recv_from w v6 n).2 ≠ Panic;
  dns_traced : ∀ w n, traced w (dns_resolve w n).1;
  bind_traced : ∀ w a, traced w (bind w a).1;
  register_traced : ∀ w v6 t, traced w (register w v6 t).1;
}.
  Hypothesis trace : DirectTrace.

#[local] Instance traced_preorder : PreOrder traced.
Proof. split; [by intros w|]. intros w1 w2 w3 [A1 A2] [B1 B2]. split; congruence. Qed.

Definition is_ipv6 (a : SocketAddr) : bool := match a with SockV4 _ _ => false | SockV6 _ _ _ _ => true end.

(** [sends d d' payload as tried ok]: of the addresses [as], those in [tried]
    were sent the payload, and only the last of them the whole of it, if [ok];
    that one has become a peer. *)
Record sends (d d' : DirectDatagramAssociation) (payload : bytes) (addresses : list SocketAddr) (tried : list Sent) (ok : bool) : Prop := {
  sd_sent : sent (net d') = sent (net d) ++ tried;
  sd_tried : Forall (λ x, s_payload x = payload ∧ on_v6 x = is_ipv6 (s_to x) ∧ s_to x ∈ addresses) tried;
  sd_whole : if ok then ∃ before x, tried = before ++ [x] ∧ whole x ∧ Forall (λ y, ¬ whole y) before
                        ∧ remote_peers d' = {[ s_to x ]} ∪ remote_peers d
             else Forall (λ y, ¬ whole y) tried ∧ remote_peers d' = remote_peers d;
  sd_size : size (remote_peers d) ≤ MAX_DATAGRAM_REMOTE_PEERS → size (remote_peers d') ≤ MAX_DATAGRAM_REMOTE_PEERS;
}.

Lemma add_peer_size d address :
  negb (bool_decide (address ∈ remote_peers d)) && (MAX_DATAGRAM_REMOTE_PEERS <=? size (remote_peers d)) = false →
  size (remote_peers d) ≤ MAX_DATAGRAM_REMOTE_PEERS → size ({[ address ]} ∪ remote_peers d) ≤ MAX_DATAGRAM_REMOTE_PEERS.
Proof.
  intros Eq Hs. destruct (bool_decide (address ∈ remote_peers d)) eqn:Eb.
  - apply bool_decide_eq_true in Eb. by replace ({[address]} ∪ remote_peers d) with (remote_peers d) by set_solver.
  - cbn [negb andb] in Eq. bool_to_prop. rewrite size_union by set_solver. rewrite size_singleton. lia.
Qed.

Lemma send_to_resolved_sends d address payload d' r :
  send_to_resolved d address payload = (d', r) → r ≠ Panic ∧ ∃ tried, sends d d' payload [address] tried (is_ok r).
Proof.
  unfold send_to_resolved. destruct (_ && _) eqn:Eq.
  { intros [= <- <-]. split; [done|]. exists []. split; rewrite ?app_nil_r; done. }
  assert (∀ v6 w n, v6 = is_ipv6 address → send_to (net d) v6 payload address = (w, Ok n) →
    (if negb (n =? length payload) then (set_net d w, Err EWriteZero)
     else ({| net := net (set_net d w); has_ipv6 := has_ipv6 (set_net d w);
              remote_peers := {[ address ]} ∪ remote_peers (set_net d w) |}, Ok tt)) = (d', r) →
    r ≠ Panic ∧ ∃ tried, sends d d' payload [address] tried (is_ok r)) as Hok.
  { intros v6 w n -> [Hs _]%(send_ok_traced trace). set (x := {| on_v6 := _; s_payload := _; s_to := _; s_count := _ |}) in Hs.
    destruct (n =? length payload) eqn:En; cbn [negb]; intros [= <- <-]; (split; [done|]); exists [x]; bool_to_prop.
    - split; [exact Hs|apply Forall_singleton; split_and!; [done|done|set_solver]| |by apply add_peer_size].
      exists [], x. split_and!; [done|done|constructor|done].
    - split; [exact Hs|apply Forall_singleton; split_and!; [done|done|set_solver]| |done].
      split; [by apply Forall_singleton|done]. }
  assert (∀ w e, traced (net d) w → (set_net d w, Err e) = (d', r) → r ≠ Panic ∧ ∃ tried, sends d d' payload [address] tried (is_ok r)) as Herr.
  { intros w e [Hs _] [= <- <-]. split; [done|]. exists []. split; cbn; rewrite ?app_nil_r; done. }
  destruct address as [i pt|i pt f sc]; [|destruct (has_ipv6 d); [|by apply Herr]].
  - pose proof (send_returns_traced trace (net d) false payload (SockV4 i pt)) as Hp.
    destruct (send_to _ _ _ _) as [w [n|e|]] eqn:E; [by eapply (Hok false)|eapply Herr; by eapply (send_err_traced trace)|done].
  - pose proof (send_returns_traced trace (net d) true payload (SockV6 i pt f sc)) as Hp.
    destruct (send_to _ _ _ _) as [w [n|e|]] eqn:E; [by eapply (Hok true)|eapply Herr; by eapply (send_err_traced trace)|done].
Qed.

Lemma send_first_sends addresses payload : ∀ d le d' r,
  send_first d addresses payload le = (d', r) → r ≠ Panic ∧ ∃ tried, sends d d' payload addresses tried (is_ok r).
Proof.
  induction addresses as [|a addresses IH]; intros d le d' r; cbn [send_first].
  { intros [= <- <-]. split; [done|]. exists []. split; rewrite ?app_nil_r; done. }
  destruct (send_to_resolved d a payload) as [d1 r1] eqn:E1. apply send_to_resolved_sends in E1 as (Hp & t1 & [S1 T1 W1 Z1]).
  assert (Forall (λ x, s_payload x = payload ∧ on_v6 x = is_ipv6 (s_to x) ∧ s_to x ∈ a :: addresses) t1) as T1'
    by (eapply Forall_impl; [exact T1|]; cbn; set_solver).
  destruct r1 as [u|e|]; [|intros E2; apply IH in E2 as (Hp2 & t2 & [S2 T2 W2 Z2])|done].
  - intros [= <- <-]. split; [done|]. by exists t1.
  - cbn in W1. destruct W1 as [N1 P1]. split; [done|]. exists (t1 ++ t2). split.
    + by rewrite S2, S1, app_assoc.
    + apply Forall_app. split; [done|]. eapply Forall_impl; [exact T2|]. cbn. set_solver.
    + destruct (is_ok r).
      * destruct W2 as (before & x & -> & Hx & Hb & Hr). exists (t1 ++ before), x. rewrite Forall_app, Hr, P1. by rewrite app_assoc.
      * rewrite Forall_app, P1 in *. naive_solver.
    + rewrite P1 in *. auto.
Qed.

Lemma direct_send_sends d target payload d' r :
  direct_send d target payload = (d', r) →
  ∃ tried addresses, sends d d' payload addresses tried (is_ok r) ∧ Forall (aims dns_resolve (net d) target) addresses.
Proof.
  unfold direct_send. destruct (resolve_target _ _ _) as [w rt] eqn:Er.
  assert (traced (net d) w) as [Ht _].
  { pose proof (dns_traced trace (net d)) as Hd. unfold resolve_target in Er. destruct (host target) as [n|i]; [|by injection Er as <- _].
    specialize (Hd n). destruct (dns_resolve _ _). by injection Er as <- _. }
  destruct rt as [l|e|].
  - apply resolve_target_aims in Er. intros (_ & tried & [S1 T1 W1 Z1])%send_first_sends. exists tried, l. split; [|done].
    cbn in *. split; [by rewrite S1, Ht|done|done|done].
  - intros [= <- <-]. exists [], []. split; [|constructor]. split; cbn; rewrite ?app_nil_r; done.
  - intros [= <- <-]. exists [], []. split; [|constructor]. split; cbn; rewrite ?app_nil_r; done.
Qed.

(** A receive hands over the last datagram it took from a socket, of a peer. *)
Lemma receive_from_socket_spec n v6 peers buffer : ∀ w w' r,
  receive_from_socket n w v6 peers buffer = (w', r) →
  sent w' = sent w ∧ ∀ g, r = Ok (Some g) →
    ∃ a, a ∈ peers ∧ dg_source g = {| host := Ip (sock_ip a); port := sock_port a |} ∧ last (got w') = Some (dg_payload g, a).
Proof.
  induction n as [|n IH]; intros w w' r; cbn [receive_from_socket]; [by intros [= <- <-]|].
  pose proof (recv_returns_traced trace w v6 buffer) as Hp. destruct (recv_from w v6 buffer) as [w1 [[payload source]|e|]] eqn:E; [| |done].
  - apply (recv_ok_traced trace) in E as [Hg Hs]. destruct (negb _) eqn:Eb.
    + intros [S1 G1]%IH. split; [congruence|done].
    + bool_to_prop. intros [= <- <-]. split; [done|]. intros g Hr. exists source. split; [done|].
      unfold Target_new in Hr. destruct (_ =? 0)%Z; simplify_eq. by rewrite Hg, last_snoc.
  - apply (recv_err_traced trace) in E as [Hs Hg]. destruct (bool_decide _); [by intros [= <- <-]|].
    destruct (bool_decide _); [|by intros [= <- <-]]. intros [S1 G1]%IH. split; [congruence|done].
Qed.

Lemma direct_receive_spec d buffer d' r :
  direct_receive d buffer = (d', r) →
  remote_peers d' = remote_peers d ∧ sent (net d') = sent (net d) ∧ ∀ g, r = Ok (Some g) →
    ∃ a, a ∈ remote_peers d ∧ dg_source g = {| host := Ip (sock_ip a); port := sock_port a |}
      ∧ last (got (net d')) = Some (dg_payload g, a).
Proof.
  unfold direct_receive. destruct (_ =? 0); [by intros [= <- <-]|].
  destruct (receive_from_socket _ _ false _ _) as [w1 r1] eqn:E4. apply receive_from_socket_spec in E4 as [S4 G4].
  destruct r1 as [[g|]|e|].
  - intros H; injection H as <- <-. split; [done|]. by split.
  - cbn [set_net has_ipv6]. destruct (has_ipv6 d); [|intros H; injection H as <- <-; split; [done|]; by split].
    destruct (receive_from_socket _ _ true _ _) as [w2 r2] eqn:E6. apply receive_from_socket_spec in E6 as [S6 G6].
    intros H; injection H as <- <-. split; [done|]. split; [exact (eq_trans S6 S4)|exact G6].
  - intros H; injection H as <- <-. split; [done|]. by split.
  - intros H; injection H as <- <-. split; [done|]. by split.
Qed.

(** The operations on an association. *)
Inductive direct_step (d : DirectDatagramAssociation) : DirectDatagramAssociation → Prop :=
| direct_step_send target payload : direct_step d (direct_send d target payload).1
| direct_step_receive buffer : direct_step d (direct_receive d buffer).1
| direct_step_register tokens : direct_step d (direct_register d tokens).1.

Lemma direct_register_spec d tokens :
  remote_peers (direct_register d tokens).1 = remote_peers d ∧ sent (net (direct_register d tokens).1) = sent (net d).
Proof.
  pose proof (register_traced trace) as Hr. unfold direct_register. destruct (negb _); [done|]. destruct tokens as [|t4 rest]; [done|].
  pose proof (Hr (net d) false t4) as [H4 _]. destruct (register _ false t4) as [w [u|e|]]; [|done..]. cbn in H4 |- *.
  destruct (has_ipv6 d); [|done]. destruct rest as [|t6 rest]; [done|].
  pose proof (Hr w true t6) as [H6 _]. destruct (register _ true t6) as [w2 r2]. cbn in H6 |- *. split; [done|congruence].
Qed.

(** The peers are those that were sent a whole datagram. *)
Definition peers_sent (d : DirectDatagramAssociation) : Prop :=
  size (remote_peers d) ≤ MAX_DATAGRAM_REMOTE_PEERS
  ∧ ∀ p, p ∈ remote_peers d ↔ ∃ x, x ∈ sent (net d) ∧ s_to x = p ∧ whole x.

Lemma sends_peers d d' payload addresses tried ok :
  sends d d' payload addresses tried ok → peers_sent d → peers_sent d'.
Proof.
  intros [S1 T1 W1 Z1] [H1 H2]. split; [by apply Z1|]. intros p. rewrite S1. setoid_rewrite elem_of_app. destruct ok.
  - destruct W1 as (before & x & -> & Hx & Hb & ->). rewrite elem_of_union, elem_of_singleton, H2. rewrite Forall_forall in Hb. split.
    + intros [->|(y & Hy & ?)]; [exists x|exists y]; set_solver.
    + intros (y & [Hy|[Hy|Hy%list_elem_of_singleton]%elem_of_app] & Hp & Hw); [right; by exists y|by apply Hb in Hy|left; by subst].
  - destruct W1 as [Hb ->]. rewrite H2. rewrite Forall_forall in Hb. split; [intros (y & Hy & ?); exists y; set_solver|].
    intros (y & [Hy|Hy] & Hp & Hw); [by exists y|by apply Hb in Hy].
Qed.

Lemma direct_step_peers d d' : direct_step d d' → peers_sent d → peers_sent d'.
Proof.
  intros [target payload|buffer|tokens] Hs.
  - destruct (direct_send d target payload) as [d1 r] eqn:E. apply direct_send_sends in E as (? & ? & E & _). by eapply sends_peers.
  - destruct (direct_receive d buffer) as [d1 r] eqn:E. apply direct_receive_spec in E as (E1 & E2 & _). unfold peers_sent. cbn [fst]. by rewrite E1, E2.
  - destruct (direct_register_spec d tokens) as [E1 E2]. unfold peers_sent. by rewrite E1, E2.
Qed.

(** C16. A DIRECT association talks only to peers of its own choosing. Its
    peers, at most 256, are exactly the addresses to which its sockets have
    sent a whole datagram. A send puts nothing on the wire but the given
    payload, to addresses of the requested target (its own, or those its name
    resolves to), each through the socket of its family; it succeeds exactly
    with the first that is sent whole. Every datagram handed to the client is
    the last one taken from a socket, with its source, and that source is a
    peer. *)
Theorem direct_peers_owned w w0 d0 d :
  DirectDatagramAssociation_new w = (w0, Ok d0) → sent w = [] → rtc direct_step d0 d →
  peers_sent d
  ∧ (∀ target payload, let '(d', r) := direct_send d target payload in
       ∃ tried, sent (net d') = sent (net d) ++ tried
         ∧ Forall (λ x, s_payload x = payload ∧ on_v6 x = is_ipv6 (s_to x) ∧ aims dns_resolve (net d) target (s_to x)) tried
         ∧ match r with
           | Ok _ => ∃ before x, tried = before ++ [x] ∧ whole x ∧ Forall (λ y, ¬ whole y) before
           | _ => Forall (λ y, ¬ whole y) tried
           end)
  ∧ (∀ buffer d' g, direct_receive d buffer = (d', Ok (Some g)) →
       ∃ a, a ∈ remote_peers d ∧ dg_source g = {| host := Ip (sock_ip a); port := sock_port a |}
         ∧ last (got (net d')) = Some (dg_payload g, a)).
Proof.
  intros Hnew H0 Hs. assert (peers_sent d0) as Hp0.
  { pose proof (bind_traced trace) as Hb. unfold DirectDatagramAssociation_new in Hnew.
    pose proof (Hb w (SockV4 0 0)) as [B1 _]. destruct (bind w _) as [w1 [u|e|]]; [|done..]. cbn in B1.
    pose proof (Hb w1 (SockV6 0 0 0 0)) as [B2 _]. destruct (bind w1 _) as [w2 r2]. cbn in B2.
    assert (remote_peers d0 = ∅ ∧ sent (net d0) = []) as [E1 E2] by (repeat case_match; simplify_eq; cbn; split; congruence).
    split; [rewrite E1, size_empty; unfold MAX_DATAGRAM_REMOTE_PEERS; lia|]. intros p. rewrite E1, E2. set_solver. }
  split; [|split].
  - eapply (rtc_preserves direct_step peers_sent); [apply direct_step_peers|exact Hs|exact Hp0].
  - intros target payload. destruct (direct_send d target payload) as [d' r] eqn:E.
    apply direct_send_sends in E as (tried & l & [S1 T1 W1 _] & Hl). exists tried. split; [done|]. split.
    + rewrite Forall_forall in Hl. eapply Forall_impl; [exact T1|]. cbn. naive_solver.
    + destruct r; cbn in W1; [|by destruct W1..]. destruct W1 as (before & x & ? & ? & ? & _). by exists before, x.
  - intros buffer d' g Hr. apply direct_receive_spec in Hr as (_ & _ & H). by apply H.
Qed.
End direct.

(** ** Concrete runs *)

(** An execution that only counts what it is asked to do. *)
#[local] Instance counting_execution : DatagramExecution nat := {
  dg_send x _ _ := (S x, Ok tt);
  dg_receive x _ := (x, Ok (Some {| dg_source := {| host := Ip (V4 1); port := 53 |}; dg_payload := [x2a] |}));
  readiness_source_count _ := 2;
  register_readiness x _ := (x, Ok tt);
}.
Definition open_counting (w : unit) (e : Endpoint) : unit * result ErrorKind nat := (w, Ok 0).
Definition one_route : DatagramRouteSet nat * DatagramTokenAllocator * unit * result ErrorKind unit :=
  send_with DatagramRouteSet_new (DatagramTokenAllocator_new 2) tt Direct
    {| host := Ip (V4 1); port := 53 |} [x01] open_counting.

Lemma one_route_reachable :
  rtc (route_step (W:=unit) map_to_list) (DatagramRouteSet_new, DatagramTokenAllocator_new 2)
    (one_route.1.1.1, one_route.1.1.2).
Proof.
  apply rtc_once. apply (route_send map_to_list _ _ tt Direct {| host := Ip (V4 1); port := 53 |} [x01]
    open_counting _ _ one_route.1.2 one_route.2).
  fold one_route. by destruct one_route as [[[rs a] w] r].
Qed.

Lemma route_tokens_unique_witness :
  size (routes one_route.1.1.1) ≤ MAX_DATAGRAM_ROUTES
  ∧ (receive_ready map_to_list one_route.1.1.1 3 100).2
    = Ok (Some {| dg_source := {| host := Ip (V4 1); port := 53 |}; dg_payload := [x2a] |}).
Proof.
  destruct (route_tokens_unique (W:=unit) map_to_list (λ m, reflexivity (map_to_list m)) 2 _ one_route.1.1.2
    one_route_reachable) as (H1 & _ & _ & H4).
  split; [exact H1|]. destruct (H4 3%Z 100) as [H _].
  rewrite (H Direct {| execution := 1; tokens := [2; 3]%Z |}); [reflexivity|vm_compute; reflexivity|].
  apply list_elem_of_further, list_elem_of_here.
Defined.

(** Sockets that send everything, logged, and receive from one fixed peer. *)
Definition OsWorld : Type := list Sent * list (bytes * SocketAddr).
Definition os_send (w : OsWorld) (v6 : bool) (b : bytes) (a : SocketAddr) : OsWorld * result ErrorKind nat :=
  ((w.1 ++ [{| on_v6 := v6; s_payload := b; s_to := a; s_count := length b |}], w.2), Ok (length b)).
Definition os_recv (w : OsWorld) (v6 : bool) (n : nat) : OsWorld * result ErrorKind (bytes * SocketAddr) :=
  ((w.1, w.2 ++ [([x2a], SockV4 1 53)]), Ok ([x2a], SockV4 1 53)).
Definition os_bind (w : OsWorld) (a : SocketAddr) : OsWorld * result ErrorKind unit := (w, Ok tt).
Definition os_register (w : OsWorld) (v6 : bool) (t : Z) : OsWorld * result ErrorKind unit := (w, Ok tt).
Definition os_dns (w : OsWorld) (name : str) : OsWorld * result DnsError (list IpAddr) := (w, Ok [V4 1]).

Lemma os_trace : DirectTrace os_dns os_send os_recv os_bind os_register fst snd.
Proof. split; unfold os_send, os_recv; intros; simplify_eq; by repeat split. Qed.

Lemma direct_peers_owned_witness :
  ∃ d0, DirectDatagramAssociation_new os_bind ([], []) = (([], []), Ok d0)
    ∧ let d := (direct_send os_dns os_send d0 {| host := Domain (#"a"); port := 53 |} [x01]).1 in
      peers_sent fst d
      ∧ ∃ a, a ∈ remote_peers d ∧ sock_ip a = V4 1.
Proof.
  eexists. split; [reflexivity|]. cbn zeta. set (d := (direct_send _ _ _ _ _).1).
  destruct (direct_peers_owned os_dns os_send os_recv os_bind os_register fst snd os_trace ([], []) ([], []) _ d eq_refl eq_refl)
    as (H1 & _ & H3).
  - apply rtc_once. apply direct_step_send.
  - split; [exact H1|]. destruct (H3 8 (direct_receive os_recv d 8).1 {| dg_source := {| host := Ip (V4 1); port := 53 |}; dg_payload := [x2a] |})
      as (a & Ha & Hs & _); [vm_compute; reflexivity|]. exists a. split; [exact Ha|]. by injection Hs as Hs _.
Defined.
