(* ===== verification/TrojanDatagram.v ===== *)
(** * Trojan UDP over a framed TLS session ([daemon/src/trojan_datagram.rs])

    One TLS carrier, a bounded queue of encoded frames going out and a bounded
    buffer of plaintext coming in. The TLS session (rustls over a non-blocking
    socket) is an interface: its operations and the laws of [Read]/[Write]. *)

From S2P Require Import Prelude RustStr RustNet Flow Policy DnsBase Proxy Trojan Datagram.

Definition MAX_PENDING_FRAMES : nat := 64.
Definition MAX_PENDING_BYTES : Z := 512 * 1024.
Definition MAX_RX_BYTES : Z := 128 * 1024.
Definition TLS_PLAINTEXT_READ_CHUNK : Z := 16 * 1024.

(** The operations of [TlsFramedSession]. [accepted] is what the writer has
    taken so far, and [patience] bounds how often the session may still answer
    [Interrupted]. *)
Class FramedSession (S : Type) := {
  write_plaintext : S → bytes → S * result ErrorKind nat;
  read_plaintext : S → Z → S * result ErrorKind bytes;
  service_io : S → S * result ErrorKind unit;
  refresh_tls : S → Z → S * result ErrorKind unit;
  register_tls : S → Z → S * result ErrorKind unit;
  remote_eof : S → bool;
  accepted : S → bytes;
  patience : S → nat;
}.

(** The documented behaviour the queue relies on. *)
Class FramedSessionLaws (S : Type) `{FramedSession S} : Prop := {
  write_no_panic : ∀ s b, (write_plaintext s b).2 ≠ Panic;
  read_no_panic : ∀ s n, (read_plaintext s n).2 ≠ Panic;
  write_accepts : ∀ s b s' n, write_plaintext s b = (s', Ok n) →
    n ≤ length b ∧ accepted s' = accepted s ++ take n b ∧ patience s' ≤ patience s;
  write_refuses : ∀ s b s' e, write_plaintext s b = (s', Err e) →
    accepted s' = accepted s ∧ (e = EInterrupted → patience s' < patience s);
  read_bounded : ∀ s n s' b, (0 ≤ n)%Z → read_plaintext s n = (s', Ok b) →
    (Z.of_nat (length b) ≤ n)%Z ∧ accepted s' = accepted s ∧ patience s' ≤ patience s;
  read_refuses : ∀ s n s' e, read_plaintext s n = (s', Err e) →
    accepted s' = accepted s ∧ (e = EInterrupted → patience s' < patience s);
  service_no_panic : ∀ s, (service_io s).2 ≠ Panic;
  refresh_no_panic : ∀ s t, (refresh_tls s t).2 ≠ Panic;
  register_no_panic : ∀ s t, (register_tls s t).2 ≠ Panic;
  service_keeps : ∀ s, accepted (service_io s).1 = accepted s;
  refresh_keeps : ∀ s t, accepted (refresh_tls s t).1 = accepted s;
  register_keeps : ∀ s t, accepted (register_tls s t).1 = accepted s;
}.

Record PendingFrame := {
  frame_bytes : bytes;
  offset : nat;
}.

Section execution.
  Context {S : Type} `{FramedSession S}.

Record TrojanDatagramExecution := {
  tls : S;
  pending : list PendingFrame;
  pending_bytes : Z;
  rx : bytes;
  (** [registry : Option<Registry>] *)
  has_registry : bool;
  token : option Z;
}.
Definition set_tls (x : TrojanDatagramExecution) (s : S) : TrojanDatagramExecution :=
  {| tls := s; pending := pending x; pending_bytes := pending_bytes x; rx := rx x;
     has_registry := has_registry x; token := token x |}.
Definition set_queue (x : TrojanDatagramExecution) (q : list PendingFrame) (n : Z) : TrojanDatagramExecution :=
  {| tls := tls x; pending := q; pending_bytes := n; rx := rx x;
     has_registry := has_registry x; token := token x |}.
Definition set_rx (x : TrojanDatagramExecution) (b : bytes) : TrojanDatagramExecution :=
  {| tls := tls x; pending := pending x; pending_bytes := pending_bytes x; rx := b;
     has_registry := has_registry x; token := token x |}.

Definition enqueue (x : TrojanDatagramExecution) (b : bytes) : TrojanDatagramExecution * result ErrorKind unit :=
  if MAX_PENDING_FRAMES <=? length (pending x) then (x, Err EQuotaExceeded)
  else
    let next := (pending_bytes x + Z.of_nat (length b))%Z in
    if (2 ^ 64 <=? next)%Z then (x, Err EOutOfMemory)
    else if (MAX_PENDING_BYTES <? next)%Z then (x, Err EQuotaExceeded)
    else (set_queue x (pending x ++ [{| frame_bytes := b; offset := 0 |}]) next, Ok tt).

(** The loop of [drain_pending]; running out of [fuel] is a [Panic]. *)
Fixpoint drain_loop (fuel : nat) (x : TrojanDatagramExecution)
    : TrojanDatagramExecution * result ErrorKind unit :=
  match fuel with
  | O => (x, Panic)
  | Datatypes.S fuel' =>
      match pending x with
      | [] => (x, Ok tt)
      | frame :: rest =>
          if length (frame_bytes frame) <? offset frame then (x, Panic)
          else
            let remaining := drop (offset frame) (frame_bytes frame) in
            if length remaining =? 0 then drain_loop fuel' (set_queue x rest (pending_bytes x))
            else match write_plaintext (tls x) remaining with
            | (s, Ok written) =>
                if written =? 0 then (set_tls x s, Err EWriteZero)
                else
                  let frame := {| frame_bytes := frame_bytes frame; offset := offset frame + written |} in
                  let bytes' := Z.max 0 (pending_bytes x - Z.of_nat written) in
                  let queue := if offset frame =? length (frame_bytes frame) then rest else frame :: rest in
                  drain_loop fuel' (set_queue (set_tls x s) queue bytes')
            | (s, Err error) =>
                if bool_decide (error = EWouldBlock) then (set_tls x s, Ok tt)
                else if bool_decide (error = EInterrupted) then drain_loop fuel' (set_tls x s)
                else (set_tls x s, Err error)
            | (s, Panic) => (set_tls x s, Panic)
            end
      end
  end.

(** Bytes still to be written. *)
Definition frame_left (f : PendingFrame) : nat := length (frame_bytes f) - offset f.
Definition queue_left (q : list PendingFrame) : nat := sum_list_with frame_left q.

(** Each pass drops an empty frame, writes at least a byte or is an
    interruption. *)
Definition drain_fuel (x : TrojanDatagramExecution) : nat :=
  1 + patience (tls x) + queue_left (pending x) + length (pending x).
Definition drain_pending (x : TrojanDatagramExecution) : TrojanDatagramExecution * result ErrorKind unit :=
  drain_loop (drain_fuel x) x.

Definition refresh_readiness (x : TrojanDatagramExecution) : TrojanDatagramExecution * result ErrorKind unit :=
  match has_registry x, token x with
  | true, Some t => let '(s, r) := refresh_tls (tls x) t in (set_tls x s, r)
  | false, None => (x, Ok tt)
  | _, _ => (x, Err EOther)
  end.

(** The loop of [read_plaintext_into_rx]. *)
Fixpoint read_loop (fuel : nat) (x : TrojanDatagramExecution)
    : TrojanDatagramExecution * result ErrorKind unit :=
  match fuel with
  | O => (x, Panic)
  | Datatypes.S fuel' =>
      let len := Z.of_nat (length (rx x)) in
      if (MAX_RX_BYTES <=? len)%Z then (x, Err EInvalidData)
      else
        let limit := Z.min (MAX_RX_BYTES - len) TLS_PLAINTEXT_READ_CHUNK in
        match read_plaintext (tls x) limit with
        | (s, Ok b) =>
            if length b =? 0 then (set_tls x s, Ok tt)
            else read_loop fuel' (set_rx (set_tls x s) (rx x ++ b))
        | (s, Err error) =>
            if bool_decide (error = EWouldBlock) then (set_tls x s, Ok tt)
            else if bool_decide (error = EInterrupted) then read_loop fuel' (set_tls x s)
            else (set_tls x s, Err error)
        | (s, Panic) => (set_tls x s, Panic)
        end
  end.

Definition read_fuel (x : TrojanDatagramExecution) : nat :=
  1 + patience (tls x) + Z.to_nat (MAX_RX_BYTES - Z.of_nat (length (rx x))).
Definition read_plaintext_into_rx (x : TrojanDatagramExecution)
    : TrojanDatagramExecution * result ErrorKind unit := read_loop (read_fuel x) x.

(** Sequencing with [?] over the state. *)
Definition then_ {X A B} (p : X * result ErrorKind A) (f : X → A → X * result ErrorKind B) : X * result ErrorKind B :=
  match p with
  | (x, Ok a) => f x a
  | (x, Err e) => (x, Err e)
  | (x, Panic) => (x, Panic)
  end.

Definition service_ready (x : TrojanDatagramExecution) : TrojanDatagramExecution * result ErrorKind unit :=
  then_ (drain_pending x) (λ x _,
  then_ (let '(s, r) := service_io (tls x) in (set_tls x s, r)) (λ x _,
  then_ (drain_pending x) (λ x _,
  then_ (read_plaintext_into_rx x) (λ x _, refresh_readiness x)))).

(** [take_frame] with an output buffer of [output] bytes; the payload is
    what the code copies into it. *)
Definition take_frame (x : TrojanDatagramExecution) (output : nat)
    : TrojanDatagramExecution * result ErrorKind (option ReceivedDatagram) :=
  match parse_udp_frame (rx x) with
  | Err e => (x, Err e)
  | Panic => (x, Panic)
  | Ok None => (x, Ok None)
  | Ok (Some frame) =>
      let payload_len := payload_end frame - payload_start frame in
      if output <? payload_len then (x, Err EInvalidInput)
      else match slice_get (rx x) (payload_start frame) (payload_end frame) with
           | Some payload =>
               (set_rx x (drop (consumed frame) (rx x)),
                Ok (Some {| dg_source := source frame; dg_payload := payload |}))
           | None => (x, Panic)
           end
  end.

Definition trojan_send (x : TrojanDatagramExecution) (target : Target) (payload : bytes)
    : TrojanDatagramExecution * result ErrorKind unit :=
  match encode_udp_frame target payload with
  | Err e => (x, Err e)
  | Panic => (x, Panic)
  | Ok frame =>
      then_ (enqueue x frame) (λ x _, then_ (drain_pending x) (λ x _, refresh_readiness x))
  end.

Definition trojan_receive (x : TrojanDatagramExecution) (buffer : nat)
    : TrojanDatagramExecution * result ErrorKind (option ReceivedDatagram) :=
  then_ (take_frame x buffer) (λ x found,
  match found with
  | Some frame => (x, Ok (Some frame))
  | None =>
      then_ (service_ready x) (λ x _,
      then_ (take_frame x buffer) (λ x found,
      match found with
      | Some frame => (x, Ok (Some frame))
      | None => if remote_eof (tls x) then (x, Err EUnexpectedEof) else (x, Ok None)
      end))
  end).

Definition trojan_register (x : TrojanDatagramExecution) (tokens : list Z)
    : TrojanDatagramExecution * result ErrorKind unit :=
  match tokens with
  | [t] =>
      if has_registry x || bool_decide (is_Some (token x)) then (x, Err EAlreadyExists)
      else match register_tls (tls x) t with
           | (s, Ok _) =>
               ({| tls := s; pending := pending x; pending_bytes := pending_bytes x; rx := rx x;
                   has_registry := true; token := Some t |}, Ok tt)
           | (s, r) => (set_tls x s, r)
           end
  | _ => (x, Err EInvalidInput)
  end.

(** [TrojanDatagramProvider::open] on an established session. *)
Definition fresh_execution (s : S) : TrojanDatagramExecution :=
  {| tls := s; pending := []; pending_bytes := 0; rx := []; has_registry := false; token := None |}.
Definition trojan_open (verifier : TrojanVerifier) (s : S) : TrojanDatagramExecution * result ErrorKind unit :=
  then_ (enqueue (fresh_execution s) (encode_udp_associate_request verifier)) (λ x _, drain_pending x).

#[local] Instance Trojan_execution : DatagramExecution TrojanDatagramExecution := {
  dg_send := trojan_send;
  dg_receive := trojan_receive;
  readiness_source_count _ := 1;
  register_readiness := trojan_register;
}.

(** ** The queue *)
  Context `{!FramedSessionLaws S}.

(** Bounded queue and buffer, and a byte count that is exact. *)
Definition exec_ok (x : TrojanDatagramExecution) : Prop :=
  length (pending x) ≤ MAX_PENDING_FRAMES
  ∧ Forall (λ f, offset f ≤ length (frame_bytes f)) (pending x)
  ∧ pending_bytes x = Z.of_nat (queue_left (pending x))
  ∧ (pending_bytes x ≤ MAX_PENDING_BYTES)%Z
  ∧ (Z.of_nat (length (rx x)) ≤ MAX_RX_BYTES)%Z.

(** What has been or will be handed to TLS, in order. *)
Definition queue_bytes (q : list PendingFrame) : bytes :=
  mjoin ((λ f, drop (offset f) (frame_bytes f)) <$> q).
Definition outgoing (x : TrojanDatagramExecution) : bytes := accepted (tls x) ++ queue_bytes (pending x).

(** Nothing but the session and the queue differs. *)
Definition same_rest (x x' : TrojanDatagramExecution) : Prop :=
  rx x' = rx x ∧ has_registry x' = has_registry x ∧ token x' = token x.

(** The queue after [n] more bytes of its head were taken. *)
Lemma advance_head f rest n :
  Forall (λ f, offset f ≤ length (frame_bytes f)) rest → n ≤ length (frame_bytes f) - offset f →
  let f' := {| frame_bytes := frame_bytes f; offset := offset f + n |} in
  let q := if offset f + n =? length (frame_bytes f) then rest else f' :: rest in
  queue_left q = frame_left f - n + queue_left rest ∧ length q ≤ Datatypes.S (length rest)
  ∧ (offset f ≤ length (frame_bytes f) → Forall (λ f, offset f ≤ length (frame_bytes f)) q)
  ∧ queue_bytes q = drop (offset f + n) (frame_bytes f) ++ queue_bytes rest.
Proof.
  intros Hoff Hn. cbn zeta. unfold frame_left. destruct (_ =? _) eqn:Ee; bool_to_prop.
  - split_and!; [lia|lia|done|]. rewrite drop_ge by lia. done.
  - change (queue_left (_ :: rest)) with (length (frame_bytes f) - (offset f + n) + queue_left rest).
    split_and!; [lia|cbn; lia|intros; constructor; [cbn; lia|done]|done].
Qed.

Lemma drain_loop_ok fuel x :
  exec_ok x → drain_fuel x ≤ fuel →
  let '(x', r) := drain_loop fuel x in
  exec_ok x' ∧ outgoing x' = outgoing x ∧ r ≠ Panic ∧ same_rest x x'.
Proof.
  revert x; induction fuel as [|fuel IH]; intros x Hok Hf; [unfold drain_fuel in Hf; lia|].
  cbn [drain_loop]. destruct (pending x) as [|f rest] eqn:Eq; [done|].
  pose proof Hok as (Hlen & Hoff & Hcnt & Hmax & Hrx). rewrite Eq in Hlen, Hoff, Hcnt.
  apply Forall_cons in Hoff as [Hf1 Hoff]. rewrite (proj2 (Nat.ltb_ge _ _)) by done.
  assert (queue_left (f :: rest) = frame_left f + queue_left rest) as Hql by done.
  assert (queue_bytes (f :: rest) = drop (offset f) (frame_bytes f) ++ queue_bytes rest) as Hqb by done.
  rewrite Hql in Hcnt. cbn [length] in Hlen. unfold drain_fuel in Hf. rewrite Eq, Hql in Hf. cbn [length] in Hf.
  destruct (_ =? 0) eqn:E0.
  - bool_to_prop. apply nil_length_inv in E0. assert (frame_left f = 0) as Hfl.
    { unfold frame_left. rewrite <- length_drop, E0. done. }
    specialize (IH (set_queue x rest (pending_bytes x))).
    destruct (drain_loop fuel _) as [x' r]. destruct IH as (I1 & I2 & I3 & I4).
    { split_and!; cbn [set_queue pending pending_bytes rx]; try done; lia. }
    { unfold drain_fuel. cbn [tls pending set_queue]. lia. }
    split_and!; try done. rewrite I2. unfold outgoing. cbn. by rewrite Eq, Hqb, E0.
  - bool_to_prop. rewrite length_drop in E0.
    destruct (write_plaintext (tls x) _) as [s [n|er|]] eqn:Ew.
    + apply write_accepts in Ew as (Hn & Hacc & Hpat). rewrite length_drop in Hn.
      destruct (n =? 0) eqn:En.
      { bool_to_prop. subst n. rewrite take_0, app_nil_r in Hacc. split_and!; try done.
        unfold outgoing. cbn. by rewrite Hacc. }
      bool_to_prop. cbn zeta. cbn [offset frame_bytes].
      set (f' := {| frame_bytes := frame_bytes f; offset := offset f + n |}).
      set (q := if _ =? _ then rest else f' :: rest).
      destruct (advance_head f rest n Hoff ltac:(lia)) as (Q1 & Q2 & Q3 & Q4). fold f' in Q1, Q2, Q3, Q4. fold q in Q1, Q2, Q3, Q4.
      unfold frame_left in *.
      specialize (IH (set_queue (set_tls x s) q (Z.max 0 (pending_bytes x - Z.of_nat n)))).
      destruct (drain_loop fuel _) as [x' r]. destruct IH as (I1 & I2 & I3 & I4).
      { split_and!; cbn [pending pending_bytes rx set_queue set_tls]; auto; lia. }
      { unfold drain_fuel. cbn [tls pending set_queue set_tls]. lia. }
      split_and!; try done. rewrite I2. unfold outgoing. cbn [tls pending set_queue set_tls]. rewrite Hacc, Q4, Eq, Hqb, <- app_assoc. f_equal.
      rewrite app_assoc. f_equal. rewrite <- (take_drop n (drop (offset f) (frame_bytes f))) at 2. by rewrite drop_drop.
    + apply write_refuses in Ew as [Hacc Hint].
      assert (exec_ok (set_tls x s)) as Hok' by exact Hok.
      assert (outgoing (set_tls x s) = outgoing x) as Ho by (unfold outgoing; cbn; by rewrite Hacc).
      case_bool_decide as E1; [done|]. case_bool_decide as E2; [|done].
      specialize (Hint E2). specialize (IH (set_tls x s)). destruct (drain_loop fuel _) as [x' r].
      destruct IH as (I1 & I2 & I3 & I4); [done| |by rewrite I2].
      unfold drain_fuel. cbn [tls pending set_tls]. rewrite Eq, Hql. cbn [length]. lia.
    + exfalso. pose proof (write_no_panic (tls x) (drop (offset f) (frame_bytes f))) as Hp. by rewrite Ew in Hp.
Qed.

Lemma drain_pending_ok x :
  exec_ok x →
  let '(x', r) := drain_pending x in
  exec_ok x' ∧ outgoing x' = outgoing x ∧ r ≠ Panic ∧ same_rest x x'.
Proof. intros. by apply drain_loop_ok. Qed.

Lemma enqueue_ok x b :
  exec_ok x →
  let '(x', r) := enqueue x b in
  exec_ok x' ∧ r ≠ Panic ∧ same_rest x x'
  ∧ match r with Ok _ => outgoing x' = outgoing x ++ b | _ => x' = x end.
Proof.
  intros (Hlen & Hoff & Hcnt & Hmax & Hrx). unfold enqueue.
  destruct (_ <=? _) eqn:E1; [by split_and!|]. destruct (_ <=? _)%Z eqn:E2; [by split_and!|].
  destruct (_ <? _)%Z eqn:E3; [by split_and!|]. bool_to_prop.
  assert (queue_left (pending x ++ [{| frame_bytes := b; offset := 0 |}]) = queue_left (pending x) + length b) as Hq.
  { unfold queue_left. rewrite sum_list_with_app. cbn. unfold frame_left. cbn. lia. }
  unfold exec_ok. split_and!; cbn [set_queue pending pending_bytes rx]; try done; try lia.
  - rewrite length_app. cbn. lia.
  - apply Forall_app. split; [done|]. apply Forall_singleton. cbn. lia.
  - unfold outgoing, queue_bytes. cbn. rewrite fmap_app, join_app. cbn. rewrite app_nil_r. by rewrite app_assoc.
Qed.

Lemma refresh_readiness_ok x :
  exec_ok x →
  let '(x', r) := refresh_readiness x in
  exec_ok x' ∧ outgoing x' = outgoing x ∧ r ≠ Panic ∧ rx x' = rx x.
Proof.
  intros Hok. unfold refresh_readiness.
  destruct (has_registry x), (token x) as [t|]; try done.
  pose proof (refresh_keeps (tls x) t) as Hk. pose proof (refresh_no_panic (tls x) t) as Hp.
  destruct (refresh_tls (tls x) t) as [s r]. cbn in Hk, Hp. split_and!; try done.
  unfold outgoing. cbn. by rewrite Hk.
Qed.

(** A send puts its whole frame behind everything sent before, or nothing
    at all: the bytes handed to TLS, followed by those still queued, grow by
    exactly the encoded frame, whatever partial writes, blocking and
    interruptions the session produces; a refused send leaves the association
    as it was. The queue stays within 64 frames and 512 KiB with an exact byte
    count, and the draining loop ends. *)
Theorem trojan_send_whole_frame x t payload :
  exec_ok x →
  let '(x', r) := trojan_send x t payload in
  exec_ok x' ∧ r ≠ Panic ∧ rx x' = rx x
  ∧ ((x' = x ∧ ∃ e, r = Err e)
     ∨ ∃ frame, encode_udp_frame t payload = Ok frame ∧ outgoing x' = outgoing x ++ frame).
Proof.
  intros Hok. unfold trojan_send.
  assert (encode_udp_frame t payload ≠ Panic) as Hnp.
  { unfold encode_udp_frame, encode_target, encode_host. by repeat case_match. }
  destruct (encode_udp_frame t payload) as [frame|e|] eqn:Ee; [|by split_and!; eauto|done].
  pose proof (enqueue_ok x frame Hok) as Hq. unfold then_.
  destruct (enqueue x frame) as [x1 [u|e|]]; destruct Hq as (Q1 & Q2 & (Q3 & _) & Q4); [| |done].
  2: { subst x1. split_and!; eauto. }
  pose proof (drain_pending_ok x1 Q1) as Hd. destruct (drain_pending x1) as [x2 r2].
  destruct Hd as (D1 & D2 & D3 & (D4 & _)).
  assert (outgoing x2 = outgoing x ++ frame ∧ rx x2 = rx x) as [Ho Hrx] by (split; congruence).
  destruct r2 as [u2|e|]; [|split_and!; eauto|done].
  pose proof (refresh_readiness_ok x2 D1) as Hr. destruct (refresh_readiness x2) as [x3 r3].
  destruct Hr as (R1 & R2 & R3 & R4). split_and!; [done|done|congruence|]. right. exists frame.
  split; [done|congruence].
Qed.

(** ** The receive buffer *)
Lemma read_loop_ok fuel x :
  exec_ok x → read_fuel x ≤ fuel →
  let '(x', r) := read_loop fuel x in
  exec_ok x' ∧ outgoing x' = outgoing x ∧ r ≠ Panic ∧ (∃ new, rx x' = rx x ++ new).
Proof.
  revert x; induction fuel as [|fuel IH]; intros x Hok Hf; [unfold read_fuel in Hf; lia|].
  cbn [read_loop]. unfold read_fuel in Hf.
  assert (∀ s, accepted s = accepted (tls x) → outgoing (set_tls x s) = outgoing x) as Ho
    by (intros s Hs; unfold outgoing; cbn; by rewrite Hs).
  assert (∃ new, rx x = rx x ++ new) as Hself by (exists []; by rewrite app_nil_r).
  destruct (_ <=? _)%Z eqn:E; [done|]. bool_to_prop. set (limit := Z.min _ _).
  destruct (read_plaintext (tls x) limit) as [s [b|er|]] eqn:Er.
  - apply read_bounded in Er as (Hb & Hacc & Hpat); [|unfold limit, TLS_PLAINTEXT_READ_CHUNK; lia].
    destruct (length b =? 0) eqn:Eb; [by split_and!; [done|by apply Ho| |]|]. bool_to_prop.
    specialize (IH (set_rx (set_tls x s) (rx x ++ b))). destruct (read_loop fuel _) as [x' r].
    destruct IH as (I1 & I2 & I3 & (new & I4)).
    + destruct Hok as (? & ? & ? & ? & ?). split_and!; cbn [set_rx set_tls pending pending_bytes rx]; try done.
      rewrite length_app. lia.
    + unfold read_fuel. cbn [set_rx set_tls tls rx]. rewrite length_app. lia.
    + split_and!; [done|rewrite I2; by apply (Ho s)|done|]. exists (b ++ new). rewrite I4. cbn. by rewrite app_assoc.
  - apply read_refuses in Er as [Hacc Hint].
    case_bool_decide; [by split_and!; [done|by apply Ho| |]|]. case_bool_decide as E2; [|by split_and!; [done|by apply Ho| |]].
    specialize (Hint E2). specialize (IH (set_tls x s)). destruct (read_loop fuel _) as [x' r].
    destruct IH as (I1 & I2 & I3 & I4); [done|unfold read_fuel; cbn [set_tls tls rx]; lia|].
    split_and!; [done|rewrite I2; by apply Ho|done|done].
  - exfalso. pose proof (read_no_panic (tls x) limit) as Hp. by rewrite Er in Hp.
Qed.

Lemma service_ready_ok x :
  exec_ok x →
  let '(x', r) := service_ready x in
  exec_ok x' ∧ outgoing x' = outgoing x ∧ r ≠ Panic ∧ (∃ new, rx x' = rx x ++ new).
Proof.
  intros Hok. unfold service_ready, then_.
  assert (∃ new, rx x = rx x ++ new) as Hself by (exists []; by rewrite app_nil_r).
  pose proof (drain_pending_ok x Hok) as H1. destruct (drain_pending x) as [x1 r1].
  destruct H1 as (A1 & A2 & A3 & (A4 & _)). destruct r1 as [u|e|]; [|by rewrite A4|done].
  pose proof (service_keeps (tls x1)) as Hk. pose proof (service_no_panic (tls x1)) as Hp.
  destruct (service_io (tls x1)) as [s [u1|e|]]; cbn in Hk, Hp; [| |done].
  2: { split_and!; [done|unfold outgoing; cbn; rewrite Hk; exact A2|done|cbn; by rewrite A4]. }
  assert (exec_ok (set_tls x1 s)) as B0 by exact A1.
  pose proof (drain_pending_ok _ B0) as H2. destruct (drain_pending (set_tls x1 s)) as [x2 r2].
  destruct H2 as (B1 & B2 & B3 & (B4 & _)).
  assert (outgoing x2 = outgoing x) as B5 by (rewrite B2, <- A2; unfold outgoing; cbn; by rewrite Hk).
  assert (rx x2 = rx x) as B6 by (rewrite B4; exact A4).
  destruct r2 as [u2|e|]; [|by rewrite B6|done].
  pose proof (read_loop_ok (read_fuel x2) x2 B1 ltac:(done)) as H3.
  change (read_loop (read_fuel x2) x2) with (read_plaintext_into_rx x2) in H3.
  destruct (read_plaintext_into_rx x2) as [x3 r3]. destruct H3 as (C1 & C2 & C3 & (new & C4)).
  rewrite B6 in C4. destruct r3 as [u3|e|]; [|split_and!; [done|congruence|done|eauto]|done].
  pose proof (refresh_readiness_ok x3 C1) as H4. destruct (refresh_readiness x3) as [x4 r4].
  destruct H4 as (D1 & D2 & D3 & D4). split_and!; [done|congruence|done|]. exists new. congruence.
Qed.

Lemma take_frame_ok x n :
  exec_ok x →
  let '(x', r) := take_frame x n in
  exec_ok x' ∧ outgoing x' = outgoing x ∧ r ≠ Panic
  ∧ match r with
    | Ok (Some g) => ∃ frame, encode_udp_frame (dg_source g) (dg_payload g) = Ok frame
        ∧ rx x = frame ++ rx x' ∧ length (dg_payload g) ≤ n
    | Ok None => x' = x ∧ (Z.of_nat (length (rx x)) < 65798)%Z
    | _ => x' = x
    end.
Proof.
  intros Hok. unfold take_frame. pose proof (parse_udp_frame_no_panic (rx x)) as Hp.
  destruct (parse_udp_frame (rx x)) as [[f|]|e|] eqn:Ef; [| |done|done].
  2: { split_and!; try done. by apply parse_udp_frame_undecided in Ef. }
  apply parse_udp_frame_inv in Ef as (payload & rest & Ht & Hl & Hrx & Hc & He & Hs & Hsl).
  destruct (_ <? _) eqn:El; [done|]. bool_to_prop.
  assert (slice_get (rx x) (payload_start f) (payload_end f) = Some payload) as ->.
  { apply slice_get_Some. split; [|done]. rewrite He, Hs, Hc, Hrx, length_app. split; [|lia].
    unfold wire_frame, u16_be. rewrite !length_app, length_be_bytes. cbn. lia. }
  assert (drop (consumed f) (rx x) = rest) as Hd by (rewrite Hc, Hrx; apply drop_app_length).
  rewrite Hd. split_and!; try done.
  - destruct Hok as (? & ? & ? & ? & Hb). unfold exec_ok. split_and!; cbn [set_rx pending pending_bytes rx]; try done.
    rewrite Hrx, length_app in Hb. lia.
  - exists (wire_frame (source f) payload). cbn [dg_source dg_payload set_rx rx]. unfold encode_udp_frame.
    rewrite (proj2 (Z.ltb_ge _ _)), encode_target_ok by (done || lia). split_and!; [done|done|].
    rewrite <- Hsl, length_take. lia.
Qed.

(** Received datagrams are the frames of the carrier's byte stream, in
    order, each exactly once and however TLS cuts the stream: the bytes
    buffered before, followed by those read now, are the canonical encoding of
    the delivered datagram followed by what stays buffered. The payload fits
    the caller's buffer, nothing is written, the buffer stays within 128 KiB
    and the call returns. *)
Theorem trojan_receive_in_order x n :
  exec_ok x →
  let '(x', r) := trojan_receive x n in
  exec_ok x' ∧ outgoing x' = outgoing x ∧ r ≠ Panic
  ∧ ∃ new, match r with
    | Ok (Some g) => ∃ frame, encode_udp_frame (dg_source g) (dg_payload g) = Ok frame
        ∧ rx x ++ new = frame ++ rx x' ∧ length (dg_payload g) ≤ n
    | _ => rx x' = rx x ++ new
    end.
Proof.
  intros Hok. unfold trojan_receive, then_.
  pose proof (take_frame_ok x n Hok) as H1. destruct (take_frame x n) as [x1 r1].
  destruct H1 as (A1 & A2 & A3 & A4). destruct r1 as [[g|]|e|]; [| | |done].
  - split_and!; try done. exists []. rewrite app_nil_r. done.
  - destruct A4 as [-> _]. pose proof (service_ready_ok x A1) as H2. destruct (service_ready x) as [x2 r2].
    destruct H2 as (B1 & B2 & B3 & (new & B4)). destruct r2 as [u|e|]; [|split_and!; eauto|done].
    pose proof (take_frame_ok x2 n B1) as H3. destruct (take_frame x2 n) as [x3 r3].
    destruct H3 as (C1 & C2 & C3 & C4). rewrite B2 in C2. destruct r3 as [[g|]|e|]; [| | |done].
    + split_and!; try done. exists new. rewrite <- B4. done.
    + destruct C4 as [-> _]. destruct (remote_eof (tls x2)); split_and!; eauto.
    + subst x3. split_and!; eauto.
  - subst x1. split_and!; try done. exists []. by rewrite app_nil_r.
Qed.

Lemma fresh_execution_ok s : exec_ok (fresh_execution s).
Proof.
  unfold exec_ok. cbn. unfold MAX_PENDING_FRAMES, MAX_PENDING_BYTES, MAX_RX_BYTES.
  split_and!; try done; lia.
Qed.

(** An opened association starts with the UDP ASSOCIATE request. *)
Lemma trojan_open_ok v s :
  (Z.of_nat (length (encode_udp_associate_request v)) ≤ MAX_PENDING_BYTES)%Z →
  let '(x, r) := trojan_open v s in
  exec_ok x ∧ r ≠ Panic ∧ outgoing x = accepted s ++ encode_udp_associate_request v.
Proof.
  intros Hl. unfold trojan_open, then_.
  pose proof (enqueue_ok (fresh_execution s) (encode_udp_associate_request v) (fresh_execution_ok s)) as Hq.
  assert ((enqueue (fresh_execution s) (encode_udp_associate_request v)).2 = Ok tt) as Hr.
  { unfold enqueue. cbn [fresh_execution pending pending_bytes length]. change (MAX_PENDING_FRAMES <=? 0) with false.
    cbv iota. unfold MAX_PENDING_BYTES in *.
    rewrite (proj2 (Z.leb_gt _ _)) by lia. by rewrite (proj2 (Z.ltb_ge _ _)) by lia. }
  destruct (enqueue _ _) as [x1 r1]. cbn in Hr. subst r1.
  destruct Hq as (Q1 & _ & _ & Q4). pose proof (drain_pending_ok _ Q1) as Hd.
  destruct (drain_pending _) as [x r]. destruct Hd as (D1 & D2 & D3 & _). split_and!; try done.
  rewrite D2, Q4. unfold outgoing. cbn. by rewrite app_nil_r.
Qed.
End execution.

(** ** A concrete session *)

(** What was written, the answers to the next writes and reads. *)
Record script_session := {
  sc_out : bytes;
  sc_writes : list (result ErrorKind nat);
  sc_reads : list bytes;
}.
Definition sc_write (s : script_session) (b : bytes) : script_session * result ErrorKind nat :=
  match sc_writes s with
  | Ok n :: ws =>
      ({| sc_out := sc_out s ++ take n b; sc_writes := ws; sc_reads := sc_reads s |}, Ok (Nat.min n (length b)))
  | Err e :: ws => ({| sc_out := sc_out s; sc_writes := ws; sc_reads := sc_reads s |}, Err e)
  | Panic :: ws => (s, Err EWouldBlock)
  | [] => (s, Err EWouldBlock)
  end.
Definition sc_read (s : script_session) (n : Z) : script_session * result ErrorKind bytes :=
  match sc_reads s with
  | b :: bs =>
      ({| sc_out := sc_out s; sc_writes := sc_writes s; sc_reads := bs |}, Ok (take (Z.to_nat n) b))
  | [] => (s, Err EWouldBlock)
  end.
#[local] Instance script_framed : FramedSession script_session := {
  write_plaintext := sc_write;
  read_plaintext := sc_read;
  service_io s := (s, Ok tt);
  refresh_tls s _ := (s, Ok tt);
  register_tls s _ := (s, Ok tt);
  remote_eof _ := false;
  accepted := sc_out;
  patience s := length (sc_writes s);
}.
#[local] Instance script_framed_laws : FramedSessionLaws script_session.
Proof.
  split; cbn; try done.
  - intros [o [|[n|e|] ws] rs] b; done.
  - intros [o ws [|b bs]] n; done.
  - intros [o [|[n|e|] ws] rs] b s' m; cbn; intros [= <- <-]. cbn. split_and!; [lia| |lia].
    destruct (decide (n ≤ length b)); [by rewrite Nat.min_l|]. rewrite Nat.min_r by lia. by rewrite !take_ge by lia.
  - intros [o [|[n|e|] ws] rs] b s' m; cbn; intros [= <- <-]; cbn; (split; [done|]); try lia; by intros [=].
  - intros [o ws [|b bs]] n s' b' Hn; cbn; intros [= <- <-]. cbn. rewrite length_take. split_and!; [lia|done|done].
  - intros [o ws [|b bs]] n s' e; cbn; intros [= <- <-]. split; [done|]. by intros [=].
Qed.

(** A session that takes three bytes, is interrupted, takes ten and blocks,
    and that delivers a frame in two pieces. *)
Definition sample_frame : bytes := wire_frame sample_target [x01; x02].
Definition sample_execution : TrojanDatagramExecution :=
  fresh_execution {| sc_out := []; sc_writes := [Ok 3; Err EInterrupted; Ok 10];
                     sc_reads := [take 7 sample_frame; drop 7 sample_frame] |}.

Lemma trojan_send_whole_frame_witness :
  let '(x', r) := trojan_send sample_execution sample_target [x07] in
  r = Ok tt ∧ ∃ frame, encode_udp_frame sample_target [x07] = Ok frame ∧ outgoing x' = frame.
Proof.
  pose proof (trojan_send_whole_frame sample_execution sample_target [x07] (fresh_execution_ok _)) as H.
  assert ((trojan_send sample_execution sample_target [x07]).2 = Ok tt) as Hr by (vm_compute; reflexivity).
  destruct (trojan_send _ _ _) as [x' r]. cbn in Hr. subst r. split; [reflexivity|].
  destruct H as (_ & _ & _ & [[_ [e He]]|(frame & E & Ho)]); [discriminate He|].
  exists frame. split; [exact E|]. exact Ho.
Defined.

Lemma trojan_receive_in_order_witness :
  let '(x', r) := trojan_receive sample_execution 100 in
  r = Ok (Some {| dg_source := sample_target; dg_payload := [x01; x02] |}) ∧ exec_ok x'.
Proof.
  pose proof (trojan_receive_in_order sample_execution 100 (fresh_execution_ok _)) as H.
  assert ((trojan_receive sample_execution 100).2 = Ok (Some {| dg_source := sample_target; dg_payload := [x01; x02] |})) as Hr
    by (vm_compute; reflexivity).
  destruct (trojan_receive _ _) as [x' r]. cbn in Hr. subst r. split; [reflexivity|exact (proj1 H)].
Defined.
