(* ===== verification/Conn.v ===== *)
(** * Blocking byte connections

    What the inbound handlers and the proxy handshakes use of a stream
    ([TcpStream], [TransportSession]): [Read] and [Write] of the standard
    library. [incoming] stands for the bytes the peer has still to be read
    from, [sent] for everything written so far; the laws are those documented
    for [read], [read_exact] and [write_all]. *)

From S2P Require Import Prelude RustStr Flow Policy Proxy.

Class Conn (S : Type) := {
  conn_read : S → nat → S * result ErrorKind bytes;
  conn_read_exact : S → nat → S * result ErrorKind bytes;
  conn_write_all : S → bytes → S * result ErrorKind unit;
  conn_flush : S → S * result ErrorKind unit;
  incoming : S → bytes;
  sent : S → bytes;
}.

Class ConnLaws (S : Type) `{Conn S} : Prop := {
  read_ok : ∀ s n s' b, conn_read s n = (s', Ok b) →
    length b ≤ n ∧ incoming s = b ++ incoming s' ∧ sent s' = sent s;
  read_err : ∀ s n s' e, conn_read s n = (s', Err e) → sent s' = sent s;
  read_returns : ∀ s n, (conn_read s n).2 ≠ Panic;
  read_exact_ok : ∀ s n s' b, conn_read_exact s n = (s', Ok b) →
    length b = n ∧ incoming s = b ++ incoming s' ∧ sent s' = sent s;
  read_exact_err : ∀ s n s' e, conn_read_exact s n = (s', Err e) → sent s' = sent s;
  read_exact_returns : ∀ s n, (conn_read_exact s n).2 ≠ Panic;
  write_all_ok : ∀ s b s', conn_write_all s b = (s', Ok tt) →
    sent s' = sent s ++ b ∧ incoming s' = incoming s;
  write_all_returns : ∀ s b, (conn_write_all s b).2 ≠ Panic;
  flush_keeps : ∀ s, sent (conn_flush s).1 = sent s ∧ incoming (conn_flush s).1 = incoming s;
  flush_returns : ∀ s, (conn_flush s).2 ≠ Panic;
}.

(** A connection on which nothing fails: bytes that are there can be read, and
    everything can be written. *)
Class ConnReliable (S : Type) `{Conn S} : Prop := {
  read_exact_succeeds : ∀ s n, n ≤ length (incoming s) → ∃ s' b, conn_read_exact s n = (s', Ok b);
  read_succeeds : ∀ s n, 0 < n → incoming s ≠ [] → ∃ s' b, conn_read s n = (s', Ok b) ∧ b ≠ [];
  write_all_succeeds : ∀ s b, ∃ s', conn_write_all s b = (s', Ok tt);
  flush_succeeds : ∀ s, ∃ s', conn_flush s = (s', Ok tt);
}.

(** Sequencing with [?] over a state. *)
Definition seq_ {X A B} (p : X * result ErrorKind A) (f : X → A → X * result ErrorKind B) : X * result ErrorKind B :=
  match p with
  | (x, Ok a) => f x a
  | (x, Err e) => (x, Err e)
  | (x, Panic) => (x, Panic)
  end.
Notation "'let!' s a ':=' p 'in' k" := (seq_ p (λ s a, k))
  (at level 200, s name, a name, p at level 100, k at level 200,
   format "'let!'  s  a  ':='  p  'in' '//' k") : commeatus_scope.

Lemma seq_ok_inv {X A B} (p : X * result ErrorKind A) (f : X → A → X * result ErrorKind B) x' b :
  seq_ p f = (x', Ok b) → ∃ x a, p = (x, Ok a) ∧ f x a = (x', Ok b).
Proof. destruct p as [x [a|e|]]; naive_solver. Qed.

Lemma seq_no_panic {X A B} (p : X * result ErrorKind A) (f : X → A → X * result ErrorKind B) :
  p.2 ≠ Panic → (∀ x a, p = (x, Ok a) → (f x a).2 ≠ Panic) → (seq_ p f).2 ≠ Panic.
Proof. destruct p as [x [a|e|]]; cbn; naive_solver. Qed.

(** A pure fallible step in a stateful sequence. *)
Definition lift_ {X A} (x : X) (r : result ErrorKind A) : X * result ErrorKind A := (x, r).

(** ** A connection that plays back a script *)

(** The peer's bytes in the pieces they arrive in, and what was written. *)
Record script_conn := { sc_in : list bytes; sc_sent : bytes }.
(** TCP delivers no empty piece. *)
Fixpoint skip_empty (pieces : list bytes) : list bytes :=
  match pieces with [] :: ps => skip_empty ps | _ => pieces end.
Definition script_read (s : script_conn) (n : nat) : script_conn * result ErrorKind bytes :=
  match skip_empty (sc_in s) with
  | b :: bs =>
      ({| sc_in := match drop n b with [] => bs | r => r :: bs end; sc_sent := sc_sent s |}, Ok (take n b))
  | [] => (s, Ok [])
  end.
Definition script_read_exact (s : script_conn) (n : nat) : script_conn * result ErrorKind bytes :=
  let all := mjoin (sc_in s) in
  if n <=? length all then ({| sc_in := [drop n all]; sc_sent := sc_sent s |}, Ok (take n all))
  else ({| sc_in := []; sc_sent := sc_sent s |}, Err EUnexpectedEof).
Definition script_write_all (s : script_conn) (b : bytes) : script_conn * result ErrorKind unit :=
  ({| sc_in := sc_in s; sc_sent := sc_sent s ++ b |}, Ok tt).

#[export] Instance script_Conn : Conn script_conn := {
  conn_read := script_read;
  conn_read_exact := script_read_exact;
  conn_write_all := script_write_all;
  conn_flush s := (s, Ok tt);
  incoming s := mjoin (sc_in s);
  sent := sc_sent;
}.
Lemma skip_empty_join ps : mjoin (skip_empty ps) = mjoin ps.
Proof. by induction ps as [|[|b p] ps IH]. Qed.

#[export] Instance script_ConnLaws : ConnLaws script_conn.
Proof.
  split; cbn.
  - intros [ps o] n s' c; cbn. unfold script_read. cbn. rewrite <- (skip_empty_join ps).
    destruct (skip_empty ps) as [|b bs] eqn:Eb; intros [= <- <-]; cbn.
    { rewrite <- (skip_empty_join ps), Eb. split_and!; [lia|done|done]. }
    rewrite length_take. split_and!; [lia| |done]. rewrite <- (take_drop n b) at 1. rewrite <- app_assoc.
    f_equal. by destruct (drop n b).
  - intros [ps o] n s' e; unfold script_read; cbn. by destruct (skip_empty ps).
  - intros [ps o] n. unfold script_read; cbn. by destruct (skip_empty ps).
  - intros s n s' b. unfold script_read_exact. destruct (_ <=? _) eqn:E; [|done]. bool_to_prop.
    intros [= <- <-]. cbn. rewrite length_take, app_nil_r, take_drop. split_and!; [lia|done|done].
  - intros s n s' e. unfold script_read_exact. destruct (_ <=? _); [done|]. by intros [= <- <-].
  - intros s n. unfold script_read_exact. by destruct (_ <=? _).
  - intros s b s' [= <-]. done.
  - done.
  - done.
  - done.
Qed.
#[export] Instance script_ConnReliable : ConnReliable script_conn.
Proof.
  split; cbn; [| |eauto|eauto].
  - intros s n Hn. unfold script_read_exact. rewrite (proj2 (Nat.leb_le _ _) Hn). eauto.
  - intros [ps o] n Hn. cbn. unfold script_read. cbn. rewrite <- (skip_empty_join ps).
    assert (∀ bs, skip_empty ps ≠ [] :: bs) as He by (induction ps as [|[|b p] ps IH]; done).
    destruct (skip_empty ps) as [|[|b p] bs] eqn:E; [done|by destruct (He bs)|]. intros _.
    eexists _, _. split; [done|]. destruct n; [lia|done].
Qed.

(** Reading a known prefix off a reliable connection. *)
Lemma read_exact_prefix {C : Type} `{HConn : Conn C, !ConnLaws C, !ConnReliable C} (s : C) b rest :
  incoming s = b ++ rest →
  ∃ s', conn_read_exact s (length b) = (s', Ok b) ∧ incoming s' = rest ∧ sent s' = sent s.
Proof.
  intros Hin. destruct (read_exact_succeeds s (length b)) as (s' & b' & E).
  { rewrite Hin, length_app. lia. }
  exists s'. apply read_exact_ok in E as Hr. destruct Hr as (Hl & Hi & Hs).
  rewrite Hin in Hi. apply app_inj_1 in Hi as [-> ->]; [done|lia].
Qed.
