(* ===== verification/HttpConnect.v ===== *)
(** * The HTTP CONNECT inbound ([daemon/src/http_connect.rs])

    Header reading in pieces, the request line, the authority, and the whole
    handler: policy, outbound connection, response and hand-over to the relay. *)

From S2P Require Import Prelude RustStr RustNet Flow Policy DnsBase Proxy Conn.

Definition MAX_HEADER_BYTES : Z := 16 * 1024.

(** [buffer.windows(p.len()).position(|w| w == p)] for a non-empty [p] *)
Fixpoint find_window (p s : bytes) : option nat :=
  if starts_with p s then Some 0
  else match s with
       | [] => None
       | _ :: s' => match find_window p s' with Some n => Some (S n) | None => None end
       end.

Definition HEADER_END : bytes := [x0d; x0a; x0d; x0a].
Definition find_header_end (buffer : bytes) : option nat := find_window HEADER_END buffer.

Definition parse_port (value : str) : result ErrorKind Z :=
  match parse_u16 value with
  | None => Err EInvalidData
  | Some port => if (port =? 0)%Z then Err EInvalidData else Ok port
  end.

Definition parse_authority (authority : str) : result ErrorKind Target :=
  match strip_prefix [x5b] authority with
  | Some rest =>
      close ← ok_or (find_byte x5d rest) EInvalidData;
      let host := take close rest in
      port ← ok_or (strip_prefix [x3a] (drop (close + 1) rest)) EInvalidData;
      if contains_byte x3a port then Err EInvalidData
      else
        address ← ok_or (parse_ip host) EInvalidData;
        if negb (ip_is_ipv6 address) then Err EInvalidData
        else
          port ← parse_port port;
          Target_new (Ip address) port
  | None =>
      '(host, port) ← ok_or (rsplit_once x3a authority) EInvalidData;
      if (length host =? 0) || contains_byte x3a host then Err EInvalidData
      else
        destination ←
          match parse_ip host with
          | Some address => Ok (Ip address)
          | None =>
              let domain := to_ascii_lowercase (trim_end_matches x2e host) in
              if (length domain =? 0) || (253 <? length domain) then Err EInvalidData
              else Ok (Domain domain)
          end;
        port ← parse_port port;
        Target_new destination port
  end.

(** The first field of [header.split(CRLF)]. *)
Definition request_line (header : str) : str :=
  match find_window [x0d; x0a] header with Some n => take n header | None => header end.

(** The header block, without its terminator. *)
Definition parse_header (header : bytes) : result ErrorKind Target :=
  header ← ok_or (from_utf8 header) EInvalidData;
  match split_whitespace (request_line header) with
  | [method; authority; version] =>
      if negb (bool_decide (method = #"CONNECT")) || negb (starts_with (#"HTTP/1.") version)
      then Err EInvalidData
      else parse_authority authority
  | _ => Err EInvalidData
  end.

Section handler.
  Context {S : Type} `{HConn : Conn S}.

(** The read loop: the buffer with the position of its header end. Every
    pass adds at least one byte, so a pass per byte of the limit and one more
    suffice. *)
Fixpoint read_header (fuel : nat) (stream : S) (buffer : bytes) : S * result ErrorKind (bytes * nat) :=
  match fuel with
  | O => (stream, Panic)
  | Datatypes.S fuel' =>
      match find_header_end buffer with
      | Some end_ => (stream, Ok (buffer, end_))
      | None =>
          if (MAX_HEADER_BYTES <=? Z.of_nat (length buffer))%Z then (stream, Err EInvalidData)
          else
            let remaining := (MAX_HEADER_BYTES - Z.of_nat (length buffer))%Z in
            let read_limit := Z.to_nat (Z.min remaining 1024) in
            let! stream chunk := conn_read stream read_limit in
            if length chunk =? 0 then (stream, Err EUnexpectedEof)
            else read_header fuel' stream (buffer ++ chunk)
      end
  end.

Definition HEADER_FUEL : nat := Datatypes.S (Z.to_nat MAX_HEADER_BYTES).

Definition read_request (stream : S) : S * result ErrorKind (Target * bytes) :=
  let! stream found := read_header HEADER_FUEL stream [] in
  let '(buffer, header_end) := found in
  (stream,
   header ← slice buffer 0 header_end;
   target ← parse_header header;
   rest ← slice buffer (header_end + 4) (length buffer);
   Ok (target, rest)).

(** ** The handler *)
  (** The outbound side: [connect_tcp] of the registry, writing to the remote
      and the final relay; socket timeouts. *)
  Context {W R : Type}.
  Context (connect_tcp : W → Endpoint → Target → W * result ErrorKind R).
  Context (remote_write_all : R → bytes → R * result ErrorKind unit).
  Context (relay_to_client : W → R → S → W * result ErrorKind unit).
  Context (set_timeouts : S → bool → S * result ErrorKind unit).
  Context (version : str).

Definition RESPONSE_400 : bytes :=
  #"HTTP/1.1 400 Bad Request" ++ [x0d; x0a] ++ #"Connection: close" ++ [x0d; x0a]
  ++ #"Content-Length: 0" ++ [x0d; x0a; x0d; x0a].
Definition RESPONSE_403 : bytes :=
  #"HTTP/1.1 403 Forbidden" ++ [x0d; x0a] ++ #"Connection: close" ++ [x0d; x0a]
  ++ #"Content-Length: 0" ++ [x0d; x0a; x0d; x0a].
Definition RESPONSE_502 : bytes :=
  #"HTTP/1.1 502 Bad Gateway" ++ [x0d; x0a] ++ #"Connection: close" ++ [x0d; x0a]
  ++ #"Content-Length: 0" ++ [x0d; x0a; x0d; x0a].
Definition RESPONSE_200 : bytes :=
  #"HTTP/1.1 200 Connection Established" ++ [x0d; x0a] ++ #"Proxy-Agent: Commeatus/" ++ version
  ++ [x0d; x0a; x0d; x0a].

(** What the handler did: the client connection and the world when it
    returned, and the flow counter. *)
Record HandlerState := { h_client : S; h_world : W; h_next_flow : Z }.

Definition handle (runtime : Runtime) (client : S) (w : W) (next_flow : Z)
    : HandlerState * result ErrorKind unit :=
  let done_ client w next r := ({| h_client := client; h_world := w; h_next_flow := next |}, r) in
  match set_timeouts client true with
  | (client, Err e) => done_ client w next_flow (Err e)
  | (client, Panic) => done_ client w next_flow Panic
  | (client, Ok _) =>
  match read_request client with
  | (client, Panic) => done_ client w next_flow Panic
  | (client, Err error) =>
      let '(client, _) := conn_write_all client RESPONSE_400 in
      done_ client w next_flow (Err error)
  | (client, Ok (target, buffered_tunnel_bytes)) =>
      let '(next_flow, action) := plan_action runtime next_flow target Tcp in
      match action with
      | Reject _ =>
          let '(client, r) := conn_write_all client RESPONSE_403 in
          done_ client w next_flow r
      | Route endpoint =>
          match connect_tcp w endpoint target with
          | (w, Panic) => done_ client w next_flow Panic
          | (w, Err error) =>
              let '(client, _) := conn_write_all client RESPONSE_502 in
              done_ client w next_flow (Err error)
          | (w, Ok remote) =>
              match conn_write_all client RESPONSE_200 with
              | (client, Err e) => done_ client w next_flow (Err e)
              | (client, Panic) => done_ client w next_flow Panic
              | (client, Ok _) =>
                  let '(remote, r) :=
                    if negb (length buffered_tunnel_bytes =? 0)
                    then remote_write_all remote buffered_tunnel_bytes
                    else (remote, Ok tt) in
                  match r with
                  | Err e => done_ client w next_flow (Err e)
                  | Panic => done_ client w next_flow Panic
                  | Ok _ =>
                      match set_timeouts client false with
                      | (client, Err e) => done_ client w next_flow (Err e)
                      | (client, Panic) => done_ client w next_flow Panic
                      | (client, Ok _) =>
                          let '(w, r) := relay_to_client w remote client in
                          done_ client w next_flow r
                      end
                  end
              end
          end
      end
  end
  end.

  Context `{HLaws : !ConnLaws S}.

(** ** The search for the header end *)
Lemma starts_with_app p s t : starts_with p s = true → starts_with p (s ++ t) = true.
Proof.
  unfold starts_with. destruct (strip_prefix p s) as [r|] eqn:E; [|done]. intros _.
  apply strip_prefix_Some in E as ->. rewrite <- app_assoc.
  by rewrite (proj2 (strip_prefix_Some p (p ++ r ++ t) (r ++ t))).
Qed.

Lemma starts_with_true p s : starts_with p s = true → ∃ r, s = p ++ r.
Proof. unfold starts_with. destruct (strip_prefix p s) as [r|] eqn:E; [|done]. apply strip_prefix_Some in E. eauto. Qed.

Lemma find_window_Some p s n : find_window p s = Some n → s = take n s ++ p ++ drop (n + length p) s.
Proof.
  revert n; induction s as [|b s IH]; intros n; cbn [find_window].
  - destruct (starts_with p []) eqn:E; [|done]. intros [= <-]. apply starts_with_true in E as [r E].
    rewrite E. cbn. by rewrite drop_app_length.
  - destruct (starts_with p (b :: s)) eqn:E.
    + intros [= <-]. apply starts_with_true in E as [r ->]. cbn. by rewrite drop_app_length.
    + destruct (find_window p s) as [m|]; [|done]. intros [= <-]. cbn. f_equal. by apply IH.
Qed.

(** Bytes that arrive later never move a header end already found. *)
Lemma find_window_app p s t n : p ≠ [] → find_window p s = Some n → find_window p (s ++ t) = Some n.
Proof.
  intros Hp. revert n; induction s as [|b s IH]; intros n; cbn [find_window].
  - destruct (starts_with p []) eqn:E; [|done]. apply starts_with_true in E as [r E].
    destruct p; [done|]. by destruct r.
  - destruct (starts_with p (b :: s)) eqn:E.
    + intros [= <-]. apply (starts_with_app _ _ t) in E. cbn [app find_window]. cbn [app] in E. by rewrite E.
    + destruct (find_window p s) as [m|] eqn:Ef; [|done]. intros [= <-]. cbn [app find_window].
      destruct (starts_with p (b :: s ++ t)) eqn:E2.
      * exfalso. apply find_window_Some in Ef as Hs. apply starts_with_true in E2 as [r E2].
        assert (length p ≤ length s) as Hl.
        { apply (f_equal length) in Hs. rewrite !length_app in Hs. lia. }
        assert (starts_with p (b :: s) = true); [|congruence].
        unfold starts_with. rewrite (proj2 (strip_prefix_Some p (b :: s) (drop (length p) (b :: s)))); [done|].
        rewrite <- (take_drop (length p) (b :: s)) at 1. f_equal.
        rewrite <- (take_app_le (b :: s) t) by (cbn; lia). cbn [app]. rewrite E2. apply take_app_length.
      * by rewrite (IH _ eq_refl).
Qed.

Lemma read_header_ok fuel stream buffer :
  (MAX_HEADER_BYTES - Z.of_nat (length buffer) < Z.of_nat fuel)%Z → (Z.of_nat (length buffer) ≤ MAX_HEADER_BYTES)%Z →
  let '(stream', r) := read_header fuel stream buffer in
  sent stream' = sent stream ∧ r ≠ Panic
  ∧ ∀ buffer' e, r = Ok (buffer', e) →
      find_header_end buffer' = Some e ∧ buffer ++ incoming stream = buffer' ++ incoming stream'
      ∧ (Z.of_nat (length buffer') ≤ MAX_HEADER_BYTES)%Z.
Proof.
  revert stream buffer; induction fuel as [|fuel IH]; intros stream buffer Hf Hb; [lia|].
  cbn [read_header]. destruct (find_header_end buffer) as [e|] eqn:Ee.
  { split_and!; try done. intros b' e' [= <- <-]. done. }
  destruct (_ <=? _)%Z eqn:El; [done|]. bool_to_prop. unfold seq_. set (limit := Z.to_nat _).
  pose proof (read_returns stream limit) as Hp.
  destruct (conn_read stream limit) as [s1 [chunk|er|]] eqn:Er; cbn in Hp; [| |done].
  - apply read_ok in Er as (Hl & Hin & Hs). destruct (_ =? 0) eqn:E0; [done|]. bool_to_prop.
    specialize (IH s1 (buffer ++ chunk)). destruct (read_header fuel _ _) as [s2 r].
    destruct IH as (I1 & I2 & I3); [rewrite length_app; lia|rewrite length_app; lia|].
    split_and!; [congruence|done|]. intros b' e Hr. destruct (I3 b' e Hr) as (J1 & J2 & J3).
    split_and!; try done. by rewrite Hin, app_assoc.
  - apply read_err in Er. done.
Qed.

(** What an accepted authority gives: a non-zero port, and an IP literal or a
    lower-case name without trailing dots. *)
Definition connect_target_ok (t : Target) : Prop :=
  is_u16 (port t) ∧ port t ≠ 0%Z
  ∧ match host t with
    | Ip a => ip_wf a
    | Domain d => 1 ≤ length d ≤ 253 ∧ to_ascii_lowercase d = d ∧ last d ≠ Some x2e
    end.

Lemma parse_port_ok v p : parse_port v = Ok p → is_u16 p ∧ p ≠ 0%Z.
Proof.
  unfold parse_port. destruct (parse_u16 v) as [q|] eqn:E; [|done].
  destruct (_ =? 0)%Z eqn:E0; [done|]. intros [= <-]. bool_to_prop.
  unfold parse_u16 in E. apply parse_uint_range in E. unfold is_u16. split; [lia|done].
Qed.

Lemma parse_authority_ok a t : parse_authority a = Ok t → connect_target_ok t.
Proof.
  unfold parse_authority, Target_new. intros H. destruct (strip_prefix [x5b] a) as [rest|].
  - apply bind_ok_inv in H as (c & _ & H). apply bind_ok_inv in H as (p & _ & H).
    destruct (contains_byte _ _); [done|]. apply bind_ok_inv in H as (ip & Hip%ok_or_ok%parse_ip_wf & H).
    destruct (negb _); [done|]. apply bind_ok_inv in H as (q & Hq%parse_port_ok & H).
    destruct (_ =? 0)%Z; [done|]. injection H as <-. destruct Hq. split_and!; done.
  - apply bind_ok_inv in H as ([h p] & _ & H). destruct (_ || _); [done|].
    apply bind_ok_inv in H as (d & Hd & H). apply bind_ok_inv in H as (q & Hq%parse_port_ok & H).
    destruct (_ =? 0)%Z; [done|]. injection H as <-. destruct Hq. split; [done|]. split; [done|]. cbn.
    destruct (parse_ip h) as [ip|] eqn:Ei; [injection Hd as <-; by apply parse_ip_wf in Ei|].
    destruct (_ || _) eqn:E; [done|]. injection Hd as <-. bool_to_prop.
    split_and!; [lia|lia|by rewrite lower_idem|]. apply last_lower_dot.
    by destruct (trim_end_matches_spec x2e h) as (? & _ & ?).
Qed.

Lemma parse_header_ok h t : parse_header h = Ok t → connect_target_ok t.
Proof.
  unfold parse_header. intros H. apply bind_ok_inv in H as (h' & _ & H).
  repeat case_match; try done. by eapply parse_authority_ok.
Qed.

Lemma parse_header_no_panic h : no_panic (parse_header h).
Proof.
  unfold parse_header. apply bind_no_panic; [auto with commeatus|]. intros h' _. repeat case_match; try done.
  unfold parse_authority, Target_new, parse_port.
  np.
Qed.

Lemma read_request_cases stream :
  let '(stream', r) := read_request stream in
  sent stream' = sent stream ∧ r ≠ Panic
  ∧ ∀ target rest, r = Ok (target, rest) →
      ∃ e, find_header_end (incoming stream) = Some e
        ∧ parse_header (take e (incoming stream)) = Ok target ∧ connect_target_ok target
        ∧ incoming stream = take e (incoming stream) ++ HEADER_END ++ rest ++ incoming stream'
        ∧ (Z.of_nat (e + 4 + length rest) ≤ MAX_HEADER_BYTES)%Z.
Proof.
  unfold read_request, seq_.
  pose proof (read_header_ok HEADER_FUEL stream []) as H.
  destruct (read_header HEADER_FUEL stream []) as [s1 [[buffer e]|er|]].
  2: { destruct H as (H1 & H2 & _); [unfold HEADER_FUEL; cbn [length]; unfold MAX_HEADER_BYTES; lia|done|done]. }
  2: { destruct H as (_ & H2 & _); [unfold HEADER_FUEL; cbn [length]; unfold MAX_HEADER_BYTES; lia|done|done]. }
  destruct H as (H1 & _ & H3); [unfold HEADER_FUEL; cbn [length]; unfold MAX_HEADER_BYTES; lia|done|].
  destruct (H3 buffer e eq_refl) as (He & Hin & Hlen). cbn [app] in Hin. clear H3.
  pose proof (find_window_Some _ _ _ He) as Hsplit. change (length HEADER_END) with 4 in Hsplit.
  assert (e + 4 ≤ length buffer) as Hle.
  { apply (f_equal length) in Hsplit. rewrite !length_app, length_take, length_drop in Hsplit. cbn in Hsplit. lia. }
  unfold slice. rewrite (proj2 (slice_get_Some _ _ _ _)) by (split; [lia|reflexivity]).
  rewrite (proj2 (slice_get_Some _ _ _ _)) by (split; [lia|reflexivity]).
  cbn [mbind result_bind]. rewrite Nat.sub_0_r, drop_0.
  rewrite (take_ge (drop (e + 4) buffer)) by (rewrite length_drop; lia).
  pose proof (parse_header_no_panic (take e buffer)) as Hp.
  assert (take e (incoming stream) = take e buffer) as Et by (rewrite Hin; apply take_app_le; lia).
  split; [done|]. destruct (parse_header (take e buffer)) as [t|er|] eqn:Ep; cbn [mbind result_bind];
    (split; [done|]); intros target rest; [|done..].
  intros [= <- <-]. exists e. rewrite Et. split_and!; [|done|by eapply parse_header_ok| |].
  - rewrite Hin. by apply find_window_app.
  - rewrite Hin. rewrite Hsplit at 1. by rewrite <- !app_assoc.
  - rewrite length_drop. lia.
Qed.

(** C35. Reading a CONNECT request depends only on the bytes the client sends,
    not on how TCP cuts them: an accepted request is the text before the first
    blank line of the client's stream, its target has a non-zero port and a
    normalised host, and every byte after the blank line is either returned as
    early tunnel data or still unread, so none is lost or repeated. Header and
    early data stay within 16 KiB, nothing is written to the client, and the
    loop always ends. *)
Theorem http_read_request_exact stream :
  let '(stream', r) := read_request stream in
  sent stream' = sent stream ∧ r ≠ Panic
  ∧ ∀ target rest, r = Ok (target, rest) →
      ∃ e, find_header_end (incoming stream) = Some e
        ∧ parse_header (take e (incoming stream)) = Ok target ∧ connect_target_ok target
        ∧ incoming stream = take e (incoming stream) ++ HEADER_END ++ rest ++ incoming stream'
        ∧ (Z.of_nat (e + 4 + length rest) ≤ MAX_HEADER_BYTES)%Z.
Proof. apply read_request_cases. Qed.
End handler.

(** ** The handler obeys the policy *)
Section policy.
  Context {S R : Type} `{HConn : Conn S}.
  Context (remote_write_all : R → bytes → R * result ErrorKind unit).
  Context (set_timeouts : S → bool → S * result ErrorKind unit) (version : str).
  (** The registry's answers, and a relay that is told what it relays; the
      world is the log of the outbound connections asked for. *)
  Context (connect : Endpoint → Target → result ErrorKind R).
  Context (relay : R → S → result ErrorKind unit).

Definition logged_connect (log : list (Endpoint * Target)) (e : Endpoint) (t : Target)
    : list (Endpoint * Target) * result ErrorKind R := (log ++ [(e, t)], connect e t).
Definition logged_relay (log : list (Endpoint * Target)) (r : R) (s : S)
    : list (Endpoint * Target) * result ErrorKind unit := (log, relay r s).

(** The handler opens at most one outbound connection, and only after the
    policy has routed the target the client asked for: to that target and
    through the endpoint the policy chose. A rejected or malformed request
    opens none. *)
Theorem http_policy_enforced runtime client log next :
  let st := (handle logged_connect remote_write_all logged_relay set_timeouts version
               runtime client log next).1 in
  h_world st = log
  ∨ ∃ client1 client2 target rest endpoint,
      set_timeouts client true = (client1, Ok tt)
      ∧ read_request client1 = (client2, Ok (target, rest))
      ∧ (plan_action runtime next target Tcp).2 = Route endpoint
      ∧ h_world st = log ++ [(endpoint, target)].
Proof.
  cbn zeta. unfold handle. destruct (set_timeouts client true) as [c1 [[]|e|]] eqn:Et; [|by left..].
  destruct (read_request c1) as [c2 [[target rest]|e|]] eqn:Er.
  2: { destruct (conn_write_all c2 RESPONSE_400). by left. } 2: by left.
  destruct (plan_action runtime next target Tcp) as [next' [endpoint|reason]] eqn:Ep.
  2: { destruct (conn_write_all c2 RESPONSE_403). by left. }
  right. exists c1, c2, target, rest, endpoint. split_and!; [done|done|by rewrite Ep|].
  unfold logged_connect. destruct (connect endpoint target) as [remote|e|].
  2: by destruct (conn_write_all c2 RESPONSE_502). 2: done.
  destruct (conn_write_all c2 _) as [c3 [u|e|]]; [|done..].
  destruct (if negb _ then _ else _) as [remote' [u2|e|]]; [|done..].
  by destruct (set_timeouts c3 false) as [c4 [u3|e|]].
Qed.
End policy.

(** A request whose early tunnel bytes arrive with the headers. *)
Definition sample_request : list bytes :=
  [ #"CONNECT A.example:443 HTT"; #"P/1.1" ++ [x0d; x0a; x0d]; [x0a; x16; x03] ].

Lemma read_request_sample :
  (read_request {| sc_in := sample_request; sc_sent := [] |}).2
  = Ok ({| host := Domain (#"a.example"); port := 443 |}, [x16; x03]).
Proof. vm_compute. reflexivity. Qed.

Lemma http_read_request_exact_witness :
  let s := {| sc_in := sample_request; sc_sent := [] |} in
  ∃ e, find_header_end (incoming s) = Some e
    ∧ incoming s = take e (incoming s) ++ HEADER_END ++ [x16; x03] ++ incoming (read_request s).1.
Proof.
  cbn zeta. pose proof (http_read_request_exact {| sc_in := sample_request; sc_sent := [] |}) as H.
  pose proof read_request_sample as Hr. destruct (read_request _) as [s' r]. cbn [snd fst] in *. subst r.
  destruct H as (_ & _ & H). destruct (H _ _ eq_refl) as (e & H1 & _ & _ & H2 & _). exists e. split; [exact H1|exact H2].
Defined.
