(* ===== verification/Protocol.v ===== *)
(** * Outbound handshakes ([daemon/src/protocol.rs])

    The three stream protocols an upstream proxy may speak, each as a
    handshake over an established session. *)

From S2P Require Import Prelude RustStr RustNet Flow Policy Proxy Trojan Conn.

Definition MAX_HTTP_RESPONSE_HEAD : Z := 16 * 1024.

Record ProtocolCapabilities := { stream_connect : bool; requires_tls : bool }.

(** The implementations of [trait OutboundProtocol]. *)
Inductive OutboundProtocol :=
| Socks5Protocol
| HttpConnectProtocol
| TrojanProtocol (verifier : TrojanVerifier).

(** [OutboundProtocol::name] *)
Definition protocol_name (p : OutboundProtocol) : str :=
  match p with
  | Socks5Protocol => #"socks5"
  | HttpConnectProtocol => #"http-connect"
  | TrojanProtocol _ => #"trojan"
  end.

Definition protocol_capabilities (p : OutboundProtocol) : ProtocolCapabilities :=
  match p with
  | Socks5Protocol => {| stream_connect := true; requires_tls := false |}
  | HttpConnectProtocol => {| stream_connect := true; requires_tls := false |}
  | TrojanProtocol _ => {| stream_connect := true; requires_tls := true |}
  end.

Definition encode_socks_address (buffer : bytes) (host : DestinationHost) : result ErrorKind bytes :=
  match host with
  | Ip (V4 address) => Ok (buffer ++ [x01] ++ v4_octets address)
  | Domain domain =>
      if (255 <? Z.of_nat (length domain))%Z then Err EInvalidInput
      else if length domain =? 0 then Err EInvalidInput
      else Ok (buffer ++ [x03] ++ [z2b (Z.of_nat (length domain))] ++ domain)
  | Ip (V6 address) => Ok (buffer ++ [x04] ++ v6_octets address)
  end.

Definition target_authority (t : Target) : str :=
  match host t with
  | Ip (V4 a) => show_ip (V4 a) ++ [x3a] ++ show_dec (port t)
  | Ip (V6 a) => [x5b] ++ show_ip (V6 a) ++ [x5d; x3a] ++ show_dec (port t)
  | Domain domain => domain ++ [x3a] ++ show_dec (port t)
  end.

(** The request [write!] formats. *)
Definition connect_request (t : Target) : bytes :=
  #"CONNECT " ++ target_authority t ++ #" HTTP/1.1" ++ CRLF
  ++ #"Host: " ++ target_authority t ++ CRLF
  ++ #"Proxy-Connection: Keep-Alive" ++ CRLF ++ CRLF.

(** [head.ends_with(CRLF CRLF)] *)
Definition head_complete (head : bytes) : bool :=
  match strip_suffix (CRLF ++ CRLF) head with Some _ => true | None => false end.

(** The status of a response head: [Ok] for 2xx. *)
Definition check_response_head (head : bytes) : result ErrorKind unit :=
  text ← ok_or (from_utf8 head) EInvalidData;
  status_line ← ok_or (hd_error (lines text)) EInvalidData;
  let fields := split_whitespace status_line in
  let version := nth 0 fields [] in
  let status := nth 1 fields [] in
  if negb (starts_with (#"HTTP/1.") version) then Err EInvalidData
  else
    status ← ok_or (parse_u16 status) EInvalidData;
    if negb ((200 <=? status) && (status <? 300))%Z then Err EConnectionRefused else Ok tt.

Section handshake.
  Context {S : Type} `{HConn : Conn S}.

Definition discard_socks_address (session : S) (address_type : byte) : S * result ErrorKind unit :=
  if bool_decide (address_type = x01) then
    let! session _b := conn_read_exact session 4 in (session, Ok tt)
  else if bool_decide (address_type = x03) then
    let! session len := conn_read_exact session 1 in
    let! session _b := conn_read_exact session (Z.to_nat (be_value len)) in (session, Ok tt)
  else if bool_decide (address_type = x04) then
    let! session _b := conn_read_exact session 16 in (session, Ok tt)
  else (session, Err EInvalidData).

Definition socks5_handshake (session : S) (t : Target) : S * result ErrorKind unit :=
  let! session _w := conn_write_all session [x05; x01; x00] in
  let! session _f := conn_flush session in
  let! session method := conn_read_exact session 2 in
  if negb (bool_decide (method = [x05; x00])) then (session, Err EPermissionDenied)
  else
    let! session request := lift_ session (encode_socks_address [x05; x01; x00] (host t)) in
    let! session _w := conn_write_all session (request ++ u16_be (port t)) in
    let! session _f := conn_flush session in
    let! session reply := conn_read_exact session 4 in
    match reply with
    | [r0; r1; r2; r3] =>
        if negb (bool_decide (r0 = x05)) || negb (bool_decide (r2 = x00)) then (session, Err EInvalidData)
        else if negb (bool_decide (r1 = x00)) then (session, Err EConnectionRefused)
        else
          let! session _d := discard_socks_address session r3 in
          let! session _p := conn_read_exact session 2 in
          (session, Ok tt)
    | _ => (session, Panic)
    end.

(** The head is read one byte at a time; [fuel] passes cover the limit. *)
Fixpoint read_head_loop (fuel : nat) (session : S) (head : bytes) : S * result ErrorKind bytes :=
  match fuel with
  | O => (session, Panic)
  | Datatypes.S fuel' =>
      if head_complete head then (session, Ok head)
      else if (MAX_HTTP_RESPONSE_HEAD <=? Z.of_nat (length head))%Z then (session, Err EInvalidData)
      else
        let! session b := conn_read_exact session 1 in
        read_head_loop fuel' session (head ++ b)
  end.
Definition HEAD_FUEL : nat := Datatypes.S (Z.to_nat MAX_HTTP_RESPONSE_HEAD).
Definition read_http_response_head (session : S) : S * result ErrorKind bytes :=
  read_head_loop HEAD_FUEL session [].

Definition http_handshake (session : S) (t : Target) : S * result ErrorKind unit :=
  let! session _w := conn_write_all session (connect_request t) in
  let! session _f := conn_flush session in
  let! session head := read_http_response_head session in
  (session, check_response_head head).

Definition trojan_handshake (verifier : TrojanVerifier) (session : S) (t : Target) : S * result ErrorKind unit :=
  let! session request := lift_ session (encode_connect_request verifier t) in
  let! session _w := conn_write_all session request in
  conn_flush session.

Definition handshake_stream (p : OutboundProtocol) (session : S) (t : Target) : S * result ErrorKind unit :=
  match p with
  | Socks5Protocol => socks5_handshake session t
  | HttpConnectProtocol => http_handshake session t
  | TrojanProtocol verifier => trojan_handshake verifier session t
  end.

  Context `{HLaws : !ConnLaws S}.

(** ** What a handshake leaves for the tunnel *)
Lemma flush_ok s s' u : conn_flush s = (s', Ok u) → sent s' = sent s ∧ incoming s' = incoming s.
Proof. intros E. pose proof (flush_keeps s) as H. by rewrite E in H. Qed.

Lemma write_ok s b s' u : conn_write_all s b = (s', Ok u) → sent s' = sent s ++ b ∧ incoming s' = incoming s.
Proof. destruct u. apply write_all_ok. Qed.

(** A head read byte by byte is the shortest complete one. *)
Definition shortest_head (head : bytes) : Prop :=
  head_complete head = true ∧ ∀ k, k < length head → head_complete (take k head) = false.

Lemma read_head_loop_ok fuel s head s' r :
  read_head_loop fuel s head = (s', Ok r) →
  (∀ k, k < length head → head_complete (take k head) = false) →
  sent s' = sent s ∧ head ++ incoming s = r ++ incoming s' ∧ shortest_head r.
Proof.
  revert s head; induction fuel as [|fuel IH]; intros s head E Hpre; [done|]. cbn [read_head_loop] in E.
  destruct (head_complete head) eqn:Ec; [by simplify_eq|].
  destruct (_ <=? _)%Z; [done|]. apply seq_ok_inv in E as (s1 & b & Er & E).
  apply read_exact_ok in Er as (Hl & Hin & Hs). apply IH in E as (I1 & I2 & I3).
  - split_and!; [congruence| |done]. rewrite Hin, <- I2. by rewrite app_assoc.
  - intros k. rewrite length_app, Hl. intros Hk. destruct (decide (k < length head)) as [Hlt|Hge].
    + rewrite take_app_le by lia. by apply Hpre.
    + assert (k = length head) as -> by lia. by rewrite take_app_length.
Qed.

Lemma read_head_loop_returns fuel s head :
  (Z.of_nat (length head) ≤ MAX_HTTP_RESPONSE_HEAD)%Z →
  (MAX_HTTP_RESPONSE_HEAD - Z.of_nat (length head) < Z.of_nat fuel)%Z → (read_head_loop fuel s head).2 ≠ Panic.
Proof.
  revert s head; induction fuel as [|fuel IH]; intros s head Hb Hf; cbn [read_head_loop]; [lia|].
  destruct (head_complete head); [done|]. destruct (_ <=? _)%Z eqn:El; [done|]. bool_to_prop.
  apply seq_no_panic; [apply read_exact_returns|]. intros s1 b Er.
  apply read_exact_ok in Er as (Hl & _ & _). apply IH; rewrite length_app; lia.
Qed.

(** The bound address of a SOCKS5 reply. *)
Definition bound_address (ty : byte) (addr : bytes) : Prop :=
  (ty = x01 ∧ length addr = 4) ∨ (ty = x04 ∧ length addr = 16)
  ∨ (ty = x03 ∧ ∃ n name, addr = n :: name ∧ length name = Z.to_nat (b2z n)).

Lemma discard_socks_address_ok s ty s' u :
  discard_socks_address s ty = (s', Ok u) →
  sent s' = sent s ∧ ∃ addr, incoming s = addr ++ incoming s' ∧ bound_address ty addr.
Proof.
  unfold discard_socks_address. intros E. unfold bound_address.
  case_bool_decide; [|case_bool_decide; [|case_bool_decide; [|done]]].
  - apply seq_ok_inv in E as (s1 & b & Er & [= <- _]). apply read_exact_ok in Er as (Hl & Hin & Hs). eauto 10.
  - apply seq_ok_inv in E as (s1 & b & Er & E). apply seq_ok_inv in E as (s2 & c & Er2 & [= <- _]).
    apply read_exact_ok in Er as (Hl & Hin & Hs). apply read_exact_ok in Er2 as (Hl2 & Hin2 & Hs2).
    split; [congruence|]. destruct b as [|n [|]]; try done. exists (n :: c). split; [by rewrite Hin, Hin2|].
    right; right. split; [done|]. exists n, c. split; [done|]. rewrite Hl2. cbn. by rewrite Z.add_0_l.
  - apply seq_ok_inv in E as (s1 & b & Er & [= <- _]). apply read_exact_ok in Er as (Hl & Hin & Hs). eauto 10.
Qed.

Lemma discard_socks_address_returns s ty : (discard_socks_address s ty).2 ≠ Panic.
Proof.
  unfold discard_socks_address. repeat case_bool_decide; try done;
    repeat (apply seq_no_panic; [apply read_exact_returns|intros]); done.
Qed.

(** What each protocol writes and reads. *)
Definition handshake_bytes (p : OutboundProtocol) (t : Target) (written read : bytes) : Prop :=
  match p with
  | Socks5Protocol =>
      (∃ addr, encode_socks_address [] (host t) = Ok addr
         ∧ written = [x05; x01; x00] ++ ([x05; x01; x00] ++ addr) ++ u16_be (port t))
      ∧ ∃ ty addr pt, read = [x05; x00] ++ [x05; x00; x00; ty] ++ addr ++ pt
         ∧ bound_address ty addr ∧ length pt = 2
  | HttpConnectProtocol =>
      written = connect_request t ∧ shortest_head read ∧ check_response_head read = Ok tt
  | TrojanProtocol verifier =>
      encode_connect_request verifier t = Ok written ∧ read = []
  end.

Lemma encode_socks_address_prefix pre h out :
  encode_socks_address pre h = Ok out → ∃ addr, encode_socks_address [] h = Ok addr ∧ out = pre ++ addr.
Proof.
  unfold encode_socks_address. repeat case_match; intros E; simplify_eq; eauto.
Qed.

Lemma socks5_handshake_ok s t s' u :
  socks5_handshake s t = (s', Ok u) →
  ∃ written read, sent s' = sent s ++ written ∧ incoming s = read ++ incoming s'
    ∧ handshake_bytes Socks5Protocol t written read.
Proof.
  unfold socks5_handshake. intros E.
  apply seq_ok_inv in E as (s1 & u1 & E1 & E). apply write_ok in E1 as [S1 I1].
  apply seq_ok_inv in E as (s2 & u2 & E2 & E). apply flush_ok in E2 as [S2 I2].
  apply seq_ok_inv in E as (s3 & method & E3 & E). apply read_exact_ok in E3 as (_ & I3 & S3).
  destruct (negb _) eqn:Em; [done|]. bool_to_prop. subst method.
  apply seq_ok_inv in E as (s4 & request & E4 & E). injection E4 as <- E4.
  apply seq_ok_inv in E as (s5 & u5 & E5 & E). apply write_ok in E5 as [S5 I5].
  apply seq_ok_inv in E as (s6 & u6 & E6 & E). apply flush_ok in E6 as [S6 I6].
  apply seq_ok_inv in E as (s7 & reply & E7 & E). apply read_exact_ok in E7 as (_ & I7 & S7).
  destruct reply as [|r0 [|r1 [|r2 [|r3 [|]]]]]; try done.
  destruct (_ || _) eqn:Eb; [done|]. bool_to_prop. subst r0 r2.
  destruct (negb _) eqn:Er; [done|]. bool_to_prop. subst r1.
  apply seq_ok_inv in E as (s8 & u8 & E8 & E). apply discard_socks_address_ok in E8 as (S8 & addr & I8 & Hb).
  apply seq_ok_inv in E as (s9 & pt & E9 & [= <- _]). apply read_exact_ok in E9 as (L9 & I9 & S9).
  apply encode_socks_address_prefix in E4 as (a & Ha & ->).
  exists ([x05; x01; x00] ++ ([x05; x01; x00] ++ a) ++ u16_be (port t)),
    ([x05; x00] ++ [x05; x00; x00; r3] ++ addr ++ pt).
  split_and!.
  - rewrite S9, S8, S7, S6, S5, S3, S2, S1. by rewrite <- !app_assoc.
  - rewrite <- I1, <- I2, I3, <- I5, <- I6, I7, I8, I9. by rewrite <- !app_assoc.
  - split; [eauto|]. exists r3, addr, pt. eauto.
Qed.

Lemma http_handshake_ok s t s' u :
  http_handshake s t = (s', Ok u) →
  ∃ written read, sent s' = sent s ++ written ∧ incoming s = read ++ incoming s'
    ∧ handshake_bytes HttpConnectProtocol t written read.
Proof.
  unfold http_handshake. intros E.
  apply seq_ok_inv in E as (s1 & u1 & E1 & E). apply write_ok in E1 as [S1 I1].
  apply seq_ok_inv in E as (s2 & u2 & E2 & E). apply flush_ok in E2 as [S2 I2].
  apply seq_ok_inv in E as (s3 & head & E3 & E). injection E as <- Hc. destruct u.
  apply read_head_loop_ok in E3 as (S3 & I3 & Hs); [|cbn; lia]. cbn [app] in I3.
  exists (connect_request t), head. split_and!; [congruence|congruence|]. done.
Qed.

Lemma trojan_handshake_ok v s t s' u :
  trojan_handshake v s t = (s', Ok u) →
  ∃ written read, sent s' = sent s ++ written ∧ incoming s = read ++ incoming s'
    ∧ handshake_bytes (TrojanProtocol v) t written read.
Proof.
  unfold trojan_handshake. intros E.
  apply seq_ok_inv in E as (s1 & request & E1 & E). injection E1 as <- E1.
  apply seq_ok_inv in E as (s2 & u2 & E2 & E). apply write_ok in E2 as [S2 I2].
  apply flush_ok in E as [S3 I3]. exists request, []. split_and!; [congruence|cbn; congruence|]. done.
Qed.

Lemma handshake_stream_returns p s t : (handshake_stream p s t).2 ≠ Panic.
Proof.
  assert (∀ b h, encode_socks_address b h ≠ Panic) as Hes.
  { intros b h. unfold encode_socks_address. by repeat case_match. }
  destruct p as [| |v]; cbn [handshake_stream]; unfold socks5_handshake, http_handshake, trojan_handshake.
  - apply seq_no_panic; [apply write_all_returns|intros s1 ? _]. apply seq_no_panic; [apply flush_returns|intros s2 ? _].
    apply seq_no_panic; [apply read_exact_returns|intros s3 ? _]. case_match; [done|].
    apply seq_no_panic; [apply Hes|intros s4 ? _]. apply seq_no_panic; [apply write_all_returns|intros s5 ? _].
    apply seq_no_panic; [apply flush_returns|intros s6 ? _]. apply seq_no_panic; [apply read_exact_returns|].
    intros s7 reply (Hl & _ & _)%read_exact_ok. destruct reply as [|r0 [|r1 [|r2 [|r3 [|]]]]]; try done.
    case_match; [done|]. case_match; [done|].
    apply seq_no_panic; [apply discard_socks_address_returns|intros s8 ? _].
    apply seq_no_panic; [apply read_exact_returns|done].
  - apply seq_no_panic; [apply write_all_returns|intros s1 ? _]. apply seq_no_panic; [apply flush_returns|intros s2 ? _].
    apply seq_no_panic.
    + apply read_head_loop_returns; [done|unfold HEAD_FUEL; cbn [length]; unfold MAX_HTTP_RESPONSE_HEAD; lia].
    + intros s3 head _. change (no_panic (check_response_head head)). unfold check_response_head. np.
  - apply seq_no_panic; [|intros s1 ? _].
    + change (no_panic (encode_connect_request v t)).
      unfold encode_connect_request, encode_target, encode_host. np.
    + apply seq_no_panic; [apply write_all_returns|intros s2 ? _]. apply flush_returns.
Qed.

(** C36. A successful handshake has sent exactly the protocol's request for the
    target and has consumed exactly the proxy's reply, so the tunnel starts at
    the first byte after it: for SOCKS5 the greeting and CONNECT reply with
    its bound address, for HTTP CONNECT the shortest head that ends in a blank
    line and reports a 2xx status, for Trojan nothing at all. No handshake
    panics or loops forever. *)
Theorem handshake_exact p s t :
  (handshake_stream p s t).2 ≠ Panic
  ∧ ∀ s', handshake_stream p s t = (s', Ok tt) →
      ∃ written read, sent s' = sent s ++ written ∧ incoming s = read ++ incoming s'
        ∧ handshake_bytes p t written read.
Proof.
  split; [apply handshake_stream_returns|]. intros s' E. destruct p as [| |v]; cbn [handshake_stream] in E.
  - by eapply socks5_handshake_ok.
  - by eapply http_handshake_ok.
  - by eapply trojan_handshake_ok.
Qed.
End handshake.

(** ** A conforming proxy completes the SOCKS5 handshake *)
Section completes.
  Context {S : Type} `{HConn : Conn S, HLaws : !ConnLaws S, HReliable : !ConnReliable S}.

Lemma write_flush_succeeds (s : S) b :
  ∃ s1 s2, conn_write_all s b = (s1, Ok tt) ∧ conn_flush s1 = (s2, Ok tt)
    ∧ sent s2 = sent s ++ b ∧ incoming s2 = incoming s.
Proof.
  destruct (write_all_succeeds s b) as (s1 & E1). apply write_all_ok in E1 as H1. destruct H1 as [S1 I1].
  destruct (flush_succeeds s1) as (s2 & E2). pose proof (flush_keeps s1) as [S2 I2]. rewrite E2 in S2, I2. cbn [fst] in *.
  exists s1, s2. split_and!; [done|done|congruence|congruence].
Qed.

Lemma discard_socks_address_complete (s : S) ty addr rest :
  bound_address ty addr → incoming s = addr ++ rest →
  ∃ s', discard_socks_address s ty = (s', Ok tt) ∧ incoming s' = rest ∧ sent s' = sent s.
Proof.
  unfold discard_socks_address. intros [[-> Hl]|[[-> Hl]|[-> (n & name & -> & Hl)]]] Hin.
  - destruct (read_exact_prefix s addr rest Hin) as (s1 & E1 & ?). rewrite Hl in E1.
    rewrite bool_decide_true by done. rewrite E1. by exists s1.
  - destruct (read_exact_prefix s addr rest Hin) as (s1 & E1 & ?). rewrite Hl in E1.
    rewrite !bool_decide_false, bool_decide_true by done. rewrite E1. by exists s1.
  - destruct (read_exact_prefix s [n] (name ++ rest) Hin) as (s1 & E1 & I1 & S1). cbn [length] in E1.
    rewrite bool_decide_false, bool_decide_true by done. rewrite E1. cbn [seq_]. change (be_value [n]) with (b2z n).
    destruct (read_exact_prefix s1 name rest I1) as (s2 & E2 & I2 & S2). rewrite Hl in E2. rewrite E2. cbn [seq_].
    exists s2. split_and!; [done|done|congruence].
Qed.

(** [handshake_bytes] is sufficient as well: the outbound gets through. *)
Lemma socks5_handshake_complete (s : S) t written read rest :
  handshake_bytes Socks5Protocol t written read → incoming s = read ++ rest →
  ∃ s', socks5_handshake s t = (s', Ok tt) ∧ sent s' = sent s ++ written ∧ incoming s' = rest.
Proof.
  intros [(a & Ha & ->) (ty & addr & pt & -> & Hb & Hpt)] Hin. unfold socks5_handshake.
  destruct (write_flush_succeeds s [x05; x01; x00]) as (s1 & s2 & E1 & E2 & S2 & I2). rewrite E1. cbn [seq_]. rewrite E2. cbn [seq_].
  destruct (read_exact_prefix s2 [x05; x00] (([x05; x00; x00; ty] ++ addr ++ pt) ++ rest)) as (s3 & E3 & I3 & S3); [by rewrite I2, Hin, <-!app_assoc|].
  cbn [length] in E3. rewrite E3. cbn [seq_]. rewrite bool_decide_true by done. cbn [negb].
  assert (encode_socks_address [x05; x01; x00] (host t) = Ok ([x05; x01; x00] ++ a)) as Hr.
  { revert Ha. unfold encode_socks_address. repeat case_match; intros E; simplify_eq; done. }
  rewrite Hr. unfold lift_. cbn [seq_].
  destruct (write_flush_succeeds s3 (([x05; x01; x00] ++ a) ++ u16_be (port t))) as (s4 & s5 & E4 & E5 & S5 & I5).
  rewrite E4. cbn [seq_]. rewrite E5. cbn [seq_].
  destruct (read_exact_prefix s5 [x05; x00; x00; ty] ((addr ++ pt) ++ rest)) as (s6 & E6 & I6 & S6); [by rewrite I5, I3, <-!app_assoc|].
  cbn [length] in E6. rewrite E6. cbn [seq_]. rewrite !bool_decide_true by done. cbn [negb orb].
  destruct (discard_socks_address_complete s6 ty addr (pt ++ rest) Hb) as (s7 & E7 & I7 & S7); [by rewrite I6, <-app_assoc|].
  rewrite E7. cbn [seq_]. destruct (read_exact_prefix s7 pt rest I7) as (s8 & E8 & I8 & S8). rewrite Hpt in E8. rewrite E8. cbn [seq_].
  exists s8. split_and!; [done| |done]. rewrite S8, S7, S6, S5, S3, S2. by rewrite <-!app_assoc.
Qed.
End completes.

(** A SOCKS5 proxy's two replies followed by tunnel data. *)
Definition socks_reply_conn : script_conn :=
  {| sc_in := [[x05; x00]; [x05; x00; x00; x01; x00; x00; x00]; [x00; x00; x00; x2a]]; sc_sent := [] |}.

Lemma handshake_exact_witness :
  ∃ s', handshake_stream Socks5Protocol socks_reply_conn sample_target = (s', Ok tt)
    ∧ incoming s' = [x2a]
    ∧ ∃ written read, sent s' = sent socks_reply_conn ++ written
        ∧ incoming socks_reply_conn = read ++ incoming s'
        ∧ handshake_bytes Socks5Protocol sample_target written read.
Proof.
  eexists. split; [vm_compute; reflexivity|]. split; [reflexivity|].
  apply (proj2 (handshake_exact Socks5Protocol socks_reply_conn sample_target)). vm_compute. reflexivity.
Defined.

(** A domain that contains a line break puts a second header block into the
    CONNECT request sent upstream. *)
Definition injected_domain : str := #"a.example:80 http/1.1" ++ CRLF ++ #"x-injected: 1" ++ CRLF ++ CRLF ++ #"b".

Lemma connect_request_injection :
  ∃ rest, connect_request {| host := Domain injected_domain; port := 80 |}
    = #"CONNECT a.example:80 http/1.1" ++ CRLF ++ #"x-injected: 1" ++ CRLF ++ CRLF ++ rest.
Proof. eexists. vm_compute. reflexivity. Qed.
