(* ===== verification/HttpInterop.v ===== *)
(** * Both ends of HTTP CONNECT

    The outbound of [daemon/src/protocol.rs] formats a request, the inbound of
    [daemon/src/http_connect.rs] parses it, and its response is read by the
    outbound. The target goes through text: ports, IPv4 and bracketed IPv6
    addresses as the standard library prints them, and names. *)

From S2P Require Import Prelude RustStr RustNet NetText Flow Policy DnsBase DnsWire Proxy Trojan Conn HttpConnect Protocol.

(** ** Text *)

(** Printable ASCII without the space. *)
Definition is_graphic (b : byte) : bool := byte_in 0x21 0x7e b.
Definition graphic (s : str) : Prop := Forall (λ b, is_graphic b = true) s.

(** A name that can stand in an authority: no colon, no opening bracket in
    front, and not the text of an address. *)
Definition plain_name (d : str) : Prop := graphic d ∧ x3a ∉ d ∧ head d ≠ Some x5b ∧ parse_ip d = None.

(** The targets whose text is unambiguous. *)
Definition http_target (t : Target) : Prop :=
  connect_target_ok t ∧ match host t with Domain d => plain_name d | Ip _ => True end.

Lemma graphic_ascii s : graphic s → is_ascii s = true.
Proof.
  intros H. induction H as [|b s Hb _ IH]; [done|]. cbn [is_ascii forallb]. apply andb_true_iff.
  split; [revert Hb; by destruct b|exact IH].
Qed.

Lemma graphic_not b c : is_graphic c = false → is_graphic b = true → b ≠ c.
Proof. congruence. Qed.
Lemma graphic_no c s : is_graphic c = false → graphic s → c ∉ s.
Proof. intros Hc Hs Hin. unfold graphic in Hs. rewrite Forall_forall in Hs. specialize (Hs c Hin). cbn in Hs. congruence. Qed.

Lemma chars_ascii s : is_ascii s = true → chars s = (λ b, [b]) <$> s.
Proof.
  unfold chars. induction s as [|b s IH]; [done|]. cbn [is_ascii forallb length chars_go].
  intros [Hb Hs]%andb_true_iff. assert (utf8_head (b :: s) = Some 1) as -> by (unfold utf8_head; by rewrite Hb).
  change (take (default 1 (Some 1)) (b :: s)) with (b :: take 0 s).
  change (drop (default 1 (Some 1)) (b :: s)) with (drop 0 s). rewrite drop_0, IH by done. done.
Qed.

(** A word is collected up to the next blank. *)
Lemma group_words_word w cs cur :
  graphic w → group_words (((λ b, [b]) <$> w) ++ cs) cur = group_words cs (cur ++ w).
Proof.
  intros Hw. revert cur. induction Hw as [|b w Hb _ IH]; intros cur; [by rewrite app_nil_r|].
  rewrite fmap_cons. cbn [app group_words]. assert (is_whitespace [b] = false) as -> by (revert Hb; by destruct b).
  rewrite IH. by rewrite <- app_assoc.
Qed.

Lemma split_whitespace_three a b c :
  graphic a → graphic b → graphic c → a ≠ [] → b ≠ [] → c ≠ [] →
  split_whitespace (a ++ x20 :: b ++ x20 :: c) = [a; b; c].
Proof.
  intros Ha Hb Hc Na Nb Nc. unfold split_whitespace. rewrite chars_ascii.
  2: { pose proof (graphic_ascii a Ha). pose proof (graphic_ascii b Hb). pose proof (graphic_ascii c Hc).
       unfold is_ascii in *. rewrite forallb_app. cbn [forallb]. rewrite forallb_app. cbn [forallb].
       rewrite !andb_true_iff. split_and!; done. }
  rewrite fmap_app, fmap_cons, fmap_app, fmap_cons, group_words_word by done. cbn [app group_words].
  change (is_whitespace [x20]) with true. cbn match. rewrite group_words_word by done. cbn [app group_words].
  change (is_whitespace [x20]) with true. cbn match. rewrite <- (app_nil_r ((λ b, [b]) <$> c)), group_words_word by done.
  cbn [app group_words]. rewrite !filter_cons_True by done. done.
Qed.

(** ** Searching *)
Lemma find_window_skip c p l s :
  c ∉ l → find_window (c :: p) (l ++ s) = (λ n, length l + n) <$> find_window (c :: p) s.
Proof.
  induction l as [|b l IH]; intros Hl; [cbn [app length]; by destruct (find_window _ s)|].
  apply not_elem_of_cons in Hl as [Hb Hl]. cbn [app find_window]. unfold starts_with at 1. cbn [strip_prefix].
  rewrite bool_decide_false by done. rewrite IH by done. by destruct (find_window (c :: p) s).
Qed.

Lemma find_header_line l b s :
  x0d ∉ l → b ≠ x0d →
  find_header_end (l ++ CRLF ++ b :: s) = (λ n, length l + 2 + n) <$> find_header_end (b :: s).
Proof.
  intros Hl Hb. unfold find_header_end, HEADER_END. rewrite find_window_skip by done.
  assert (find_window [x0d; x0a; x0d; x0a] (CRLF ++ b :: s) = (λ n, 2 + n) <$> find_window [x0d; x0a; x0d; x0a] (b :: s)) as ->.
  { remember (b :: s) as t. assert (starts_with [x0d; x0a] t = false) as Ht.
    { subst t. unfold starts_with. cbn. by rewrite bool_decide_false. }
    change (find_window [x0d; x0a; x0d; x0a] (CRLF ++ t))
      with (if starts_with [x0d; x0a] t then Some 0
            else match match find_window [x0d; x0a; x0d; x0a] t with Some n => Some (S n) | None => None end with
                 | Some n => Some (S n) | None => None end).
    rewrite Ht. by destruct (find_window _ t). }
  destruct (find_window _ (b :: s)) as [n|]; [|done]. cbn. f_equal. lia.
Qed.

(** The first of two line ends in a row ends the head. *)
Lemma find_header_last l s : x0d ∉ l → find_header_end (l ++ CRLF ++ CRLF ++ s) = Some (length l).
Proof.
  intros Hl. unfold find_header_end, HEADER_END. rewrite find_window_skip by done.
  assert (find_window [x0d; x0a; x0d; x0a] (CRLF ++ CRLF ++ s) = Some 0) as -> by (by destruct s).
  cbn. by rewrite Nat.add_0_r.
Qed.

Lemma request_line_first l s : x0d ∉ l → request_line (l ++ CRLF ++ s) = l.
Proof.
  intros Hl. unfold request_line. rewrite find_window_skip by done. cbn [CRLF app find_window].
  change (starts_with [x0d; x0a] (x0d :: x0a :: s)) with true. cbn. rewrite Nat.add_0_r. apply take_app_length.
Qed.

(** ** The authority *)
Lemma parse_port_show p : is_u16 p → p ≠ 0%Z → parse_port (show_dec p) = Ok p.
Proof.
  unfold is_u16. intros Hp H0. unfold parse_port, parse_u16. rewrite parse_uint_show by lia.
  by rewrite (proj2 (Z.eqb_neq p 0)).
Qed.

Lemma digits_no c p : is_u16 p → is_digit 10 c = false → c ∉ show_dec p.
Proof.
  intros Hp Hc Hin. pose proof (show_dec_chars p Hp) as H. rewrite Forall_forall in H. specialize (H c Hin). cbn in H. congruence.
Qed.

Lemma rsplit_once_last c h q : c ∉ q → rsplit_once c (h ++ c :: q) = Some (h, q).
Proof.
  intros Hq. unfold rsplit_once. rewrite reverse_app, reverse_cons, <- app_assoc. cbn [app].
  assert (∀ l r, c ∉ l → split_once c (l ++ c :: r) = Some (l, r)) as H.
  { clear. intros l r. induction l as [|b l IH]; intros Hl; cbn; [by rewrite bool_decide_true|].
    apply not_elem_of_cons in Hl as [Hb Hl]. rewrite bool_decide_false by done. by rewrite IH. }
  rewrite H by (by rewrite elem_of_reverse). cbn. by rewrite !reverse_involutive.
Qed.

Lemma contains_byte_no c s : c ∉ s → contains_byte c s = false.
Proof. intros H. unfold contains_byte. by rewrite (proj2 (find_byte_None c s) H). Qed.

Lemma chars_graphic s : Forall is_addr_char s → graphic s.
Proof. intros H. eapply Forall_impl; [exact H|]. intros b. unfold is_addr_char. by destruct b. Qed.
Lemma v4_chars_addr s : Forall is_v4_char s → Forall is_addr_char s.
Proof. intros H. eapply Forall_impl; [exact H|]. apply v4_char_addr. Qed.
Lemma digits_graphic p : is_u16 p → graphic (show_dec p).
Proof. intros Hp. eapply Forall_impl; [by apply show_dec_chars|]. intros b. cbn. by destruct b. Qed.

Lemma target_authority_graphic t : http_target t → graphic (target_authority t) ∧ target_authority t ≠ [].
Proof.
  intros [(Hp & _ & Hh) Hn]. pose proof (digits_graphic _ Hp) as Hd. unfold target_authority.
  destruct (host t) as [d|[a|a]]; split; try (by destruct d || by destruct (show_ipv4 a)); unfold graphic in *; rewrite ?Forall_app.
  - split_and!; [by destruct Hn|by repeat constructor|done].
  - split_and!; [apply chars_graphic, v4_chars_addr, show_ipv4_chars|by repeat constructor|done].
  - by destruct (show_ip (V4 a)).
  - split_and!; [by repeat constructor|apply chars_graphic, show_ipv6_chars|by repeat constructor|done].
Qed.

Lemma find_byte_first c l s : c ∉ l → find_byte c (l ++ c :: s) = Some (length l).
Proof.
  induction l as [|b l IH]; intros Hl; cbn; [by rewrite bool_decide_true|].
  apply not_elem_of_cons in Hl as [Hb Hl]. rewrite bool_decide_false by done. by rewrite IH.
Qed.

Lemma not_in_chars (P : byte → Prop) c s : Forall P s → ¬ P c → c ∉ s.
Proof. intros H Hc Hin. rewrite Forall_forall in H. auto. Qed.

(** What follows the host of an authority without brackets. *)
Lemma parse_authority_plain h dest p :
  is_u16 p → p ≠ 0%Z → h ≠ [] → x3a ∉ h → head h ≠ Some x5b →
  match parse_ip h with
  | Some address => Ok (Ip address)
  | None =>
      let domain := to_ascii_lowercase (trim_end_matches x2e h) in
      if (length domain =? 0) || (253 <? length domain) then Err EInvalidData else Ok (Domain domain)
  end = Ok dest →
  parse_authority (h ++ [x3a] ++ show_dec p) = Ok {| host := dest; port := p |}.
Proof.
  intros Hp H0 Hne Hc Hb Hd. unfold parse_authority.
  assert (strip_prefix [x5b] (h ++ [x3a] ++ show_dec p) = None) as ->.
  { destruct h as [|b h]; [done|]. cbn in *. rewrite bool_decide_false; [done|]. congruence. }
  change ([x3a] ++ show_dec p) with (x3a :: show_dec p). rewrite rsplit_once_last by (by apply digits_no).
  cbn [ok_or mbind result_bind]. rewrite contains_byte_no by done.
  destruct (length h =? 0) eqn:E; [by destruct h|]. cbn [orb]. cbn zeta in Hd. rewrite Hd. cbn [mbind result_bind].
  rewrite parse_port_show by done. cbn [mbind result_bind]. unfold Target_new. by rewrite (proj2 (Z.eqb_neq p 0)).
Qed.

(** The inbound reads the authority the outbound writes. *)
Lemma parse_authority_show t : http_target t → parse_authority (target_authority t) = Ok t.
Proof.
  destruct t as [h p]. intros [(Hp & H0 & Hh) Hn]. unfold target_authority. cbn [host port] in *.
  destruct h as [d|[a|a]].
  - destruct Hn as (_ & Hc & Hb & Hi). destruct Hh as (Hl & Hlow & Hlast).
    apply parse_authority_plain; [done|done|by destruct d; [cbn in Hl; lia|]|done|done|].
    rewrite Hi, trim_end_matches_id, Hlow by done. cbn zeta.
    rewrite (proj2 (Nat.eqb_neq _ _)), (proj2 (Nat.ltb_ge _ _)) by lia. done.
  - pose proof (show_ipv4_chars a) as Hc.
    apply parse_authority_plain; [done|done| | | |by rewrite parse_ip_show].
    + intros E. pose proof (parse_ip_show (V4 a) Hh) as Hs. by rewrite E in Hs.
    + eapply not_in_chars; [exact Hc|]. intros [?|?]; done.
    + cbn [show_ip]. destruct Hc as [|b l [Hb| ->] _]; [done| |done]. cbn. intros [= ->]. done.
  - pose proof (show_ipv6_chars a) as Hc. unfold parse_authority. cbn [app strip_prefix show_ip].
    rewrite bool_decide_true by done. cbn [strip_prefix].
    rewrite find_byte_first by (eapply not_in_chars; [exact Hc|done]). cbn [ok_or mbind result_bind].
    rewrite take_app_length, drop_app_add. cbn [drop strip_prefix]. rewrite bool_decide_true by done. cbn [ok_or mbind result_bind strip_prefix].
    rewrite contains_byte_no by (by apply digits_no). pose proof (parse_ip_show (V6 a) Hh) as Hi. cbn [show_ip] in Hi. rewrite Hi. cbn [ok_or mbind result_bind ip_is_ipv6 negb].
    rewrite parse_port_show by done. cbn [mbind result_bind]. unfold Target_new. by rewrite (proj2 (Z.eqb_neq p 0)).
Qed.

(** ** The request *)
Definition request_head (t : Target) : bytes :=
  (#"CONNECT" ++ x20 :: target_authority t ++ x20 :: #"HTTP/1.1") ++ CRLF
  ++ (#"Host: " ++ target_authority t) ++ CRLF ++ #"Proxy-Connection: Keep-Alive".

Lemma connect_request_head t : connect_request t = request_head t ++ CRLF ++ CRLF.
Proof.
  unfold connect_request, request_head. change (#"CONNECT ") with (#"CONNECT" ++ [x20]).
  change (#" HTTP/1.1") with ([x20] ++ #"HTTP/1.1").
  change (x20 :: target_authority t ++ x20 :: #"HTTP/1.1") with ([x20] ++ target_authority t ++ [x20] ++ #"HTTP/1.1").
  by rewrite <- !app_assoc.
Qed.

Lemma graphic_constant : graphic (#"CONNECT") ∧ graphic (#"HTTP/1.1").
Proof. split; by repeat constructor. Qed.

Lemma request_lines t :
  http_target t →
  x0d ∉ #"CONNECT" ++ x20 :: target_authority t ++ x20 :: #"HTTP/1.1" ∧ x0d ∉ #"Host: " ++ target_authority t.
Proof.
  intros Ht. destruct (target_authority_graphic t Ht) as [Hg _]. pose proof (graphic_no x0d _ eq_refl Hg) as Hc.
  rewrite !not_elem_of_app, not_elem_of_cons, not_elem_of_app, not_elem_of_cons.
  split_and!; try done; by apply (bool_decide_unpack _).
Qed.

Lemma find_header_request t rest :
  http_target t → find_header_end (connect_request t ++ rest) = Some (length (request_head t)).
Proof.
  intros Ht. destruct (request_lines t Ht) as [H1 H2]. rewrite connect_request_head. unfold request_head.
  set (l1 := #"CONNECT" ++ _) in *. set (l2 := #"Host: " ++ _) in *. rewrite <- !app_assoc.
  change (l2 ++ CRLF ++ #"Proxy-Connection: Keep-Alive" ++ CRLF ++ CRLF ++ rest)
    with (x48 :: drop 1 l2 ++ CRLF ++ #"Proxy-Connection: Keep-Alive" ++ CRLF ++ CRLF ++ rest).
  rewrite find_header_line by done.
  change (x48 :: drop 1 l2 ++ CRLF ++ #"Proxy-Connection: Keep-Alive" ++ CRLF ++ CRLF ++ rest)
    with (l2 ++ CRLF ++ x50 :: #"roxy-Connection: Keep-Alive" ++ CRLF ++ CRLF ++ rest).
  rewrite find_header_line by done.
  change (x50 :: #"roxy-Connection: Keep-Alive" ++ CRLF ++ CRLF ++ rest)
    with (#"Proxy-Connection: Keep-Alive" ++ CRLF ++ CRLF ++ rest).
  rewrite find_header_last by (by apply (bool_decide_unpack _)). cbn [fmap option_fmap option_map].
  f_equal. rewrite !length_app. cbn. lia.
Qed.

Lemma is_ascii_app s u : is_ascii s = true → is_ascii u = true → is_ascii (s ++ u) = true.
Proof. unfold is_ascii. intros. rewrite forallb_app. by apply andb_true_iff. Qed.

Lemma parse_header_request t : http_target t → parse_header (request_head t) = Ok t.
Proof.
  intros Ht. destruct (target_authority_graphic t Ht) as [Hg Hne]. pose proof (graphic_ascii _ Hg) as Ha.
  destruct graphic_constant as [G1 G2].
  assert (is_ascii (request_head t) = true) as Hasc.
  { unfold request_head. change (x20 :: target_authority t ++ x20 :: #"HTTP/1.1")
      with ([x20] ++ target_authority t ++ x20 :: #"HTTP/1.1"). repeat (apply is_ascii_app; try done). }
  unfold parse_header. rewrite from_utf8_ascii by done. cbn [ok_or mbind result_bind].
  unfold request_head. rewrite request_line_first by (by apply request_lines).
  rewrite split_whitespace_three by done. rewrite bool_decide_true by done.
  change (starts_with (#"HTTP/1.") (#"HTTP/1.1")) with true. cbn [negb orb]. by apply parse_authority_show.
Qed.

(** ** Reading it *)
Lemma find_window_first p a r : ∃ n, find_window p (a ++ p ++ r) = Some n ∧ n ≤ length a.
Proof.
  induction a as [|b a (n & E & Hn)].
  - exists 0. split; [|cbn; lia]. cbn [app]. assert (starts_with p (p ++ r) = true) as Hp.
    { unfold starts_with. by rewrite (proj2 (strip_prefix_Some p (p ++ r) r)). }
    destruct (p ++ r); cbn [find_window]; by rewrite Hp.
  - cbn [app find_window]. destruct (starts_with p (b :: a ++ p ++ r)); [exists 0; cbn; split; [done|lia]|].
    rewrite E. exists (S n). cbn. split; [done|lia].
Qed.

Lemma find_header_early buffer rest e :
  find_header_end (buffer ++ rest) = Some e → e + 4 ≤ length buffer → find_header_end buffer = Some e.
Proof.
  intros E Hl. unfold find_header_end in *. pose proof (find_window_Some _ _ _ E) as Hs.
  change (length HEADER_END) with 4 in Hs. rewrite take_app_le in Hs by lia. rewrite drop_app_le in Hs by lia.
  assert (buffer = take e buffer ++ HEADER_END ++ drop (e + 4) buffer) as Hb.
  { rewrite (app_assoc HEADER_END), (app_assoc (take e buffer)) in Hs. by apply app_inv_tail in Hs. }
  destruct (find_window_first HEADER_END (take e buffer) (drop (e + 4) buffer)) as (n & Hn & _). rewrite <- Hb in Hn.
  rewrite Hn. pose proof (find_window_app HEADER_END buffer rest n ltac:(done) Hn) as H2. congruence.
Qed.

Lemma request_head_length t : http_target t → length (request_head t) ≤ 1000.
Proof.
  intros [(_ & _ & Hh) _]. assert (length (target_authority t) ≤ 390) as Hl.
  { unfold target_authority. pose proof (show_radix_length 40 10 (port t)) as Hp. unfold show_dec.
    destruct (host t) as [d|[a|a]]; rewrite !length_app; cbn [length];
      [destruct Hh as [[_ Hd] _]; lia|pose proof (show_ip_length (V4 a)); lia|pose proof (show_ip_length (V6 a)); lia]. }
  unfold request_head. rewrite !length_app. cbn [length]. rewrite !length_app. cbn [length].
  change (length (#"CONNECT")) with 7. change (length (#"HTTP/1.1")) with 8. change (length (#"Host: ")) with 6.
  change (length CRLF) with 2. change (length (#"Proxy-Connection: Keep-Alive")) with 28. lia.
Qed.

(** ** The response *)
Definition response_head (version : str) : bytes :=
  #"HTTP/1.1 200 Connection Established" ++ CRLF ++ #"Proxy-Agent: Commeatus/" ++ version.
Lemma response_200_head version : RESPONSE_200 version = response_head version ++ CRLF ++ CRLF.
Proof. unfold RESPONSE_200, response_head. by rewrite <- !app_assoc. Qed.

Lemma check_response_200 version : graphic version → check_response_head (RESPONSE_200 version) = Ok tt.
Proof.
  intros Hv. unfold check_response_head. rewrite from_utf8_ascii.
  2: { unfold RESPONSE_200. repeat (apply is_ascii_app; try done). by apply graphic_ascii. }
  cbn [ok_or mbind result_bind]. unfold RESPONSE_200, lines.
  set (first := #"HTTP/1.1 200 Connection Established" ++ [x0d]).
  change (#"HTTP/1.1 200 Connection Established" ++ [x0d; x0a] ++ ?s) with (first ++ x0a :: s).
  rewrite split_on_app by (by apply (bool_decide_unpack _)).
  pose proof (split_on_ne_nil x0a (#"Proxy-Agent: Commeatus/" ++ version ++ [x0d; x0a; x0d; x0a])) as Hne.
  destruct (split_on x0a _) as [|l ls]; [done|]. cbn [finish_lines hd_error ok_or mbind result_bind].
  vm_compute. reflexivity.
Qed.

Lemma find_header_response version : graphic version → find_header_end (RESPONSE_200 version) = Some (length (response_head version)).
Proof.
  intros Hv. rewrite response_200_head. unfold response_head. rewrite <- !app_assoc.
  change (#"Proxy-Agent: Commeatus/" ++ ?s) with (x50 :: #"roxy-Agent: Commeatus/" ++ s).
  rewrite find_header_line; [|by apply (bool_decide_unpack _)|done].
  change (x50 :: #"roxy-Agent: Commeatus/" ++ ?s) with (#"Proxy-Agent: Commeatus/" ++ s). rewrite app_assoc.
  pose proof (find_header_last (#"Proxy-Agent: Commeatus/" ++ version) []) as H. rewrite app_nil_r in H. rewrite H.
  - reflexivity.
  - apply not_elem_of_app. split; [by apply (bool_decide_unpack _)|]. by apply graphic_no.
Qed.

(** A head whose blank line is its end is the shortest complete one. *)
Lemma shortest_head_end h : find_header_end (h ++ CRLF ++ CRLF) = Some (length h) → shortest_head (h ++ CRLF ++ CRLF).
Proof.
  intros E. split.
  - unfold head_complete. by rewrite (proj2 (strip_suffix_Some _ _ h)).
  - intros k Hk. unfold head_complete. destruct (strip_suffix _ _) as [r|] eqn:Es; [|done].
    apply strip_suffix_Some in Es. exfalso.
    destruct (find_window_first HEADER_END r (drop k (h ++ CRLF ++ CRLF))) as (n & Hn & Hle).
    change HEADER_END with (CRLF ++ CRLF) in Hn at 2. rewrite app_assoc, <- Es, take_drop in Hn.
    unfold find_header_end in E. rewrite E in Hn. injection Hn as <-.
    apply (f_equal length) in Es. rewrite length_take, !length_app in Es. rewrite !length_app in Hk.
    change (length CRLF) with 2 in *. lia.
Qed.

(** ** The two ends *)
Section ends.
  Context {S : Type} `{HConn : Conn S, HLaws : !ConnLaws S, HRel : !ConnReliable S}.

(** The reader finds a header end that is within its limit. *)
Lemma read_header_complete fuel (stream : S) buffer e :
  (MAX_HEADER_BYTES - Z.of_nat (length buffer) < Z.of_nat fuel)%Z → (Z.of_nat (length buffer) ≤ MAX_HEADER_BYTES)%Z →
  (Z.of_nat (e + 4) ≤ MAX_HEADER_BYTES)%Z → find_header_end (buffer ++ incoming stream) = Some e →
  ∃ stream' buffer', read_header fuel stream buffer = (stream', Ok (buffer', e)).
Proof.
  intros Hf Hb He E. revert stream buffer Hf Hb E. induction fuel as [|fuel IH]; intros stream buffer Hf Hb E; [lia|].
  cbn [read_header]. destruct (find_header_end buffer) as [n|] eqn:En.
  { pose proof (find_window_app HEADER_END buffer (incoming stream) n ltac:(done) En) as H.
    unfold find_header_end in E. rewrite H in E. injection E as ->. eauto. }
  assert (length buffer < e + 4) as Hlt.
  { destruct (decide (e + 4 ≤ length buffer)) as [Hle|]; [|lia]. by rewrite (find_header_early _ _ _ E Hle) in En. }
  rewrite (proj2 (Z.leb_gt _ _)) by lia. set (limit := Z.to_nat _).
  destruct (read_succeeds stream limit) as (s1 & chunk & Er & Hne).
  { unfold limit. lia. } { intros Hi. rewrite Hi, app_nil_r in E. congruence. }
  rewrite Er. cbn [seq_]. apply read_ok in Er as (Hl & Hin & _).
  destruct (length chunk =? 0) eqn:E0; [by destruct chunk|]. bool_to_prop.
  apply IH; [rewrite length_app; lia|rewrite length_app; unfold limit in Hl; lia|]. by rewrite <- app_assoc, <- Hin.
Qed.

Lemma read_request_written (s : S) t rest :
  http_target t → incoming s = connect_request t ++ rest →
  ∃ s' early, read_request s = (s', Ok (t, early)) ∧ early ++ incoming s' = rest ∧ sent s' = sent s.
Proof.
  intros Ht Hin. pose proof (request_head_length t Ht) as Hlen. pose proof (find_header_request t rest Ht) as Ef.
  destruct (read_header_complete HEADER_FUEL s [] (length (request_head t))) as (s1 & buffer & E);
    [unfold HEADER_FUEL; cbn [length]; unfold MAX_HEADER_BYTES; lia|done|unfold MAX_HEADER_BYTES; lia|by rewrite Hin|].
  pose proof (read_header_ok HEADER_FUEL s []) as Hh. rewrite E in Hh.
  destruct Hh as (Hsent & _ & Hh); [unfold HEADER_FUEL; cbn [length]; unfold MAX_HEADER_BYTES; lia|done|].
  destruct (Hh _ _ eq_refl) as (He & Hb & _). cbn [app] in Hb. clear Hh.
  set (e := length (request_head t)) in *.
  pose proof (find_window_Some _ _ _ He) as Hsplit. change (length HEADER_END) with 4 in Hsplit.
  assert (e + 4 ≤ length buffer) as Hle.
  { apply (f_equal length) in Hsplit. rewrite !length_app, length_take, length_drop in Hsplit. change (length HEADER_END) with 4 in Hsplit. lia. }
  rewrite Hin, connect_request_head, <- app_assoc in Hb.
  assert (take e buffer = request_head t) as Hhead.
  { rewrite <- (take_app_le buffer (incoming s1)), <- Hb by lia. apply take_app_length. }
  exists s1, (drop (e + 4) buffer). unfold read_request. rewrite E. cbn [seq_]. unfold slice.
  rewrite (proj2 (slice_get_Some _ _ _ _)) by (split; [lia|reflexivity]).
  rewrite (proj2 (slice_get_Some _ _ _ _)) by (split; [lia|reflexivity]).
  cbn [mbind result_bind]. rewrite Nat.sub_0_r, drop_0, Hhead, parse_header_request by done. cbn [mbind result_bind].
  rewrite (take_ge (drop (e + 4) buffer)) by (rewrite length_drop; lia). split_and!; [done| |done].
  rewrite Hsplit, Hhead, <- !app_assoc in Hb. apply app_inv_head in Hb. change HEADER_END with (CRLF ++ CRLF) in Hb.
  rewrite <- !app_assoc in Hb. by apply app_inv_head, app_inv_head in Hb.
Qed.

(** The outbound's reader takes a whole head off the connection. *)
Lemma read_head_complete fuel (s : S) h k rest :
  shortest_head h → (Z.of_nat (length h) ≤ MAX_HTTP_RESPONSE_HEAD)%Z → k ≤ length h → length h < k + fuel →
  incoming s = drop k h ++ rest →
  ∃ s', read_head_loop fuel s (take k h) = (s', Ok h) ∧ incoming s' = rest ∧ sent s' = sent s.
Proof.
  intros [Hc Hs] Hm. revert s k. induction fuel as [|fuel IH]; intros s k Hk Hf Hin; [lia|]. cbn [read_head_loop].
  destruct (decide (k = length h)) as [->|Hne].
  { rewrite take_ge, Hc by lia. exists s. rewrite drop_ge in Hin by lia. done. }
  rewrite Hs by lia. rewrite (proj2 (Z.leb_gt _ _)) by (rewrite length_take; lia).
  destruct (drop k h) as [|b r] eqn:Ed; [apply (f_equal length) in Ed; rewrite length_drop in Ed; cbn in Ed; lia|].
  destruct (read_exact_prefix s [b] (r ++ rest)) as (s1 & E1 & I1 & S1); [by rewrite Hin|].
  cbn [length] in E1. rewrite E1. cbn [seq_].
  assert (h !! k = Some b) as Hb by (rewrite <- (Nat.add_0_r k), <- lookup_drop, Ed; done).
  rewrite <- (take_S_r h k b) by done. assert (drop (Datatypes.S k) h = r) as Er by (by rewrite <- Nat.add_1_r, <- drop_drop, Ed).
  destruct (IH s1 (Datatypes.S k)) as (s2 & E2 & I2 & S2); [lia|lia|by rewrite Er|]. exists s2. split_and!; [done|done|congruence].
Qed.

Lemma http_handshake_complete (c : S) t version tunnel :
  graphic version → length version ≤ 1000 → incoming c = RESPONSE_200 version ++ tunnel →
  ∃ c', http_handshake c t = (c', Ok tt) ∧ sent c' = sent c ++ connect_request t ∧ incoming c' = tunnel.
Proof.
  intros Hv Hl Hin. unfold http_handshake.
  destruct (write_all_succeeds c (connect_request t)) as (c1 & E1). rewrite E1. cbn [seq_]. apply write_all_ok in E1 as [S1 I1].
  destruct (flush_succeeds c1) as (c2 & E2). pose proof (flush_keeps c1) as [S2 I2]. rewrite E2 in *. cbn [seq_ fst] in *.
  assert (length (RESPONSE_200 version) ≤ 1100) as Hr.
  { rewrite response_200_head. unfold response_head. rewrite !length_app.
    change (length CRLF) with 2. change (length (#"HTTP/1.1 200 Connection Established")) with 35.
    change (length (#"Proxy-Agent: Commeatus/")) with 23. lia. }
  destruct (read_head_complete HEAD_FUEL c2 (RESPONSE_200 version) 0 tunnel) as (c3 & E3 & I3 & S3).
  - rewrite response_200_head. apply shortest_head_end. rewrite <- response_200_head. by apply find_header_response.
  - unfold MAX_HTTP_RESPONSE_HEAD. lia.
  - lia.
  - unfold HEAD_FUEL, MAX_HTTP_RESPONSE_HEAD. lia.
  - by rewrite drop_0, I2, I1.
  - unfold read_http_response_head. rewrite take_0 in E3. rewrite E3. cbn [seq_]. rewrite check_response_200 by done.
    exists c3. split_and!; [done|congruence|done].
Qed.
End ends.

(** C33. The two ends of HTTP CONNECT understand each other. For a target with a
    non-zero port that is an IPv4 or IPv6 address or a normalised name of
    printable characters, the request the outbound formats is read by the
    inbound as exactly that target, however TCP cuts it, and every tunnel byte
    that follows is kept: addresses, with zero groups written [::], brackets
    and embedded IPv4, are parsed back from their text. The inbound's 200
    response completes the outbound's handshake, which has then sent exactly
    the request and leaves the tunnel bytes behind the response unread. *)
Theorem http_interop {S C : Type} `{Conn S, !ConnLaws S, !ConnReliable S, Conn C, !ConnLaws C, !ConnReliable C}
    (s : S) (c : C) t rest version tunnel :
  http_target t → graphic version → length version ≤ 1000 →
  incoming s = connect_request t ++ rest → incoming c = RESPONSE_200 version ++ tunnel →
  (∃ s' early, read_request s = (s', Ok (t, early)) ∧ early ++ incoming s' = rest ∧ sent s' = sent s)
  ∧ ∃ c', http_handshake c t = (c', Ok tt) ∧ sent c' = sent c ++ connect_request t ∧ incoming c' = tunnel.
Proof. intros Ht Hv Hl Hs Hc. split; [by apply read_request_written|by eapply http_handshake_complete]. Qed.

(** An IPv6 target with a run of zero groups, cut inside its address. *)
Definition interop_target : Target := {| host := Ip (V6 0x20010db8000000000000000000000001); port := 8443 |}.
Definition interop_server : script_conn :=
  let r := connect_request interop_target in {| sc_in := [take 13 r; drop 13 r ++ [x16; x03]]; sc_sent := [] |}.
Definition interop_client : script_conn := {| sc_in := [RESPONSE_200 (#"0.1.0") ++ [x16]]; sc_sent := [] |}.

Lemma http_interop_witness :
  target_authority interop_target = #"[2001:db8::1]:8443"
  ∧ ∃ s' early, read_request interop_server = (s', Ok (interop_target, early)) ∧ early ++ incoming s' = [x16; x03].
Proof.
  split; [vm_compute; reflexivity|].
  assert (http_target interop_target) as Ht.
  { split; [|exact I]. split; [split; vm_compute; [intros H; discriminate H|reflexivity]|]. split; [discriminate|].
    split; vm_compute; [intros H; discriminate H|reflexivity]. }
  assert (graphic (#"0.1.0")) as Hv by (repeat constructor).
  destruct (http_interop interop_server interop_client interop_target [x16; x03] (#"0.1.0") [x16] Ht Hv) as [(s' & early & E1 & E2 & _) _].
  - vm_compute. repeat constructor.
  - vm_compute. reflexivity.
  - reflexivity.
  - exists s', early. split; [exact E1|exact E2].
Defined.
