(* ===== verification/Outbound.v ===== *)
(** * The outbound registry ([daemon/src/outbound.rs], transport capabilities
    of [transport/src/lib.rs] and [transport/src/tls.rs])

    Which endpoints exist, what they can carry, and the two factories the
    inbounds use. Dialling a transport, connecting directly and opening a
    datagram provider are parameters. *)

From S2P Require Import Prelude RustStr RustNet Flow Policy Proxy Trojan Conn Protocol.

Record TransportCapabilities := { reliable_stream : bool; datagram : bool; encrypted : bool }.

Record TcpTransport := {
  tcp_address : SocketAddr;
  tcp_connect_timeout : Z;
  tcp_handshake_timeout : Z;
}.
Definition DEFAULT_CONNECT_TIMEOUT : Z := 10 * 1000000000.
Definition DEFAULT_HANDSHAKE_TIMEOUT : Z := 10 * 1000000000.
Definition TcpTransport_new (address : SocketAddr) : TcpTransport :=
  {| tcp_address := address; tcp_connect_timeout := DEFAULT_CONNECT_TIMEOUT;
     tcp_handshake_timeout := DEFAULT_HANDSHAKE_TIMEOUT |}.
Definition TcpTransport_with_timeouts (address : SocketAddr) (connect_timeout handshake_timeout : Z)
    : result ErrorKind TcpTransport :=
  if (connect_timeout =? 0)%Z || (handshake_timeout =? 0)%Z then Err EInvalidInput
  else Ok {| tcp_address := address; tcp_connect_timeout := connect_timeout;
             tcp_handshake_timeout := handshake_timeout |}.
Definition tcp_capabilities : TransportCapabilities :=
  {| reliable_stream := true; datagram := false; encrypted := false |}.

(** A TLS transport; [valid_server_name] stands for rustls's
    [ServerName::try_from]. The client configuration is not modelled. *)
Record TlsTransport := {
  tls_address : SocketAddr;
  server_name : str;
  tls_connect_timeout : Z;
  tls_handshake_timeout : Z;
}.
Definition TlsTransport_with_client_config (valid_server_name : str → bool) (address : SocketAddr) (name : str)
    : result ErrorKind TlsTransport :=
  if valid_server_name name
  then Ok {| tls_address := address; server_name := name;
             tls_connect_timeout := DEFAULT_CONNECT_TIMEOUT;
             tls_handshake_timeout := DEFAULT_HANDSHAKE_TIMEOUT |}
  else Err EInvalidInput.
Definition TlsTransport_with_timeouts (valid_server_name : str → bool) (address : SocketAddr) (name : str)
    (connect_timeout handshake_timeout : Z) : result ErrorKind TlsTransport :=
  if (connect_timeout =? 0)%Z || (handshake_timeout =? 0)%Z then Err EInvalidInput
  else
    t ← TlsTransport_with_client_config valid_server_name address name;
    Ok {| tls_address := tls_address t; server_name := server_name t;
          tls_connect_timeout := connect_timeout; tls_handshake_timeout := handshake_timeout |}.
Definition tls_capabilities : TransportCapabilities :=
  {| reliable_stream := true; datagram := false; encrypted := true |}.

Inductive TransportConfig :=
| TcpConfig (t : TcpTransport)
| TlsConfig (t : TlsTransport).

Definition transport_capabilities (c : TransportConfig) : TransportCapabilities :=
  match c with TcpConfig _ => tcp_capabilities | TlsConfig _ => tls_capabilities end.
Definition is_tls (c : TransportConfig) : bool :=
  match c with TcpConfig _ => false | TlsConfig _ => true end.

Record EndpointCapabilities := { cap_tcp : bool; cap_udp : bool; encrypted_transport : bool }.

Section registry.
  (** Datagram providers. *)
  Context {Provider : Type}.

Record ProxyEndpointConfig := {
  ep_id : EndpointId;
  ep_protocol : OutboundProtocol;
  ep_datagram : option Provider;
  ep_transport : TransportConfig;
}.
Record OutboundRegistry := { endpoints : gmap EndpointId ProxyEndpointConfig }.

Fixpoint register_all (l : list ProxyEndpointConfig) (registry : gmap EndpointId ProxyEndpointConfig)
    : result ErrorKind (gmap EndpointId ProxyEndpointConfig) :=
  match l with
  | [] => Ok registry
  | endpoint :: l' =>
      if requires_tls (protocol_capabilities (ep_protocol endpoint)) && negb (is_tls (ep_transport endpoint))
      then Err EInvalidInput
      else if bool_decide (is_Some (registry !! ep_id endpoint)) then Err EInvalidInput
      else register_all l' (<[ep_id endpoint := endpoint]> registry)
  end.
Definition OutboundRegistry_new (l : list ProxyEndpointConfig) : result ErrorKind OutboundRegistry :=
  registry ← register_all l ∅; Ok {| endpoints := registry |}.

Definition registry_len (r : OutboundRegistry) : nat := size (endpoints r).
Definition registry_contains (r : OutboundRegistry) (id : EndpointId) : bool :=
  bool_decide (is_Some (endpoints r !! id)).

Definition capabilities (r : OutboundRegistry) (e : Endpoint) : option EndpointCapabilities :=
  match e with
  | Direct => Some {| cap_tcp := true; cap_udp := true; encrypted_transport := false |}
  | Proxy id =>
      match endpoints r !! id with
      | None => None
      | Some config =>
          let transport := transport_capabilities (ep_transport config) in
          let protocol := protocol_capabilities (ep_protocol config) in
          Some {| cap_tcp := stream_connect protocol && reliable_stream transport;
                  cap_udp := match ep_datagram config with Some _ => true | None => false end;
                  encrypted_transport := encrypted transport |}
      end
  end.
Definition supports (f : EndpointCapabilities → bool) (o : option EndpointCapabilities) : bool :=
  match o with Some c => f c | None => false end.

  Context {W S X : Type} `{HConn : Conn S}.
  Context (connect_direct : W → Target → W * result ErrorKind S).
  Context (transport_connect : W → TransportConfig → W * result ErrorKind S).
  Context (open_direct : W → W * result ErrorKind X).
  Context (open_provider : W → Provider → W * result ErrorKind X).

Definition connect_tcp (r : OutboundRegistry) (w : W) (e : Endpoint) (target : Target)
    : W * result ErrorKind S :=
  if negb (supports cap_tcp (capabilities r e)) then (w, Err EUnsupported)
  else match e with
  | Direct => connect_direct w target
  | Proxy id =>
      match endpoints r !! id with
      | None => (w, Err ENotFound)
      | Some config =>
          match transport_connect w (ep_transport config) with
          | (w, Ok session) =>
              let '(session, h) := handshake_stream (ep_protocol config) session target in
              (w, match h with Ok _ => Ok session | Err error => Err error | Panic => Panic end)
          | (w, error) => (w, error)
          end
      end
  end.

Definition open_datagram (r : OutboundRegistry) (w : W) (e : Endpoint) : W * result ErrorKind X :=
  match e with
  | Direct => open_direct w
  | Proxy id =>
      match endpoints r !! id with
      | None => (w, Err ENotFound)
      | Some config =>
          match ep_datagram config with
          | None => (w, Err EUnsupported)
          | Some provider => open_provider w provider
          end
      end
  end.

(** ** The registry *)

(** Every endpoint of the configuration and no other is registered, and a
    protocol that needs TLS has it. *)
Definition registry_ok (l : list ProxyEndpointConfig) (m : gmap EndpointId ProxyEndpointConfig) : Prop :=
  NoDup (ep_id <$> l)
  ∧ (∀ id c, m !! id = Some c ↔ c ∈ l ∧ ep_id c = id)
  ∧ Forall (λ c, requires_tls (protocol_capabilities (ep_protocol c)) = true → is_tls (ep_transport c) = true) l.

Lemma register_all_ok l done_ m m' :
  registry_ok done_ m → register_all l m = Ok m' → registry_ok (done_ ++ l) m'.
Proof.
  revert done_ m; induction l as [|c l IH]; intros done_ m Hok H; cbn [register_all] in H.
  { injection H as <-. by rewrite app_nil_r. }
  destruct (_ && _) eqn:Et; [done|]. case_bool_decide as Hd; [done|].
  rewrite cons_middle, app_assoc. eapply IH; [|exact H]. destruct Hok as (Hnd & Hm & Hf).
  assert (∀ c', c' ∈ done_ → ep_id c' ≠ ep_id c) as Hfresh.
  { intros c' Hc' E. apply Hd. exists c'. by apply Hm. }
  split_and!.
  - rewrite fmap_app. apply NoDup_app. split_and!; [done| |apply NoDup_singleton].
    intros i (c' & -> & Hc')%list_elem_of_fmap E%list_elem_of_singleton. by apply (Hfresh c').
  - intros id c'. rewrite lookup_insert_Some, Hm, elem_of_app, list_elem_of_singleton. split.
    + intros [[<- <-]|[Hne [Hin E]]]; auto.
    + intros [[Hin| ->] E]; [|by left]. right. split; [|done]. subst id. apply not_eq_sym. by apply Hfresh.
  - apply Forall_app. split; [done|]. apply Forall_singleton. intros Hr. rewrite Hr in Et.
    cbn [andb] in Et. by apply negb_false_iff in Et.
Qed.

Lemma OutboundRegistry_new_no_panic l : no_panic (OutboundRegistry_new l).
Proof.
  unfold OutboundRegistry_new. apply bind_no_panic; [|done]. generalize (∅ : gmap EndpointId ProxyEndpointConfig).
  induction l as [|c l IH]; intros m; cbn [register_all]; [done|]. repeat case_match; try done.
Qed.

Lemma OutboundRegistry_new_ok l r : OutboundRegistry_new l = Ok r → registry_ok l (endpoints r).
Proof.
  unfold OutboundRegistry_new. intros H. inv_ok. subst r. cbn.
  change l with ([] ++ l). eapply register_all_ok; [|done]. split_and!; try constructor.
  - by rewrite lookup_empty.
  - by intros [?%not_elem_of_nil _].
Qed.

(** C7. A registry holds exactly the endpoints it was built from, under
    distinct names, and is only built when every Trojan endpoint has a TLS
    transport. A flow routed to a proxy endpoint is never sent out directly
    instead: what [connect_tcp] and [open_datagram] do for it does not depend
    on the direct path at all; an unknown endpoint is refused without any
    effect; and a session is only returned after the endpoint's own handshake
    over the endpoint's own transport. *)
Theorem proxy_never_direct l r :
  OutboundRegistry_new l = Ok r →
  registry_ok l (endpoints r)
  ∧ (∀ w id target, endpoints r !! id = None →
       connect_tcp r w (Proxy id) target = (w, Err EUnsupported)
       ∧ open_datagram r w (Proxy id) = (w, Err ENotFound))
  ∧ (∀ w id target w' s, connect_tcp r w (Proxy id) target = (w', Ok s) →
       ∃ c s0, c ∈ l ∧ ep_id c = id ∧ transport_connect w (ep_transport c) = (w', Ok s0)
         ∧ (∃ u, handshake_stream (ep_protocol c) s0 target = (s, Ok u))
         ∧ (∀ v, ep_protocol c = TrojanProtocol v → is_tls (ep_transport c) = true))
  ∧ (∀ w id w' x, open_datagram r w (Proxy id) = (w', Ok x) →
       ∃ c p, c ∈ l ∧ ep_id c = id ∧ ep_datagram c = Some p ∧ open_provider w p = (w', Ok x)).
Proof.
  intros Hok%OutboundRegistry_new_ok. split; [done|]. destruct Hok as (_ & Hm & Hf). rewrite Forall_forall in Hf. split_and!.
  - intros w id target Hn. unfold connect_tcp, open_datagram, capabilities. by rewrite Hn.
  - intros w id target w' s E. unfold connect_tcp in E. destruct (negb _); [done|].
    destruct (endpoints r !! id) as [c|] eqn:Ec; [|done]. apply Hm in Ec as [Hin Hid].
    destruct (transport_connect w (ep_transport c)) as [w1 [s0|e|]] eqn:Et; [|done..].
    destruct (handshake_stream (ep_protocol c) s0 target) as [s1 [u|e|]] eqn:Eh; simplify_eq.
    exists c, s0. split_and!; eauto. intros v Hv. apply Hf; [done|]. by rewrite Hv.
  - intros w id w' x E. unfold open_datagram in E. destruct (endpoints r !! id) as [c|] eqn:Ec; [|done].
    apply Hm in Ec as [Hin Hid]. destruct (ep_datagram c) as [p|] eqn:Ep; [|done]. eauto 10.
Qed.
End registry.
Arguments ProxyEndpointConfig : clear implicits.
Arguments OutboundRegistry : clear implicits.

Definition sample_endpoint : ProxyEndpointConfig unit :=
  {| ep_id := MkEndpointId (#"up"); ep_protocol := Socks5Protocol; ep_datagram := None;
     ep_transport := TcpConfig (TcpTransport_new (SockV4 2130706433 1080)) |}.

Lemma proxy_never_direct_witness :
  ∃ r, OutboundRegistry_new [sample_endpoint] = Ok r ∧ registry_ok [sample_endpoint] (endpoints r).
Proof.
  eexists. split; [reflexivity|].
  apply (proxy_never_direct (W:=unit) (X:=unit) (λ w _, (w, Ok socks_reply_conn)) (λ w _, (w, Ok socks_reply_conn))
    (λ w, (w, Ok tt)) (λ w _, (w, Ok tt)) [sample_endpoint]).
  reflexivity.
Defined.
