(* ===== verification/Sockets.v ===== *)
(** * Sockets and sessions ([transport/src/lib.rs], [transport/src/tls.rs],
    [daemon/src/transparent_tcp.rs], [daemon/src/transparent_udp.rs])

    How the program makes and prepares its sockets: dialling a transport, the
    TLS handshake, the switch to non-blocking mode before a relay, and the
    transparent listeners. The operating system is a parameter that accepts or
    refuses each call; a socket is the list of the calls that succeeded on it,
    from which its current settings are read off. *)

From S2P Require Import Prelude RustStr RustNet Flow Policy Proxy Trojan Conn Protocol Outbound.

(** ** Calls on a socket *)
Inductive SockType := Stream | Dgram.
Inductive SockCall :=
| SysSocket (v6 : bool) (type : SockType)
| SysConnect (address : SocketAddr) (timeout : Z)
| SysReuseAddress (on : bool)
| SysTransparentV4 (on : bool)
| SysTransparentV6 (on : bool)
| SysOnlyV6 (on : bool)
| SysOrigDstV4 (on : bool)
| SysOrigDstV6 (on : bool)
| SysBind (address : SocketAddr)
| SysListen (backlog : Z)
| SysNodelay (on : bool)
| SysReadTimeout (timeout : option Z)
| SysWriteTimeout (timeout : option Z)
| SysNonblocking (on : bool).
#[global] Instance SockType_eq_dec : EqDecision SockType.
Proof. solve_decision. Defined.
#[global] Instance SockCall_eq_dec : EqDecision SockCall.
Proof. solve_decision. Defined.

Definition Socket : Type := list SockCall.

(** The settings in force: the last call that changed each. *)
Definition nonblocking (s : Socket) : bool :=
  foldl (λ b c, match c with SysNonblocking v => v | _ => b end) false s.
Definition nodelay (s : Socket) : bool :=
  foldl (λ b c, match c with SysNodelay v => v | _ => b end) false s.
Definition read_timeout (s : Socket) : option Z :=
  foldl (λ b c, match c with SysReadTimeout v => v | _ => b end) None s.
Definition write_timeout (s : Socket) : option Z :=
  foldl (λ b c, match c with SysWriteTimeout v => v | _ => b end) None s.
Definition peer (s : Socket) : option SocketAddr :=
  foldl (λ b c, match c with SysConnect a _ => Some a | _ => b end) None s.

Definition is_v6 (a : SocketAddr) : bool := match a with SockV4 _ _ => false | SockV6 _ _ _ _ => true end.

Section sockets.
  Context {W : Type}.
  (** Whether the system accepts a call. *)
  Context (sys : W → Socket → SockCall → W * result ErrorKind unit).

(** A call; the standard library itself refuses a zero timeout. *)
Definition call_refused (c : SockCall) : bool :=
  match c with
  | SysConnect _ t => (t =? 0)%Z
  | SysReadTimeout (Some t) | SysWriteTimeout (Some t) => (t =? 0)%Z
  | _ => false
  end.
Definition sock_call (p : W * Socket) (c : SockCall) : W * Socket * result ErrorKind unit :=
  if call_refused c then (p, Err EInvalidInput)
  else match sys p.1 p.2 c with
       | (w, Ok _) => (w, p.2 ++ [c], Ok tt)
       | (w, r) => (w, p.2, r)
       end.

(** The socket is dropped when the function fails. *)
Definition returning {A} (p : W * Socket * result ErrorKind A) (f : Socket → A → result ErrorKind Socket)
    : W * result ErrorKind Socket :=
  let '(w, s, r) := p in (w, (a ← r; f s a)).
Definition made (p : W * Socket * result ErrorKind unit) : W * result ErrorKind Socket :=
  returning p (λ s _, Ok s).

(** ** Dialling TCP: [TcpTransport::connect] *)
Definition tcp_connect (t : TcpTransport) (w : W) : W * result ErrorKind Socket :=
  made (let! p _c := sock_call (w, []) (SysConnect (tcp_address t) (tcp_connect_timeout t)) in
        let! p _n := sock_call p (SysNodelay true) in
        let! p _r := sock_call p (SysReadTimeout (Some (tcp_handshake_timeout t))) in
        sock_call p (SysWriteTimeout (Some (tcp_handshake_timeout t)))).

(** ** Transparent sockets *)
Definition LISTEN_BACKLOG : Z := 128.

(** [transparent_tcp::bind_listener] on Linux and Android. *)
Definition bind_tcp_listener (w : W) (address : SocketAddr) : W * result ErrorKind Socket :=
  made (let! p _s := sock_call (w, []) (SysSocket (is_v6 address) Stream) in
        let! p _a := sock_call p (SysReuseAddress true) in
        let! p _t :=
          match address with
          | SockV4 _ _ => sock_call p (SysTransparentV4 true)
          | SockV6 _ _ _ _ => let! p _o := sock_call p (SysOnlyV6 true) in sock_call p (SysTransparentV6 true)
          end in
        let! p _b := sock_call p (SysBind address) in
        sock_call p (SysListen LISTEN_BACKLOG)).

(** [transparent_udp::bind_listener] *)
Definition bind_udp_listener (w : W) (address : SocketAddr) : W * result ErrorKind Socket :=
  made (let! p _s := sock_call (w, []) (SysSocket (is_v6 address) Dgram) in
        let! p _a := sock_call p (SysReuseAddress true) in
        let! p _t :=
          match address with
          | SockV4 _ _ =>
              let! p _t := sock_call p (SysTransparentV4 true) in
              sock_call p (SysOrigDstV4 true)
          | SockV6 _ _ _ _ =>
              let! p _o := sock_call p (SysOnlyV6 true) in
              let! p _t := sock_call p (SysTransparentV6 true) in
              sock_call p (SysOrigDstV6 true)
          end in
        let! p _b := sock_call p (SysBind address) in
        sock_call p (SysNonblocking true)).

Definition bind_transparent_reply_socket (w : W) (source : SocketAddr) : W * result ErrorKind Socket :=
  made (let! p _s := sock_call (w, []) (SysSocket (is_v6 source) Dgram) in
        let! p _t :=
          match source with
          | SockV4 _ _ => sock_call p (SysTransparentV4 true)
          | SockV6 _ _ _ _ => let! p _o := sock_call p (SysOnlyV6 true) in sock_call p (SysTransparentV6 true)
          end in
        sock_call p (SysBind source)).

(** ** TLS *)
Definition TLS_BUFFER_LIMIT : Z := 64 * 1024.

  (** rustls: [ClientConnection::new], [set_buffer_limit], [complete_io] and
      [is_handshaking]. *)
  Context {T : Type}.
  Context (tls_new : W → str → W * result ErrorKind T).
  Context (set_buffer_limit : T → option Z → T).
  Context (complete_io : W → T → Socket → W * T * result ErrorKind unit).
  Context (is_handshaking : T → bool).

(** [TlsTransport::connect_established]: every error ends it and drops the
    socket. *)
Definition connect_established (t : TlsTransport) (w : W) : W * result ErrorKind (T * Socket) :=
  match
    (let! p _c := sock_call (w, []) (SysConnect (tls_address t) (tls_connect_timeout t)) in
     let! p _n := sock_call p (SysNodelay true) in
     let! p _r := sock_call p (SysReadTimeout (Some (tls_handshake_timeout t))) in
     sock_call p (SysWriteTimeout (Some (tls_handshake_timeout t))))
  with
  | (w, socket, Ok _) =>
      match tls_new w (server_name t) with
      | (w, Ok connection) =>
          let connection := set_buffer_limit connection (Some TLS_BUFFER_LIMIT) in
          match complete_io w connection socket with
          | (w, connection, Ok _) =>
              (w, if is_handshaking connection then Err ETimedOut else Ok (connection, socket))
          | (w, _, Err e) => (w, Err e)
          | (w, _, Panic) => (w, Panic)
          end
      | (w, Err e) => (w, Err e)
      | (w, Panic) => (w, Panic)
      end
  | (w, _, Err e) => (w, Err e)
  | (w, _, Panic) => (w, Panic)
  end.

(** [TlsTransport::connect_framed]; the session starts unregistered and with
    its remote side open. *)
Definition connect_framed (t : TlsTransport) (w : W) : W * result ErrorKind (T * Socket) :=
  match connect_established t w with
  | (w, Ok (connection, socket)) =>
      let '(w, socket, r) :=
        let! p _r := sock_call (w, socket) (SysReadTimeout None) in
        let! p _w := sock_call p (SysWriteTimeout None) in
        sock_call p (SysNonblocking true) in
      (w, (_u ← r; Ok (set_buffer_limit connection (Some TLS_BUFFER_LIMIT), socket)))
  | (w, Err e) => (w, Err e)
  | (w, Panic) => (w, Panic)
  end.

(** ** Sessions *)
Inductive Session :=
| TcpSession (stream : Socket)
| TlsSession (connection : T) (socket : Socket).

Definition transport_connect (w : W) (c : TransportConfig) : W * result ErrorKind Session :=
  match c with
  | TcpConfig t => let '(w, r) := tcp_connect t w in (w, (s ← r; Ok (TcpSession s)))
  | TlsConfig t => let '(w, r) := connect_established t w in (w, ('(connection, s) ← r; Ok (TlsSession connection s)))
  end.

(** What the two relays do to the sockets before they move data: the TLS
    relay polls both, the TCP relay blocks on both. *)
Definition tls_relay_prepare (w : W) (socket client : Socket) : W * result ErrorKind (Socket * Socket) :=
  match
    (let! p _r := sock_call (w, socket) (SysReadTimeout None) in
     let! p _w := sock_call p (SysWriteTimeout None) in
     sock_call p (SysNonblocking true))
  with
  | (w, socket, Ok _) =>
      let '(w, client, r) :=
        let! p _r := sock_call (w, client) (SysReadTimeout None) in
        let! p _w := sock_call p (SysWriteTimeout None) in
        let! p _n := sock_call p (SysNodelay true) in
        sock_call p (SysNonblocking true) in
      (w, (_u ← r; Ok (socket, client)))
  | (w, _, Err e) => (w, Err e)
  | (w, _, Panic) => (w, Panic)
  end.

Definition tcp_relay_prepare (w : W) (stream client : Socket) : W * result ErrorKind (Socket * Socket) :=
  match
    (let! p _r := sock_call (w, stream) (SysReadTimeout None) in
     sock_call p (SysWriteTimeout None))
  with
  | (w, stream, Ok _) =>
      match
        (let! p _r := sock_call (w, client) (SysReadTimeout None) in
         let! p _w := sock_call p (SysWriteTimeout None) in
         sock_call p (SysNodelay true))
      with
      | (w, client, Ok _) =>
          let '(w, stream, r) := sock_call (w, stream) (SysNodelay true) in
          (w, (_u ← r; Ok (stream, client)))
      | (w, _, Err e) => (w, Err e)
      | (w, _, Panic) => (w, Panic)
      end
  | (w, _, Err e) => (w, Err e)
  | (w, _, Panic) => (w, Panic)
  end.

(** ** What a socket has been through *)
Lemma sock_call_ok p c w s u :
  sock_call p c = (w, s, Ok u) → s = p.2 ++ [c] ∧ call_refused c = false.
Proof.
  unfold sock_call. destruct (call_refused c); [done|]. destruct (sys p.1 p.2 c) as [w' [v|e|]]; by intros [= _ <-].
Qed.

(** Opens a successful sequence of calls. *)
Ltac inv_calls :=
  repeat match goal with
  | H : seq_ _ _ = (_, Ok _) |- _ => apply seq_ok_inv in H as ([? ?] & ? & ? & H)
  | H : sock_call _ _ = (_, _, Ok _) |- _ => apply sock_call_ok in H as [-> ?]
  end; cbn [fst snd app] in *.

Definition transport_address (c : TransportConfig) : SocketAddr :=
  match c with TcpConfig t => tcp_address t | TlsConfig t => tls_address t end.
Definition transport_timeouts (c : TransportConfig) : Z * Z :=
  match c with
  | TcpConfig t => (tcp_connect_timeout t, tcp_handshake_timeout t)
  | TlsConfig t => (tls_connect_timeout t, tls_handshake_timeout t)
  end.
Definition session_socket (s : Session) : Socket :=
  match s with TcpSession k => k | TlsSession _ k => k end.

(** A freshly dialled socket. *)
Definition dialled (c : TransportConfig) : Socket :=
  [SysConnect (transport_address c) (transport_timeouts c).1; SysNodelay true;
   SysReadTimeout (Some (transport_timeouts c).2); SysWriteTimeout (Some (transport_timeouts c).2)].

Lemma connect_established_ok t w w' connection k :
  connect_established t w = (w', Ok (connection, k)) → k = dialled (TlsConfig t) ∧ is_handshaking connection = false.
Proof.
  unfold connect_established. destruct (let! p _c := _ in _) as [[w1 k1] [u|e|]] eqn:E; [|done..].
  destruct (tls_new w1 (server_name t)) as [w2 [c|e|]]; [|done..].
  destruct (complete_io w2 _ k1) as [[w3 c'] [u'|e|]]; [|done..].
  destruct (is_handshaking c') eqn:Eh; [done|]. intros [= _ <- <-]. inv_calls. done.
Qed.

Lemma transport_connect_ok w c w' s :
  transport_connect w c = (w', Ok s) →
  session_socket s = dialled c
  ∧ match s with TcpSession _ => is_tls c = false | TlsSession connection _ => is_tls c = true ∧ is_handshaking connection = false end.
Proof.
  destruct c as [t|t]; cbn [transport_connect].
  - unfold tcp_connect, made, returning. destruct (let! p _c := _ in _) as [[w1 k1] [u|e|]] eqn:E; [|done..].
    cbn [mbind result_bind]. intros [= _ <-]. cbn. inv_calls. done.
  - destruct (connect_established t w) as [w1 [[c k]|e|]] eqn:E; [|done..]. cbn [mbind result_bind].
    intros [= _ <-]. apply connect_established_ok in E as [-> Hh]. done.
Qed.

(** C8. Sessions are in the mode their use requires. A session is returned
    only on a connection dialled to the configured address, without delay and
    blocking with the handshake timeout in both directions; a TLS session only
    once its handshake is complete. A framed TLS session is non-blocking and
    without timeouts; the TLS relay starts only when both its sockets are
    non-blocking and without timeouts, the TCP relay only when both are
    without timeouts and without delay, and still blocking if they were. *)
Theorem session_modes :
  (∀ w c w' s, transport_connect w c = (w', Ok s) →
     let k := session_socket s in
     peer k = Some (transport_address c) ∧ nodelay k = true ∧ nonblocking k = false
     ∧ read_timeout k = Some (transport_timeouts c).2 ∧ write_timeout k = Some (transport_timeouts c).2
     ∧ match s with
       | TcpSession _ => is_tls c = false
       | TlsSession connection _ => is_tls c = true ∧ is_handshaking connection = false
       end)
  ∧ (∀ w t w' connection k, connect_framed t w = (w', Ok (connection, k)) →
       ∃ connection0, connection = set_buffer_limit connection0 (Some TLS_BUFFER_LIMIT) ∧ is_handshaking connection0 = false
         ∧ peer k = Some (tls_address t) ∧ nonblocking k = true ∧ read_timeout k = None ∧ write_timeout k = None)
  ∧ (∀ w remote client w' remote' client', tls_relay_prepare w remote client = (w', Ok (remote', client')) →
       Forall (λ k, nonblocking k = true ∧ read_timeout k = None ∧ write_timeout k = None) [remote'; client']
       ∧ peer remote' = peer remote ∧ nodelay client' = true)
  ∧ (∀ w remote client w' remote' client', tcp_relay_prepare w remote client = (w', Ok (remote', client')) →
       Forall (λ k, nodelay k = true ∧ read_timeout k = None ∧ write_timeout k = None) [remote'; client']
       ∧ peer remote' = peer remote ∧ nonblocking remote' = nonblocking remote ∧ nonblocking client' = nonblocking client).
Proof.
  split_and!.
  - intros w c w' s [Hk Hs]%transport_connect_ok. cbn zeta. rewrite Hk. by split_and!.
  - intros w t w' connection k. unfold connect_framed.
    destruct (connect_established t w) as [w1 [[c k1]|e|]] eqn:E; [|done..].
    apply connect_established_ok in E as [-> Hh].
    destruct (let! p _r := _ in _) as [[w2 k2] [u|e|]] eqn:E2; [|done..]. cbn [mbind result_bind].
    intros [= _ <- <-]. inv_calls. by exists c.
  - intros w remote client w' remote' client'. unfold tls_relay_prepare.
    destruct (let! p _r := _ in _) as [[w1 k1] [u|e|]] eqn:E1; [|done..].
    destruct (let! p _r := sock_call (w1, client) _ in _) as [[w2 k2] [u2|e|]] eqn:E2; [|done..].
    cbn [mbind result_bind]. intros [= _ <- <-]. inv_calls.
    unfold nonblocking, read_timeout, write_timeout, peer, nodelay.
    rewrite !Forall_cons, Forall_nil, !foldl_app. by split_and!.
  - intros w remote client w' remote' client'. unfold tcp_relay_prepare.
    destruct (let! p _r := _ in _) as [[w1 k1] [u|e|]] eqn:E1; [|done..].
    destruct (let! p _r := sock_call (w1, client) _ in _) as [[w2 k2] [u2|e|]] eqn:E2; [|done..].
    destruct (sock_call (w2, k1) _) as [[w3 k3] [u3|e|]] eqn:E3; [|done..].
    cbn [mbind result_bind]. intros [= _ <- <-]. inv_calls.
    unfold nonblocking, read_timeout, write_timeout, peer, nodelay.
    rewrite !Forall_cons, Forall_nil, !foldl_app. by split_and!.
Qed.

(** A transparent socket is bound only after it was made transparent, and a
    version 6 one only after it was restricted to version 6; a UDP listener
    also asks for original destinations before it is bound, and is
    non-blocking. *)
Definition transparent_calls (a : SocketAddr) : list SockCall :=
  match a with SockV4 _ _ => [SysTransparentV4 true] | SockV6 _ _ _ _ => [SysOnlyV6 true; SysTransparentV6 true] end.
Definition original_calls (a : SocketAddr) : list SockCall :=
  match a with SockV4 _ _ => [SysOrigDstV4 true] | SockV6 _ _ _ _ => [SysOrigDstV6 true] end.

Lemma transparent_sockets w a w' k :
  (bind_tcp_listener w a = (w', Ok k) →
     k = SysSocket (is_v6 a) Stream :: SysReuseAddress true :: transparent_calls a ++ [SysBind a; SysListen LISTEN_BACKLOG])
  ∧ (bind_udp_listener w a = (w', Ok k) →
     k = SysSocket (is_v6 a) Dgram :: SysReuseAddress true :: transparent_calls a ++ original_calls a
           ++ [SysBind a; SysNonblocking true])
  ∧ (bind_transparent_reply_socket w a = (w', Ok k) →
     k = SysSocket (is_v6 a) Dgram :: transparent_calls a ++ [SysBind a]).
Proof.
  unfold bind_tcp_listener, bind_udp_listener, bind_transparent_reply_socket, made, returning.
  split_and!.
  - destruct (let! p _s := _ in _) as [[w1 k1] [u|e|]] eqn:E; [|done..]. cbn [mbind result_bind]. intros [= _ <-].
    destruct a; inv_calls; done.
  - destruct (let! p _s := _ in _) as [[w1 k1] [u|e|]] eqn:E; [|done..]. cbn [mbind result_bind]. intros [= _ <-].
    destruct a; inv_calls; done.
  - destruct (let! p _s := _ in _) as [[w1 k1] [u|e|]] eqn:E; [|done..]. cbn [mbind result_bind]. intros [= _ <-].
    destruct a; inv_calls; done.
Qed.
End sockets.

(** The constructors never give a transport whose timeouts the standard
    library would refuse. *)
Definition timeouts_usable (c : TransportConfig) : Prop :=
  (0 < (transport_timeouts c).1)%Z ∧ (0 < (transport_timeouts c).2)%Z.

Lemma constructors_usable valid a name c h :
  (0 ≤ c)%Z → (0 ≤ h)%Z →
  timeouts_usable (TcpConfig (TcpTransport_new a))
  ∧ (∀ t, TcpTransport_with_timeouts a c h = Ok t → timeouts_usable (TcpConfig t))
  ∧ (∀ t, TlsTransport_with_client_config valid a name = Ok t → timeouts_usable (TlsConfig t))
  ∧ (∀ t, TlsTransport_with_timeouts valid a name c h = Ok t → timeouts_usable (TlsConfig t)).
Proof.
  intros Hc Hh. unfold timeouts_usable, TcpTransport_with_timeouts, TlsTransport_with_timeouts, TlsTransport_with_client_config.
  split_and!; [done|done|..]; intros t.
  - destruct (_ || _) eqn:E; [done|]. intros [= <-]. cbn. bool_to_prop. lia.
  - destruct (valid name); [|done]. by intros [= <-].
  - destruct (_ || _) eqn:E; [done|]. destruct (valid name); [|done]. cbn [mbind result_bind]. intros [= <-].
    cbn. bool_to_prop. lia.
Qed.
