(* ===== verification/Socks5.v ===== *)
(** * The SOCKS5 inbound ([daemon/src/socks5.rs]): handshake, CONNECT and the
    UDP packet format

    The association loop of UDP ASSOCIATE is in the file Socks5Udp. *)

From S2P Require Import Prelude RustStr RustNet Flow Policy DnsBase Proxy Trojan Conn Protocol.

Definition VERSION : byte := x05.
Definition METHOD_NO_AUTH : byte := x00.
Definition METHOD_UNACCEPTABLE : byte := xff.
Definition COMMAND_CONNECT : byte := x01.
Definition COMMAND_UDP_ASSOCIATE : byte := x03.

Record UdpClientHint := {
  hint_ip : option IpAddr;
  hint_port : option Z;
}.

Inductive Request :=
| RConnect (target : Target)
| RUdpAssociate (hint : UdpClientHint).

Definition connect_error_code (kind : ErrorKind) : byte :=
  match kind with
  | EConnectionRefused => x05
  | ETimedOut => x04
  | EPermissionDenied => x02
  | ENotFound | EAddrNotAvailable => x04
  | EUnsupported => x07
  | _ => x01
  end.

(** The bytes [write_reply] sends. *)
Definition reply_bytes (code : byte) (address : option SocketAddr) : bytes :=
  match default (SockV4 0 0) address with
  | SockV4 ip port => [VERSION; code; x00; x01] ++ v4_octets ip ++ u16_be port
  | SockV6 ip port _ _ => [VERSION; code; x00; x04] ++ v6_octets ip ++ u16_be port
  end.

(** A domain field: UTF-8, without trailing dots, lower-case, not empty. *)
Definition socks_domain (raw : bytes) : result ErrorKind DestinationHost :=
  text ← ok_or (from_utf8 raw) EInvalidData;
  let domain := to_ascii_lowercase (trim_end_matches x2e text) in
  if length domain =? 0 then Err EInvalidData else Ok (Domain domain).

Section handshake.
  Context {S : Type} `{HConn : Conn S}.

Definition write_reply (stream : S) (code : byte) (address : option SocketAddr) : S * result ErrorKind unit :=
  conn_write_all stream (reply_bytes code address).

Definition negotiate_method (stream : S) : S * result ErrorKind unit :=
  let! stream header := conn_read_exact stream 2 in
  match header with
  | [h0; h1] =>
      if negb (bool_decide (h0 = VERSION)) || bool_decide (h1 = x00) then (stream, Err EInvalidData)
      else
        let! stream methods := conn_read_exact stream (Z.to_nat (b2z h1)) in
        if bool_decide (METHOD_NO_AUTH ∈ methods) then
          let! stream _w := conn_write_all stream [VERSION; METHOD_NO_AUTH] in
          (stream, Ok tt)
        else
          let! stream _w := conn_write_all stream [VERSION; METHOD_UNACCEPTABLE] in
          (stream, Err EPermissionDenied)
  | _ => (stream, Panic)
  end.

(** The host of [read_address], by address type. *)
Definition read_host (stream : S) (address_type : byte) : S * result ErrorKind DestinationHost :=
  if bool_decide (address_type = x01) then
    let! stream octets := conn_read_exact stream 4 in
    (stream, Ok (Ip (V4 (be_value octets))))
  else if bool_decide (address_type = x03) then
    let! stream len := conn_read_exact stream 1 in
    let len := Z.to_nat (be_value len) in
    if (len =? 0) || (253 <? len) then (stream, Err EInvalidData)
    else
      let! stream raw := conn_read_exact stream len in
      lift_ stream (socks_domain raw)
  else if bool_decide (address_type = x04) then
    let! stream octets := conn_read_exact stream 16 in
    (stream, Ok (Ip (V6 (be_value octets))))
  else (stream, Err EInvalidData).

Definition read_address (stream : S) (address_type : byte) : S * result ErrorKind (DestinationHost * Z) :=
  let! stream host := read_host stream address_type in
  let! stream port := conn_read_exact stream 2 in
  (stream, Ok (host, be_value port)).

Definition udp_hint (host : DestinationHost) (port : Z) : UdpClientHint :=
  {| hint_ip := match host with
                | Ip address => if ip_is_unspecified address then None else Some address
                | Domain _ => None
                end;
     hint_port := if (port =? 0)%Z then None else Some port |}.

Definition read_request (stream : S) : S * result ErrorKind Request :=
  let! stream header := conn_read_exact stream 4 in
  match header with
  | [h0; h1; h2; h3] =>
      if negb (bool_decide (h0 = VERSION)) || negb (bool_decide (h2 = x00)) then (stream, Err EInvalidData)
      else
        let! stream address := read_address stream h3 in
        let '(host, port) := address in
        if bool_decide (h1 = COMMAND_CONNECT) then
          lift_ stream (target ← Target_new host port; Ok (RConnect target))
        else if bool_decide (h1 = COMMAND_UDP_ASSOCIATE) then (stream, Ok (RUdpAssociate (udp_hint host port)))
        else
          let! stream _w := write_reply stream x07 None in
          (stream, Err EUnsupported)
  | _ => (stream, Panic)
  end.

(** ** CONNECT and the handler *)
  Context {W R : Type}.
  Context (connect_tcp : W → Endpoint → Target → W * result ErrorKind R).
  Context (local_addr : R → option SocketAddr).
  Context (relay_to_client : W → R → S → W * result ErrorKind unit).
  Context (set_timeouts : S → bool → S * result ErrorKind unit).
  (** The whole UDP ASSOCIATE handler. *)
  Context (handle_udp_associate : S → W → Z → UdpClientHint → S * W * Z * result ErrorKind unit).

Definition handle_connect (runtime : Runtime) (client : S) (w : W) (next_flow : Z) (target : Target)
    : S * W * Z * result ErrorKind unit :=
  let '(next_flow, action) := plan_action runtime next_flow target Tcp in
  match action with
  | Reject _ =>
      let '(client, r) := write_reply client x02 None in (client, w, next_flow, r)
  | Route endpoint =>
      match connect_tcp w endpoint target with
      | (w, Panic) => (client, w, next_flow, Panic)
      | (w, Err error) =>
          let '(client, _) := write_reply client (connect_error_code error) None in
          (client, w, next_flow, Err error)
      | (w, Ok remote) =>
          let '(client, r) :=
            let! client _w := write_reply client x00 (local_addr remote) in
            set_timeouts client false in
          match r with
          | Ok _ => let '(w, r) := relay_to_client w remote client in (client, w, next_flow, r)
          | r => (client, w, next_flow, r)
          end
      end
  end.

Definition handle (runtime : Runtime) (client : S) (w : W) (next_flow : Z) : S * W * Z * result ErrorKind unit :=
  let '(client, r) :=
    let! client _t := set_timeouts client true in
    let! client _n := negotiate_method client in
    read_request client in
  match r with
  | Ok (RConnect target) => handle_connect runtime client w next_flow target
  | Ok (RUdpAssociate hint) => handle_udp_associate client w next_flow hint
  | Err e => (client, w, next_flow, Err e)
  | Panic => (client, w, next_flow, Panic)
  end.
End handshake.

(** ** UDP packets *)
Definition parse_udp_host (packet : bytes) (address_type : byte) : result ErrorKind (DestinationHost * nat) :=
  let offset := 4 in
  if bool_decide (address_type = x01) then
    octets ← ok_or (slice_get packet offset (offset + 4)) EInvalidData;
    Ok (Ip (V4 (be_value octets)), offset + 4)
  else if bool_decide (address_type = x03) then
    len ← ok_or (packet !! offset) EInvalidData;
    let len := Z.to_nat (b2z len) in
    let offset := offset + 1 in
    if (len =? 0) || (253 <? len) then Err EInvalidData
    else
      raw ← ok_or (slice_get packet offset (offset + len)) EInvalidData;
      host ← socks_domain raw;
      Ok (host, offset + len)
  else if bool_decide (address_type = x04) then
    octets ← ok_or (slice_get packet offset (offset + 16)) EInvalidData;
    Ok (Ip (V6 (be_value octets)), offset + 16)
  else Err EInvalidData.

Definition parse_udp_request (packet : bytes) : result ErrorKind (Target * bytes) :=
  match packet with
  | b0 :: b1 :: b2 :: b3 :: _ =>
      if negb (bool_decide (b0 = x00)) || negb (bool_decide (b1 = x00)) then Err EInvalidData
      else if negb (bool_decide (b2 = x00)) then Err EUnsupported
      else
        '(host, offset) ← parse_udp_host packet b3;
        port_bytes ← ok_or (slice_get packet offset (offset + 2)) EInvalidData;
        let offset := offset + 2 in
        target ← Target_new host (be_value port_bytes);
        payload ← ok_or (slice_get packet offset (length packet)) EInvalidData;
        Ok (target, payload)
  | _ => Err EInvalidData
  end.

Definition encode_udp_response (source : Target) (payload : bytes) : result ErrorKind bytes :=
  let response := [x00; x00; x00] in
  response ←
    match host source with
    | Ip (V4 address) => Ok (response ++ [x01] ++ v4_octets address)
    | Ip (V6 address) => Ok (response ++ [x04] ++ v6_octets address)
    | Domain domain =>
        if (255 <? Z.of_nat (length domain))%Z then Err EInvalidData
        else if length domain =? 0 then Err EInvalidData
        else Ok (response ++ [x03] ++ [z2b (Z.of_nat (length domain))] ++ domain)
    end;
  Ok (response ++ u16_be (port source) ++ payload).

(** ** Targets the inbound produces *)

(** A target as the inbound normalises it; every such target can be carried
    by the SOCKS5 and Trojan formats. *)
Definition norm_host (h : DestinationHost) : Prop :=
  match h with
  | Ip a => ip_wf a
  | Domain d => 1 ≤ length d ≤ 253 ∧ utf8_valid d = true ∧ to_ascii_lowercase d = d ∧ last d ≠ Some x2e
  end.
Definition norm_target (t : Target) : Prop := is_u16 (port t) ∧ port t ≠ 0%Z ∧ norm_host (host t).

Lemma norm_target_ok t : norm_target t → target_ok t.
Proof.
  intros (Hp & H0 & Hh). split_and!; try done. destruct (host t) as [d|a]; [|done].
  destruct Hh as ([??] & ? & _). split; [lia|done].
Qed.

Lemma socks_domain_ok raw h : length raw ≤ 253 → socks_domain raw = Ok h → norm_host h.
Proof.
  unfold socks_domain, from_utf8. intros Hl H. destruct (utf8_valid raw) eqn:Eu; [|done].
  cbn [ok_or mbind result_bind] in H. destruct (_ =? 0) eqn:E0; [done|]. injection H as <-. bool_to_prop. cbn.
  pose proof (length_trim_end_matches x2e raw) as Ht. rewrite length_lower in *. split_and!; [lia|lia| | |].
  - by rewrite utf8_valid_lower, utf8_valid_trim_end.
  - apply lower_idem.
  - apply last_lower_dot. by destruct (trim_end_matches_spec x2e raw) as (? & _ & ?).
Qed.

Lemma socks_domain_norm d : norm_host (Domain d) → socks_domain d = Ok (Domain d).
Proof.
  intros ([??] & Hu & Hlow & Hd). unfold socks_domain, from_utf8. rewrite Hu. cbn [ok_or mbind result_bind].
  rewrite trim_end_matches_id, Hlow by done. by rewrite (proj2 (Nat.eqb_neq _ _)) by lia.
Qed.

(** What the bytes of an address field mean. *)
Definition address_field (ty : byte) (raw : bytes) (h : DestinationHost) : Prop :=
  (ty = x01 ∧ ∃ a, h = Ip (V4 a) ∧ raw = v4_octets a)
  ∨ (ty = x04 ∧ ∃ a, h = Ip (V6 a) ∧ raw = v6_octets a)
  ∨ (ty = x03 ∧ ∃ n name, raw = n :: name ∧ length name = Z.to_nat (b2z n) ∧ socks_domain name = Ok h).

Section handshake_laws.
  Context {S : Type} `{HConn : Conn S} `{HLaws : !ConnLaws S}.

Lemma be_value_ip4 b : length b = 4 → ip_wf (V4 (be_value b)) ∧ v4_octets (be_value b) = b.
Proof.
  intros Hl. split; [|by apply be_bytes_be_value']. pose proof (be_value_range b) as R. rewrite Hl in R. exact R.
Qed.
Lemma be_value_ip6 b : length b = 16 → ip_wf (V6 (be_value b)) ∧ v6_octets (be_value b) = b.
Proof.
  intros Hl. split; [|by apply be_bytes_be_value']. pose proof (be_value_range b) as R. rewrite Hl in R. exact R.
Qed.

Lemma read_host_ok (s : S) ty s' h :
  read_host s ty = (s', Ok h) →
  sent s' = sent s ∧ norm_host h ∧ ∃ raw, incoming s = raw ++ incoming s' ∧ address_field ty raw h.
Proof.
  unfold read_host. intros E. unfold address_field.
  case_bool_decide; [|case_bool_decide; [|case_bool_decide; [|done]]].
  - apply seq_ok_inv in E as (s1 & b & Er & [= <- <-]). apply read_exact_ok in Er as (Hl & Hin & Hs).
    destruct (be_value_ip4 b Hl) as [Hw Hb]. split_and!; [done|done|]. exists b. eauto 10.
  - apply seq_ok_inv in E as (s1 & b & Er & E). apply read_exact_ok in Er as (Hl & Hin & Hs).
    destruct b as [|n [|]]; try done. replace (be_value [n]) with (b2z n) in E by (cbn; lia).
    set (k := Z.to_nat (b2z n)) in *. destruct (_ || _) eqn:Eb; [done|]. bool_to_prop.
    apply seq_ok_inv in E as (s2 & raw & Er & [= <- Ed]). apply read_exact_ok in Er as (Hl2 & Hin2 & Hs2).
    split_and!; [congruence|by apply (socks_domain_ok raw); [lia|]|]. exists (n :: raw). split; [by rewrite Hin, Hin2|].
    right; right. eauto 10.
  - apply seq_ok_inv in E as (s1 & b & Er & [= <- <-]). apply read_exact_ok in Er as (Hl & Hin & Hs).
    destruct (be_value_ip6 b Hl) as [Hw Hb]. split_and!; [done|done|]. exists b. eauto 10.
Qed.

Lemma read_host_returns (s : S) ty : (read_host s ty).2 ≠ Panic.
Proof.
  unfold read_host. repeat case_bool_decide; try done.
  - apply seq_no_panic; [apply read_exact_returns|done].
  - apply seq_no_panic; [apply read_exact_returns|]. intros s1 b _. case_match; [done|].
    apply seq_no_panic; [apply read_exact_returns|]. intros s2 raw _.
    change (no_panic (socks_domain raw)). unfold socks_domain. np.
  - apply seq_no_panic; [apply read_exact_returns|done].
Qed.

(** The request a list of bytes stands for. *)
Definition request_means (raw : bytes) (q : Request) : Prop :=
  ∃ ty addr pt h, length pt = 2 ∧ address_field ty addr h ∧ norm_host h
    ∧ match q with
      | RConnect t => raw = [VERSION; COMMAND_CONNECT; x00; ty] ++ addr ++ pt
          ∧ t = {| host := h; port := be_value pt |} ∧ norm_target t
      | RUdpAssociate hint => raw = [VERSION; COMMAND_UDP_ASSOCIATE; x00; ty] ++ addr ++ pt
          ∧ hint = udp_hint h (be_value pt)
      end.

Lemma read_request_ok (s : S) s' q :
  read_request s = (s', Ok q) →
  sent s' = sent s ∧ ∃ raw, incoming s = raw ++ incoming s' ∧ request_means raw q.
Proof.
  unfold read_request. intros E. apply seq_ok_inv in E as (s1 & b & Er & E).
  apply read_exact_ok in Er as (Hl & Hin & Hs). destruct b as [|h0 [|h1 [|h2 [|ty [|]]]]]; try done.
  destruct (_ || _) eqn:Eb; [done|]. bool_to_prop. subst h0 h2.
  apply seq_ok_inv in E as (s2 & [h p] & Ea & E). unfold read_address in Ea.
  apply seq_ok_inv in Ea as (s3 & h' & Eh & Ea). apply read_host_ok in Eh as (Hs3 & Hn & addr & Hin3 & Hf).
  apply seq_ok_inv in Ea as (s4 & pt & Ep & [= <- <- <-]). apply read_exact_ok in Ep as (Hl4 & Hin4 & Hs4).
  case_bool_decide as Ec; [|case_bool_decide as Eu].
  - injection E as <- E. unfold Target_new in E. destruct (_ =? 0)%Z eqn:E0; [done|]. cbn in E.
    injection E as <-. bool_to_prop. split; [congruence|].
    exists ([VERSION; h1; x00; ty] ++ addr ++ pt). split; [rewrite Hin, Hin3, Hin4; by rewrite <- !app_assoc|].
    subst h1. exists ty, addr, pt, h'. split_and!; try done. split_and!; try done. by apply be_value_u16.
  - injection E as <- <-. split; [congruence|].
    exists ([VERSION; h1; x00; ty] ++ addr ++ pt). split; [rewrite Hin, Hin3, Hin4; by rewrite <- !app_assoc|].
    subst h1. exists ty, addr, pt, h'. by split_and!.
  - apply seq_ok_inv in E as (? & ? & _ & E). done.
Qed.

Lemma read_request_returns (s : S) : (read_request s).2 ≠ Panic.
Proof.
  unfold read_request. apply seq_no_panic; [apply read_exact_returns|].
  intros s1 b (Hl & _ & _)%read_exact_ok. destruct b as [|h0 [|h1 [|h2 [|ty [|]]]]]; try done.
  case_match; [done|]. apply seq_no_panic.
  - unfold read_address. apply seq_no_panic; [apply read_host_returns|intros s2 h _].
    apply seq_no_panic; [apply read_exact_returns|done].
  - intros s2 [h p] _. case_match; [unfold lift_, Target_new; cbn; by case_match|]. case_match; [done|].
    apply seq_no_panic; [apply write_all_returns|done].
Qed.

Lemma negotiate_method_cases (s : S) :
  let '(s', r) := negotiate_method s in
  r ≠ Panic
  ∧ (r = Ok tt → sent s' = sent s ++ [VERSION; METHOD_NO_AUTH]
       ∧ ∃ n methods, incoming s = [VERSION; n] ++ methods ++ incoming s'
           ∧ length methods = Z.to_nat (b2z n) ∧ METHOD_NO_AUTH ∈ methods).
Proof.
  destruct (negotiate_method s) as [s' r] eqn:E. split.
  - change ((s', r).2 ≠ Panic). rewrite <- E. unfold negotiate_method.
    apply seq_no_panic; [apply read_exact_returns|]. intros s1 b (Hl & _ & _)%read_exact_ok.
    destruct b as [|h0 [|h1 [|]]]; try done. case_match; [done|].
    apply seq_no_panic; [apply read_exact_returns|intros s2 m _]. case_match;
      (apply seq_no_panic; [apply write_all_returns|done]).
  - intros ->. unfold negotiate_method in E. apply seq_ok_inv in E as (s1 & b & Er & E).
    apply read_exact_ok in Er as (Hl & Hin & Hs). destruct b as [|h0 [|h1 [|]]]; try done.
    destruct (_ || _) eqn:Eb; [done|]. bool_to_prop. subst h0.
    apply seq_ok_inv in E as (s2 & m & Em & E). apply read_exact_ok in Em as (Hl2 & Hin2 & Hs2).
    case_bool_decide as Hm; [|by apply seq_ok_inv in E as (? & ? & _ & ?)].
    apply seq_ok_inv in E as (s3 & u & Ew & [= <-]). apply write_ok in Ew as [Hs3 Hi3].
    split; [congruence|]. exists h1, m. split_and!; [rewrite Hin, Hin2, Hi3; done|done|done].
Qed.
End handshake_laws.

(** ** Theorems on the handshake *)
Section handshake_theorems.
  Context {S : Type} `{HConn : Conn S} `{HLaws : !ConnLaws S}.

(** C34. What the SOCKS5 inbound accepts is exactly what the client sent. A
    greeting is accepted only when it offers the no-authentication method, and
    only then is that method answered. An accepted request is a whole SOCKS5
    request (version 5, reserved byte 0, a well-formed address field): not a
    byte more or less is taken off the connection, nothing is written, the
    port of a CONNECT target is not 0 and its domain is lower-case, without
    trailing dots and at most 253 bytes. Neither step panics. *)
Theorem socks5_request_exact (s : S) :
  (let '(s', r) := negotiate_method s in
   r ≠ Panic
   ∧ (r = Ok tt → sent s' = sent s ++ [VERSION; METHOD_NO_AUTH]
        ∧ ∃ n methods, incoming s = [VERSION; n] ++ methods ++ incoming s'
            ∧ length methods = Z.to_nat (b2z n) ∧ METHOD_NO_AUTH ∈ methods))
  ∧ (read_request s).2 ≠ Panic
  ∧ ∀ s' q, read_request s = (s', Ok q) →
      sent s' = sent s ∧ ∃ raw, incoming s = raw ++ incoming s' ∧ request_means raw q.
Proof.
  split; [apply negotiate_method_cases|]. split; [apply read_request_returns|]. intros s' q. apply read_request_ok.
Qed.

  Context `{HRel : !ConnReliable S}.

Lemma read_host_complete (s : S) h ty tl rest :
  norm_host h → wire_host h = ty :: tl → incoming s = tl ++ rest →
  ∃ s', read_host s ty = (s', Ok h) ∧ incoming s' = rest ∧ sent s' = sent s.
Proof.
  intros Hn Hw Hin. unfold read_host. destruct h as [d|[a|a]]; cbn [wire_host] in Hw; injection Hw as <- <-.
  - rewrite bool_decide_false, bool_decide_true by done. pose proof Hn as ([??] & _).
    destruct (read_exact_prefix s [z2b (Z.of_nat (length d))] (d ++ rest)) as (s1 & E1 & I1 & S1); [done|].
    cbn [length] in E1. rewrite E1. cbn [seq_].
    replace (be_value _) with (Z.of_nat (length d)) by (cbn -[z2b]; rewrite b2z_z2b_small; lia).
    rewrite Nat2Z.id. rewrite (proj2 (Nat.eqb_neq _ _)) by lia. rewrite (proj2 (Nat.ltb_ge _ _)) by lia. cbn [orb].
    destruct (read_exact_prefix s1 d rest I1) as (s2 & E2 & I2 & S2). rewrite E2. cbn [seq_]. unfold lift_.
    rewrite socks_domain_norm by done. exists s2. split_and!; [done|done|congruence].
  - rewrite bool_decide_true by done.
    destruct (read_exact_prefix s (v4_octets a) rest) as (s1 & E1 & I1 & S1); [done|].
    change (length (v4_octets a)) with 4 in E1. rewrite E1. cbn [seq_]. unfold v4_octets.
    rewrite be_value_be_bytes_small by done. eauto.
  - rewrite bool_decide_false, bool_decide_false, bool_decide_true by done.
    destruct (read_exact_prefix s (v6_octets a) rest) as (s1 & E1 & I1 & S1); [done|].
    change (length (v6_octets a)) with 16 in E1. rewrite E1. cbn [seq_]. unfold v6_octets.
    rewrite be_value_be_bytes_small by done. eauto.
Qed.

Lemma read_request_complete (s : S) t rest :
  norm_target t → incoming s = [VERSION; COMMAND_CONNECT; x00] ++ wire_target t ++ rest →
  ∃ s', read_request s = (s', Ok (RConnect t)) ∧ incoming s' = rest ∧ sent s' = sent s.
Proof.
  intros (Hp & H0 & Hh) Hin. unfold read_request, wire_target in *.
  destruct (wire_host (host t)) as [|ty tl] eqn:Ew; [by destruct (host t) as [|[]]|].
  destruct (read_exact_prefix s [VERSION; COMMAND_CONNECT; x00; ty] (tl ++ u16_be (port t) ++ rest))
    as (s1 & E1 & I1 & S1); [rewrite Hin; by rewrite <- !app_assoc|].
  cbn [length] in E1. rewrite E1. cbn [seq_]. rewrite !bool_decide_true by done. cbn [negb orb].
  unfold read_address. destruct (read_host_complete s1 (host t) ty tl _ Hh Ew I1) as (s2 & E2 & I2 & S2).
  rewrite E2. cbn [seq_]. destruct (read_exact_prefix s2 (u16_be (port t)) rest I2) as (s3 & E3 & I3 & S3).
  change (length (u16_be (port t))) with 2 in E3. rewrite E3. cbn [seq_]. unfold u16_be, Target_new.
  rewrite be_value_be_bytes_small by done. rewrite (proj2 (Z.eqb_neq _ _)) by done. cbn.
  exists s3. destruct t. split_and!; [done|done|congruence].
Qed.

Lemma negotiate_method_complete (s : S) rest :
  incoming s = [VERSION; x01; METHOD_NO_AUTH] ++ rest →
  ∃ s', negotiate_method s = (s', Ok tt) ∧ incoming s' = rest ∧ sent s' = sent s ++ [VERSION; METHOD_NO_AUTH].
Proof.
  intros Hin. unfold negotiate_method.
  destruct (read_exact_prefix s [VERSION; x01] ([METHOD_NO_AUTH] ++ rest) Hin) as (s1 & E1 & I1 & S1).
  cbn [length] in E1. rewrite E1. cbn [seq_]. rewrite bool_decide_true, bool_decide_false by done. cbn [negb orb].
  destruct (read_exact_prefix s1 [METHOD_NO_AUTH] rest I1) as (s2 & E2 & I2 & S2).
  change (Z.to_nat (b2z x01)) with (length [METHOD_NO_AUTH]). rewrite E2. cbn [seq_].
  rewrite bool_decide_true by set_solver.
  destruct (write_all_succeeds s2 [VERSION; METHOD_NO_AUTH]) as (s3 & E3). rewrite E3. cbn [seq_].
  apply write_all_ok in E3 as [S3 I3]. exists s3. split_and!; [done|congruence|congruence].
Qed.

Lemma encode_socks_address_wire t addr :
  norm_target t → encode_socks_address [] (host t) = Ok addr → addr ++ u16_be (port t) = wire_target t.
Proof.
  intros _. unfold encode_socks_address, wire_target, wire_host.
  destruct (host t) as [d|[a|a]]; [destruct (_ <? _)%Z; [done|]; destruct (_ =? 0); [done|]|..]; by intros [= <-].
Qed.

Lemma reply_bytes_complete t written address :
  (∃ addr, encode_socks_address [] (host t) = Ok addr ∧ written = [x05; x01; x00] ++ ([x05; x01; x00] ++ addr) ++ u16_be (port t)) →
  handshake_bytes Socks5Protocol t written ([VERSION; METHOD_NO_AUTH] ++ reply_bytes x00 address).
Proof.
  intros Ha. split; [done|]. unfold reply_bytes, bound_address. destruct (default _ _) as [ip p|ip p ? ?].
  - exists x01, (v4_octets ip), (u16_be p). split_and!; [done|by left|done].
  - exists x04, (v6_octets ip), (u16_be p). split_and!; [done|right; by left|done].
Qed.

Lemma encode_socks_address_norm t : norm_target t → ∃ addr, encode_socks_address [] (host t) = Ok addr.
Proof.
  intros (_ & _ & Hh). unfold encode_socks_address. destruct (host t) as [d|[a|a]]; [|by eauto..]. destruct Hh as ([??] & _).
  rewrite (proj2 (Z.ltb_ge _ _)) by lia. rewrite (proj2 (Nat.eqb_neq _ _)) by lia. eauto.
Qed.
End handshake_theorems.

(** C32. The two ends of SOCKS5 understand each other. For a normalised target
    there is one byte sequence the outbound handshake writes. The inbound
    accepts it as a CONNECT request for exactly that target and leaves the
    tunnel bytes that follow unread; its method answer and its success reply,
    whatever local IPv4 or IPv6 address that reports, make the outbound
    handshake succeed, having written just those bytes and leaving the tunnel
    bytes behind the reply unread. *)
Theorem socks5_interop {S C : Type} `{Conn S, !ConnLaws S, !ConnReliable S, Conn C, !ConnLaws C, !ConnReliable C} t :
  norm_target t →
  ∃ written, ∀ address,
    ∃ answer,
      (∀ (s : S) rest, incoming s = written ++ rest →
         ∃ s1 s2, (let! s _n := negotiate_method s in read_request s) = (s1, Ok (RConnect t))
           ∧ write_reply s1 x00 address = (s2, Ok tt)
           ∧ sent s2 = sent s ++ answer ∧ incoming s2 = rest)
      ∧ (∀ (c : C) early, incoming c = answer ++ early →
           ∃ c', socks5_handshake c t = (c', Ok tt) ∧ sent c' = sent c ++ written ∧ incoming c' = early).
Proof.
  intros Hn. destruct (encode_socks_address_norm t Hn) as [addr Ha].
  exists ([x05; x01; x00] ++ ([x05; x01; x00] ++ addr) ++ u16_be (port t)). intros address.
  exists ([VERSION; METHOD_NO_AUTH] ++ reply_bytes x00 address). split.
  - intros s rest Hin. destruct (negotiate_method_complete s (([x05; x01; x00] ++ addr) ++ u16_be (port t) ++ rest))
      as (s1 & E1 & I1 & S1); [rewrite Hin; by rewrite <- !app_assoc|].
    rewrite E1. cbn [seq_]. destruct (read_request_complete s1 t rest Hn) as (s2 & E2 & I2 & S2).
    { rewrite I1. rewrite <- (encode_socks_address_wire t addr) by done. by rewrite <- !app_assoc. }
    destruct (write_all_succeeds s2 (reply_bytes x00 address)) as (s3 & E3). exists s2, s3. split_and!; [done|done|..];
      apply write_all_ok in E3 as [S3 I3]; [|congruence]. by rewrite S3, S2, S1, <- app_assoc.
  - intros c early Hin. eapply socks5_handshake_complete; [|exact Hin]. apply reply_bytes_complete. eauto.
Qed.

(** ** The handler obeys the policy *)
Section policy.
  Context {S R : Type} `{HConn : Conn S}.
  Context (local_addr : R → option SocketAddr) (set_timeouts : S → bool → S * result ErrorKind unit).
  Context (connect : Endpoint → Target → result ErrorKind R) (relay : R → S → result ErrorKind unit).
  (** The UDP handler is told apart by an empty log. *)
  Context (udp : S → UdpClientHint → S * result ErrorKind unit).
  Local Notation log := (list (Endpoint * Target)).

Definition socks_logged_connect (l : log) (e : Endpoint) (t : Target) : log * result ErrorKind R :=
  (l ++ [(e, t)], connect e t).
Definition socks_logged_relay (l : log) (r : R) (s : S) : log * result ErrorKind unit := (l, relay r s).
Definition socks_logged_udp (s : S) (l : log) (next : Z) (h : UdpClientHint) : S * log * Z * result ErrorKind unit :=
  let '(s, r) := udp s h in (s, l, next, r).

(** The SOCKS5 handler opens an outbound stream only for a CONNECT
    request the policy routed: at most one, to the requested target, through
    the endpoint the policy chose. A rejected request is answered with code 2
    and opens nothing. *)
Theorem socks5_policy_enforced runtime client l next :
  let '(client', l', next', r) :=
    handle socks_logged_connect local_addr socks_logged_relay set_timeouts socks_logged_udp
      runtime client l next in
  (l' = l
   ∨ ∃ client1 target endpoint,
      (let! client _t := set_timeouts client true in
       let! client _n := negotiate_method client in
       read_request client) = (client1, Ok (RConnect target))
      ∧ (plan_action runtime next target Tcp).2 = Route endpoint
      ∧ l' = l ++ [(endpoint, target)])
  ∧ ∀ client1 target reason,
      (let! client _t := set_timeouts client true in
       let! client _n := negotiate_method client in
       read_request client) = (client1, Ok (RConnect target)) →
      (plan_action runtime next target Tcp).2 = Reject reason →
      l' = l ∧ (client', r) = write_reply client1 x02 None.
Proof.
  unfold handle. destruct (let! client _t := set_timeouts client true in _) as [c1 [[target|hint]|e|]].
  - unfold handle_connect. destruct (plan_action runtime next target Tcp) as [next' [endpoint|reason]] eqn:Ep.
    + unfold socks_logged_connect. assert (∀ l', l' = l ++ [(endpoint, target)] →
        (l' = l ∨ ∃ client1 target0 endpoint0, (c1, Ok (E:=ErrorKind) (RConnect target)) = (client1, Ok (RConnect target0))
           ∧ (plan_action runtime next target0 Tcp).2 = Route endpoint0 ∧ l' = l ++ [(endpoint0, target0)])
        ∧ ∀ client1 target0 reason, (c1, Ok (E:=ErrorKind) (RConnect target)) = (client1, Ok (RConnect target0)) →
            (plan_action runtime next target0 Tcp).2 = Reject reason → False) as Hr.
      { intros l' ->. split; [right; exists c1, target, endpoint; by rewrite Ep|].
        intros ? ? ? [= <- <-]. by rewrite Ep. }
      destruct (Hr _ eq_refl) as [Hr1 Hr2].
      assert (∀ (P : Prop) client1 target0 reason, (c1, Ok (E:=ErrorKind) (RConnect target)) = (client1, Ok (RConnect target0)) →
            (plan_action runtime next target0 Tcp).2 = Reject reason → P) as Hr3 by (intros; exfalso; eauto).
      destruct (connect endpoint target) as [remote|e|].
      * destruct (let! _ _ := _ in _) as [c2 [u|e|]]; (split; [exact Hr1|intros; by eapply Hr3]).
      * destruct (write_reply _ _ _). split; [exact Hr1|intros; by eapply Hr3].
      * split; [exact Hr1|intros; by eapply Hr3].
    + destruct (write_reply c1 x02 None) as [c2 r] eqn:Ew. split; [by left|]. intros ? ? ? [= <- <-] _. by rewrite Ew.
  - unfold socks_logged_udp. destruct (udp c1 hint) as [c2 r]. split; [by left|done].
  - split; [by left|done].
  - split; [by left|done].
Qed.
End policy.

(** ** UDP packets *)
Lemma encode_udp_response_wire t payload :
  target_ok t → encode_udp_response t payload = Ok ([x00; x00; x00] ++ wire_target t ++ payload).
Proof.
  intros (_ & _ & Hh). unfold encode_udp_response, wire_target.
  destruct (host t) as [d|[a|a]]; cbn [wire_host].
  - destruct Hh as [[??] _]. rewrite (proj2 (Z.ltb_ge _ _)) by lia. rewrite (proj2 (Nat.eqb_neq _ _)) by lia.
    cbn [mbind result_bind]. by rewrite <- !app_assoc.
  - cbn [mbind result_bind]. by rewrite <- !app_assoc.
  - cbn [mbind result_bind]. by rewrite <- !app_assoc.
Qed.

(** The host field of a packet, whichever bytes precede and follow it. *)
Lemma parse_udp_host_wire b0 b1 b2 h rest ty tl :
  norm_host h → wire_host h = ty :: tl →
  parse_udp_host ([b0; b1; b2] ++ wire_host h ++ rest) ty = Ok (h, 3 + length (wire_host h)).
Proof.
  intros Hn Hw. unfold parse_udp_host. destruct h as [d|[a|a]]; cbn [wire_host] in *; injection Hw as <- _.
  - rewrite bool_decide_false, bool_decide_true by done. pose proof Hn as ([??] & _).
    cbn [app lookup list_lookup ok_or mbind result_bind].
    rewrite b2z_z2b_small, Nat2Z.id by lia. rewrite (proj2 (Nat.eqb_neq _ _)) by lia.
    rewrite (proj2 (Nat.ltb_ge _ _)) by lia. cbn [orb].
    change (b0 :: b1 :: b2 :: x03 :: z2b (Z.of_nat (length d)) :: d ++ rest)
      with ([b0; b1; b2; x03; z2b (Z.of_nat (length d))] ++ d ++ rest).
    rewrite (slice_get_mid' [b0; b1; b2; x03; z2b (Z.of_nat (length d))] d rest) by done. cbn [ok_or mbind result_bind].
    by rewrite socks_domain_norm.
  - rewrite bool_decide_true by done.
    change ([b0; b1; b2] ++ (x01 :: v4_octets a) ++ rest) with ([b0; b1; b2; x01] ++ v4_octets a ++ rest).
    rewrite (slice_get_mid' [b0; b1; b2; x01] (v4_octets a) rest) by done. cbn [ok_or mbind result_bind].
    unfold v4_octets. by rewrite be_value_be_bytes_small.
  - rewrite bool_decide_false, bool_decide_false, bool_decide_true by done.
    change ([b0; b1; b2] ++ (x04 :: v6_octets a) ++ rest) with ([b0; b1; b2; x04] ++ v6_octets a ++ rest).
    rewrite (slice_get_mid' [b0; b1; b2; x04] (v6_octets a) rest) by done. cbn [ok_or mbind result_bind].
    unfold v6_octets. by rewrite be_value_be_bytes_small.
Qed.

Lemma parse_udp_request_wire t payload :
  norm_target t → parse_udp_request ([x00; x00; x00] ++ wire_target t ++ payload) = Ok (t, payload).
Proof.
  intros (Hp & H0 & Hh). unfold wire_target. rewrite <- app_assoc.
  destruct (wire_host (host t)) as [|ty tl] eqn:Ew; [by destruct (host t) as [|[]]|].
  cbn [app parse_udp_request]. rewrite !bool_decide_true by done. cbn [negb orb].
  change (x00 :: x00 :: x00 :: ty :: tl ++ u16_be (port t) ++ payload)
    with ([x00; x00; x00] ++ (ty :: tl) ++ u16_be (port t) ++ payload).
  rewrite <- Ew. rewrite (parse_udp_host_wire _ _ _ _ _ ty tl) by done. cbn [mbind result_bind].
  set (pre := [x00; x00; x00] ++ wire_host (host t)).
  change (3 + length (wire_host (host t))) with (length pre). rewrite (app_assoc [x00; x00; x00]). fold pre.
  rewrite (slice_get_mid' pre (u16_be (port t)) payload (length pre) (length pre + 2)) by done. cbn [ok_or mbind result_bind].
  assert (be_value (u16_be (port t)) = port t) as -> by by apply be_value_be_bytes_small.
  unfold Target_new. rewrite (proj2 (Z.eqb_neq _ _)) by done.
  cbn [mbind result_bind]. rewrite app_assoc.
  rewrite <- (app_nil_r payload) at 1. rewrite (slice_get_mid' (pre ++ u16_be (port t)) payload []).
  - cbn [ok_or mbind result_bind]. by destruct t.
  - by rewrite length_app.
  - by rewrite !length_app.
Qed.

(** What an accepted packet looks like. *)
Lemma parse_udp_host_ok packet ty h n :
  parse_udp_host packet ty = Ok (h, n) →
  4 ≤ n ≤ length packet ∧ norm_host h ∧ address_field ty (take (n - 4) (drop 4 packet)) h.
Proof.
  unfold parse_udp_host, address_field. intros E.
  case_bool_decide; [|case_bool_decide; [|case_bool_decide; [|done]]].
  - apply bind_ok_inv in E as (b & Hb%ok_or_ok & [= <- <-]).
    pose proof (slice_get_length _ _ _ _ Hb) as Hl. apply slice_get_Some in Hb as [Hr ->].
    destruct (be_value_ip4 _ Hl) as [? Ho]. split_and!; [lia|lia|done|]. left. split; [done|]. eexists. by rewrite Ho.
  - apply bind_ok_inv in E as (lb & Hlb%ok_or_ok & E). set (k := Z.to_nat (b2z lb)) in *.
    destruct (_ || _) eqn:Eb; [done|]. bool_to_prop.
    apply bind_ok_inv in E as (raw & Hraw%ok_or_ok & E). apply bind_ok_inv in E as (h' & Hd & [= <- <-]).
    pose proof (slice_get_length _ _ _ _ Hraw) as Hl. apply slice_get_Some in Hraw as [Hr Hraw].
    split_and!; [lia|lia|by apply (socks_domain_ok raw); [lia|]|]. right; right. split; [done|].
    exists lb, raw. split_and!; [|lia|done]. rewrite Hraw. erewrite drop_S by exact Hlb.
    change (S (S (S (S (S k)))) - 4) with (S k). cbn [firstn]. f_equal. change (drop (4 + 1) packet) with (drop 5 packet). f_equal; lia.
  - apply bind_ok_inv in E as (b & Hb%ok_or_ok & [= <- <-]).
    pose proof (slice_get_length _ _ _ _ Hb) as Hl. apply slice_get_Some in Hb as [Hr ->].
    destruct (be_value_ip6 _ Hl) as [? Ho]. split_and!; [lia|lia|done|]. right; left. split; [done|]. eexists. by rewrite Ho.
Qed.

Lemma parse_udp_request_ok packet t payload :
  parse_udp_request packet = Ok (t, payload) →
  norm_target t
  ∧ ∃ ty addr pt, packet = [x00; x00; x00; ty] ++ addr ++ pt ++ payload
      ∧ address_field ty addr (host t) ∧ pt = u16_be (port t).
Proof.
  unfold parse_udp_request. intros E. destruct packet as [|b0 [|b1 [|b2 [|ty tl]]]]; try done.
  destruct (_ || _) eqn:Eb; [done|]. destruct (negb (bool_decide (b2 = x00))) eqn:Ef; [done|]. bool_to_prop. subst.
  set (packet := x00 :: x00 :: x00 :: ty :: tl) in *.
  apply bind_ok_inv in E as ([h n] & (Hn & Hh & Ha)%parse_udp_host_ok & E).
  apply bind_ok_inv in E as (pt & Hpt%ok_or_ok & E). pose proof (slice_get_length _ _ _ _ Hpt) as Hl.
  apply slice_get_Some in Hpt as [Hr Hpt]. apply bind_ok_inv in E as (t' & Ht & E).
  apply bind_ok_inv in E as (pl & Hpl%ok_or_ok & [= <- <-]). apply slice_get_Some in Hpl as [_ ->].
  unfold Target_new in Ht. destruct (_ =? 0)%Z eqn:E0; [done|]. injection Ht as <-. bool_to_prop.
  split; [split_and!; cbn; [apply be_value_u16; lia|done|done]|].
  exists ty, (take (n - 4) (drop 4 packet)), pt. cbn [host port]. split_and!.
  - change ([x00; x00; x00; ty]) with (take 4 packet).
    rewrite (take_ge (drop (n + 2) packet)) by (rewrite length_drop; lia).
    rewrite Hpt. replace (n + 2 - n) with 2 by lia. rewrite <- (take_drop 4 packet) at 1. f_equal.
    rewrite <- (take_drop (n - 4) (drop 4 packet)) at 1. f_equal. rewrite drop_drop.
    replace (4 + (n - 4)) with n by lia. rewrite <- (take_drop 2 (drop n packet)) at 1. by rewrite drop_drop.
  - done.
  - unfold u16_be. rewrite be_bytes_be_value' by lia. done.
Qed.

Lemma parse_udp_request_no_panic packet : no_panic (parse_udp_request packet).
Proof.
  unfold parse_udp_request. repeat case_match; try done. unfold parse_udp_host, socks_domain, Target_new. np.
Qed.


(** ** Concrete inputs *)
Definition norm_sample : Target := {| host := Domain (#"a.example"); port := 443 |}.
Lemma norm_sample_ok : norm_target norm_sample.
Proof. split; [split; cbn; lia|]. split; [done|]. split_and!; [cbn; lia|cbn; lia|done|done|done]. Qed.


Definition socks_client_bytes : bytes :=
  ([x05; x01; x00] ++ ([x05; x01; x00] ++ [x03; x09] ++ #"a.example") ++ [x01; xbb]) ++ [x2a].

(** The outbound's bytes read by the inbound, and the answer with an IPv6 bound
    address read by the outbound. *)
Lemma socks5_interop_witness :
  ∃ written answer,
    (∃ s1 s2, (let! s _n := negotiate_method {| sc_in := [written ++ [x2a]]; sc_sent := [] |} in read_request s) = (s1, Ok (RConnect norm_sample))
       ∧ write_reply s1 x00 (Some (SockV6 1 443 0 0)) = (s2, Ok tt) ∧ sent s2 = answer)
    ∧ ∃ c', socks5_handshake {| sc_in := [answer; [x2b]]; sc_sent := [] |} norm_sample = (c', Ok tt)
        ∧ sent c' = written ∧ incoming c' = [x2b].
Proof.
  destruct (socks5_interop (S:=script_conn) (C:=script_conn) norm_sample norm_sample_ok) as (written & H).
  destruct (H (Some (SockV6 1 443 0 0))) as (answer & Hs & Hc). exists written, answer. split.
  - destruct (Hs {| sc_in := [written ++ [x2a]]; sc_sent := [] |} [x2a]) as (s1 & s2 & E1 & E2 & E3 & _).
    + cbn. by rewrite app_nil_r.
    + exists s1, s2. split; [exact E1|]. split; [exact E2|exact E3].
  - destruct (Hc {| sc_in := [answer; [x2b]]; sc_sent := [] |} [x2b]) as (c' & E1 & E2 & E3); [reflexivity|].
    exists c'. split; [exact E1|]. split; [exact E2|exact E3].
Defined.

Lemma socks5_request_exact_witness :
  (read_request {| sc_in := [drop 3 socks_client_bytes]; sc_sent := [] |}).2 = Ok (RConnect norm_sample)
  ∧ (read_request {| sc_in := [drop 3 socks_client_bytes]; sc_sent := [] |}).2 ≠ Panic.
Proof.
  split; [reflexivity|].
  apply (socks5_request_exact {| sc_in := [drop 3 socks_client_bytes]; sc_sent := [] |}).
Defined.

(** Only trailing dots are removed from a requested name, while the resolver
    removes leading dots as well: the name below escapes an exact rule for
    [ads.example] and is then resolved as [ads.example]. *)
Lemma leading_dot_escapes_exact_rule :
  socks_domain (#".ads.example") = Ok (Domain (#".ads.example"))
  ∧ matcher_matches (MDomainExact (#"ads.example"))
      (Target_flow 0 {| host := Domain (#".ads.example"); port := 443 |} Tcp).2 = false
  ∧ DnsQuery_new (#".ads.example") = Ok {| query_name := #"ads.example" |}.
Proof. split_and!; vm_compute; reflexivity. Qed.
