(* ===== verification/Socks5Udp.v ===== *)
(** * SOCKS5 UDP ASSOCIATE ([daemon/src/socks5.rs], the association)

    One association: the TCP control connection that owns its lifetime, the
    relay socket the client talks to, the datagram routes, the learned client
    address and the bounded queue of replies. One pass of the event loop is
    [assoc_iter]; the loop runs it until it returns. Sockets, poll and clock
    are the interface [UdpNet]. *)

From S2P Require Import Prelude RustStr RustNet Flow Policy DnsBase Proxy Trojan Conn Protocol Outbound Datagram Socks5.

Definition UDP_IDLE_TIMEOUT : Z := 120 * 1000000000.
Definition MAX_UDP_PACKET : Z := 65535.
Definition MAX_UDP_EVENT_BURST : nat := 32.
Definition MAX_PENDING_CLIENT_REPLIES : nat := 64.
Definition UDP_CONTROL_TOKEN : Z := 0.
Definition UDP_CLIENT_TOKEN : Z := 1.
Definition UDP_OUTBOUND_FIRST_TOKEN : Z := 2.

(** A poll event, as far as the loop looks at it. *)
Record Event := {
  ev_token : Z;
  ev_readable : bool;
  ev_writable : bool;
  ev_read_closed : bool;
  ev_error : bool;
}.

(** The operating system's side of an association. [replies] lists every
    datagram the relay socket was asked to send; [send_patience] bounds how
    often sending may still be interrupted. *)
Class UdpNet (W : Type) := {
  relay_recv_from : W → Z → W * result ErrorKind (bytes * SocketAddr);
  relay_send_to : W → bytes → SocketAddr → W * result ErrorKind nat;
  control_read : W → nat → W * result ErrorKind bytes;
  poll : W → Z → W * result ErrorKind (list Event);
  reregister_relay : W → bool → W * result ErrorKind unit;
  net_now : W → W * Z;
  replies : W → list (bytes * SocketAddr);
  send_patience : W → nat;
}.

Class UdpNetLaws (W : Type) `{UdpNet W} : Prop := {
  recv_keeps : ∀ w n, replies (relay_recv_from w n).1 = replies w;
  send_logs : ∀ w p a, replies (relay_send_to w p a).1 = replies w ++ [(p, a)];
  send_interrupted : ∀ w p a w', relay_send_to w p a = (w', Err EInterrupted) → send_patience w' < send_patience w;
  send_other : ∀ w p a, send_patience (relay_send_to w p a).1 ≤ send_patience w;
  send_returns : ∀ w p a, (relay_send_to w p a).2 ≠ Panic;
  control_keeps : ∀ w n, replies (control_read w n).1 = replies w;
  poll_keeps : ∀ w d, replies (poll w d).1 = replies w;
  reregister_keeps : ∀ w b, replies (reregister_relay w b).1 = replies w;
  now_keeps : ∀ w, replies (net_now w).1 = replies w;
}.

Section association.
  Context {W : Type} `{HNet : UdpNet W}.
  Context {X : Type} `{HExec : DatagramExecution X}.
  Context {Provider : Type}.
  Context (open_direct : W → W * result ErrorKind X).
  Context (open_provider : W → Provider → W * result ErrorKind X).
  Context (iter : gmap Endpoint (DatagramRoute X) → list (Endpoint * DatagramRoute X)).
  Context (runtime : Runtime) (outbounds : OutboundRegistry Provider).

(** ** Sending replies to the client *)
Definition send_or_queue_client_reply (w : W) (pending : list (bytes * SocketAddr)) (packet : bytes)
    (client : SocketAddr) : W * list (bytes * SocketAddr) * result ErrorKind bool :=
  match relay_send_to w packet client with
  | (w, Ok sent) => (w, pending, Ok (sent =? length packet))
  | (w, Err error) =>
      if bool_decide (error = EWouldBlock) || bool_decide (error = EInterrupted) then
        if MAX_PENDING_CLIENT_REPLIES <=? length pending then (w, pending, Ok false)
        else (w, pending ++ [(packet, client)], Ok true)
      else (w, pending, Ok false)
  | (w, Panic) => (w, pending, Panic)
  end.

(** Every pass takes a packet off the queue, stops, or was interrupted. *)
Fixpoint flush_loop (fuel : nat) (w : W) (pending : list (bytes * SocketAddr)) (sent_any : bool)
    : W * list (bytes * SocketAddr) * result ErrorKind bool :=
  match fuel with
  | O => (w, pending, Panic)
  | S fuel' =>
      match pending with
      | [] => (w, pending, Ok sent_any)
      | (packet, client) :: rest =>
          match relay_send_to w packet client with
          | (w, Ok sent) => flush_loop fuel' w rest (if sent =? length packet then true else sent_any)
          | (w, Err error) =>
              if bool_decide (error = EWouldBlock) then (w, pending, Ok sent_any)
              else if bool_decide (error = EInterrupted) then flush_loop fuel' w pending sent_any
              else flush_loop fuel' w rest sent_any
          | (w, Panic) => (w, pending, Panic)
          end
      end
  end.
Definition flush_pending_client_replies (w : W) (pending : list (bytes * SocketAddr))
    : W * list (bytes * SocketAddr) * result ErrorKind bool :=
  flush_loop (S (length pending + send_patience w)) w pending false.

(** ** The control connection *)
Fixpoint control_drain (n : nat) (w : W) : W * result ErrorKind bool :=
  match n with
  | O => (w, Ok false)
  | S n' =>
      match control_read w 256 with
      | (w, Ok b) => if length b =? 0 then (w, Ok true) else control_drain n' w
      | (w, Err error) =>
          if bool_decide (error = EWouldBlock) then (w, Ok false)
          else if bool_decide (error = EInterrupted) then control_drain n' w
          else if bool_decide (error = EConnectionReset) || bool_decide (error = EBrokenPipe)
                  || bool_decide (error = ENotConnected) then (w, Ok true)
          else (w, Err error)
      | (w, Panic) => (w, Panic)
      end
  end.
Definition control_event_is_closed (w : W) (event : Event) : W * result ErrorKind bool :=
  if ev_read_closed event || ev_error event then (w, Ok true)
  else if negb (ev_readable event) then (w, Ok false)
  else control_drain 4 w.

(** The first loop over the events of a batch. *)
Fixpoint control_closed (w : W) (events : list Event) : W * result ErrorKind bool :=
  match events with
  | [] => (w, Ok false)
  | event :: events' =>
      if (ev_token event =? UDP_CONTROL_TOKEN)%Z then
        match control_event_is_closed w event with
        | (w, Ok false) => control_closed w events'
        | r => r
        end
      else control_closed w events'
  end.

(** ** Client packets *)
Definition is_client_packet (source : SocketAddr) (control_ip : IpAddr) (client : option SocketAddr) : bool :=
  match client with
  | None => bool_decide (sock_ip source = control_ip)
  | Some client => bool_decide (source = client)
  end.

(** The local variables of the loop. *)
Record UdpAssociation := {
  a_net : W;
  a_routes : DatagramRouteSet X;
  route_tokens : DatagramTokenAllocator;
  next_flow : Z;
  client_address : option SocketAddr;
  pending_replies : list (bytes * SocketAddr);
  relay_writable : bool;
  last_activity : Z;
}.
Definition set_a_net (a : UdpAssociation) (w : W) : UdpAssociation :=
  {| a_net := w; a_routes := a_routes a; route_tokens := route_tokens a; next_flow := next_flow a;
     client_address := client_address a; pending_replies := pending_replies a;
     relay_writable := relay_writable a; last_activity := last_activity a |}.
Definition set_routes (a : UdpAssociation) (rs : DatagramRouteSet X) (al : DatagramTokenAllocator) (w : W)
    (next : Z) : UdpAssociation :=
  {| a_net := w; a_routes := rs; route_tokens := al; next_flow := next;
     client_address := client_address a; pending_replies := pending_replies a;
     relay_writable := relay_writable a; last_activity := last_activity a |}.
Definition set_client (a : UdpAssociation) (c : SocketAddr) : UdpAssociation :=
  {| a_net := a_net a; a_routes := a_routes a; route_tokens := route_tokens a; next_flow := next_flow a;
     client_address := Some c; pending_replies := pending_replies a;
     relay_writable := relay_writable a; last_activity := last_activity a |}.
Definition set_pending (a : UdpAssociation) (w : W) (p : list (bytes * SocketAddr)) : UdpAssociation :=
  {| a_net := w; a_routes := a_routes a; route_tokens := route_tokens a; next_flow := next_flow a;
     client_address := client_address a; pending_replies := p;
     relay_writable := relay_writable a; last_activity := last_activity a |}.
Definition set_writable (a : UdpAssociation) (w : W) (b : bool) : UdpAssociation :=
  {| a_net := w; a_routes := a_routes a; route_tokens := route_tokens a; next_flow := next_flow a;
     client_address := client_address a; pending_replies := pending_replies a;
     relay_writable := b; last_activity := last_activity a |}.
(** [last_activity = Instant::now()] *)
Definition touch (a : UdpAssociation) : UdpAssociation :=
  let '(w, n) := net_now (a_net a) in
  {| a_net := w; a_routes := a_routes a; route_tokens := route_tokens a; next_flow := next_flow a;
     client_address := client_address a; pending_replies := pending_replies a;
     relay_writable := relay_writable a; last_activity := n |}.

Definition handle_udp_client_packet (a : UdpAssociation) (packet : bytes)
    : UdpAssociation * result ErrorKind bool :=
  match parse_udp_request packet with
  | Err _ => (a, Ok false)
  | Panic => (a, Panic)
  | Ok (target, payload) =>
      let '(next, action) := plan_action runtime (next_flow a) target Udp in
      let a := set_routes a (a_routes a) (route_tokens a) (a_net a) next in
      match action with
      | Reject _ => (a, Ok false)
      | Route endpoint =>
          if negb (supports cap_udp (capabilities outbounds endpoint)) then (a, Ok false)
          else
            let '(rs, al, w, r) :=
              send_with (a_routes a) (route_tokens a) (a_net a) endpoint target payload
                (open_datagram open_direct open_provider outbounds) in
            (set_routes a rs al w next,
             match r with Ok _ => Ok true | Err _ => Ok false | Panic => Panic end)
      end
  end.

Fixpoint client_burst (n : nat) (control_ip : IpAddr) (a : UdpAssociation) : UdpAssociation * result ErrorKind unit :=
  match n with
  | O => (a, Ok tt)
  | S n' =>
      match relay_recv_from (a_net a) MAX_UDP_PACKET with
      | (w, Ok (packet, source)) =>
          let a := set_a_net a w in
          if negb (is_client_packet source control_ip (client_address a)) then client_burst n' control_ip a
          else
            match handle_udp_client_packet a packet with
            | (a, Ok true) =>
                let a := match client_address a with None => set_client a source | Some _ => a end in
                client_burst n' control_ip (touch a)
            | (a, Ok false) => client_burst n' control_ip a
            | (a, Err e) => (a, Err e)
            | (a, Panic) => (a, Panic)
            end
      | (w, Err error) =>
          let a := set_a_net a w in
          if bool_decide (error = EWouldBlock) then (a, Ok tt)
          else if bool_decide (error = EInterrupted) then client_burst n' control_ip a
          else (a, Err error)
      | (w, Panic) => (set_a_net a w, Panic)
      end
  end.

(** ** Datagrams from the outbound side *)
Definition take_routes (a : UdpAssociation) (rs : DatagramRouteSet X) : UdpAssociation :=
  set_routes a rs (route_tokens a) (a_net a) (next_flow a).

Fixpoint outbound_burst (n : nat) (a : UdpAssociation) (token : Z) : UdpAssociation * result ErrorKind unit :=
  match n with
  | O => (a, Ok tt)
  | S n' =>
      match receive_ready iter (a_routes a) token (Z.to_nat MAX_UDP_PACKET) with
      | (rs, Err e) => (take_routes a rs, Err e)
      | (rs, Panic) => (take_routes a rs, Panic)
      | (rs, Ok None) => (take_routes a rs, Ok tt)
      | (rs, Ok (Some received)) =>
          let a := take_routes a rs in
          match client_address a with
          | None => outbound_burst n' a token
          | Some client =>
              match encode_udp_response (dg_source received) (dg_payload received) with
              | Err e => (a, Err e)
              | Panic => (a, Panic)
              | Ok response =>
                  match send_or_queue_client_reply (a_net a) (pending_replies a) response client with
                  | (w, p, Ok true) => outbound_burst n' (touch (set_pending a w p)) token
                  | (w, p, Ok false) => outbound_burst n' (set_pending a w p) token
                  | (w, p, Err e) => (set_pending a w p, Err e)
                  | (w, p, Panic) => (set_pending a w p, Panic)
                  end
              end
          end
      end
  end.

Fixpoint outbound_bursts (a : UdpAssociation) (tokens : list Z) : UdpAssociation * result ErrorKind unit :=
  match tokens with
  | [] => (a, Ok tt)
  | token :: tokens' =>
      let! a _u := outbound_burst MAX_UDP_EVENT_BURST a token in
      outbound_bursts a tokens'
  end.

Definition flush_if (client_writable : bool) (a : UdpAssociation) : UdpAssociation * result ErrorKind unit :=
  if client_writable then
    match flush_pending_client_replies (a_net a) (pending_replies a) with
    | (w, p, Ok true) => (touch (set_pending a w p), Ok tt)
    | (w, p, Ok false) => (set_pending a w p, Ok tt)
    | (w, p, Err e) => (set_pending a w p, Err e)
    | (w, p, Panic) => (set_pending a w p, Panic)
    end
  else (a, Ok tt).

Definition update_interest (a : UdpAssociation) : UdpAssociation * result ErrorKind unit :=
  let wants_writable := negb (length (pending_replies a) =? 0) in
  if negb (Bool.eqb wants_writable (relay_writable a)) then
    match reregister_relay (a_net a) wants_writable with
    | (w, Ok _) => (set_writable a w wants_writable, Ok tt)
    | (w, r) => (set_a_net a w, r)
    end
  else (a, Ok tt).

(** ** One pass of the loop *)

(** After the control connection has been looked at. *)
Definition serve_events (control_ip : IpAddr) (a : UdpAssociation) (events : list Event)
    : UdpAssociation * result ErrorKind unit :=
  let client_readable := existsb (λ e, (ev_token e =? UDP_CLIENT_TOKEN)%Z && ev_readable e) events in
  let client_writable := existsb (λ e, (ev_token e =? UDP_CLIENT_TOKEN)%Z && ev_writable e) events in
  let outbound_ready := ev_token <$> List.filter (λ e, owns_token iter (a_routes a) (ev_token e)) events in
  let! a _c := (if client_readable then client_burst MAX_UDP_EVENT_BURST control_ip a else (a, Ok tt)) in
  let! a _o := outbound_bursts a outbound_ready in
  let! a _f := flush_if client_writable a in
  update_interest a.

(** [Ok true]: the handler returns [Ok(())]; [Ok false]: the loop goes on. *)
Definition assoc_iter (control_ip : IpAddr) (a : UdpAssociation) : UdpAssociation * result ErrorKind bool :=
  let '(w, n) := net_now (a_net a) in
  let a := set_a_net a w in
  let remaining := Z.max 0 (UDP_IDLE_TIMEOUT - Z.max 0 (n - last_activity a)) in
  if (remaining =? 0)%Z then (a, Ok true)
  else
    match poll (a_net a) remaining with
    | (w, Panic) => (set_a_net a w, Panic)
    | (w, Err error) => (set_a_net a w, if bool_decide (error = EInterrupted) then Ok false else Err error)
    | (w, Ok events) =>
        let a := set_a_net a w in
        if length events =? 0 then (a, Ok true)
        else
          match control_closed (a_net a) events with
          | (w, Ok true) => (set_a_net a w, Ok true)
          | (w, Err e) => (set_a_net a w, Err e)
          | (w, Panic) => (set_a_net a w, Panic)
          | (w, Ok false) =>
              let! a _u := serve_events control_ip (set_a_net a w) events in
              (a, Ok false)
          end
    end.

(** The loop; [fuel] bounds the passes looked at. *)
Fixpoint assoc_loop (fuel : nat) (control_ip : IpAddr) (a : UdpAssociation) : UdpAssociation * result ErrorKind unit :=
  match fuel with
  | O => (a, Panic)
  | S fuel' =>
      match assoc_iter control_ip a with
      | (a, Ok true) => (a, Ok tt)
      | (a, Ok false) => assoc_loop fuel' control_ip a
      | (a, Err e) => (a, Err e)
      | (a, Panic) => (a, Panic)
      end
  end.

Definition association_new (w : W) (next : Z) (control_ip : IpAddr) (hint : UdpClientHint) : UdpAssociation :=
  let '(w, n) := net_now w in
  {| a_net := w; a_routes := DatagramRouteSet_new;
     route_tokens := DatagramTokenAllocator_new UDP_OUTBOUND_FIRST_TOKEN; next_flow := next;
     client_address := (λ p, sock_new control_ip p) <$> hint_port hint;
     pending_replies := []; relay_writable := false; last_activity := n |}.

(** ** The association invariant *)
  Context `{HLaws : !UdpNetLaws W}.
  Hypothesis iter_perm : ∀ m, iter m ≡ₚ map_to_list m.
  (** Opening a datagram path sends nothing on the relay socket. *)
  Hypothesis open_direct_keeps : ∀ w, replies (open_direct w).1 = replies w.
  Hypothesis open_provider_keeps : ∀ w p, replies (open_provider w p).1 = replies w.

(** A reply: an encapsulated datagram, addressed to the learned client. *)
Definition is_reply (client : option SocketAddr) (r : bytes * SocketAddr) : Prop :=
  client = Some r.2 ∧ ∃ t payload, encode_udp_response t payload = Ok r.1.

(** [before] is what the relay socket had sent when the association began. *)
Record assoc_ok (control_ip : IpAddr) (before : list (bytes * SocketAddr)) (a : UdpAssociation) : Prop := {
  ok_routes : routes_ok (a_routes a) (route_tokens a);
  ok_endpoints : ∀ e, is_Some (routes (a_routes a) !! e) →
    ∃ n t, (plan_action runtime n t Udp).2 = Route e;
  ok_client : ∀ c, client_address a = Some c → sock_ip c = control_ip;
  ok_bounded : length (pending_replies a) ≤ MAX_PENDING_CLIENT_REPLIES;
  ok_pending : Forall (is_reply (client_address a)) (pending_replies a);
  ok_sent : ∃ l, replies (a_net a) = before ++ l ∧ Forall (is_reply (client_address a)) l;
}.

(** A step that keeps the invariant and a learned client. *)
Definition good (control_ip : IpAddr) (before : list (bytes * SocketAddr)) (a a' : UdpAssociation) : Prop :=
  assoc_ok control_ip before a →
  assoc_ok control_ip before a' ∧ ∀ c, client_address a = Some c → client_address a' = Some c.

  Context (control_ip : IpAddr) (before : list (bytes * SocketAddr)).

#[local] Instance good_refl : Reflexive (good control_ip before).
Proof. by intros a Ha. Qed.
#[local] Instance good_trans : Transitive (good control_ip before).
Proof. intros a b c H1 H2 Ha. destruct (H1 Ha) as [Hb Hc]. destruct (H2 Hb) as [Hd He]. eauto. Qed.

Lemma set_a_net_good a w : replies w = replies (a_net a) → good control_ip before a (set_a_net a w).
Proof. intros Hw [????? H6]. split; [|done]. constructor; try done. cbn. by rewrite Hw. Qed.

Lemma touch_good a : good control_ip before a (touch a).
Proof.
  unfold touch. pose proof (now_keeps (a_net a)) as Hn. destruct (net_now (a_net a)) as [w n]. cbn in Hn.
  intros [????? H6]. split; [|done]. constructor; try done. cbn. by rewrite Hn.
Qed.

(** Learning the client. *)
Lemma is_reply_learn l c : Forall (is_reply None) l → Forall (is_reply (Some c)) l.
Proof. intros H. eapply Forall_impl; [exact H|]. by intros x [? _]. Qed.

Lemma set_client_good a c :
  client_address a = None → sock_ip c = control_ip → good control_ip before a (set_client a c).
Proof.
  intros Hn Hc [H1 H2 H3 H4 H5 (l & H6 & H7)]. rewrite Hn in *. split; [|done].
  constructor; cbn; try done.
  - by intros ? [= <-].
  - by apply is_reply_learn.
  - exists l. split; [done|by apply is_reply_learn].
Qed.

Lemma set_pending_good a w p l :
  replies w = replies (a_net a) ++ l → Forall (is_reply (client_address a)) l →
  length p ≤ MAX_PENDING_CLIENT_REPLIES → Forall (is_reply (client_address a)) p →
  good control_ip before a (set_pending a w p).
Proof.
  intros Hw Hl Hp Hf [H1 H2 H3 H4 H5 (l0 & H6 & H7)]. split; [|done]. constructor; cbn; try done.
  exists (l0 ++ l). rewrite Hw, H6. by rewrite app_assoc, Forall_app.
Qed.

Lemma set_routes_good a rs al w next :
  (assoc_ok control_ip before a → routes_ok rs al
     ∧ ∀ e, is_Some (routes rs !! e) → ∃ n t, (plan_action runtime n t Udp).2 = Route e) →
  replies w = replies (a_net a) → good control_ip before a (set_routes a rs al w next).
Proof.
  intros Hr Hw Ha. destruct (Hr Ha) as [R1 R2]. destruct Ha as [????? H6]. split; [|done].
  constructor; try done. cbn. by rewrite Hw.
Qed.

(** *** Replies *)
Lemma send_or_queue_ok w p packet client :
  let '(w', p', _) := send_or_queue_client_reply w p packet client in
  replies w' = replies w ++ [(packet, client)]
  ∧ (length p ≤ MAX_PENDING_CLIENT_REPLIES → length p' ≤ MAX_PENDING_CLIENT_REPLIES)
  ∧ (p' = p ∨ p' = p ++ [(packet, client)]).
Proof.
  unfold send_or_queue_client_reply. pose proof (send_logs w packet client) as Hs.
  destruct (relay_send_to w packet client) as [w' [n|e|]]; cbn in Hs; [by auto| |by auto].
  destruct (_ || _); [|by auto]. destruct (_ <=? _) eqn:El; [by auto|]. bool_to_prop.
  split_and!; [done| |by right]. rewrite length_app. cbn. lia.
Qed.

Lemma flush_loop_ok fuel w p sa :
  let '(w', p', _) := flush_loop fuel w p sa in
  (∃ l, replies w' = replies w ++ l ∧ ∀ x, x ∈ l → x ∈ p) ∧ p' `suffix_of` p.
Proof.
  revert w p sa; induction fuel as [|fuel IH]; intros w p sa; cbn [flush_loop].
  { split; [exists []; rewrite app_nil_r; set_solver|done]. }
  destruct p as [|[packet client] rest]; [split; [exists []; rewrite app_nil_r; set_solver|done]|].
  pose proof (send_logs w packet client) as Hs. destruct (relay_send_to w packet client) as [w1 r]. cbn in Hs.
  assert (∀ w' (p' : list (bytes * SocketAddr)) q, q = rest ∨ q = (packet, client) :: rest →
    (∃ l, replies w' = replies w1 ++ l ∧ ∀ x, x ∈ l → x ∈ q) ∧ p' `suffix_of` q →
    (∃ l, replies w' = replies w ++ l ∧ ∀ x, x ∈ l → x ∈ (packet, client) :: rest)
    ∧ p' `suffix_of` (packet, client) :: rest) as Hstep.
  { intros w' p' q Hq [(l & Hl & Hin) Hsuf]. split.
    - exists ((packet, client) :: l). rewrite Hl, Hs, <- app_assoc. split; [done|].
      destruct Hq as [-> | ->]; set_solver.
    - destruct Hq as [-> | ->]; [by apply suffix_cons_r|done]. }
  assert ((∃ l, replies w1 = replies w ++ l ∧ ∀ x, x ∈ l → x ∈ (packet, client) :: rest)
    ∧ (packet, client) :: rest `suffix_of` (packet, client) :: rest) as Hstop.
  { split; [exists [(packet, client)]; set_solver|done]. }
  destruct r as [n|e|]; [| |done].
  - specialize (IH w1 rest (if n =? length packet then true else sa)).
    destruct (flush_loop fuel w1 rest _) as [[w' p'] r']. by apply (Hstep w' p' rest); [left|].
  - destruct (bool_decide (e = EWouldBlock)); [done|]. destruct (bool_decide (e = EInterrupted)).
    + specialize (IH w1 ((packet, client) :: rest) sa). destruct (flush_loop fuel w1 _ _) as [[w' p'] r'].
      apply (Hstep w' p' ((packet, client) :: rest)); [by right|done].
    + specialize (IH w1 rest sa). destruct (flush_loop fuel w1 rest _) as [[w' p'] r'].
      by apply (Hstep w' p' rest); [left|].
Qed.

Lemma flush_loop_returns fuel w p sa :
  length p + send_patience w < fuel → (flush_loop fuel w p sa).2 ≠ Panic.
Proof.
  revert w p sa; induction fuel as [|fuel IH]; intros w p sa Hf; [lia|]. cbn [flush_loop].
  destruct p as [|[packet client] rest]; [done|]. cbn [length] in Hf.
  pose proof (send_returns w packet client) as Hr. pose proof (send_other w packet client) as Ho.
  pose proof (send_interrupted w packet client) as Hi.
  destruct (relay_send_to w packet client) as [w1 [n|e|]]; cbn in Hr, Ho; [apply IH; lia| |done].
  destruct (bool_decide (e = EWouldBlock)); [done|]. case_bool_decide as Ei; [|apply IH; lia].
  subst e. specialize (Hi _ eq_refl). apply IH. cbn [length]. lia.
Qed.

Lemma flush_if_good b a : good control_ip before a (flush_if b a).1.
Proof.
  unfold flush_if. destruct b; [|reflexivity]. unfold flush_pending_client_replies.
  pose proof (flush_loop_ok (Datatypes.S (length (pending_replies a) + send_patience (a_net a)))
    (a_net a) (pending_replies a) false) as H.
  destruct (flush_loop _ _ _ _) as [[w p] r]. destruct H as [(l & Hl & Hin) Hs].
  assert (good control_ip before a (set_pending a w p)) as Hg.
  { intros Ha. pose proof (ok_pending _ _ _ Ha) as Hp. pose proof (ok_bounded _ _ _ Ha) as Hb.
    apply (set_pending_good a w p l); [done| | | |exact Ha].
    - rewrite Forall_forall in *. auto.
    - apply suffix_length in Hs. lia.
    - destruct Hs as [k Hs]. rewrite Hs, Forall_app in Hp. by destruct Hp. }
  destruct r as [[|]|e|]; try exact Hg. etransitivity; [exact Hg|apply touch_good].
Qed.

Lemma reply_good a client response :
  client_address a = Some client → (∃ t payload, encode_udp_response t payload = Ok response) →
  let '(w, p, _) := send_or_queue_client_reply (a_net a) (pending_replies a) response client in
  good control_ip before a (set_pending a w p).
Proof.
  intros Hc Henc. pose proof (send_or_queue_ok (a_net a) (pending_replies a) response client) as H.
  destruct (send_or_queue_client_reply _ _ _ _) as [[w p] r]. destruct H as (Hl & Hb & Hp).
  intros Ha. pose proof (ok_pending _ _ _ Ha) as Hf. pose proof (ok_bounded _ _ _ Ha) as Hn.
  assert (Forall (is_reply (client_address a)) [(response, client)]) as Hone by by apply Forall_singleton.
  apply (set_pending_good a w p [(response, client)]); [done|done|by apply Hb| |exact Ha].
  destruct Hp as [-> | ->]; [done|]. by apply Forall_app.
Qed.

(** *** Routes *)
Lemma open_datagram_keeps w e :
  replies (open_datagram open_direct open_provider outbounds w e).1 = replies w.
Proof.
  unfold open_datagram. destruct e as [|id]; [apply open_direct_keeps|].
  destruct (endpoints outbounds !! id) as [c|]; [|done]. destruct (ep_datagram c); [apply open_provider_keeps|done].
Qed.

Lemma send_with_keeps rs al w e target payload :
  replies (send_with rs al w e target payload (open_datagram open_direct open_provider outbounds)).1.2 = replies w.
Proof.
  unfold send_with. destruct (routes rs !! e) as [route|].
  { by destruct (dg_send _ _ _). }
  destruct (_ <=? _); [done|]. pose proof (open_datagram_keeps w e) as Ho.
  destruct (open_datagram _ _ _ w e) as [w1 [x|er|]]; cbn in Ho; try done.
  destruct (allocate _ _) as [al' [ts|er|]]; try done.
  destruct (register_readiness _ _) as [x1 [u|er|]]; try done. cbn [execution]. by destruct (dg_send _ _ _).
Qed.

Lemma handle_udp_client_packet_good a packet :
  good control_ip before a (handle_udp_client_packet a packet).1.
Proof.
  unfold handle_udp_client_packet. destruct (parse_udp_request packet) as [[target payload]|e|]; [|reflexivity..].
  destruct (plan_action runtime (next_flow a) target Udp) as [next [e|reason]] eqn:Ep.
  2: { apply set_routes_good; [|done]. by intros [? ? _ _ _ _]. }
  destruct (negb _).
  { apply set_routes_good; [|done]. by intros [? ? _ _ _ _]. }
  cbn [a_routes route_tokens a_net set_routes].
  pose proof (send_with_keeps (a_routes a) (route_tokens a) (a_net a) e target payload) as Hk.
  pose proof (send_with_ok (a_routes a) (route_tokens a) (a_net a) e target payload
    (open_datagram open_direct open_provider outbounds)) as Hok.
  destruct (send_with _ _ _ _ _ _ _) as [[[rs al] w] r]. cbn in Hk. cbn [fst].
  change (set_routes (set_routes a _ _ _ _) rs al w next) with (set_routes a rs al w next).
  apply set_routes_good; [|done]. intros [Hr He _ _ _ _]. destruct (Hok Hr) as (H1 & _ & H3). split; [done|].
  intros e' [r' Hr']. destruct (H3 e' r' Hr') as [(r0 & H0 & _)|[-> _]]; [by eauto|].
  exists (next_flow a), target. by rewrite Ep.
Qed.

Lemma client_burst_good n a : good control_ip before a (client_burst n control_ip a).1.
Proof.
  revert a; induction n as [|n IH]; intros a; [reflexivity|]. cbn [client_burst].
  pose proof (recv_keeps (a_net a) MAX_UDP_PACKET) as Hk.
  destruct (relay_recv_from (a_net a) MAX_UDP_PACKET) as [w r]. cbn in Hk.
  pose proof (set_a_net_good a w Hk) as Hw. destruct r as [[packet source]|e|]; [| |exact Hw].
  - etransitivity; [exact Hw|]. clear Hw. set (b := set_a_net a w).
    destruct (negb _) eqn:Ec; [apply IH|]. apply negb_false_iff in Ec.
    pose proof (handle_udp_client_packet_good b packet) as Hg.
    assert (client_address (handle_udp_client_packet b packet).1 = client_address b) as Hsame.
    { unfold handle_udp_client_packet. repeat case_match; done. }
    destruct (handle_udp_client_packet b packet) as [b' [[|]|e|]]; cbn [fst] in Hg, Hsame; [| |exact Hg..].
    + etransitivity; [exact Hg|]. etransitivity; [|apply IH].
      destruct (client_address b') as [c|] eqn:Eb'; [apply touch_good|].
      etransitivity; [|apply touch_good]. apply set_client_good; [done|].
      rewrite <- Hsame in Ec. cbn in Ec. by apply bool_decide_eq_true in Ec.
    + etransitivity; [exact Hg|apply IH].
  - destruct (bool_decide (e = EWouldBlock)); [exact Hw|]. destruct (bool_decide _); [|exact Hw].
    etransitivity; [exact Hw|apply IH].
Qed.

Lemma take_routes_good a token n :
  good control_ip before a (take_routes a (receive_ready iter (a_routes a) token n).1).
Proof.
  apply set_routes_good; [|done]. intros [Hr He _ _ _ _]. split.
  - by apply (receive_ready_ok iter iter_perm).
  - intros e. unfold receive_ready. destruct (List.find _ _) as [[e1 r1]|] eqn:Ef; [|by apply He].
    apply find_some in Ef as [Hin _]. apply list_elem_of_In, (elem_of_iter iter iter_perm) in Hin.
    destruct (dg_receive _ _) as [x res]. cbn. intros [r' [[<- _]|[_ Hl]]%lookup_insert_Some]; eauto.
Qed.

Lemma outbound_burst_good n a token : good control_ip before a (outbound_burst n a token).1.
Proof.
  revert a; induction n as [|n IH]; intros a; [reflexivity|]. cbn [outbound_burst].
  pose proof (take_routes_good a token (Z.to_nat MAX_UDP_PACKET)) as Hg.
  destruct (receive_ready _ _ _ _) as [rs [[received|]|e|]]; cbn [fst] in Hg; [|exact Hg..].
  etransitivity; [exact Hg|]. clear Hg. set (b := take_routes a rs).
  destruct (client_address b) as [client|] eqn:Ec; [|apply IH].
  destruct (encode_udp_response _ _) as [response|e|] eqn:Er; [|reflexivity..].
  pose proof (reply_good b client response Ec (ex_intro _ _ (ex_intro _ _ Er))) as Hp.
  destruct (send_or_queue_client_reply _ _ _ _) as [[w p] [[|]|e|]]; [| |exact Hp..].
  - etransitivity; [exact Hp|]. etransitivity; [apply touch_good|apply IH].
  - etransitivity; [exact Hp|apply IH].
Qed.

(** *** The whole pass *)
Lemma seq_good {A B} a (p : UdpAssociation * result ErrorKind A) (f : UdpAssociation → A → UdpAssociation * result ErrorKind B) :
  good control_ip before a p.1 → (∀ b x, good control_ip before b (f b x).1) → good control_ip before a (seq_ p f).1.
Proof. intros Hp Hf. destruct p as [b [x|e|]]; cbn in *; [|done..]. etransitivity; [exact Hp|apply Hf]. Qed.

Lemma outbound_bursts_good tokens a : good control_ip before a (outbound_bursts a tokens).1.
Proof.
  revert a; induction tokens as [|t tokens IH]; intros a; [reflexivity|]. cbn [outbound_bursts].
  apply seq_good; [apply outbound_burst_good|auto].
Qed.

Lemma update_interest_good a : good control_ip before a (update_interest a).1.
Proof.
  unfold update_interest. destruct (negb (Bool.eqb _ _)); [|reflexivity].
  pose proof (reregister_keeps (a_net a) (negb (length (pending_replies a) =? 0))) as Hk.
  destruct (reregister_relay _ _) as [w r]. cbn in Hk. pose proof (set_a_net_good a w Hk) as Hw.
  destruct r as [u|e|]; try exact Hw. intros Ha. destruct (Hw Ha) as [[? ? ? ? ? ?] ?]. split; [|done].
  by constructor.
Qed.

Lemma serve_events_good a events : good control_ip before a (serve_events control_ip a events).1.
Proof.
  unfold serve_events. apply seq_good; [destruct (existsb _ _); [apply client_burst_good|reflexivity]|intros b _].
  apply seq_good; [apply outbound_bursts_good|intros c _]. apply seq_good; [apply flush_if_good|].
  intros d _. apply update_interest_good.
Qed.

Lemma control_closed_keeps w events : replies (control_closed w events).1 = replies w.
Proof.
  assert (∀ n w, replies (control_drain n w).1 = replies w) as Hd.
  { intros n. induction n as [|n IH]; intros w0; [done|]. cbn [control_drain].
    pose proof (control_keeps w0 256) as Hk. destruct (control_read w0 256) as [w1 [b|e|]]; cbn in Hk; [|..|done].
    - destruct (_ =? 0); [done|]. by rewrite IH.
    - repeat case_match; cbn; try done. by rewrite IH. }
  revert w; induction events as [|ev events IH]; intros w; [done|]. cbn [control_closed].
  destruct (_ =? _)%Z; [|apply IH].
  assert (replies (control_event_is_closed w ev).1 = replies w) as Hk.
  { unfold control_event_is_closed. destruct (_ || _); [done|]. destruct (negb _); [done|apply Hd]. }
  destruct (control_event_is_closed w ev) as [w1 [[|]|e|]]; cbn in Hk; try done. by rewrite IH.
Qed.

Lemma assoc_iter_good a : good control_ip before a (assoc_iter control_ip a).1.
Proof.
  unfold assoc_iter. pose proof (now_keeps (a_net a)) as Hn. destruct (net_now (a_net a)) as [w n]. cbn in Hn.
  etransitivity; [by apply (set_a_net_good a w)|]. set (b := set_a_net a w). case_match; [reflexivity|].
  set (remaining := Z.max _ _). pose proof (poll_keeps (a_net b) remaining) as Hp.
  destruct (poll (a_net b) remaining) as [w1 r]. cbn [fst] in Hp. pose proof (set_a_net_good b w1 Hp) as Hg.
  destruct r as [events|e|]; try exact Hg. etransitivity; [exact Hg|]. clear Hg. set (c := set_a_net b w1).
  case_match; [reflexivity|]. pose proof (control_closed_keeps (a_net c) events) as Hc.
  destruct (control_closed (a_net c) events) as [w2 r]. cbn [fst] in Hc. pose proof (set_a_net_good c w2 Hc) as Hg.
  destruct r as [[|]|e|]; try exact Hg. etransitivity; [exact Hg|]. apply seq_good; [apply serve_events_good|].
  intros d _. reflexivity.
Qed.

(** A pass of the loop, whatever it returns. *)
Definition assoc_step (a a' : UdpAssociation) : Prop := (assoc_iter control_ip a).1 = a'.

Lemma association_new_ok w next hint :
  before = replies w → assoc_ok control_ip before (association_new w next control_ip hint).
Proof.
  intros ->. unfold association_new. pose proof (now_keeps w) as Hn. destruct (net_now w) as [w1 n]. cbn in Hn.
  constructor; cbn [a_net a_routes route_tokens client_address pending_replies]; try done.
  - apply routes_ok_new.
  - intros e [r Hr]. cbn in Hr. by rewrite lookup_empty in Hr.
  - intros c. destruct (hint_port hint); [|done]. intros [= <-]. by destruct control_ip.
  - cbn. unfold MAX_PENDING_CLIENT_REPLIES. lia.
  - exists []. by rewrite Hn, app_nil_r.
Qed.

Lemma assoc_reachable_ok w next hint a :
  before = replies w → rtc assoc_step (association_new w next control_ip hint) a → assoc_ok control_ip before a.
Proof.
  intros Hb Hs. eapply (rtc_preserves assoc_step); [|exact Hs|by apply association_new_ok].
  intros x y <- Hx. by apply assoc_iter_good.
Qed.
End association.
Arguments UdpAssociation : clear implicits.

(** ** The handler *)
Section handler.
  Context {W : Type} `{HNet : UdpNet W} {X : Type} `{HExec : DatagramExecution X} {Provider : Type}.
  Context (open_direct : W → W * result ErrorKind X).
  Context (open_provider : W → Provider → W * result ErrorKind X).
  Context (iter : gmap Endpoint (DatagramRoute X) → list (Endpoint * DatagramRoute X)).
  Context (runtime : Runtime) (outbounds : OutboundRegistry Provider).
  Context {S : Type} `{HConn : Conn S}.
  Context (peer_addr local_addr : S → result ErrorKind SocketAddr).
  (** Binding the relay socket gives its address; [set_up] switches both
      sockets to non-blocking mode and registers them with a new poll. *)
  Context (bind_relay : W → SocketAddr → W * result ErrorKind SocketAddr).
  Context (set_up : S → W → W * result ErrorKind unit).

Definition handle_udp_associate (fuel : nat) (control : S) (w : W) (next : Z) (hint : UdpClientHint)
    : S * W * Z * result ErrorKind unit :=
  match peer_addr control with
  | Err e => (control, w, next, Err e)
  | Panic => (control, w, next, Panic)
  | Ok control_peer =>
      if match hint_ip hint with Some ip => negb (bool_decide (ip = sock_ip control_peer)) | None => false end then
        let '(control, r) :=
          let! control _w := write_reply control x02 None in (control, Err EPermissionDenied) in
        (control, w, next, r)
      else
        match local_addr control with
        | Err e => (control, w, next, Err e)
        | Panic => (control, w, next, Panic)
        | Ok bind_address =>
            match bind_relay w (sock_new (sock_ip bind_address) 0) with
            | (w, Err e) => (control, w, next, Err e)
            | (w, Panic) => (control, w, next, Panic)
            | (w, Ok relay_address) =>
                match write_reply control x00 (Some relay_address) with
                | (control, Err e) => (control, w, next, Err e)
                | (control, Panic) => (control, w, next, Panic)
                | (control, Ok _) =>
                    match set_up control w with
                    | (w, Err e) => (control, w, next, Err e)
                    | (w, Panic) => (control, w, next, Panic)
                    | (w, Ok _) =>
                        let '(a, r) := assoc_loop open_direct open_provider iter runtime outbounds fuel
                          (sock_ip control_peer)
                          (association_new w next (sock_ip control_peer) hint) in
                        (control, a_net a, next_flow a, r)
                    end
                end
            end
        end
  end.
  Context {R : Type}.
  Context (connect_tcp : W → Endpoint → Target → W * result ErrorKind R).
  Context (remote_local_addr : R → option SocketAddr).
  Context (relay_to_client : W → R → S → W * result ErrorKind unit).
  Context (set_timeouts : S → bool → S * result ErrorKind unit).

(** The whole SOCKS5 handler, both commands. *)
Definition socks5_handle (fuel : nat) (client : S) (w : W) (next : Z) : S * W * Z * result ErrorKind unit :=
  handle connect_tcp remote_local_addr relay_to_client set_timeouts (handle_udp_associate fuel) runtime client w next.
End handler.

Section confined.
  Context {W : Type} `{HNet : UdpNet W} `{HLaws : !UdpNetLaws W}.
  Context {X : Type} `{HExec : DatagramExecution X} {Provider : Type}.
  Context (open_direct : W → W * result ErrorKind X).
  Context (open_provider : W → Provider → W * result ErrorKind X).
  Context (iter : gmap Endpoint (DatagramRoute X) → list (Endpoint * DatagramRoute X)).
  Context (runtime : Runtime) (outbounds : OutboundRegistry Provider).
  Hypothesis iter_perm : ∀ m, iter m ≡ₚ map_to_list m.
  Hypothesis open_direct_keeps : ∀ w, replies (open_direct w).1 = replies w.
  Hypothesis open_provider_keeps : ∀ w p, replies (open_provider w p).1 = replies w.

(** C5. A SOCKS5 UDP association is confined to its client and to the policy,
    after any number of passes of its event loop: every datagram the relay
    socket was asked to send, or still holds in its queue of at most 64, is a
    well-formed encapsulated reply to the one learned client address; that
    address belongs to the host of the TCP control connection and, once
    learned, is never replaced; and datagram routes exist only for endpoints
    the policy chose for some UDP target, at most 32 of them. Flushing the
    queue always ends. *)
Theorem udp_association_confined control_ip w next hint a :
  rtc (assoc_step open_direct open_provider iter runtime outbounds control_ip)
    (association_new w next control_ip hint) a →
  (∃ l, replies (a_net a) = replies w ++ l ∧ Forall (is_reply (client_address a)) l)
  ∧ Forall (is_reply (client_address a)) (pending_replies a)
  ∧ length (pending_replies a) ≤ MAX_PENDING_CLIENT_REPLIES
  ∧ (∀ c, client_address a = Some c → sock_ip c = control_ip
       ∧ ∀ a', assoc_step open_direct open_provider iter runtime outbounds control_ip a a' →
           client_address a' = Some c)
  ∧ (∀ e, is_Some (routes (a_routes a) !! e) → ∃ n t, (plan_action runtime n t Udp).2 = Route e)
  ∧ size (routes (a_routes a)) ≤ MAX_DATAGRAM_ROUTES
  ∧ ∀ w p, (flush_pending_client_replies (W:=W) w p).2 ≠ Panic.
Proof.
  intros Hs.
  assert (assoc_ok runtime control_ip (replies w) a) as Hok
    by (eapply (assoc_reachable_ok open_direct open_provider iter runtime outbounds); eauto).
  pose proof Hok as [[Hsize _] He Hc Hb Hp Hl]. split_and!; try done.
  - intros c Ec. split; [by apply Hc|]. intros a' <-.
    eapply (assoc_iter_good open_direct open_provider iter runtime outbounds); eauto.
  - intros w0 p. apply flush_loop_returns. lia.
Qed.
End confined.

(** ** A concrete association *)

(** A world with one client packet waiting and a log of sent replies. *)
Record toy_net := { toy_in : list (bytes * SocketAddr); toy_sent : list (bytes * SocketAddr); toy_clock : Z }.
#[local] Instance toy_UdpNet : UdpNet toy_net := {
  relay_recv_from w n :=
    match toy_in w with
    | p :: ps => ({| toy_in := ps; toy_sent := toy_sent w; toy_clock := toy_clock w |}, Ok p)
    | [] => (w, Err EWouldBlock)
    end;
  relay_send_to w p a :=
    ({| toy_in := toy_in w; toy_sent := toy_sent w ++ [(p, a)]; toy_clock := toy_clock w |}, Ok (length p));
  control_read w n := (w, Err EWouldBlock);
  poll w d := (w, Ok [{| ev_token := 1; ev_readable := true; ev_writable := false;
                         ev_read_closed := false; ev_error := false |}]);
  reregister_relay w b := (w, Ok tt);
  net_now w := (w, toy_clock w);
  replies := toy_sent;
  send_patience _ := 0;
}.
#[local] Instance toy_UdpNetLaws : UdpNetLaws toy_net.
Proof. split; cbn; try done. by intros [[|p ps] s c] n. Qed.

#[local] Instance toy_execution : DatagramExecution nat := {
  dg_send x _ _ := (S x, Ok tt);
  dg_receive x _ := (x, Ok None);
  readiness_source_count _ := 1;
  register_readiness x _ := (x, Ok tt);
}.
Definition toy_open (w : toy_net) : toy_net * result ErrorKind nat := (w, Ok 0).
Definition toy_provider (w : toy_net) (p : unit) : toy_net * result ErrorKind nat := (w, Ok 0).
Definition toy_runtime : Runtime := Runtime_new (PolicyEngine_new [] (PRoute Direct)).
Definition toy_start : toy_net :=
  {| toy_in := [([x00; x00; x00; x01; x08; x08; x08; x08; x00; x35; x2a], SockV4 2130706433 4000)];
     toy_sent := []; toy_clock := 5 |}.
Definition toy_association : UdpAssociation toy_net nat :=
  association_new toy_start 0 (V4 2130706433) {| hint_ip := None; hint_port := None |}.
Definition toy_after : UdpAssociation toy_net nat :=
  (assoc_iter toy_open toy_provider map_to_list toy_runtime {| endpoints := ∅ |} (V4 2130706433) toy_association).1.

Lemma toy_after_client : client_address toy_after = Some (SockV4 2130706433 4000).
Proof. vm_compute. reflexivity. Qed.

Lemma udp_association_confined_witness :
  client_address toy_after = Some (SockV4 2130706433 4000)
  ∧ length (pending_replies toy_after) ≤ MAX_PENDING_CLIENT_REPLIES.
Proof.
  split; [exact toy_after_client|].
  apply (udp_association_confined toy_open toy_provider map_to_list toy_runtime {| endpoints := ∅ |}
    (λ m, reflexivity (map_to_list m)) (λ w, eq_refl) (λ w p, eq_refl)
    (V4 2130706433) toy_start 0 {| hint_ip := None; hint_port := None |} toy_after).
  apply rtc_once. unfold assoc_step, toy_after, toy_association. reflexivity.
Defined.
