(* ===== verification/UdpBacklog.v ===== *)
(** * What a SOCKS5 UDP association does with its client's datagrams
    ([daemon/src/socks5.rs])

    The association's loop takes at most 32 datagrams from the client per
    readiness event. The poll is edge-triggered, as mio documents it: new
    datagrams in the relay socket wake it, datagrams that merely wait there do
    not, and it may also wake up for nothing. When the wakeups come, and what
    each brings, is an arbitrary schedule. *)

From S2P Require Import Prelude RustStr RustNet Flow Policy DnsBase Proxy Trojan Conn Protocol Outbound Datagram Socks5 Socks5Udp.

Definition packet : Type := bytes * SocketAddr.

(** ** The machine *)
Record Backlog (V : Type) := {
  bl_in : list packet;               (** in the relay socket *)
  bl_later : list (Z * list packet); (** wakeups: the time until each, and what arrives with it *)
  bl_sent : list packet;
  bl_now : Z;
  bl_world : V;                  (** what opening an outbound acts on *)
}.
Arguments bl_in {V}. Arguments bl_later {V}. Arguments bl_sent {V}. Arguments bl_now {V}. Arguments bl_world {V}.

Section machine.
  Context {V : Type}.

Definition with_queue (w : Backlog V) (q : list packet) (later : list (Z * list packet)) (t : Z) : Backlog V :=
  {| bl_in := q; bl_later := later; bl_sent := bl_sent w; bl_now := t; bl_world := bl_world w |}.
Definition with_world (w : Backlog V) (v : V) : Backlog V :=
  {| bl_in := bl_in w; bl_later := bl_later w; bl_sent := bl_sent w; bl_now := bl_now w; bl_world := v |}.

Definition readable_event : Event :=
  {| ev_token := UDP_CLIENT_TOKEN; ev_readable := true; ev_writable := false; ev_read_closed := false; ev_error := false |}.
(** The next wakeup, if it comes before the timeout. *)
Definition backlog_poll (w : Backlog V) (d : Z) : Backlog V * result ErrorKind (list Event) :=
  match bl_later w with
  | (t, b) :: later =>
      if (t <? d)%Z then (with_queue w (bl_in w ++ b) later (bl_now w + t), Ok [readable_event])
      else (with_queue w (bl_in w) (bl_later w) (bl_now w + d), Ok [])
  | [] => (with_queue w (bl_in w) [] (bl_now w + d), Ok [])
  end.

#[export] Instance backlog_net : UdpNet (Backlog V) := {
  relay_recv_from w n :=
    match bl_in w with
    | p :: q => (with_queue w q (bl_later w) (bl_now w), Ok (take (Z.to_nat n) p.1, p.2))
    | [] => (w, Err EWouldBlock)
    end;
  relay_send_to w p a :=
    ({| bl_in := bl_in w; bl_later := bl_later w; bl_sent := bl_sent w ++ [(p, a)]; bl_now := bl_now w;
        bl_world := bl_world w |}, Ok (length p));
  control_read w n := (w, Err EWouldBlock);
  poll := backlog_poll;
  reregister_relay w b := (w, Ok tt);
  net_now w := (w, bl_now w);
  replies := bl_sent;
  send_patience _ := 0;
}.
#[export] Instance backlog_laws : UdpNetLaws (Backlog V).
Proof.
  split; cbn; try done.
  - intros w n. by destruct (bl_in w).
  - intros w d. unfold backlog_poll. destruct (bl_later w) as [|[t b] later]; [done|]. by destruct (_ <? _)%Z.
Qed.
End machine.

Section backlog.
  Context {V : Type} {X : Type} `{HExec : DatagramExecution X} {Provider : Type}.
  Context (open_direct : V → V * result ErrorKind X).
  Context (open_provider : V → Provider → V * result ErrorKind X).
  Context (iter : gmap Endpoint (DatagramRoute X) → list (Endpoint * DatagramRoute X)).
  Context (runtime : Runtime) (outbounds : OutboundRegistry Provider).
  Context (control_ip : IpAddr).

Definition lifted_direct (w : Backlog V) : Backlog V * result ErrorKind X :=
  let '(v, r) := open_direct (bl_world w) in (with_world w v, r).
Definition lifted_provider (w : Backlog V) (p : Provider) : Backlog V * result ErrorKind X :=
  let '(v, r) := open_provider (bl_world w) p in (with_world w v, r).

Notation handle := (handle_udp_client_packet lifted_direct lifted_provider runtime outbounds).
Notation burst := (client_burst lifted_direct lifted_provider runtime outbounds).
Notation loop := (assoc_loop lifted_direct lifted_provider iter runtime outbounds).
Notation Assoc := (UdpAssociation (Backlog V) X).

(** One datagram, handled on its own. *)
Definition client_packet (a : Assoc) (p : packet) : Assoc :=
  if is_client_packet p.2 control_ip (client_address a) then
    match handle a (take (Z.to_nat MAX_UDP_PACKET) p.1) with
    | (a, Ok true) => touch (match client_address a with None => set_client a p.2 | Some _ => a end)
    | (a, _) => a
    end
  else a.

(** The association apart from its clock and from what waits or will arrive. *)
Definition core (a : Assoc) : Assoc :=
  {| a_net := with_queue (a_net a) [] [] 0; a_routes := a_routes a; route_tokens := route_tokens a; next_flow := next_flow a;
     client_address := client_address a; pending_replies := pending_replies a; relay_writable := relay_writable a;
     last_activity := 0 |}.

  (** No operation of the outbounds panics. *)
  Hypothesis direct_returns : ∀ v, (open_direct v).2 ≠ Panic.
  Hypothesis provider_returns : ∀ v p, (open_provider v p).2 ≠ Panic.
  Hypothesis send_returns : ∀ (x : X) t b, (dg_send x t b).2 ≠ Panic.
  Hypothesis register_returns : ∀ (x : X) ts, (register_readiness x ts).2 ≠ Panic.

(** ** Handling a datagram does not look at the backlog *)
Lemma open_queue w e q l t :
  open_datagram lifted_direct lifted_provider outbounds (with_queue w q l t) e
  = let '(w', r) := open_datagram lifted_direct lifted_provider outbounds w e in (with_queue w' q l t, r).
Proof.
  unfold open_datagram, lifted_direct, lifted_provider. destruct e; cbn; repeat case_match; simplify_eq; done.
Qed.
Lemma open_returns w e : (open_datagram lifted_direct lifted_provider outbounds w e).2 ≠ Panic.
Proof.
  unfold open_datagram, lifted_direct, lifted_provider. destruct e as [|id].
  - pose proof (direct_returns (bl_world w)). by destruct (open_direct _).
  - destruct (_ !! id) as [c|]; [|done]. destruct (ep_datagram c) as [p|]; [|done].
    pose proof (provider_returns (bl_world w) p). by destruct (open_provider _ _).
Qed.
Lemma send_queue rs al w e target payload q l t :
  let open := open_datagram lifted_direct lifted_provider outbounds in
  send_with rs al (with_queue w q l t) e target payload open
  = let '(rs', al', w', r) := send_with rs al w e target payload open in (rs', al', with_queue w' q l t, r).
Proof.
  cbn zeta. unfold send_with. destruct (routes rs !! e) as [route|]; [by destruct (dg_send _ _ _)|].
  destruct (_ <=? _); [done|]. rewrite open_queue. destruct (open_datagram _ _ _ w e) as [w' [x|er|]]; [|done..].
  destruct (allocate _ _) as [al' [ts|er|]]; [|done..]. destruct (register_readiness x ts) as [x' [u|er|]]; [|done..].
  by destruct (dg_send _ _ _).
Qed.
Lemma send_no_panic rs al w e target payload :
  (send_with rs al w e target payload (open_datagram lifted_direct lifted_provider outbounds)).2 ≠ Panic.
Proof.
  unfold send_with. destruct (routes rs !! e) as [route|].
  { pose proof (send_returns (execution route) target payload). by destruct (dg_send _ _ _). }
  destruct (_ <=? _); [done|]. pose proof (open_returns w e) as Ho. destruct (open_datagram _ _ _ w e) as [w' [x|er|]]; [|done..].
  destruct (allocate al (readiness_source_count x)) as [al' [ts|er|]] eqn:Ea; [|done|unfold allocate in Ea; by repeat case_match].
  pose proof (register_returns x ts) as Hx. destruct (register_readiness x ts) as [x' [u|er|]]; [|done..].
  pose proof (send_returns x' target payload) as Hs. cbn [execution]. by destruct (dg_send _ _ _).
Qed.

Lemma handle_core a b : handle (core a) b = let '(a', r) := handle a b in (core a', r).
Proof.
  unfold handle_udp_client_packet. destruct (parse_udp_request b) as [[target payload]|er|]; [|done..].
  cbn [next_flow core]. destruct (plan_action _ _ _ _) as [next action]. destruct action as [endpoint|]; [|done].
  destruct (negb _); [done|]. cbn [a_routes route_tokens a_net set_routes core]. rewrite send_queue.
  by destruct (send_with _ _ _ _ _ _ _) as [[[? ?] ?] ?].
Qed.
Lemma handle_returns a b : ∃ a' sent, handle a b = (a', Ok sent).
Proof.
  unfold handle_udp_client_packet. pose proof (parse_udp_request_no_panic b) as Hp.
  destruct (parse_udp_request b) as [[target payload]|er|]; [|eauto|done].
  destruct (plan_action _ _ _ _) as [next action]. destruct action as [endpoint|]; [|eauto]. destruct (negb _); [eauto|].
  match goal with |- context [send_with ?rs ?al ?w ?e ?t ?p _] => pose proof (send_no_panic rs al w e t p) as Hs end.
  destruct (send_with _ _ _ _ _ _ _) as [[[? ?] ?] [u|er|]]; [eauto..|done].
Qed.

(** What handling a datagram leaves alone. *)
Definition same_outside (a a' : Assoc) : Prop :=
  bl_in (a_net a') = bl_in (a_net a) ∧ bl_later (a_net a') = bl_later (a_net a) ∧ bl_now (a_net a') = bl_now (a_net a)
  ∧ pending_replies a' = pending_replies a ∧ relay_writable a' = relay_writable a
  ∧ (last_activity a' = last_activity a ∨ last_activity a' = bl_now (a_net a)).
#[local] Instance same_outside_preorder : PreOrder same_outside.
Proof.
  split; [intros a; unfold same_outside; by split_and!; auto|]. intros a b c (A1 & A2 & A3 & A4 & A5 & A6) (B1 & B2 & B3 & B4 & B5 & B6).
  unfold same_outside. split_and!; [congruence..|]. rewrite A3 in B6. destruct B6 as [->| ->]; auto.
Qed.

Lemma send_outside rs al w e target payload :
  let '(_, _, w', _) := send_with rs al w e target payload (open_datagram lifted_direct lifted_provider outbounds) in
  bl_in w' = bl_in w ∧ bl_later w' = bl_later w ∧ bl_now w' = bl_now w.
Proof.
  pose proof (send_queue rs al w e target payload (bl_in w) (bl_later w) (bl_now w)) as H. cbn zeta in H.
  assert (with_queue w (bl_in w) (bl_later w) (bl_now w) = w) as Ew by (by destruct w). rewrite Ew in H.
  destruct (send_with _ _ _ _ _ _ _) as [[[? ?] w'] r]. injection H as ->. done.
Qed.
Lemma handle_outside a b : same_outside a (handle a b).1.
Proof.
  unfold handle_udp_client_packet. destruct (parse_udp_request b) as [[target payload]|er|]; [|done..].
  destruct (plan_action _ _ _ _) as [next action]. destruct action as [endpoint|]; [|by split_and!; auto].
  destruct (negb _); [by split_and!; auto|]. cbn [a_routes route_tokens a_net set_routes].
  pose proof (send_outside (a_routes a) (route_tokens a) (a_net a) endpoint target payload) as H.
  destruct (send_with _ _ _ _ _ _ _) as [[[? ?] w'] r]. destruct H as (H1 & H2 & H3). unfold same_outside. cbn. split_and!; auto.
Qed.
Lemma touch_outside a : same_outside a (touch a).
Proof. unfold same_outside. cbn. split_and!; auto. Qed.

Lemma client_packet_outside a p : same_outside a (client_packet a p).
Proof.
  unfold client_packet. destruct (is_client_packet _ _ _); [|done].
  pose proof (handle_outside a (take (Z.to_nat MAX_UDP_PACKET) p.1)) as H.
  destruct (handle a _) as [a' [[]|er|]]; cbn [fst] in H; try done.
  destruct (client_address a'); (trans a'; [done|]); [apply touch_outside|]. unfold same_outside. cbn. split_and!; auto.
Qed.

Lemma client_packet_core a p : client_packet (core a) p = core (client_packet a p).
Proof.
  unfold client_packet. cbn [client_address core]. destruct (is_client_packet _ _ _); [|done].
  rewrite handle_core. destruct (handle a _) as [a' [[]|er|]]; try done. cbn [client_address core]. by destruct (client_address a').
Qed.

(** The tokens of the routes come after the association's own. *)
Definition tokens_apart (a : Assoc) : Prop :=
  routes_ok (a_routes a) (route_tokens a) ∧ (UDP_CLIENT_TOKEN < next_token (route_tokens a))%Z
  ∧ ∀ e r, routes (a_routes a) !! e = Some r → Forall (λ t, UDP_CLIENT_TOKEN < t)%Z (tokens r).

Lemma handle_apart a b : tokens_apart a → tokens_apart (handle a b).1.
Proof.
  intros Ha. unfold handle_udp_client_packet. destruct (parse_udp_request b) as [[target payload]|er|]; [|done..].
  destruct (plan_action _ _ _ _) as [next action]. destruct action as [endpoint|]; [|done]. destruct (negb _); [done|].
  cbn [a_routes route_tokens a_net set_routes]. destruct Ha as (Hok & Hn & Ht).
  pose proof (send_with_ok (a_routes a) (route_tokens a) (a_net a) endpoint target payload
    (open_datagram lifted_direct lifted_provider outbounds) Hok) as H.
  destruct (send_with _ _ _ _ _ _ _) as [[[rs al] w'] r]. destruct H as (H1 & H2 & H3). split_and!; cbn; [done|lia|].
  intros e r0 [(r1 & Hr1 & <-)|(-> & _ & Hf)]%H3; [by eapply Ht|]. eapply Forall_impl; [exact Hf|]. cbn. lia.
Qed.
Lemma client_packet_apart a p : tokens_apart a → tokens_apart (client_packet a p).
Proof.
  intros Ha. unfold client_packet. destruct (is_client_packet _ _ _); [|done].
  pose proof (handle_apart a (take (Z.to_nat MAX_UDP_PACKET) p.1) Ha) as H.
  destruct (handle a _) as [a' [[]|er|]]; cbn [fst] in H; try done. by destruct (client_address a').
Qed.

(** ** A burst *)

(** The datagram at the head of the socket has been taken. *)
Definition taken (a : Assoc) (q : list packet) : Assoc :=
  set_a_net a (with_queue (a_net a) q (bl_later (a_net a)) (bl_now (a_net a))).

Lemma burst_nil n a : bl_in (a_net a) = [] → burst n control_ip a = (a, Ok tt).
Proof. intros E. destruct n; [done|]. cbn. rewrite E. cbn. by destruct a. Qed.
Lemma burst_cons n a p q :
  bl_in (a_net a) = p :: q → burst (S n) control_ip a = burst n control_ip (client_packet (taken a q) p).
Proof.
  intros E. cbn [client_burst relay_recv_from backlog_net]. rewrite E. cbn [fst snd]. fold (taken a q). unfold client_packet.
  destruct (is_client_packet _ _ _); cbn [negb]; [|done].
  destruct (handle_returns (taken a q) (take (Z.to_nat MAX_UDP_PACKET) p.1)) as (a' & sent & ->). by destruct sent, (client_address a').
Qed.

(** [served a a' l rest]: the datagrams [l] have been handled and [rest] are left. *)
Record served (a a' : Assoc) (l rest : list packet) : Prop := {
  sv_in : bl_in (a_net a') = rest;
  sv_later : bl_later (a_net a') = bl_later (a_net a);
  sv_now : bl_now (a_net a') = bl_now (a_net a);
  sv_pending : pending_replies a' = pending_replies a;
  sv_writable : relay_writable a' = relay_writable a;
  sv_activity : last_activity a' = last_activity a ∨ last_activity a' = bl_now (a_net a);
  sv_apart : tokens_apart a → tokens_apart a';
  sv_state : core a' = foldl client_packet (core a) l;
}.

Lemma burst_serves n a :
  ∃ a', burst n control_ip a = (a', Ok tt) ∧ served a a' (take n (bl_in (a_net a))) (drop n (bl_in (a_net a))).
Proof.
  revert a. induction n as [|n IH]; intros a; [exists a; split; [done|by split; auto]|].
  destruct (bl_in (a_net a)) as [|p q] eqn:E; [exists a; split; [by apply burst_nil|by split; auto]|].
  rewrite (burst_cons n a p q E). set (a1 := client_packet (taken a q) p). destruct (IH a1) as (a' & -> & Hs).
  pose proof (client_packet_outside (taken a q) p) as (O1 & O2 & O3 & O4 & O5 & O6). fold a1 in O1, O2, O3, O4, O5, O6.
  cbn in O1, O2, O3, O4, O5, O6. rewrite O1 in Hs. destruct Hs. rewrite O3 in *. exists a'. split; [done|].
  split; [done|congruence..| | |].
  - destruct sv_activity0 as [->| ->]; auto.
  - intros Ha. apply sv_apart0. by apply client_packet_apart.
  - cbn [take foldl]. rewrite sv_state0. f_equal. exact (eq_sym (client_packet_core (taken a q) p)).
Qed.

(** ** The loop *)
  Hypothesis iter_perm : ∀ m, iter m ≡ₚ map_to_list m.

Definition active (a : Assoc) : Prop :=
  (last_activity a ≤ bl_now (a_net a) < last_activity a + UDP_IDLE_TIMEOUT)%Z
  ∧ pending_replies a = [] ∧ relay_writable a = false ∧ tokens_apart a.
(** Everything that waits or will arrive. *)
Definition backlog (a : Assoc) : list packet := bl_in (a_net a) ++ concat (bl_later (a_net a)).*2.

Lemma client_token_foreign a : tokens_apart a → owns_token iter (a_routes a) UDP_CLIENT_TOKEN = false.
Proof.
  intros (_ & _ & Ht). unfold owns_token. destruct (existsb _ _) eqn:E; [|done]. exfalso.
  apply existsb_exists in E as ([e r] & Hin & Hb). apply list_elem_of_In in Hin. rewrite iter_perm, elem_of_map_to_list in Hin.
  apply bool_decide_eq_true in Hb. cbn in Hb. specialize (Ht e r Hin). rewrite Forall_forall in Ht. specialize (Ht _ Hb). lia.
Qed.

(** The association after the wakeup. *)
Definition woken (a : Assoc) (t : Z) (b : list packet) (later : list (Z * list packet)) : Assoc :=
  set_a_net a (with_queue (a_net a) (bl_in (a_net a) ++ b) later (bl_now (a_net a) + t)).

Notation pass := (assoc_iter lifted_direct lifted_provider iter runtime outbounds control_ip).

Lemma serve_serves a :
  active a →
  ∃ a', serve_events lifted_direct lifted_provider iter runtime outbounds control_ip a [readable_event] = (a', Ok tt)
    ∧ served a a' (take MAX_UDP_EVENT_BURST (bl_in (a_net a))) (drop MAX_UDP_EVENT_BURST (bl_in (a_net a))).
Proof.
  intros (_ & Hp & Hr & Ht). unfold serve_events. cbn [existsb List.filter ev_token readable_event ev_readable ev_writable andb orb].
  rewrite (client_token_foreign a Ht), Z.eqb_refl. cbn [andb orb fmap list_fmap].
  destruct (burst_serves MAX_UDP_EVENT_BURST a) as (a' & -> & Hs). exists a'. split; [|done]. cbn [seq_ outbound_bursts flush_if].
  unfold update_interest. by rewrite (sv_pending _ _ _ _ Hs), (sv_writable _ _ _ _ Hs), Hp, Hr.
Qed.

Definition remaining (a : Assoc) : Z := last_activity a + UDP_IDLE_TIMEOUT - bl_now (a_net a).

(** A wakeup in time is followed by a burst. *)
Lemma pass_serves a t b later :
  active a → bl_later (a_net a) = (t, b) :: later → (0 ≤ t < remaining a)%Z →
  let q := bl_in (a_net a) ++ b in
  ∃ a', pass a = (a', Ok false)
    ∧ served (woken a t b later) a' (take MAX_UDP_EVENT_BURST q) (drop MAX_UDP_EVENT_BURST q).
Proof.
  intros ((Hl & Hu) & Hp & Hr & Ht) El Hd. unfold remaining in Hd. cbn zeta. destruct (serve_serves (woken a t b later)) as (a' & E & Hs).
  { split; [cbn; lia|done]. }
  exists a'. split; [|exact Hs]. unfold assoc_iter. cbn [net_now backlog_net last_activity set_a_net a_net].
  rewrite (proj2 (Z.eqb_neq _ _)) by lia. cbn [poll backlog_net]. unfold backlog_poll. rewrite El.
  rewrite (proj2 (Z.ltb_lt _ _)) by lia.
  cbn [length Nat.eqb control_closed ev_token readable_event]. change (UDP_CLIENT_TOKEN =? UDP_CONTROL_TOKEN)%Z with false.
  cbn [set_a_net a_net]. fold readable_event.
  match goal with |- context [serve_events _ _ _ _ _ _ ?x _] => change x with (woken a t b later) end.
  by rewrite E.
Qed.

(** Otherwise the poll times out and the association ends. *)
Lemma pass_ends a :
  active a → match bl_later (a_net a) with [] => True | (t, _) :: _ => (remaining a ≤ t)%Z end →
  ∃ a', pass a = (a', Ok true) ∧ core a' = core a ∧ bl_in (a_net a') = bl_in (a_net a) ∧ bl_later (a_net a') = bl_later (a_net a)
    ∧ remaining a' = 0%Z.
Proof.
  intros ((Hl & Hu) & _) Hn. unfold assoc_iter, remaining in *. cbn [net_now backlog_net last_activity set_a_net a_net].
  rewrite (proj2 (Z.eqb_neq _ _)) by lia. cbn [poll backlog_net]. unfold backlog_poll.
  destruct (bl_later (a_net a)) as [|[t b] later] eqn:El; [|rewrite (proj2 (Z.ltb_ge _ _)) by lia]; cbn;
    eexists; (split; [done|]); cbn; split_and!; auto; lia.
Qed.

End backlog.

(** ** A concrete backlog *)
#[local] Existing Instance toy_execution.

(** Thirty-two datagrams, a wakeup for nothing and two more, for the direct
    route's execution, which counts what it sends. *)
Definition backlog_start : UdpAssociation (Backlog unit) nat :=
  let p := ([x00; x00; x00; x01; x08; x08; x08; x08; x00; x35; x2a], SockV4 2130706433 4000) in
  association_new {| bl_in := []; bl_later := [(0, replicate 32 p); (7, []); (1000, [p; p])]%Z; bl_sent := []; bl_now := 5; bl_world := tt |}
    0 (V4 2130706433) {| hint_ip := None; hint_port := None |}.

Lemma backlog_start_active : active backlog_start.
Proof.
  split; [split; vm_compute; [discriminate|reflexivity]|]. split; [reflexivity|]. split; [reflexivity|].
  split; [apply routes_ok_new|]. split; [reflexivity|]. intros e r. cbn. by rewrite lookup_empty.
Qed.

