(* ===== verification/Config.v ===== *)
(** * The configuration compiler ([daemon/src/config.rs])

    One function per directive over the part of the parser's local state it
    touches, the loop over the lines, the final checks, and the store with its
    candidate-then-swap reload. An error is the line it names; messages are
    not modelled. The file system, rustls's server-name check and SHA-224 are
    parameters. A resolver object is represented by its summary. *)

From S2P Require Import Prelude RustStr RustNet Flow Cidr DomainSet Policy Blocklist DnsBase DnsCache DnsEngine Proxy Trojan Conn Protocol Outbound.

Definition MAX_CONFIG_BYTES : Z := 1024 * 1024.
Definition MAX_RULES : Z := 4096.
Definition MAX_LISTENERS : nat := 16.
Definition MAX_BLOCKLISTS : nat := 8.
Definition MAX_HOSTS_FILES : nat := 4.
Definition MAX_PROXY_ENDPOINTS : nat := 64.
Definition MAX_DNS_RESOLVERS : nat := 8.

Inductive ListenerProtocol := LSocks5 | LHttpConnect | LTproxyTcp | LTproxyUdp.
Definition is_udp (p : ListenerProtocol) : bool := match p with LTproxyUdp => true | _ => false end.
Record ListenerConfig := { l_protocol : ListenerProtocol; l_address : SocketAddr }.
Record BlocklistSummary := { b_path : str; b_stats : BlocklistStats }.
Record HostsSummary := { h_path : str; h_records : nat }.
Inductive DnsResolverSummary := RSystem | RDot (address : SocketAddr) (server_name : str).
Record TrojanDatagramProvider := { pr_verifier : TrojanVerifier; pr_transport : TlsTransport }.

Record ConfigError := MkConfigError { ce_line : option nat }.
Definition ConfigError_global : ConfigError := MkConfigError None.
Definition ConfigError_at (line : nat) : ConfigError := MkConfigError (Some line).

(** ** Paths *)

(** [PathBuf] equality and hashing compare components: repeated and trailing
    separators do not count, nor does [.] except at the start of a relative
    path. *)
Definition path_components (p : str) : bool * list str :=
  let parts := split_on x2f p in
  let keep := List.filter (λ c, negb (length c =? 0) && negb (bool_decide (c = [x2e]))) in
  (starts_with [x2f] p,
   match parts with
   | c :: rest => if bool_decide (c = [x2e]) then c :: keep rest else keep parts
   | [] => []
   end).

(** [Path::join] of a relative path. *)
Definition path_join (root path : str) : str :=
  if length root =? 0 then path
  else if bool_decide (last root = Some x2f) then root ++ path
  else root ++ [x2f] ++ path.

Definition resolve_asset_path (root value : str) : str :=
  if starts_with [x2f] value then value else path_join root value.

(** ** Line parsers *)
Definition expect_fields (fields : list str) (expected line : nat) : result ConfigError unit :=
  if length fields =? expected then Ok tt else Err (ConfigError_at line).

Definition ensure_rule_capacity (current line : nat) : result ConfigError unit :=
  if (Z.of_nat current <? MAX_RULES)%Z then Ok tt else Err (ConfigError_at line).

Definition config_domain (value : str) (line : nat) : result ConfigError str :=
  let normalized := to_ascii_lowercase (trim_matches x2e value) in
  if (length normalized =? 0) || (253 <? length normalized) then Err (ConfigError_at line) else Ok normalized.

Definition parse_action (value : str) (line : nat) : result ConfigError (PolicyAction * option EndpointId) :=
  if bool_decide (value = #"direct") then Ok (PRoute Direct, None)
  else if bool_decide (value = #"reject") then Ok (PReject RejectPolicy, None)
  else
    value ← ok_or (strip_prefix (#"proxy:") value) (ConfigError_at line);
    id ← map_err (λ _, ConfigError_at line) (EndpointId_new value);
    Ok (PRoute (Proxy id), Some id).

Definition parse_matcher (fields : list str) (line : nat) : result ConfigError Matcher :=
  match fields with
  | [_; _; kind] => if bool_decide (kind = #"any") then Ok MAny else Err (ConfigError_at line)
  | [_; _; kind; value] =>
      if bool_decide (kind = #"domain-exact") then
        d ← config_domain value line; Ok (MDomainExact d)
      else if bool_decide (kind = #"domain-suffix") then
        d ← config_domain value line; Ok (MDomainSuffix d)
      else if bool_decide (kind = #"ip") then
        a ← ok_or (parse_ip value) (ConfigError_at line); Ok (MIp a)
      else if bool_decide (kind = #"cidr") then
        c ← map_err (λ _, ConfigError_at line) (cidr_from_str value); Ok (MCidr c)
      else if bool_decide (kind = #"port") then
        p ← ok_or (parse_u16 value) (ConfigError_at line);
        if (p =? 0)%Z then Err (ConfigError_at line) else Ok (MPort p)
      else if bool_decide (kind = #"transport") then
        if bool_decide (value = #"tcp") then Ok (MTransport Tcp)
        else if bool_decide (value = #"udp") then Ok (MTransport Udp)
        else Err (ConfigError_at line)
      else Err (ConfigError_at line)
  | _ => Err (ConfigError_at line)
  end.

Definition parse_rule (fields : list str) (line : nat) (id : Z)
    : result ConfigError (PolicyRule * option EndpointId) :=
  if length fields <? 3 then Err (ConfigError_at line)
  else
    '(action, proxy_ref) ← parse_action (nth 1 fields []) line;
    matcher ← parse_matcher fields line;
    Ok ({| rule_id := id; rule_tier := UserHard; rule_matcher := matcher; rule_action := action |}, proxy_ref).

Definition parse_proxy_address (value : str) (line : nat) : result ConfigError SocketAddr :=
  address ← ok_or (parse_socket_addr value) (ConfigError_at line);
  if (sock_port address =? 0)%Z then Err (ConfigError_at line) else Ok address.

Section parser.
  (** Assets: [fs_len] is [fs::metadata(path).len()], [fs_read] is
      [fs::read_to_string(path)]. *)
  Context (fs_len : str → option Z) (fs_read : str → option str).
  Context (valid_server_name : str → bool) (sha224 : bytes → bytes).

Definition parse_tls_transport_raw (address server_name : str) (line : nat) : result ConfigError TlsTransport :=
  address ← parse_proxy_address address line;
  map_err (λ _, ConfigError_at line) (TlsTransport_with_client_config valid_server_name address server_name).

Definition parse_tls_transport (address server_name : str) (line : nat) : result ConfigError TransportConfig :=
  t ← parse_tls_transport_raw address server_name line; Ok (TlsConfig t).

Definition read_bounded_asset (path : str) (max_bytes : Z) (line : nat) : result ConfigError str :=
  len ← ok_or (fs_len path) (ConfigError_at line);
  if (max_bytes <? len)%Z then Err (ConfigError_at line)
  else ok_or (fs_read path) (ConfigError_at line).

Definition load_blocklist (path : str) (line : nat) : result ConfigError (DomainFilter * BlocklistStats) :=
  text ← read_bounded_asset path MAX_BLOCKLIST_BYTES line;
  compiled ← map_err (λ _, ConfigError_at line) (compile_blocklist text);
  Ok (cb_filter compiled, cb_stats compiled).

Definition load_hosts (path : str) (line : nat) : result ConfigError HostsTable :=
  text ← read_bounded_asset path MAX_HOSTS_BYTES line;
  map_err (λ _, ConfigError_at line) (HostsTable_parse text).

(** ** Directives *)

(** The local variables of [parse_config_at], grouped by the directives that
    touch them. *)
Record ListenState := { listeners : list ListenerConfig; listener_addresses : gset (bool * SocketAddr) }.
Record DnsState := {
  dns_resolver_summaries : list DnsResolverSummary;
  dns_resolvers : list DnsResolverSummary;
  dns_resolver_keys : gset str;
}.
Record EndpointState := {
  endpoint_configs : list (ProxyEndpointConfig TrojanDatagramProvider);
  endpoint_ids : gset EndpointId;
}.
Record HostsState := {
  hosts_files : list HostsSummary;
  hosts_paths : gset (bool * list str);
  hosts_table : HostsTable;
}.
Record RuleState := {
  rules : list PolicyRule;
  next_rule_id : Z;
  referenced_endpoints : gset EndpointId;
  default_action : option PolicyAction;
  blocklists : list BlocklistSummary;
  blocklist_paths : gset (bool * list str);
}.
Record ParserState := {
  version_seen : bool;
  allow_public_listen : option bool;
  p_listen : ListenState;
  p_dns : DnsState;
  p_endpoints : EndpointState;
  p_hosts : HostsState;
  p_rules : RuleState;
}.

Definition version_directive (version_seen : bool) (fields : list str) (line : nat) : result ConfigError bool :=
  _u ← expect_fields fields 2 line;
  if negb (bool_decide (nth 1 fields [] = #"1")) then Err (ConfigError_at line)
  else if version_seen then Err (ConfigError_at line)
  else Ok true.

Definition allow_public_directive (allow : option bool) (fields : list str) (line : nat)
    : result ConfigError (option bool) :=
  _u ← expect_fields fields 2 line;
  if bool_decide (is_Some allow) then Err (ConfigError_at line)
  else if bool_decide (nth 1 fields [] = #"true") then Ok (Some true)
  else if bool_decide (nth 1 fields [] = #"false") then Ok (Some false)
  else Err (ConfigError_at line).

Definition listener_protocol (name : str) : option ListenerProtocol :=
  if bool_decide (name = #"socks5") then Some LSocks5
  else if bool_decide (name = #"http") then Some LHttpConnect
  else if bool_decide (name = #"tproxy-tcp") then Some LTproxyTcp
  else if bool_decide (name = #"tproxy-udp") then Some LTproxyUdp
  else None.

Definition listen_directive (st : ListenState) (fields : list str) (line : nat) : result ConfigError ListenState :=
  _u ← expect_fields fields 3 line;
  if MAX_LISTENERS <=? length (listeners st) then Err (ConfigError_at line)
  else
    protocol ← ok_or (listener_protocol (nth 1 fields [])) (ConfigError_at line);
    address ← ok_or (parse_socket_addr (nth 2 fields [])) (ConfigError_at line);
    if (sock_port address =? 0)%Z then Err (ConfigError_at line)
    else if bool_decide ((is_udp protocol, address) ∈ listener_addresses st) then Err (ConfigError_at line)
    else Ok {| listeners := listeners st ++ [{| l_protocol := protocol; l_address := address |}];
               listener_addresses := {[ (is_udp protocol, address) ]} ∪ listener_addresses st |}.

Definition add_resolver (st : DnsState) (key : str) (r : DnsResolverSummary) (line : nat) : result ConfigError DnsState :=
  if bool_decide (key ∈ dns_resolver_keys st) then Err (ConfigError_at line)
  else Ok {| dns_resolver_summaries := dns_resolver_summaries st ++ [r];
             dns_resolvers := dns_resolvers st ++ [r];
             dns_resolver_keys := {[ key ]} ∪ dns_resolver_keys st |}.

Definition resolver_directive (st : DnsState) (fields : list str) (line : nat) : result ConfigError DnsState :=
  if MAX_DNS_RESOLVERS <=? length (dns_resolvers st) then Err (ConfigError_at line)
  else match fields with
  | [_; kind] =>
      if bool_decide (kind = #"system") then add_resolver st (#"system") RSystem line else Err (ConfigError_at line)
  | [_; kind; address; server_name] =>
      if bool_decide (kind = #"dot") then
        address ← ok_or (parse_socket_addr address) (ConfigError_at line);
        if (sock_port address =? 0)%Z then Err (ConfigError_at line)
        else
          let server_name := to_ascii_lowercase server_name in
          let key := #"dot|" ++ show_socket_addr address ++ #"|" ++ server_name in
          (* DotResolver::webpki fails after the key was recorded *)
          st ← add_resolver st key (RDot address server_name) line;
          _t ← map_err (λ _, ConfigError_at line)
                 (TlsTransport_with_client_config valid_server_name address server_name);
          Ok st
      else Err (ConfigError_at line)
  | _ => Err (ConfigError_at line)
  end.

(** The protocol, datagram provider and transport of an endpoint line. *)
Definition parse_endpoint (fields : list str) (line : nat)
    : result ConfigError (OutboundProtocol * option TrojanDatagramProvider * TransportConfig) :=
  let tcp protocol address :=
    address ← parse_proxy_address address line;
    Ok (protocol, None, TcpConfig (TcpTransport_new address)) in
  let tls protocol address server_name :=
    t ← parse_tls_transport address server_name line; Ok (protocol, None, t) in
  match fields with
  | [_; _; protocol; address] =>
      if bool_decide (protocol = #"socks5") then tcp Socks5Protocol address
      else if bool_decide (protocol = #"http") then tcp HttpConnectProtocol address
      else Err (ConfigError_at line)
  | [_; _; protocol; transport; address] =>
      if bool_decide (protocol = #"socks5") && bool_decide (transport = #"tcp") then tcp Socks5Protocol address
      else if bool_decide (protocol = #"http") && bool_decide (transport = #"tcp") then tcp HttpConnectProtocol address
      else Err (ConfigError_at line)
  | [_; _; protocol; transport; address; server_name] =>
      if bool_decide (protocol = #"socks5") && bool_decide (transport = #"tls") then tls Socks5Protocol address server_name
      else if bool_decide (protocol = #"http") && bool_decide (transport = #"tls") then tls HttpConnectProtocol address server_name
      else Err (ConfigError_at line)
  | [_; _; protocol; transport; address; server_name; password] =>
      if bool_decide (protocol = #"trojan") && bool_decide (transport = #"tls") then
        verifier ← map_err (λ _, ConfigError_at line) (TrojanVerifier_new sha224 password);
        tls ← parse_tls_transport_raw address server_name line;
        Ok (TrojanProtocol verifier, Some {| pr_verifier := verifier; pr_transport := tls |}, TlsConfig tls)
      else Err (ConfigError_at line)
  | _ => Err (ConfigError_at line)
  end.

Definition endpoint_directive (st : EndpointState) (fields : list str) (line : nat) : result ConfigError EndpointState :=
  if MAX_PROXY_ENDPOINTS <=? length (endpoint_configs st) then Err (ConfigError_at line)
  else
    id ← ok_or (fields !! 1) (ConfigError_at line);
    id ← map_err (λ _, ConfigError_at line) (EndpointId_new id);
    if bool_decide (id ∈ endpoint_ids st) then Err (ConfigError_at line)
    else
      '(protocol, datagram, transport) ← parse_endpoint fields line;
      Ok {| endpoint_configs := endpoint_configs st ++
              [{| ep_id := id; ep_protocol := protocol; ep_datagram := datagram; ep_transport := transport |}];
            endpoint_ids := {[ id ]} ∪ endpoint_ids st |}.

(** [if let Some(id) = &parsed.proxy_ref { referenced_endpoints.insert(id) }] *)
Definition reference (refs : gset EndpointId) (o : option EndpointId) : gset EndpointId :=
  match o with Some id => {[ id ]} ∪ refs | None => refs end.

Definition default_directive (st : RuleState) (fields : list str) (line : nat) : result ConfigError RuleState :=
  _u ← expect_fields fields 2 line;
  if bool_decide (is_Some (default_action st)) then Err (ConfigError_at line)
  else
    '(action, proxy_ref) ← parse_action (nth 1 fields []) line;
    Ok {| rules := rules st; next_rule_id := next_rule_id st;
          referenced_endpoints := reference (referenced_endpoints st) proxy_ref;
          default_action := Some action; blocklists := blocklists st; blocklist_paths := blocklist_paths st |}.

Definition blocklist_directive (asset_root : str) (st : RuleState) (fields : list str) (line : nat)
    : result ConfigError RuleState :=
  _u ← expect_fields fields 2 line;
  if MAX_BLOCKLISTS <=? length (blocklists st) then Err (ConfigError_at line)
  else
    _c ← ensure_rule_capacity (length (rules st)) line;
    let source := resolve_asset_path asset_root (nth 1 fields []) in
    if bool_decide (path_components source ∈ blocklist_paths st) then Err (ConfigError_at line)
    else
      '(filter, stats) ← load_blocklist source line;
      Ok {| rules := rules st ++ [{| rule_id := next_rule_id st; rule_tier := UserHard;
                                     rule_matcher := MDomainFilter filter; rule_action := PReject RejectPolicy |}];
            next_rule_id := next_rule_id st + 1;
            referenced_endpoints := referenced_endpoints st; default_action := default_action st;
            blocklists := blocklists st ++ [{| b_path := source; b_stats := stats |}];
            blocklist_paths := {[ path_components source ]} ∪ blocklist_paths st |}.

Definition rule_directive (st : RuleState) (fields : list str) (line : nat) : result ConfigError RuleState :=
  _c ← ensure_rule_capacity (length (rules st)) line;
  '(rule, proxy_ref) ← parse_rule fields line (next_rule_id st);
  Ok {| rules := rules st ++ [rule]; next_rule_id := next_rule_id st + 1;
        referenced_endpoints := reference (referenced_endpoints st) proxy_ref;
        default_action := default_action st; blocklists := blocklists st; blocklist_paths := blocklist_paths st |}.

Definition hosts_directive (asset_root : str) (st : HostsState) (fields : list str) (line : nat)
    : result ConfigError HostsState :=
  _u ← expect_fields fields 2 line;
  if MAX_HOSTS_FILES <=? length (hosts_files st) then Err (ConfigError_at line)
  else
    let source := resolve_asset_path asset_root (nth 1 fields []) in
    if bool_decide (path_components source ∈ hosts_paths st) then Err (ConfigError_at line)
    else
      table ← load_hosts source line;
      Ok {| hosts_files := hosts_files st ++ [{| h_path := source; h_records := HostsTable_len table |}];
            hosts_paths := {[ path_components source ]} ∪ hosts_paths st;
            hosts_table := HostsTable_merge (hosts_table st) table |}.

(** ** The loop *)
Definition with_version (st : ParserState) (v : bool) : ParserState :=
  {| version_seen := v; allow_public_listen := allow_public_listen st; p_listen := p_listen st; p_dns := p_dns st;
     p_endpoints := p_endpoints st; p_hosts := p_hosts st; p_rules := p_rules st |}.
Definition with_allow (st : ParserState) (v : option bool) : ParserState :=
  {| version_seen := version_seen st; allow_public_listen := v; p_listen := p_listen st; p_dns := p_dns st;
     p_endpoints := p_endpoints st; p_hosts := p_hosts st; p_rules := p_rules st |}.
Definition with_listen (st : ParserState) (v : ListenState) : ParserState :=
  {| version_seen := version_seen st; allow_public_listen := allow_public_listen st; p_listen := v; p_dns := p_dns st;
     p_endpoints := p_endpoints st; p_hosts := p_hosts st; p_rules := p_rules st |}.
Definition with_dns (st : ParserState) (v : DnsState) : ParserState :=
  {| version_seen := version_seen st; allow_public_listen := allow_public_listen st; p_listen := p_listen st; p_dns := v;
     p_endpoints := p_endpoints st; p_hosts := p_hosts st; p_rules := p_rules st |}.
Definition with_endpoints (st : ParserState) (v : EndpointState) : ParserState :=
  {| version_seen := version_seen st; allow_public_listen := allow_public_listen st; p_listen := p_listen st; p_dns := p_dns st;
     p_endpoints := v; p_hosts := p_hosts st; p_rules := p_rules st |}.
Definition with_hosts (st : ParserState) (v : HostsState) : ParserState :=
  {| version_seen := version_seen st; allow_public_listen := allow_public_listen st; p_listen := p_listen st; p_dns := p_dns st;
     p_endpoints := p_endpoints st; p_hosts := v; p_rules := p_rules st |}.
Definition with_rules (st : ParserState) (v : RuleState) : ParserState :=
  {| version_seen := version_seen st; allow_public_listen := allow_public_listen st; p_listen := p_listen st; p_dns := p_dns st;
     p_endpoints := p_endpoints st; p_hosts := p_hosts st; p_rules := v |}.

Definition initial_state : ParserState :=
  {| version_seen := false; allow_public_listen := None;
     p_listen := {| listeners := []; listener_addresses := ∅ |};
     p_dns := {| dns_resolver_summaries := []; dns_resolvers := []; dns_resolver_keys := ∅ |};
     p_endpoints := {| endpoint_configs := []; endpoint_ids := ∅ |};
     p_hosts := {| hosts_files := []; hosts_paths := ∅; hosts_table := HostsTable_default |};
     p_rules := {| rules := []; next_rule_id := 1; referenced_endpoints := ∅; default_action := None;
                   blocklists := []; blocklist_paths := ∅ |} |}.

(** The fields of a line: comment and surrounding space removed. *)
Definition line_fields (raw_line : str) : list str := split_whitespace (trim (before_first x23 raw_line)).

Definition directive (asset_root : str) (st : ParserState) (fields : list str) (line : nat)
    : result ConfigError ParserState :=
  match fields with
  | [] => Ok st
  | name :: _ =>
      if bool_decide (name = #"version") then
        v ← version_directive (version_seen st) fields line; Ok (with_version st v)
      else if bool_decide (name = #"allow-public-listen") then
        v ← allow_public_directive (allow_public_listen st) fields line; Ok (with_allow st v)
      else if bool_decide (name = #"listen") then
        v ← listen_directive (p_listen st) fields line; Ok (with_listen st v)
      else if bool_decide (name = #"resolver") then
        v ← resolver_directive (p_dns st) fields line; Ok (with_dns st v)
      else if bool_decide (name = #"endpoint") then
        v ← endpoint_directive (p_endpoints st) fields line; Ok (with_endpoints st v)
      else if bool_decide (name = #"default") then
        v ← default_directive (p_rules st) fields line; Ok (with_rules st v)
      else if bool_decide (name = #"blocklist") then
        v ← blocklist_directive asset_root (p_rules st) fields line; Ok (with_rules st v)
      else if bool_decide (name = #"hosts") then
        v ← hosts_directive asset_root (p_hosts st) fields line; Ok (with_hosts st v)
      else if bool_decide (name = #"rule") then
        v ← rule_directive (p_rules st) fields line; Ok (with_rules st v)
      else Err (ConfigError_at line)
  end.

Definition config_line (asset_root : str) (st : ParserState) (raw_line : str) (line : nat)
    : result ConfigError ParserState :=
  if length (trim (before_first x23 raw_line)) =? 0 then Ok st
  else directive asset_root st (line_fields raw_line) line.

Fixpoint config_lines (asset_root : str) (st : ParserState) (ls : list str) (index : nat)
    : result ConfigError ParserState :=
  match ls with
  | [] => Ok st
  | raw_line :: ls' => st ← config_line asset_root st raw_line (index + 1); config_lines asset_root st ls' (index + 1)
  end.

(** ** The compiled configuration *)
  Context {W : Type} (to_socket_addrs : W → str → W * option (list SocketAddr)).
  (** The resolver a summary stands for. *)
  Context (make_resolver : DnsResolverSummary → resolver W).

Record CompiledConfig := {
  c_listeners : list ListenerConfig;
  c_blocklists : list BlocklistSummary;
  c_hosts : list HostsSummary;
  c_dns_resolvers : list DnsResolverSummary;
  c_runtime : Runtime;
  c_dns : DnsEngine W;
  c_outbounds : OutboundRegistry TrojanDatagramProvider;
}.

(** The DNS engine and the summaries shown for it. *)
Definition finish_dns (st : ParserState) : result ConfigError (DnsEngine W * list DnsResolverSummary) :=
  if length (dns_resolvers (p_dns st)) =? 0
  then Ok (DnsEngine_system to_socket_addrs (hosts_table (p_hosts st)), [RSystem])
  else
    dns ← map_err (λ _, ConfigError_global)
            (DnsEngine_with_resolvers (hosts_table (p_hosts st)) (make_resolver <$> dns_resolvers (p_dns st))
               DEFAULT_CACHE_CAPACITY DEFAULT_CACHE_TTL);
    Ok (dns, dns_resolver_summaries (p_dns st)).

Definition finish (st : ParserState) : result ConfigError CompiledConfig :=
  if negb (version_seen st) then Err ConfigError_global
  else if length (listeners (p_listen st)) =? 0 then Err ConfigError_global
  else if negb (default false (allow_public_listen st))
          && existsb (λ l, negb (ip_is_loopback (sock_ip (l_address l)))) (listeners (p_listen st))
  then Err ConfigError_global
  else
    action ← ok_or (default_action (p_rules st)) ConfigError_global;
    outbounds ← map_err (λ _, ConfigError_global) (OutboundRegistry_new (endpoint_configs (p_endpoints st)));
    if existsb (λ id, negb (registry_contains outbounds id)) (elements (referenced_endpoints (p_rules st)))
    then Err ConfigError_global
    else
      '(dns, summaries) ← finish_dns st;
      Ok {| c_listeners := listeners (p_listen st); c_blocklists := blocklists (p_rules st);
            c_hosts := hosts_files (p_hosts st); c_dns_resolvers := summaries;
            c_runtime := Runtime_new (PolicyEngine_new (rules (p_rules st)) action);
            c_dns := dns; c_outbounds := outbounds |}.

Definition parse_config_at (text asset_root : str) : result ConfigError CompiledConfig :=
  if (MAX_CONFIG_BYTES <? Z.of_nat (length text))%Z then Err ConfigError_global
  else
    st ← config_lines asset_root initial_state (lines text) 0;
    finish st.

(** ** The store *)

(** [poisoned]: a thread panicked while it held the lock. *)
Record ConfigStore := { active : CompiledConfig; asset_root : str; poisoned : bool }.

Definition ConfigStore_new_at (text root : str) : result ConfigError ConfigStore :=
  c ← parse_config_at text root; Ok {| active := c; asset_root := root; poisoned := false |}.

Definition ConfigStore_reload (s : ConfigStore) (text : str) : ConfigStore * result ConfigError unit :=
  match parse_config_at text (asset_root s) with
  | Err e => (s, Err e)
  | Panic => (s, Panic)
  | Ok candidate =>
      if poisoned s then (s, Err ConfigError_global)
      else ({| active := candidate; asset_root := asset_root s; poisoned := poisoned s |}, Ok tt)
  end.

Definition ConfigStore_snapshot (s : ConfigStore) : result ConfigError CompiledConfig :=
  if poisoned s then Err ConfigError_global else Ok (active s).

(** ** Errors name their line *)

(** Any error is [e0], and there is no panic. *)
Definition errs_with {A} (e0 : ConfigError) (r : result ConfigError A) : Prop :=
  r ≠ Panic ∧ ∀ e, r = Err e → e = e0.

Lemma errs_bind {A B} e0 (r : result ConfigError A) (f : A → result ConfigError B) :
  errs_with e0 r → (∀ a, r = Ok a → errs_with e0 (f a)) → errs_with e0 (mbind f r).
Proof.
  intros [Hp He] Hf. destruct r as [a|e|]; cbn; [by apply Hf| |done]. split; [done|]. by intros e' [= <-]; apply He.
Qed.
Lemma errs_ok {A} e0 (a : A) : errs_with e0 (Ok a).
Proof. by split. Qed.
Lemma errs_err {A} e0 : errs_with (A:=A) e0 (Err e0).
Proof. split; [done|]. by intros e [= <-]. Qed.
Lemma errs_ok_or {A} e0 (o : option A) : errs_with e0 (ok_or o e0).
Proof. destruct o; [apply errs_ok|apply errs_err]. Qed.
Lemma errs_map_err {E A} e0 (r : result E A) : no_panic r → errs_with e0 (map_err (λ _, e0) r).
Proof. intros Hr. destruct r; [apply errs_ok|apply errs_err|done]. Qed.

Ltac ea := repeat first
  [ progress intros
  | match goal with x : _ * _ |- _ => destruct x end
  | match goal with |- errs_with _ (mbind _ _) => apply errs_bind end
  | apply errs_ok | apply errs_err | apply errs_ok_or
  | match goal with |- errs_with _ (map_err _ _) => apply errs_map_err end
  | match goal with |- errs_with _ (match _ with _ => _ end) => case_match end ].

Lemma tls_no_panic address name : no_panic (TlsTransport_with_client_config valid_server_name address name).
Proof. unfold TlsTransport_with_client_config. by case_match. Qed.
Lemma verifier_no_panic password : no_panic (TrojanVerifier_new sha224 password).
Proof. unfold TrojanVerifier_new. by case_match. Qed.

Lemma parse_action_errs value line : errs_with (ConfigError_at line) (parse_action value line).
Proof. unfold parse_action. ea. apply EndpointId_new_no_panic. Qed.

Lemma parse_matcher_errs fields line : errs_with (ConfigError_at line) (parse_matcher fields line).
Proof.
  unfold parse_matcher, config_domain. ea. unfold cidr_from_str. np.
Qed.

Lemma read_bounded_asset_errs path max line : errs_with (ConfigError_at line) (read_bounded_asset path max line).
Proof. unfold read_bounded_asset. ea. Qed.

Lemma load_blocklist_errs path line : errs_with (ConfigError_at line) (load_blocklist path line).
Proof.
  unfold load_blocklist. apply errs_bind; [apply read_bounded_asset_errs|]. ea. apply compile_blocklist_no_panic.
Qed.
Lemma load_hosts_errs path line : errs_with (ConfigError_at line) (load_hosts path line).
Proof.
  unfold load_hosts. apply errs_bind; [apply read_bounded_asset_errs|]. ea. apply HostsTable_parse_no_panic.
Qed.

Lemma parse_endpoint_errs fields line : errs_with (ConfigError_at line) (parse_endpoint fields line).
Proof.
  unfold parse_endpoint, parse_tls_transport, parse_tls_transport_raw, parse_proxy_address.
  ea; auto using tls_no_panic, verifier_no_panic.
Qed.

Lemma rule_directive_errs st fields line : errs_with (ConfigError_at line) (rule_directive st fields line).
Proof.
  unfold rule_directive, ensure_rule_capacity, parse_rule. ea; auto using parse_action_errs, parse_matcher_errs.
Qed.

Lemma directive_errs root st fields line : errs_with (ConfigError_at line) (directive root st fields line).
Proof.
  unfold directive. destruct fields as [|name fields]; [apply errs_ok|].
  repeat (case_match; [apply errs_bind; [|intros; apply errs_ok]|]); [..|apply errs_err].
  - unfold version_directive, expect_fields. ea.
  - unfold allow_public_directive, expect_fields. ea.
  - unfold listen_directive, expect_fields. ea.
  - unfold resolver_directive, add_resolver. ea; apply tls_no_panic.
  - unfold endpoint_directive. ea; auto using parse_endpoint_errs, EndpointId_new_no_panic.
  - unfold default_directive, expect_fields. ea; apply parse_action_errs.
  - unfold blocklist_directive, expect_fields, ensure_rule_capacity. ea; apply load_blocklist_errs.
  - unfold hosts_directive, expect_fields. ea; apply load_hosts_errs.
  - apply rule_directive_errs.
Qed.

Lemma config_line_errs root st raw line : errs_with (ConfigError_at line) (config_line root st raw line).
Proof. unfold config_line. case_match; [apply errs_ok|apply directive_errs]. Qed.

Lemma config_lines_cases root ls st index :
  config_lines root st ls index ≠ Panic
  ∧ ∀ e, config_lines root st ls index = Err e →
      ∃ n raw st', e = ConfigError_at (index + n + 1) ∧ ls !! n = Some raw
        ∧ config_lines root st (take n ls) index = Ok st'
        ∧ config_line root st' raw (index + n + 1) = Err e.
Proof.
  revert st index; induction ls as [|raw ls IH]; intros st index; cbn [config_lines]; [done|].
  destruct (config_line_errs root st raw (index + 1)) as [Hp He].
  destruct (config_line root st raw (index + 1)) as [st1|e1|] eqn:E; [| |done].
  - cbn [mbind result_bind]. destruct (IH st1 (index + 1)) as [IHp IHe]. split; [done|]. intros e Hl.
    destruct (IHe e Hl) as (n & raw' & st' & -> & Hn & Ht & Hc). exists (S n), raw', st'.
    replace (index + S n + 1) with (index + 1 + n + 1) by lia. split_and!; [done|done| |done].
    cbn [take config_lines]. by rewrite E.
  - split; [done|]. intros e [= <-]. exists 0, raw, st. rewrite Nat.add_0_r.
    split_and!; [by apply He|done|done|done].
Qed.

(** ** What the parser has established after some lines *)
Definition listen_key (l : ListenerConfig) : bool * SocketAddr := (is_udp (l_protocol l), l_address l).

Definition says (seen : list str) (fields : list str) : Prop := ∃ raw, raw ∈ seen ∧ line_fields raw = fields.

(** The listener and the resolver that the words of a line name. *)
Definition protocol_word (p : ListenerProtocol) : str :=
  match p with LSocks5 => #"socks5" | LHttpConnect => #"http" | LTproxyTcp => #"tproxy-tcp" | LTproxyUdp => #"tproxy-udp" end.
Definition listener_says (fields : list str) : list ListenerConfig :=
  match fields with
  | [d; word; address] =>
      if bool_decide (d = #"listen") then
        match parse_socket_addr address with
        | Some a => (λ p, {| l_protocol := p; l_address := a |})
                      <$> List.filter (λ p, bool_decide (protocol_word p = word)) [LSocks5; LHttpConnect; LTproxyTcp; LTproxyUdp]
        | None => []
        end
      else []
  | _ => []
  end.
Definition resolver_says (fields : list str) : list DnsResolverSummary :=
  match fields with
  | [d; kind] => if bool_decide (d = #"resolver" ∧ kind = #"system") then [RSystem] else []
  | [d; kind; address; name] =>
      if bool_decide (d = #"resolver" ∧ kind = #"dot") then
        match parse_socket_addr address with Some a => [RDot a (to_ascii_lowercase name)] | None => [] end
      else []
  | _ => []
  end.
Definition listeners_say (ls : list str) : list ListenerConfig := mjoin ((λ l, listener_says (line_fields l)) <$> ls).
Definition resolvers_say (ls : list str) : list DnsResolverSummary := mjoin ((λ l, resolver_says (line_fields l)) <$> ls).

Lemma listeners_say_app ls l : listeners_say (ls ++ [l]) = listeners_say ls ++ listener_says (line_fields l).
Proof. unfold listeners_say. rewrite fmap_app, join_app. cbn. by rewrite app_nil_r. Qed.
Lemma resolvers_say_app ls l : resolvers_say (ls ++ [l]) = resolvers_say ls ++ resolver_says (line_fields l).
Proof. unfold resolvers_say. rewrite fmap_app, join_app. cbn. by rewrite app_nil_r. Qed.

Definition listen_ok (seen : list str) (st : ListenState) : Prop :=
  length (listeners st) ≤ MAX_LISTENERS
  ∧ listeners st = listeners_say seen
  ∧ NoDup (listen_key <$> listeners st)
  ∧ (∀ k, k ∈ listener_addresses st ↔ k ∈ listen_key <$> listeners st)
  ∧ Forall (λ l, sock_port (l_address l) ≠ 0%Z) (listeners st).

Definition dns_ok (seen : list str) (st : DnsState) : Prop :=
  dns_resolver_summaries st = dns_resolvers st
  ∧ length (dns_resolvers st) ≤ MAX_DNS_RESOLVERS
  ∧ dns_resolvers st = resolvers_say seen.

(** The rules are numbered from 1 in file order, all user rules, and every
    proxy endpoint an action names is recorded as referenced. *)
Definition rules_ok (st : RuleState) : Prop :=
  (Z.of_nat (length (rules st)) ≤ MAX_RULES)%Z
  ∧ rule_id <$> rules st = Z.of_nat <$> seq 1 (length (rules st))
  ∧ next_rule_id st = (Z.of_nat (length (rules st)) + 1)%Z
  ∧ Forall (λ r, rule_tier r = UserHard) (rules st)
  ∧ (∀ r id, r ∈ rules st → rule_action r = PRoute (Proxy id) → id ∈ referenced_endpoints st)
  ∧ (∀ id, default_action st = Some (PRoute (Proxy id)) → id ∈ referenced_endpoints st).

Record parser_ok (seen : list str) (st : ParserState) : Prop := {
  pok_listen : listen_ok seen (p_listen st);
  pok_allow : allow_public_listen st = Some true → says seen [ #"allow-public-listen"; #"true"];
  pok_dns : dns_ok seen (p_dns st);
  pok_endpoints : length (endpoint_configs (p_endpoints st)) ≤ MAX_PROXY_ENDPOINTS;
  pok_rules : rules_ok (p_rules st);
}.

Lemma listener_protocol_word word p :
  listener_protocol word = Some p →
  List.filter (λ p, bool_decide (protocol_word p = word)) [LSocks5; LHttpConnect; LTproxyTcp; LTproxyUdp] = [p].
Proof. unfold listener_protocol. repeat case_bool_decide; by intros [= <-]; subst word. Qed.

Lemma listen_directive_ok seen raw st name rest line st' :
  name = #"listen" → line_fields raw = name :: rest →
  listen_ok seen st → listen_directive st (name :: rest) line = Ok st' → listen_ok (seen ++ [raw]) st'.
Proof.
  intros -> Hraw (H1 & Hs & H2 & H3 & H4) E. unfold listen_directive, expect_fields in E.
  destruct rest as [|word [|address [|]]]; try done. cbn [length Nat.eqb mbind result_bind nth] in E.
  destruct (_ <=? _) eqn:El; [done|]. bool_to_prop. apply bind_ok_inv in E as (p & Hp%ok_or_ok & E).
  apply bind_ok_inv in E as (a & Ha%ok_or_ok & E). destruct (_ =? 0)%Z eqn:E0; [done|]. bool_to_prop.
  case_bool_decide as Hk; [done|]. injection E as <-. rewrite H3 in Hk. split_and!; cbn [listeners listener_addresses].
  - rewrite length_app. cbn. lia.
  - rewrite listeners_say_app, Hraw, <- Hs. cbn [listener_says]. by rewrite bool_decide_eq_true_2, Ha, (listener_protocol_word _ _ Hp).
  - rewrite fmap_app. apply NoDup_app. split_and!; [done| |apply NoDup_singleton].
    intros k Hin ->%list_elem_of_singleton. done.
  - intros k. rewrite elem_of_union, elem_of_singleton, H3, fmap_app, elem_of_app.
    change (listen_key <$> [_]) with [(is_udp p, a)]. rewrite list_elem_of_singleton. tauto.
  - apply Forall_app. split; [done|]. by apply Forall_singleton.
Qed.

Lemma parse_action_proxy value line action o :
  parse_action value line = Ok (action, o) → ∀ id, action = PRoute (Proxy id) → o = Some id.
Proof.
  unfold parse_action. intros E id ->. case_bool_decide; [done|]. case_bool_decide; [done|].
  apply bind_ok_inv in E as (v & _ & E). apply bind_ok_inv in E as (i & _ & [= -> <-]). done.
Qed.

Lemma elem_of_reference refs o id : id ∈ reference refs o ↔ o = Some id ∨ id ∈ refs.
Proof. destruct o; cbn; set_solver. Qed.

(** Adding a rule with the next number. *)
Lemma add_rule_ok st r o d bs bp :
  rules_ok st → (Z.of_nat (length (rules st)) < MAX_RULES)%Z → d = default_action st →
  rule_id r = next_rule_id st → rule_tier r = UserHard →
  (∀ id, rule_action r = PRoute (Proxy id) → o = Some id) →
  rules_ok {| rules := rules st ++ [r]; next_rule_id := next_rule_id st + 1;
              referenced_endpoints := reference (referenced_endpoints st) o; default_action := d;
              blocklists := bs; blocklist_paths := bp |}.
Proof.
  intros (H1 & H2 & H3 & H4 & H5 & H6) Hl -> Hid Ht Ha.
  split_and!; cbn [rules next_rule_id referenced_endpoints default_action].
  - rewrite length_app. cbn. lia.
  - rewrite fmap_app, H2, length_app. cbn [length]. rewrite Nat.add_1_r, seq_S, fmap_app. cbn. f_equal. f_equal.
    rewrite Hid, H3. lia.
  - rewrite length_app. cbn. lia.
  - apply Forall_app. split; [done|]. by apply Forall_singleton.
  - intros r' id [Hin| ->%list_elem_of_singleton]%elem_of_app Hr'; apply elem_of_reference; [right; eauto|left; auto].
  - intros id Hd. apply elem_of_reference. right. auto.
Qed.

Lemma ensure_rule_capacity_ok n line u :
  ensure_rule_capacity n line = Ok u → (Z.of_nat n < MAX_RULES)%Z.
Proof. unfold ensure_rule_capacity. destruct (_ <? _)%Z eqn:E; [|done]. bool_to_prop. done. Qed.

Lemma rule_directive_ok st fields line st' : rules_ok st → rule_directive st fields line = Ok st' → rules_ok st'.
Proof.
  intros Hok E. unfold rule_directive in E. apply bind_ok_inv in E as (u & Hc%ensure_rule_capacity_ok & E).
  apply bind_ok_inv in E as ([r o] & Hr & [= <-]). unfold parse_rule in Hr. destruct (_ <? 3); [done|].
  apply bind_ok_inv in Hr as ([action o'] & Ha & Hr). apply bind_ok_inv in Hr as (m & _ & [= <- <-]).
  apply add_rule_ok; try done. cbn. by eapply parse_action_proxy.
Qed.

Lemma blocklist_directive_ok root st fields line st' :
  rules_ok st → blocklist_directive root st fields line = Ok st' → rules_ok st'.
Proof.
  intros Hok E. unfold blocklist_directive in E. apply bind_ok_inv in E as ([] & _ & E).
  destruct (_ <=? _); [done|]. apply bind_ok_inv in E as (u & Hc%ensure_rule_capacity_ok & E).
  case_bool_decide; [done|]. apply bind_ok_inv in E as ([f s] & _ & [= <-]).
  by apply (add_rule_ok st _ None).
Qed.

Lemma default_directive_ok st fields line st' : rules_ok st → default_directive st fields line = Ok st' → rules_ok st'.
Proof.
  intros (H1 & H2 & H3 & H4 & H5 & H6) E. unfold default_directive in E. apply bind_ok_inv in E as ([] & _ & E).
  case_bool_decide; [done|]. apply bind_ok_inv in E as ([action o] & Ha & [= <-]).
  split_and!; cbn [rules next_rule_id referenced_endpoints default_action]; try done.
  - intros r id Hr Hra. apply elem_of_reference. right. eauto.
  - intros id [= ->]. apply elem_of_reference. left. by eapply parse_action_proxy.
Qed.

Lemma says_mono seen raw fields : says seen fields → says (seen ++ [raw]) fields.
Proof. intros (r & ? & ?). exists r. split; [apply elem_of_app; by left|done]. Qed.

Lemma add_resolver_ok st key r line st' :
  add_resolver st key r line = Ok st' →
  dns_resolver_summaries st' = dns_resolver_summaries st ++ [r] ∧ dns_resolvers st' = dns_resolvers st ++ [r].
Proof. unfold add_resolver. case_bool_decide; [done|]. by intros [= <-]. Qed.

Lemma resolver_directive_ok seen raw st name rest line st' :
  name = #"resolver" → line_fields raw = name :: rest →
  dns_ok seen st → resolver_directive st (name :: rest) line = Ok st' → dns_ok (seen ++ [raw]) st'.
Proof.
  intros -> Hraw (H1 & H2 & H3) E. unfold resolver_directive in E. destruct (_ <=? _) eqn:El; [done|]. bool_to_prop.
  assert (∀ r, dns_resolver_summaries st' = dns_resolver_summaries st ++ [r] ∧ dns_resolvers st' = dns_resolvers st ++ [r] →
    resolver_says (line_fields raw) = [r] → dns_ok (seen ++ [raw]) st') as Hadd.
  { intros r [E1 E2] Hr. unfold dns_ok. rewrite E1, E2, H1, resolvers_say_app, Hr, H3. split; [done|]. split; [|done].
    rewrite <- H3, length_app. cbn. lia. }
  rewrite Hraw in Hadd. destruct rest as [|kind [|address [|server_name [|]]]]; try done.
  - case_bool_decide as Hk; [|done]. subst kind. apply add_resolver_ok in E. by apply (Hadd RSystem).
  - case_bool_decide as Hk; [|done]. subst kind. apply bind_ok_inv in E as (a & Ha%ok_or_ok & E). destruct (_ =? 0)%Z; [done|].
    apply bind_ok_inv in E as (st1 & Hst & E). apply bind_ok_inv in E as (t & _ & [= <-]).
    apply add_resolver_ok in Hst. eapply Hadd; [done|]. cbn [resolver_says]. by rewrite bool_decide_eq_true_2, Ha.
Qed.

Lemma allow_public_directive_ok seen raw a name rest line a' :
  name = #"allow-public-listen" → line_fields raw = name :: rest →
  allow_public_directive a (name :: rest) line = Ok a' → a' = Some true →
  says (seen ++ [raw]) [ #"allow-public-listen"; #"true"].
Proof.
  intros -> Hraw E ->. unfold allow_public_directive, expect_fields in E.
  destruct rest as [|v [|]]; try done. cbn [length Nat.eqb mbind result_bind nth] in E.
  case_bool_decide; [done|]. case_bool_decide as Hv; [|by case_bool_decide].
  exists raw. split; [apply elem_of_app; right; by apply list_elem_of_singleton|]. by rewrite Hraw, Hv.
Qed.

Lemma endpoint_directive_ok st fields line st' :
  length (endpoint_configs st) ≤ MAX_PROXY_ENDPOINTS → endpoint_directive st fields line = Ok st' →
  length (endpoint_configs st') ≤ MAX_PROXY_ENDPOINTS.
Proof.
  intros H E. unfold endpoint_directive in E. destruct (_ <=? _) eqn:El; [done|]. bool_to_prop.
  apply bind_ok_inv in E as (i & _ & E). apply bind_ok_inv in E as (id & _ & E). case_bool_decide; [done|].
  apply bind_ok_inv in E as ([[p d] t] & _ & [= <-]). cbn. rewrite length_app. cbn. lia.
Qed.

(** A line that names neither a listener nor a resolver. *)
Lemma listen_ok_skip seen raw st : listener_says (line_fields raw) = [] → listen_ok seen st → listen_ok (seen ++ [raw]) st.
Proof. intros E (H1 & H2 & H3). unfold listen_ok. by rewrite listeners_say_app, E, app_nil_r. Qed.
Lemma dns_ok_skip seen raw st : resolver_says (line_fields raw) = [] → dns_ok seen st → dns_ok (seen ++ [raw]) st.
Proof. intros E (H1 & H2 & H3). unfold dns_ok. by rewrite resolvers_say_app, E, app_nil_r. Qed.
Lemma listener_says_other name rest : name ≠ #"listen" → listener_says (name :: rest) = [].
Proof. intros H. unfold listener_says. destruct rest as [|? [|? [|? ?]]]; try done. by rewrite bool_decide_eq_false_2. Qed.
Lemma resolver_says_other name rest : name ≠ #"resolver" → resolver_says (name :: rest) = [].
Proof.
  intros H. unfold resolver_says. destruct rest as [|? [|? [|? [|? ?]]]]; try done; rewrite bool_decide_eq_false_2; naive_solver.
Qed.

Lemma parser_ok_blank seen raw st : line_fields raw = [] → parser_ok seen st → parser_ok (seen ++ [raw]) st.
Proof.
  intros E [H1 H2 H3 H4 H5]. constructor; try done.
  - apply listen_ok_skip; by rewrite ?E.
  - intros Ha. by apply says_mono, H2.
  - apply dns_ok_skip; by rewrite ?E.
Qed.

Lemma directive_ok root seen raw st line st' :
  parser_ok seen st → directive root st (line_fields raw) line = Ok st' → parser_ok (seen ++ [raw]) st'.
Proof.
  intros Hok E. destruct (line_fields raw) as [|name rest] eqn:Hraw; [injection E as <-; by apply parser_ok_blank|].
  destruct Hok as [M1 M2 M3 M4 M5].
  assert (allow_public_listen st = Some true → says (seen ++ [raw]) [ #"allow-public-listen"; #"true"]) as M2'
    by (intros Ha; by apply says_mono, M2).
  assert (name ≠ #"listen" → listen_ok (seen ++ [raw]) (p_listen st)) as M1'
    by (intros H; apply listen_ok_skip; [rewrite Hraw; by apply listener_says_other|done]).
  assert (name ≠ #"resolver" → dns_ok (seen ++ [raw]) (p_dns st)) as M3'
    by (intros H; apply dns_ok_skip; [rewrite Hraw; by apply resolver_says_other|done]).
  unfold directive in E.
  repeat (case_bool_decide; [apply bind_ok_inv in E as (v & Hv & [= <-]); constructor; cbn;
    first [done|by apply M1'; subst name|by apply M3'; subst name|idtac]|]); [..|done].
  - intros ->. by eapply allow_public_directive_ok.
  - by eapply listen_directive_ok.
  - by eapply resolver_directive_ok.
  - by eapply endpoint_directive_ok.
  - by eapply default_directive_ok.
  - by eapply blocklist_directive_ok.
  - by eapply rule_directive_ok.
Qed.

Lemma config_lines_ok root ls seen st index st' :
  parser_ok seen st → config_lines root st ls index = Ok st' → parser_ok (seen ++ ls) st'.
Proof.
  revert seen st index; induction ls as [|raw ls IH]; intros seen st index Hok E; cbn [config_lines] in E.
  { injection E as <-. by rewrite app_nil_r. }
  apply bind_ok_inv in E as (st1 & E1 & E). rewrite cons_middle, app_assoc. eapply IH; [|exact E].
  unfold config_line in E1. destruct (length _ =? 0) eqn:El.
  { injection E1 as <-. apply parser_ok_blank; [|done]. apply Nat.eqb_eq, nil_length_inv in El. unfold line_fields. by rewrite El. }
  by eapply directive_ok.
Qed.

Lemma initial_state_ok : parser_ok [] initial_state.
Proof.
  constructor; cbn; try done.
  - split_and!; cbn; [unfold MAX_LISTENERS; lia|done|constructor|set_solver|constructor].
  - split_and!; cbn; [done|unfold MAX_DNS_RESOLVERS; lia|done].
  - unfold MAX_PROXY_ENDPOINTS. lia.
  - split_and!; cbn; [unfold MAX_RULES; lia|done|done|constructor|set_solver|done].
Qed.

Lemma parse_config_at_inv text root c :
  parse_config_at text root = Ok c →
  ∃ st, config_lines root initial_state (lines text) 0 = Ok st ∧ finish st = Ok c ∧ parser_ok (lines text) st.
Proof.
  unfold parse_config_at. destruct (_ <? _)%Z; [done|]. intros (st & E & Hf)%bind_ok_inv. exists st. split_and!; try done.
  change (lines text) with ([] ++ lines text). eapply config_lines_ok; [exact initial_state_ok|exact E].
Qed.

Lemma finish_inv st c :
  finish st = Ok c →
  ∃ action, default_action (p_rules st) = Some action
    ∧ length (listeners (p_listen st)) ≠ 0
    ∧ (allow_public_listen st = Some true ∨ Forall (λ l, ip_is_loopback (sock_ip (l_address l)) = true) (listeners (p_listen st)))
    ∧ OutboundRegistry_new (endpoint_configs (p_endpoints st)) = Ok (c_outbounds c)
    ∧ (∀ id, id ∈ referenced_endpoints (p_rules st) → is_Some (endpoints (c_outbounds c) !! id))
    ∧ finish_dns st = Ok (c_dns c, c_dns_resolvers c)
    ∧ c_listeners c = listeners (p_listen st)
    ∧ c_runtime c = Runtime_new (PolicyEngine_new (rules (p_rules st)) action).
Proof.
  unfold finish. intros E. destruct (negb (version_seen st)); [done|].
  destruct (length (listeners (p_listen st)) =? 0) eqn:E0; [done|]. apply Nat.eqb_neq in E0.
  destruct (_ && _) eqn:Ep; [done|].
  apply bind_ok_inv in E as (action & Ha%ok_or_ok & E).
  apply bind_ok_inv in E as (o & Ho%map_err_ok & E). destruct (existsb _ (elements _)) eqn:Er; [done|].
  apply bind_ok_inv in E as ([dns summaries] & Hd & [= <-]). exists action. split_and!; try done.
  - apply andb_false_iff in Ep as [Ep|Ep].
    + left. destruct (allow_public_listen st) as [[|]|]; done.
    + right. apply Forall_forall. intros l Hl. destruct (ip_is_loopback (sock_ip (l_address l))) eqn:El; [done|].
      assert (existsb (λ l, negb (ip_is_loopback (sock_ip (l_address l)))) (listeners (p_listen st)) = true); [|congruence].
      apply existsb_exists. exists l. split; [by apply list_elem_of_In|by rewrite El].
  - intros id Hid. cbn. destruct (registry_contains o id) eqn:Ec; [by apply bool_decide_eq_true in Ec|].
    assert (existsb (λ id, negb (registry_contains o id)) (elements (referenced_endpoints (p_rules st))) = true); [|congruence].
    apply existsb_exists. exists id. split; [by apply list_elem_of_In, elem_of_elements|by rewrite Ec].
Qed.

Lemma finish_dns_inv st dns summaries :
  dns_resolver_summaries (p_dns st) = dns_resolvers (p_dns st) →
  finish_dns st = Ok (dns, summaries) →
  hosts dns = hosts_table (p_hosts st)
  ∧ ((dns_resolvers (p_dns st) = [] ∧ summaries = [RSystem] ∧ resolvers dns = [SystemResolver_resolve to_socket_addrs])
     ∨ (summaries = dns_resolvers (p_dns st) ∧ summaries ≠ [] ∧ resolvers dns = make_resolver <$> summaries)).
Proof.
  intros Hs E. unfold finish_dns in E. destruct (_ =? 0) eqn:E0.
  - bool_to_prop. apply length_zero_iff_nil in E0. injection E as <- <-. split; [done|]. by left.
  - apply bind_ok_inv in E as (d & Hd%map_err_ok & [= <- <-]). unfold DnsEngine_with_resolvers in Hd.
    destruct (length (make_resolver <$> _) =? 0); [done|]. apply bind_ok_inv in Hd as (cache & _ & [= <-]). split; [done|]. right.
    rewrite Hs. split_and!; try done. intros E. by rewrite E in E0.
Qed.

(** With one tier, the governing rule is the first that matches. *)
Lemma decide_first_match rs action flow :
  Forall (λ r, rule_tier r = UserHard) rs →
  decision_action (PolicyEngine_decide (PolicyEngine_new rs action) flow)
  = match List.find (rule_matches flow) rs with Some r => rule_action r | None => action end.
Proof.
  intros Hf. rewrite decide_find. assert (foldr (pick flow) None rs = List.find (rule_matches flow) rs) as ->.
  - induction Hf as [|r rs Hr Hf IH]; [done|]. cbn [foldr List.find]. rewrite IH. unfold pick.
    destruct (rule_matches flow r); [|done]. destruct (List.find _ rs) as [r'|] eqn:Ef; [|done].
    apply find_some in Ef as [Hin%list_elem_of_In _]. rewrite Forall_forall in Hf. apply Hf in Hin.
    unfold rule_rank. by rewrite Hr, Hin.
  - by destruct (List.find _ rs).
Qed.

(** C9. What a configuration that compiles guarantees about listeners and
    name resolution. The listeners are exactly those the [listen] lines of the
    text name, in order: between 1 and 16, no two on the same transport and
    address, none on port 0, and all of them on loopback addresses unless a
    line says [allow-public-listen true]. There are at most 64 proxy endpoints
    under distinct names, Trojan ones over TLS. The engine asks exactly the
    resolvers that the [resolver] lines name, in order; the system resolver is
    asked when a line names it, or when no line names any resolver. *)
Theorem config_sound text root c :
  parse_config_at text root = Ok c →
  c_listeners c = listeners_say (lines text)
  ∧ 1 ≤ length (c_listeners c) ≤ MAX_LISTENERS
  ∧ NoDup (listen_key <$> c_listeners c)
  ∧ Forall (λ l, sock_port (l_address l) ≠ 0%Z) (c_listeners c)
  ∧ (Forall (λ l, ip_is_loopback (sock_ip (l_address l)) = true) (c_listeners c)
     ∨ says (lines text) [ #"allow-public-listen"; #"true"])
  ∧ (∃ l, registry_ok l (endpoints (c_outbounds c)) ∧ length l ≤ MAX_PROXY_ENDPOINTS)
  ∧ length (c_dns_resolvers c) ≤ MAX_DNS_RESOLVERS
  ∧ match resolvers_say (lines text) with
    | [] => c_dns_resolvers c = [RSystem] ∧ resolvers (c_dns c) = [SystemResolver_resolve to_socket_addrs]
    | named => c_dns_resolvers c = named ∧ resolvers (c_dns c) = make_resolver <$> named
    end.
Proof.
  intros (st & _ & Hf & [(L1 & Ls & L2 & _ & L4) Hallow (D1 & D2 & D3) He _])%parse_config_at_inv.
  apply finish_inv in Hf as (action & _ & Hne & Hpub & Ho & _ & Hd & Hl & _). rewrite Hl.
  apply finish_dns_inv in Hd as [_ Hd]; [|done]. split_and!; try done; [lia| | | |].
  - destruct Hpub as [Hp|Hp]; [right; auto|by left].
  - exists (endpoint_configs (p_endpoints st)). split; [|done]. by apply OutboundRegistry_new_ok.
  - destruct Hd as [(_ & -> & _)|(-> & _)]; [cbn; unfold MAX_DNS_RESOLVERS; lia|done].
  - rewrite <- D3. destruct Hd as [(-> & -> & ->)|(-> & E2 & E3)]; [done|]. by destruct (dns_resolvers (p_dns st)).
Qed.

(** The decision of a compiled configuration, and that its endpoints exist. *)
Lemma config_decides text root c :
  parse_config_at text root = Ok c →
  ∃ st action, config_lines root initial_state (lines text) 0 = Ok st
    ∧ default_action (p_rules st) = Some action
    ∧ (Z.of_nat (length (rules (p_rules st))) ≤ MAX_RULES)%Z
    ∧ rule_id <$> rules (p_rules st) = Z.of_nat <$> seq 1 (length (rules (p_rules st)))
    ∧ ∀ flow,
        plan_execution (Runtime_plan (c_runtime c) flow)
        = match (match List.find (rule_matches flow) (rules (p_rules st)) with
                 | Some r => rule_action r
                 | None => action
                 end) with
          | PRoute e => Route e
          | PReject r => Reject r
          end
        ∧ ∀ id, plan_execution (Runtime_plan (c_runtime c) flow) = Route (Proxy id) →
            is_Some (endpoints (c_outbounds c) !! id).
Proof.
  intros (st & Hl & Hf & [_ _ _ _ (R1 & R2 & _ & R4 & R5 & R6)])%parse_config_at_inv.
  apply finish_inv in Hf as (action & Ha & _ & _ & _ & Href & _ & _ & Hr).
  exists st, action. split_and!; try done. intros flow. rewrite Hr.
  assert (plan_execution (Runtime_plan (Runtime_new (PolicyEngine_new (rules (p_rules st)) action)) flow)
    = match (match List.find (rule_matches flow) (rules (p_rules st)) with
             | Some r => rule_action r | None => action end) with
      | PRoute e => Route e | PReject r => Reject r end) as ->.
  { unfold Runtime_plan. cbn [plan_execution runtime_policy Runtime_new]. by rewrite decide_first_match. }
  split; [done|]. intros id Hp. apply Href. destruct (List.find _ _) as [r|] eqn:Ef.
  - apply find_some in Ef as [Hin%list_elem_of_In _]. apply (R5 r); [done|]. by destruct (rule_action r); simplify_eq.
  - apply R6. rewrite Ha. by destruct action; simplify_eq.
Qed.

Lemma finish_errs st : errs_with ConfigError_global (finish st).
Proof.
  unfold finish, finish_dns. ea; [apply OutboundRegistry_new_no_panic|].
  unfold DnsEngine_with_resolvers. case_match; [done|]. by apply bind_no_panic.
Qed.

(** C37. A rejected configuration is rejected for a reason: an error that names
    line n means that the n-1 lines before it were accepted and line n was
    not; an error that names no line means that the text is too long or that
    every line was accepted and the configuration as a whole is incomplete or
    inconsistent. Compiling never panics. *)
Theorem config_error_line text root :
  parse_config_at text root ≠ Panic
  ∧ ∀ e, parse_config_at text root = Err e →
      match ce_line e with
      | Some n =>
          ∃ k raw st, n = k + 1 ∧ lines text !! k = Some raw
            ∧ config_lines root initial_state (take k (lines text)) 0 = Ok st
            ∧ config_line root st raw n = Err e
      | None =>
          (MAX_CONFIG_BYTES < Z.of_nat (length text))%Z
          ∨ ∃ st, config_lines root initial_state (lines text) 0 = Ok st ∧ finish st = Err e
      end.
Proof.
  unfold parse_config_at. destruct (_ <? _)%Z eqn:El.
  { split; [done|]. intros e [= <-]. cbn. left. by apply Z.ltb_lt in El. }
  destruct (config_lines_cases root (lines text) initial_state 0) as [Hp He].
  destruct (config_lines root initial_state (lines text) 0) as [st|e0|] eqn:E; [| |done]; cbn [mbind result_bind].
  - destruct (finish_errs st) as [F1 F2]. split; [done|]. intros e Hfe. pose proof (F2 e Hfe) as ->.
    cbn. right. eauto.
  - split; [done|]. intros e [= <-]. destruct (He e0 eq_refl) as (n & raw & st & -> & Hn & Ht & Hc). cbn [ce_line ConfigError_at].
    exists n, raw, st. cbn [plus] in *. done.
Qed.

End parser.

(** ** Reloading *)

(** A call of [reload]: the text and the files as they are then. *)
Record Reload := { rl_len : str → option Z; rl_read : str → option str; rl_text : str }.

Section store.
  Context (valid_server_name : str → bool) (sha224 : bytes → bytes).
  Context {W : Type} (to_socket_addrs : W → str → W * option (list SocketAddr)).
  Context (make_resolver : DnsResolverSummary → resolver W).

Definition reload (s : ConfigStore) (r : Reload) : ConfigStore * result ConfigError unit :=
  ConfigStore_reload (rl_len r) (rl_read r) valid_server_name sha224 to_socket_addrs make_resolver s (rl_text r).
(** What the call's text compiles to. *)
Definition candidate (root : str) (r : Reload) : result ConfigError CompiledConfig :=
  parse_config_at (rl_len r) (rl_read r) valid_server_name sha224 to_socket_addrs make_resolver (rl_text r) root.
Definition reload_all (s : ConfigStore) (rs : list Reload) : ConfigStore := foldl (λ s r, (reload s r).1) s rs.

Lemma reload_all_inv s rs :
  poisoned s = false →
  let s' := reload_all s rs in
  poisoned s' = false ∧ asset_root s' = asset_root s
  ∧ ((active s' = active s ∧ Forall (λ r, is_ok (candidate (asset_root s) r) = false) rs)
     ∨ ∃ before r after, rs = before ++ r :: after
         ∧ candidate (asset_root s) r = Ok (active s')
         ∧ Forall (λ r, is_ok (candidate (asset_root s) r) = false) after).
Proof.
  intros Hp. cbn zeta. induction rs as [|r rs IH] using rev_ind; [by auto|]. destruct IH as (I1 & I2 & I3).
  unfold reload_all in *. rewrite foldl_app. cbn [foldl]. set (s1 := foldl _ s rs) in *.
  assert (reload s1 r = match candidate (asset_root s) r with
    | Ok c => ({| active := c; asset_root := asset_root s; poisoned := false |}, Ok tt)
    | Err e => (s1, Err e) | Panic => (s1, Panic) end) as ->.
  { unfold reload, ConfigStore_reload. rewrite I1, I2. done. }
  assert (is_ok (candidate (asset_root s) r) = false →
    (active s1 = active s ∧ Forall (λ r, is_ok (candidate (asset_root s) r) = false) (rs ++ [r]))
    ∨ ∃ before r0 after, rs ++ [r] = before ++ r0 :: after ∧ candidate (asset_root s) r0 = Ok (active s1)
        ∧ Forall (λ r, is_ok (candidate (asset_root s) r) = false) after) as Hbad.
  { intros Hr. rewrite Forall_app, Forall_singleton.
    destruct I3 as [[A F]|(b & x & a & -> & Hx & F)]; [by left|right]. exists b, x, (a ++ [r]).
    rewrite <- app_assoc. split_and!; [done|done|]. by rewrite Forall_app, Forall_singleton. }
  destruct (candidate (asset_root s) r) as [c|e|] eqn:Er; cbn; [|by auto..].
  split_and!; [done|done|]. right. exists rs, r, []. auto.
Qed.

(** C10. The store always holds the last known good configuration. After any
    sequence of reloads, the asset files changing in any way between them,
    the active configuration is that of the last text that compiled when it
    was loaded, whatever was tried after it, or the initial one when none did;
    it is replaced as a whole and stays readable. *)
Theorem store_last_known_good s rs :
  poisoned s = false →
  let s' := reload_all s rs in
  ConfigStore_snapshot s' = Ok (active s') ∧ asset_root s' = asset_root s
  ∧ ((active s' = active s ∧ Forall (λ r, is_ok (candidate (asset_root s) r) = false) rs)
     ∨ ∃ before r after, rs = before ++ r :: after
         ∧ candidate (asset_root s) r = Ok (active s')
         ∧ Forall (λ r, is_ok (candidate (asset_root s) r) = false) after).
Proof.
  intros Hp s'. destruct (reload_all_inv s rs Hp) as (H1 & H2 & H3). fold s' in H1, H2, H3.
  split; [|done]. unfold ConfigStore_snapshot. by rewrite H1.
Qed.
End store.

(** ** A concrete configuration *)
Definition sample_text : str := join [x0a]
  [ #"version 1 # first"; []; #"listen socks5 127.0.0.1:1080"; #"listen tproxy-udp 127.0.0.1:1080";
    #"endpoint up http tls 192.0.2.1:443 proxy.example"; #"resolver dot 192.0.2.53:853 DNS.example";
    #"rule proxy:up domain-suffix .Example.com"; #"rule reject port 25"; #"default direct"].
Definition bad_text : str := join [x0a] [ #"version 1"; #"listen socks5 127.0.0.1:1080"; #"default proxy:missing"].

Definition sample_resolver (r : DnsResolverSummary) : resolver nat := λ w q, (w, Err (DnsError_new NoRecords)).
(** No files, any server name. *)
#[local] Notation with_world f := (f (λ _, None) (λ _, None) (λ _, true) (λ _, []) _ os_fixed sample_resolver).
#[local] Notation parse_sample text := (with_world (@parse_config_at) text (#"/etc")).

Lemma parse_sample_ok : is_ok (parse_sample sample_text) = true ∧ parse_sample bad_text = Err ConfigError_global.
Proof. split; vm_compute; reflexivity. Qed.

Lemma config_sound_witness :
  ∃ c, parse_sample sample_text = Ok c ∧ length (c_listeners c) = 2
    ∧ c_dns_resolvers c = [RDot (SockV4 3221226037 853) (#"dns.example")].
Proof.
  pose proof (proj1 parse_sample_ok) as H. destruct (parse_sample sample_text) as [c|e|] eqn:E; [|discriminate H..].
  exists c. split; [reflexivity|]. pose proof (config_sound _ _ _ _ _ _ _ _ _ E) as (H1 & _ & _ & _ & _ & _ & _ & H2).
  split; [rewrite H1; vm_compute; reflexivity|]. assert (resolvers_say (lines sample_text) = [RDot (SockV4 3221226037 853) (#"dns.example")]) as Hr
    by (vm_compute; reflexivity). rewrite Hr in H2. exact (proj1 H2).
Defined.

Lemma store_last_known_good_witness :
  ∃ s, with_world (@ConfigStore_new_at) sample_text (#"/etc") = Ok s
    ∧ poisoned s = false
    ∧ active (reload_all (λ _, true) (λ _, []) os_fixed sample_resolver s
                [{| rl_len := λ _, None; rl_read := λ _, None; rl_text := bad_text |}]) = active s.
Proof.
  pose proof (proj1 parse_sample_ok) as H. pose proof (proj2 parse_sample_ok) as Hbad. unfold ConfigStore_new_at.
  destruct (parse_sample sample_text) as [c|e|] eqn:E; [|discriminate H..].
  eexists. split; [reflexivity|]. split; [reflexivity|].
  destruct (store_last_known_good (λ _, true) (λ _, []) os_fixed sample_resolver
    {| active := c; asset_root := #"/etc"; poisoned := false |} [{| rl_len := λ _, None; rl_read := λ _, None; rl_text := bad_text |}] eq_refl)
    as (_ & _ & [[Ha _]|Hb]); [exact Ha|].
  exfalso. destruct Hb as (b & t & a & Hl & Ht & Hf). cbn [asset_root] in Ht.
  destruct b as [|? [|? ?]]; [|discriminate Hl..]. injection Hl as Hl _. rewrite <- Hl in Ht. unfold candidate in Ht. cbn [rl_len rl_read rl_text] in Ht.
  rewrite Hbad in Ht. discriminate Ht.
Defined.
