(* ===== verification/RuleMeaning.v ===== *)
(** * What a rule line says

    The meaning of a [rule] directive, written directly over the words of the
    line and the flow, and the proof that compiling the line into a rule and
    matching flows against it computes exactly that meaning. *)

From S2P Require Import Prelude RustStr RustNet Flow Cidr DomainSet Policy Blocklist DnsBase DnsEngine Proxy Trojan Conn Protocol Outbound Config.

(** ** The specification *)

(** A domain word without surrounding dots, in lower case. *)
Definition rule_name (value : str) : str := to_ascii_lowercase (trim_matches x2e value).

(** When the condition [kind value] holds of a flow. *)
Definition value_means (kind value : str) (flow : FlowContext) : Prop :=
  (kind = #"domain-exact" ∧ ∃ d, dest_host (flow_destination flow) = Domain d ∧ to_ascii_lowercase d = rule_name value)
  ∨ (kind = #"domain-suffix" ∧ ∃ d t, dest_host (flow_destination flow) = Domain d
       ∧ label_suffix t (trim_end_matches x2e d) ∧ to_ascii_lowercase t = rule_name value)
  ∨ (kind = #"ip" ∧ ∃ a, dest_host (flow_destination flow) = Ip a ∧ parse_ip value = Some a)
  ∨ (kind = #"cidr" ∧ ∃ address bits a p b, split_once x2f value = Some (address, bits) ∧ parse_ip address = Some a
       ∧ parse_u8 bits = Some p ∧ dest_host (flow_destination flow) = Ip b ∧ shares_prefix p a b)
  ∨ (kind = #"port" ∧ parse_u16 value = Some (dest_port (flow_destination flow)))
  ∨ (kind = #"transport" ∧ ((value = #"tcp" ∧ flow_transport flow = Tcp) ∨ (value = #"udp" ∧ flow_transport flow = Udp))).
Definition line_means (fields : list str) (flow : FlowContext) : Prop :=
  match fields with
  | [_; _; kind] => kind = #"any"
  | [_; _; kind; value] => value_means kind value flow
  | _ => False
  end.

(** The action word. *)
Definition action_means (word : str) (a : PolicyAction) : Prop :=
  (word = #"direct" ∧ a = PRoute Direct)
  ∨ (word = #"reject" ∧ a = PReject RejectPolicy)
  ∨ ∃ id, word = #"proxy:" ++ endpoint_id_str id ∧ a = PRoute (Proxy id).

(** A flow the daemon can have: its address is in range. *)
Definition flow_ok (flow : FlowContext) : Prop :=
  ∀ a, dest_host (flow_destination flow) = Ip a → ip_wf a.

(** ** Each kind of condition *)
Lemma config_domain_ok value line d :
  config_domain value line = Ok d → d = rule_name value ∧ 1 ≤ length d ≤ 253.
Proof.
  unfold config_domain, rule_name. intros E. destruct (_ || _) eqn:Eb; [done|].
  apply orb_false_iff in Eb as [?%Nat.eqb_neq ?%Nat.ltb_ge]. simplify_eq. split; [done|lia].
Qed.

Lemma utf8_valid_trim s : utf8_valid s = true → utf8_valid (trim_matches x2e s) = true.
Proof.
  intros Hv. apply utf8_valid_trim_end. destruct (trim_start_byte_spec x2e s) as (m & Hs & _).
  rewrite Hs, utf8_valid_replicate in Hv; done.
Qed.

Lemma rule_name_trim value : trim_matches x2e (rule_name value) = rule_name value.
Proof.
  unfold rule_name. destruct (trim_matches_spec x2e value) as (_ & _ & _ & Hh & Hl). apply trim_matches_id.
  - destruct (trim_matches x2e value) as [|b r]; [done|]. cbn in *. intros E. injection E as E. apply Hh. f_equal. by apply lower_byte_dot.
  - by apply last_lower_dot.
Qed.

Lemma exact_means value line d flow :
  config_domain value line = Ok d →
  matcher_matches (MDomainExact d) flow = true
  ↔ ∃ d', dest_host (flow_destination flow) = Domain d' ∧ to_ascii_lowercase d' = rule_name value.
Proof.
  intros [-> _]%config_domain_ok. cbn. destruct (dest_host _) as [d'|a]; [|naive_solver].
  rewrite eq_ignore_ascii_case_true. unfold rule_name. rewrite lower_idem. naive_solver.
Qed.

Lemma suffix_means value line d flow :
  utf8_valid value = true → config_domain value line = Ok d →
  matcher_matches (MDomainSuffix d) flow = true
  ↔ ∃ d' t, dest_host (flow_destination flow) = Domain d' ∧ label_suffix t (trim_end_matches x2e d')
      ∧ to_ascii_lowercase t = rule_name value.
Proof.
  intros Hv [-> Hl]%config_domain_ok. cbn. destruct (dest_host _) as [d'|a]; [|naive_solver].
  rewrite suffix_spec; [|unfold rule_name; by rewrite utf8_valid_lower, utf8_valid_trim|lia].
  cbn zeta. rewrite rule_name_trim. assert (rule_name value ≠ []) as Hne by (intros E; rewrite E in Hl; cbn in Hl; lia).
  assert (to_ascii_lowercase (rule_name value) = rule_name value) as -> by (unfold rule_name; apply lower_idem).
  naive_solver.
Qed.

Lemma ip_means value a flow :
  parse_ip value = Some a →
  matcher_matches (MIp a) flow = true ↔ ∃ a', dest_host (flow_destination flow) = Ip a' ∧ parse_ip value = Some a'.
Proof. intros Ea. cbn. destruct (dest_host _) as [d|a']; [naive_solver|]. rewrite bool_decide_eq_true. naive_solver. Qed.

Lemma cidr_means value c flow :
  cidr_from_str value = Ok c → flow_ok flow →
  matcher_matches (MCidr c) flow = true
  ↔ ∃ address bits a p b, split_once x2f value = Some (address, bits) ∧ parse_ip address = Some a ∧ parse_u8 bits = Some p
      ∧ dest_host (flow_destination flow) = Ip b ∧ shares_prefix p a b.
Proof.
  intros Hc Hf. cbn. destruct (dest_host _) as [d|b] eqn:Eh; [naive_solver|].
  destruct (cidr_prefix value c b Hc (Hf b Eh)) as (address & bits & a & p & Hs & Ha & Hp & ->). naive_solver.
Qed.

Lemma parse_matcher_means fields line m flow :
  parse_matcher fields line = Ok m → Forall (λ f, utf8_valid f = true) fields → flow_ok flow →
  matcher_matches m flow = true ↔ line_means fields flow.
Proof.
  intros Hm Hu Hf. unfold parse_matcher in Hm. unfold line_means, value_means.
  destruct fields as [|f0 [|f1 [|kind [|value [|? ?]]]]]; try done.
  { case_bool_decide; simplify_eq. by cbn. }
  assert (utf8_valid value = true) as Hv by (by rewrite !Forall_cons in Hu; destruct_and!).
  repeat (case_bool_decide; [subst kind; inv_ok; simplify_eq|]); try done.
  - rewrite (exact_means value line) by done. naive_solver.
  - rewrite (suffix_means value line) by done. naive_solver.
  - rewrite (ip_means value) by done. naive_solver.
  - rewrite (cidr_means value) by done. naive_solver.
  - case_match; simplify_eq. cbn. rewrite Z.eqb_eq. naive_solver.
  - repeat case_bool_decide; simplify_eq; cbn; rewrite bool_decide_eq_true; naive_solver.
Qed.

Lemma parse_action_means word line a ref :
  parse_action word line = Ok (a, ref) → action_means word a.
Proof.
  unfold parse_action, action_means. intros E.
  case_bool_decide; [left; naive_solver|]. case_bool_decide; [right; left; naive_solver|].
  right; right. apply bind_ok_inv in E as (rest & Hs%ok_or_ok & E). apply bind_ok_inv in E as (id & Hi & E).
  apply map_err_ok, EndpointId_new_ok in Hi as [-> _]. apply strip_prefix_Some in Hs as ->. exists (MkEndpointId rest). by simplify_eq.
Qed.

Lemma action_means_unique word a a' : action_means word a → action_means word a' → a = a'.
Proof.
  intros [[-> ->]|[[-> ->]|([id] & -> & ->)]] [[E ->]|[[E ->]|([id'] & E & ->)]]; try done.
  apply app_inv_head in E. cbn in E. by subst.
Qed.

(** ** The whole file *)
Section file.
  Context (fs_len : str → option Z) (fs_read : str → option str).
  Context (valid_server_name : str → bool) (sha224 : bytes → bytes) (root : str).

(** A line speaks about a flow: a [rule] line whose condition holds, with the
    action of its action word, or a [blocklist] line whose file blocks the
    flow's domain, which is then rejected. *)
Definition speaks (fields : list str) (flow : FlowContext) (a : PolicyAction) : Prop :=
  (∃ word rest, fields = #"rule" :: word :: rest ∧ line_means fields flow ∧ action_means word a)
  ∨ ∃ path content compiled d, fields = [ #"blocklist"; path] ∧ a = PReject RejectPolicy
      ∧ fs_read (resolve_asset_path root path) = Some content ∧ compile_blocklist content = Ok compiled
      ∧ dest_host (flow_destination flow) = Domain d ∧ DomainFilter_is_blocked (cb_filter compiled) d = true.

Definition silent (ls : list str) (flow : FlowContext) : Prop :=
  ∀ l a, l ∈ ls → ¬ speaks (line_fields l) flow a.
(** The first line that speaks about the flow says [a]. *)
Definition decided_by (ls : list str) (flow : FlowContext) (a : PolicyAction) : Prop :=
  ∃ before l after, ls = before ++ l :: after ∧ silent before flow ∧ speaks (line_fields l) flow a.
Definition default_says (ls : list str) (a : PolicyAction) : Prop :=
  ∃ l word, l ∈ ls ∧ line_fields l = [ #"default"; word] ∧ action_means word a.

(** The words of the lines are well-formed UTF-8, as those of a [str] are. *)
Definition words_utf8 (ls : list str) : Prop := ∀ l, l ∈ ls → Forall (λ f, utf8_valid f = true) (line_fields l).

(** *** The rules collected so far say what the lines so far say *)
Definition rules_say (seen : list str) (st : RuleState) : Prop :=
  (∀ flow, flow_ok flow →
     match List.find (rule_matches flow) (rules st) with
     | Some r => decided_by seen flow (rule_action r)
     | None => silent seen flow
     end)
  ∧ ∀ a, default_action st = Some a ↔ default_says seen a.

Lemma find_app {A} (f : A → bool) l1 l2 :
  List.find f (l1 ++ l2) = match List.find f l1 with Some x => Some x | None => List.find f l2 end.
Proof. induction l1 as [|x l1 IH]; [done|]. cbn. by destruct (f x). Qed.

Lemma silent_app l1 l2 flow : silent (l1 ++ l2) flow ↔ silent l1 flow ∧ silent l2 flow.
Proof. unfold silent. setoid_rewrite elem_of_app. naive_solver. Qed.

Lemma silent_line raw flow : (∀ a, ¬ speaks (line_fields raw) flow a) → silent [raw] flow.
Proof. intros H l a ->%list_elem_of_singleton. apply H. Qed.

(** A line that is not a [default] line. *)
Lemma default_says_app seen raw a :
  (∀ word, line_fields raw ≠ [ #"default"; word]) → default_says (seen ++ [raw]) a ↔ default_says seen a.
Proof.
  intros Hn. unfold default_says. setoid_rewrite elem_of_app. setoid_rewrite list_elem_of_singleton.
  split; [|naive_solver]. intros (l & w & [Hl| ->] & Hw & ?); [eauto|by apply Hn in Hw].
Qed.

Lemma decided_by_app seen raw flow a : decided_by seen flow a → decided_by (seen ++ [raw]) flow a.
Proof. intros (b & l & c & -> & ?). exists b, l, (c ++ [raw]). by rewrite <- app_assoc. Qed.

(** A line that adds no rule and says nothing. *)
Lemma rules_say_skip seen raw st st' :
  rules_say seen st → rules st' = rules st → (∀ flow a, ¬ speaks (line_fields raw) flow a) →
  (∀ a, default_action st' = Some a ↔ default_says (seen ++ [raw]) a) → rules_say (seen ++ [raw]) st'.
Proof.
  intros [Hr _] E Hs Hd. split; [|done]. intros flow Hf. rewrite E. specialize (Hr flow Hf).
  destruct (List.find _ _); [by apply decided_by_app|]. apply silent_app. split; [done|]. apply silent_line, Hs.
Qed.

(** A line that adds the rule [r], which matches when the line speaks. *)
Lemma rules_say_snoc seen raw st st' r :
  rules_say seen st → rules st' = rules st ++ [r] → default_action st' = default_action st →
  (∀ word, line_fields raw ≠ [ #"default"; word]) →
  (∀ flow, flow_ok flow → if rule_matches flow r then speaks (line_fields raw) flow (rule_action r)
                          else ∀ a, ¬ speaks (line_fields raw) flow a) →
  rules_say (seen ++ [raw]) st'.
Proof.
  intros [Hr Hd] E Ed Hn Hs. split; [|intros a; by rewrite Ed, default_says_app].
  intros flow Hf. rewrite E, find_app. specialize (Hr flow Hf). specialize (Hs flow Hf).
  destruct (List.find (rule_matches flow) (rules st)); [by apply decided_by_app|]. cbn [List.find].
  destruct (rule_matches flow r); [by exists seen, raw, []|]. apply silent_app. split; [done|]. by apply silent_line.
Qed.

Lemma rule_line_says seen raw name rest st line st' :
  name = #"rule" → line_fields raw = name :: rest → Forall (λ f, utf8_valid f = true) (name :: rest) →
  rules_say seen st → rule_directive st (name :: rest) line = Ok st' → rules_say (seen ++ [raw]) st'.
Proof.
  intros -> Hraw Hu Hs E. unfold rule_directive in E. apply bind_ok_inv in E as (_ & _ & E).
  apply bind_ok_inv in E as ([r o] & Hr & [= <-]). unfold parse_rule in Hr. destruct (_ <? 3) eqn:El; [done|].
  apply bind_ok_inv in Hr as ([a o'] & Ha & Hr). apply bind_ok_inv in Hr as (m & Hm & [= <- _]).
  destruct rest as [|word rest]; [done|]. eapply rules_say_snoc; [exact Hs|done|done|by rewrite Hraw|]. intros flow Hf.
  rewrite Hraw. pose proof (parse_matcher_means _ _ _ flow Hm Hu Hf) as Hmean.
  unfold rule_matches; cbn [rule_matcher rule_action]. destruct (matcher_matches m flow).
  - left. exists word, rest. split_and!; [done|by apply Hmean|by eapply parse_action_means].
  - intros a' [(w & rs & _ & Hl & _)|(p & ? & ? & ? & Hx & _)]; [by apply Hmean in Hl|done].
Qed.

Lemma blocklist_line_says seen raw name rest st line st' :
  name = #"blocklist" → line_fields raw = name :: rest →
  rules_say seen st → blocklist_directive fs_len fs_read root st (name :: rest) line = Ok st' → rules_say (seen ++ [raw]) st'.
Proof.
  intros -> Hraw Hs E. unfold blocklist_directive in E. apply bind_ok_inv in E as (u & Hx & E).
  unfold expect_fields in Hx. destruct (_ =? 2) eqn:El; [|done]. apply Nat.eqb_eq in El.
  destruct rest as [|path [|? ?]]; try done. destruct (_ <=? _); [done|]. apply bind_ok_inv in E as (_ & _ & E).
  case_bool_decide; [done|]. apply bind_ok_inv in E as ([f stats] & Hb & [= <-]). cbn [nth] in Hb.
  unfold load_blocklist, read_bounded_asset in Hb. apply bind_ok_inv in Hb as (content & Hc & Hb).
  apply bind_ok_inv in Hc as (n & _ & Hc). destruct (_ <? n)%Z; [done|]. apply ok_or_ok in Hc.
  apply bind_ok_inv in Hb as (compiled & Hb%map_err_ok & [= <- _]).
  eapply rules_say_snoc; [exact Hs|done|done|by rewrite Hraw|]. intros flow _. rewrite Hraw.
  unfold rule_matches; cbn [rule_matcher rule_action matcher_matches].
  assert (∀ a d, dest_host (flow_destination flow) = Domain d → DomainFilter_is_blocked (cb_filter compiled) d = false →
    ¬ speaks [ #"blocklist"; path] flow a) as Hno.
  { intros a d Hd Hn [(w & rs & Hx' & _)|(p & co & cc & d' & [= <-] & _ & Hr & Hcc & Hd' & Hbl)]; [done|].
    simplify_eq. congruence. }
  destruct (dest_host (flow_destination flow)) as [d|ip] eqn:Ed.
  - destruct (DomainFilter_is_blocked (cb_filter compiled) d) eqn:Eb; [|by intros a; apply (Hno a d)].
    right. by exists path, content, compiled, d.
  - intros a [(w & rs & Hx' & _)|(p & co & cc & d' & _ & _ & _ & _ & Hd' & _)]; [done|congruence].
Qed.

Lemma default_line_says seen raw name rest st line st' :
  name = #"default" → line_fields raw = name :: rest →
  rules_say seen st → default_directive st (name :: rest) line = Ok st' → rules_say (seen ++ [raw]) st'.
Proof.
  intros -> Hraw Hs E. unfold default_directive in E. apply bind_ok_inv in E as (u & Hx & E).
  unfold expect_fields in Hx. destruct (_ =? 2) eqn:El; [|done]. apply Nat.eqb_eq in El.
  destruct rest as [|word [|? ?]]; try done. case_bool_decide as Hnone; [done|].
  apply bind_ok_inv in E as ([a o] & Ha & [= <-]). cbn [nth] in Ha. eapply rules_say_skip; [exact Hs|done| |].
  - intros flow a'. rewrite Hraw. intros [(w & rs & ? & _)|(? & ? & ? & ? & ? & _)]; done.
  - apply parse_action_means in Ha. intros a'. cbn [default_action]. split.
    + intros [= <-]. exists raw, word. split_and!; [apply elem_of_app; right; by constructor|done..].
    + intros (l & w & [Hl| ->%list_elem_of_singleton]%elem_of_app & Hw & Hm).
      * exfalso. apply Hnone. exists a'. apply Hs. by exists l, w.
      * rewrite Hraw in Hw. simplify_eq. f_equal. by eapply action_means_unique.
Qed.

Lemma config_line_says seen raw st line st' :
  Forall (λ f, utf8_valid f = true) (line_fields raw) → rules_say seen (p_rules st) →
  config_line fs_len fs_read valid_server_name sha224 root st raw line = Ok st' → rules_say (seen ++ [raw]) (p_rules st').
Proof.
  intros Hu Hs E.
  assert (∀ st', p_rules st' = p_rules st → (∀ flow a, ¬ speaks (line_fields raw) flow a) →
    (∀ word, line_fields raw ≠ [ #"default"; word]) → rules_say (seen ++ [raw]) (p_rules st')) as Hskip.
  { intros st1 -> Hno Hd. eapply rules_say_skip; [exact Hs|done|exact Hno|]. intros a. rewrite default_says_app by done. apply Hs. }
  unfold config_line in E. destruct (length _ =? 0) eqn:El.
  { injection E as <-. apply Nat.eqb_eq, nil_length_inv in El.
    apply Hskip; [done|intros flow a|intros word]; unfold line_fields; rewrite El; [|done].
    by intros [(? & ? & ? & _)|(? & ? & ? & ? & ? & _)]. }
  unfold directive in E. destruct (line_fields raw) as [|name rest] eqn:Hraw.
  { injection E as <-. apply Hskip; [done| |done]. by intros flow a [(? & ? & ? & _)|(? & ? & ? & ? & ? & _)]. }
  repeat case_bool_decide; try done; apply bind_ok_inv in E as (v & Hv & [= <-]); cbn [p_rules with_rules].
  all: try (apply Hskip; [done| |by subst name]; intros flow a; subst name; by intros [(? & ? & ? & _)|(? & ? & ? & ? & ? & _)]).
  - by eapply default_line_says.
  - by eapply blocklist_line_says.
  - by eapply rule_line_says.
Qed.

Lemma config_lines_say ls seen st index st' :
  words_utf8 ls → rules_say seen (p_rules st) →
  config_lines fs_len fs_read valid_server_name sha224 root st ls index = Ok st' → rules_say (seen ++ ls) (p_rules st').
Proof.
  revert seen st index; induction ls as [|raw ls IH]; intros seen st index Hu Hs E; cbn [config_lines] in E.
  { injection E as <-. by rewrite app_nil_r. }
  apply bind_ok_inv in E as (st1 & E1 & E). rewrite cons_middle, app_assoc. eapply IH; [|by eapply config_line_says; [apply Hu; left| |]|exact E].
  intros l Hl. apply Hu. by right.
Qed.

Lemma initial_rules_say : rules_say [] (p_rules initial_state).
Proof.
  split; [intros flow _; cbn; by intros l a ?%elem_of_nil|]. intros a. cbn. split; [done|].
  by intros (l & w & ?%elem_of_nil & _).
Qed.

(** ** What the file says about a flow *)
Definition file_says (ls : list str) (flow : FlowContext) (a : PolicyAction) : Prop :=
  decided_by ls flow a ∨ (silent ls flow ∧ default_says ls a).

Lemma speaks_unique fields flow a a' : speaks fields flow a → speaks fields flow a' → a = a'.
Proof.
  intros [(w & r & -> & _ & Ha)|(p & c & k & d & -> & -> & _)] [(w' & r' & E & _ & Ha')|(p' & c' & k' & d' & E & -> & _)];
    simplify_eq; try done. by eapply action_means_unique.
Qed.

Lemma decided_unique ls flow a a' : decided_by ls flow a → decided_by ls flow a' → a = a'.
Proof.
  intros (b & l & c & E & Hb & Hl) (b' & l' & c' & E' & Hb' & Hl'). rewrite E in E'.
  apply app_eq_inv in E' as [(k & -> & Ek)|(k & -> & Ek)]; destruct k as [|x k]; cbn in Ek; simplify_eq.
  - by eapply speaks_unique.
  - exfalso. eapply Hb; [|exact Hl']. apply elem_of_app. right. by left.
  - by eapply speaks_unique.
  - exfalso. eapply Hb'; [|exact Hl]. apply elem_of_app. right. by left.
Qed.

Lemma decided_not_silent ls flow a : decided_by ls flow a → ¬ silent ls flow.
Proof. intros (b & l & c & -> & _ & Hl) Hs. eapply Hs; [|exact Hl]. apply elem_of_app. right. by left. Qed.

(** [execute] turns the action of a rule into that of a plan. *)
Definition execute (a : PolicyAction) : ExecutionAction :=
  match a with PRoute e => Route e | PReject r => Reject r end.

Lemma execute_inj a a' : execute a = execute a' → a = a'.
Proof. destruct a, a'; naive_solver. Qed.

  Context {W : Type} (to_socket_addrs : W → str → W * option (list SocketAddr)) (make_resolver : DnsResolverSummary → resolver W).

Lemma config_file_says text c flow :
  parse_config_at fs_len fs_read valid_server_name sha224 to_socket_addrs make_resolver text root = Ok c →
  words_utf8 (lines text) → flow_ok flow →
  (∀ a, plan_execution (Runtime_plan (c_runtime c) flow) = execute a ↔ file_says (lines text) flow a)
  ∧ ∀ id, plan_execution (Runtime_plan (c_runtime c) flow) = Route (Proxy id) → is_Some (endpoints (c_outbounds c) !! id).
Proof.
  intros Hc Hu Hf. destruct (config_decides _ _ _ _ _ _ _ _ _ Hc) as (st & action & Hl & Ha & _ & _ & Hp).
  destruct (Hp flow) as [Hd Hreg]. split; [|done]. intros a.
  destruct (config_lines_say (lines text) [] initial_state 0 st Hu initial_rules_say Hl) as [Hsay Hdef].
  specialize (Hsay flow Hf). rewrite Hd. fold (execute (match List.find (rule_matches flow) (rules (p_rules st)) with
    Some r => rule_action r | None => action end)). unfold file_says. cbn [app] in *.
  destruct (List.find _ _) as [r|].
  - split; [intros <-%execute_inj; by left|]. intros [H|[H _]]; [f_equal; by eapply decided_unique|].
    by apply decided_not_silent in Hsay.
  - split.
    + intros <-%execute_inj. right. split; [done|]. by apply Hdef.
    + intros [H|[_ H%Hdef]]; [by apply decided_not_silent in H|]. congruence.
Qed.

(** C3. A configuration file means what it says. Let a text compile. Then the
    plan of any flow is the one the words of the file prescribe: the action of
    the first line that speaks about the flow, or the [default] line's when
    none does. A [rule] line speaks about a flow exactly when its condition
    holds, read off its words: a domain equal up to case, a domain whose
    labels end in the given name, an address, an address with the given prefix
    bits, a port or a transport; a [blocklist] line exactly when its file
    blocks the flow's domain. An endpoint a plan routes to is registered. The
    parser, the rule numbering, the tiers, the sorting, the mask arithmetic
    and the matching routines all disappear from the statement. *)
Theorem config_means text c flow :
  parse_config_at fs_len fs_read valid_server_name sha224 to_socket_addrs make_resolver text root = Ok c →
  words_utf8 (lines text) → flow_ok flow →
  (∀ a, plan_execution (Runtime_plan (c_runtime c) flow) = execute a ↔ file_says (lines text) flow a)
  ∧ ∀ id, plan_execution (Runtime_plan (c_runtime c) flow) = Route (Proxy id) → is_Some (endpoints (c_outbounds c) !! id).
Proof. apply config_file_says. Qed.
End file.

(** ** The sample configuration *)
Definition words_utf8b (ls : list str) : bool := forallb (λ l, forallb utf8_valid (line_fields l)) ls.
Lemma words_utf8b_ok ls : words_utf8b ls = true → words_utf8 ls.
Proof.
  intros H l Hl. apply Forall_forall. intros f Hf. unfold words_utf8b in H. rewrite forallb_forall in H.
  specialize (H l (proj1 (list_elem_of_In _ _) Hl)). rewrite forallb_forall in H. apply H. by apply list_elem_of_In.
Qed.

(** A flow to the mail port is rejected, because the file says so. *)
Definition mail_flow : FlowContext :=
  FlowContext_new 1 SourceContext_default {| dest_host := Ip (V4 3325256711); dest_port := 25 |} Tcp NetworkContext_default.

Lemma config_means_witness :
  ∃ c, parse_config_at (λ _, None) (λ _, None) (λ _, true) (λ _, []) os_fixed sample_resolver sample_text (#"/etc") = Ok c
    ∧ file_says (λ _, None) (#"/etc") (lines sample_text) mail_flow (PReject RejectPolicy).
Proof.
  assert (match parse_config_at (λ _, None) (λ _, None) (λ _, true) (λ _, []) os_fixed sample_resolver sample_text (#"/etc")
          with Ok c => plan_execution (Runtime_plan (c_runtime c) mail_flow) = Reject RejectPolicy | _ => False end) as H
    by (vm_compute; reflexivity).
  destruct (parse_config_at (λ _, None) (λ _, None) (λ _, true) (λ _, []) os_fixed sample_resolver sample_text (#"/etc"))
    as [c|e|] eqn:Ec; [|contradiction H..].
  exists c. split; [reflexivity|].
  refine (proj1 (proj1 (config_means _ _ _ _ _ _ _ _ c mail_flow Ec _ _) (PReject RejectPolicy)) H).
  - apply words_utf8b_ok. vm_compute. reflexivity.
  - intros a [= <-]. vm_compute. split; congruence.
Defined.
