(* ===== verification/TlsRelay.v ===== *)
(** * TLS sessions ([transport/src/tls.rs])

    The framed session the datagram path drives, and the relay between a
    client socket and a TLS connection. The TLS connection (rustls), its
    socket, the client socket and poll are the interface [TlsNet]. *)

From S2P Require Import Prelude RustStr RustNet Flow Policy DnsBase Proxy Trojan Conn Datagram TrojanDatagram.

Definition IO_CHUNK : Z := 16 * 1024.

Record Registration := { registered : bool; readable : bool; writable : bool }.
Definition Registration_default : Registration := {| registered := false; readable := false; writable := false |}.

Inductive RelaySide := SideClient | SideRemote.
Inductive PollOp := OpRegister | OpReregister | OpDeregister.

(** A poll event; [None] is a token of neither socket. *)
Record RelayEvent := {
  re_side : option RelaySide;
  re_readable : bool;
  re_writable : bool;
  re_error : bool;
  re_read_closed : bool;
  re_write_closed : bool;
}.

(** The TLS connection and the sockets. [tls_read_io] is one [read_tls] with
    the packet processing that follows it, [tls_write_io] one [write_tls].
    The ghost fields record the plaintext that crossed each boundary, and
    [budget] bounds how many more calls can make progress or be interrupted
    before one has to wait. *)
Class TlsNet (W : Type) := {
  tls_write : W → bytes → W * result ErrorKind nat;
  tls_read : W → Z → W * result ErrorKind bytes;
  tls_read_io : W → W * result ErrorKind nat;
  tls_write_io : W → W * result ErrorKind nat;
  wants_read : W → bool;
  wants_write : W → bool;
  send_close_notify : W → W;
  client_read : W → Z → W * result ErrorKind bytes;
  client_write : W → bytes → W * result ErrorKind nat;
  client_shutdown : W → W * result ErrorKind unit;
  poll_op : W → RelaySide → PollOp → Z → bool → bool → W * result ErrorKind unit;
  relay_poll : W → W * result ErrorKind (list RelayEvent);
  from_client : W → bytes;
  to_remote : W → bytes;
  from_remote : W → bytes;
  to_client : W → bytes;
  budget : W → nat;
}.

(** The plaintext seen so far, in the order client in, remote out, remote in,
    client out. *)
Definition traffic `{TlsNet W} (w : W) : bytes * bytes * bytes * bytes :=
  (from_client w, to_remote w, from_remote w, to_client w).

Class TlsNetLaws (W : Type) `{TlsNet W} : Prop := {
  tls_write_ok : ∀ w b w' n, tls_write w b = (w', Ok n) →
    n ≤ length b ∧ traffic w' = (from_client w, to_remote w ++ take n b, from_remote w, to_client w)
    ∧ budget w' ≤ budget w;
  tls_write_err : ∀ w b w' e, tls_write w b = (w', Err e) →
    traffic w' = traffic w ∧ (e = EInterrupted → budget w' < budget w);
  tls_write_returns : ∀ w b, (tls_write w b).2 ≠ Panic;
  tls_read_ok : ∀ w n w' b, (0 ≤ n)%Z → tls_read w n = (w', Ok b) →
    (Z.of_nat (length b) ≤ n)%Z ∧ traffic w' = (from_client w, to_remote w, from_remote w ++ b, to_client w)
    ∧ budget w' ≤ budget w;
  tls_read_err : ∀ w n w' e, tls_read w n = (w', Err e) →
    traffic w' = traffic w ∧ (e = EInterrupted → budget w' < budget w);
  tls_read_returns : ∀ w n, (tls_read w n).2 ≠ Panic;
  tls_read_io_keeps : ∀ w, traffic (tls_read_io w).1 = traffic w;
  tls_read_io_progress : ∀ w w' n, tls_read_io w = (w', Ok n) → n ≠ 0 → budget w' < budget w;
  tls_read_io_interrupted : ∀ w w', tls_read_io w = (w', Err EInterrupted) → budget w' < budget w;
  tls_read_io_returns : ∀ w, (tls_read_io w).2 ≠ Panic;
  tls_write_io_keeps : ∀ w, traffic (tls_write_io w).1 = traffic w;
  tls_write_io_progress : ∀ w w' n, tls_write_io w = (w', Ok n) → n ≠ 0 → budget w' < budget w;
  tls_write_io_interrupted : ∀ w w', tls_write_io w = (w', Err EInterrupted) → budget w' < budget w;
  tls_write_io_returns : ∀ w, (tls_write_io w).2 ≠ Panic;
  close_notify_keeps : ∀ w, traffic (send_close_notify w) = traffic w;
  client_read_ok : ∀ w n w' b, (0 ≤ n)%Z → client_read w n = (w', Ok b) →
    (Z.of_nat (length b) ≤ n)%Z ∧ traffic w' = (from_client w ++ b, to_remote w, from_remote w, to_client w);
  client_read_err : ∀ w n w' e, client_read w n = (w', Err e) → traffic w' = traffic w;
  client_read_returns : ∀ w n, (client_read w n).2 ≠ Panic;
  client_write_ok : ∀ w b w' n, client_write w b = (w', Ok n) →
    n ≤ length b ∧ traffic w' = (from_client w, to_remote w, from_remote w, to_client w ++ take n b)
    ∧ budget w' ≤ budget w;
  client_write_err : ∀ w b w' e, client_write w b = (w', Err e) →
    traffic w' = traffic w ∧ (e = EInterrupted → budget w' < budget w);
  client_write_returns : ∀ w b, (client_write w b).2 ≠ Panic;
  client_shutdown_keeps : ∀ w, traffic (client_shutdown w).1 = traffic w;
  client_shutdown_returns : ∀ w, (client_shutdown w).2 ≠ Panic;
  poll_op_keeps : ∀ w s o t r wr, traffic (poll_op w s o t r wr).1 = traffic w;
  poll_op_returns : ∀ w s o t r wr, (poll_op w s o t r wr).2 ≠ Panic;
  poll_keeps_traffic : ∀ w, traffic (relay_poll w).1 = traffic w;
  poll_returns : ∀ w, (relay_poll w).2 ≠ Panic;
}.

Section sessions.
  Context {W : Type} `{HNet : TlsNet W}.

(** ** Poll interest *)
Definition update_registration (w : W) (side : RelaySide) (token : Z) (rd wr : bool) (state : Registration)
    : W * Registration * result ErrorKind unit :=
  if negb rd && negb wr then
    if registered state then
      match poll_op w side OpDeregister token rd wr with
      | (w, Ok _) => (w, Registration_default, Ok tt)
      | (w, r) => (w, state, r)
      end
    else (w, state, Ok tt)
  else if negb (registered state) then
    match poll_op w side OpRegister token rd wr with
    | (w, Ok _) => (w, {| registered := true; readable := rd; writable := wr |}, Ok tt)
    | (w, r) => (w, state, r)
    end
  else if negb (Bool.eqb (readable state) rd) || negb (Bool.eqb (writable state) wr) then
    match poll_op w side OpReregister token rd wr with
    | (w, Ok _) => (w, {| registered := registered state; readable := rd; writable := wr |}, Ok tt)
    | (w, r) => (w, state, r)
    end
  else (w, state, Ok tt).

(** ** Encrypted I/O *)
Fixpoint read_remote_loop (fuel : nat) (w : W) (eof : bool) : W * bool * result ErrorKind unit :=
  match fuel with
  | O => (w, eof, Panic)
  | S fuel' =>
      match tls_read_io w with
      | (w, Ok n) => if n =? 0 then (w, true, Ok tt) else read_remote_loop fuel' w eof
      | (w, Err error) =>
          if bool_decide (error = EWouldBlock) then (w, eof, Ok tt)
          else if bool_decide (error = EInterrupted) then read_remote_loop fuel' w eof
          else (w, eof, Err error)
      | (w, Panic) => (w, eof, Panic)
      end
  end.
Definition read_remote_tls (w : W) (eof : bool) : W * bool * result ErrorKind unit :=
  read_remote_loop (S (budget w)) w eof.

Fixpoint write_remote_loop (fuel : nat) (w : W) : W * result ErrorKind unit :=
  match fuel with
  | O => (w, Panic)
  | S fuel' =>
      if negb (wants_write w) then (w, Ok tt)
      else match tls_write_io w with
      | (w, Ok n) => if n =? 0 then (w, Ok tt) else write_remote_loop fuel' w
      | (w, Err error) =>
          if bool_decide (error = EWouldBlock) then (w, Ok tt)
          else if bool_decide (error = EInterrupted) then write_remote_loop fuel' w
          else (w, Err error)
      | (w, Panic) => (w, Panic)
      end
  end.
Definition write_remote_tls (w : W) : W * result ErrorKind unit := write_remote_loop (S (budget w)) w.

(** ** The framed session *)
Record TlsFramedSession := { f_net : W; registration : Registration; f_remote_eof : bool }.
Definition set_f_net (s : TlsFramedSession) (w : W) : TlsFramedSession :=
  {| f_net := w; registration := registration s; f_remote_eof := f_remote_eof s |}.

Definition framed_write (s : TlsFramedSession) (b : bytes) : TlsFramedSession * result ErrorKind nat :=
  let '(w, r) := tls_write (f_net s) b in (set_f_net s w, r).
Definition framed_read (s : TlsFramedSession) (n : Z) : TlsFramedSession * result ErrorKind bytes :=
  let '(w, r) := tls_read (f_net s) n in (set_f_net s w, r).

Definition framed_refresh (s : TlsFramedSession) (token : Z) : TlsFramedSession * result ErrorKind unit :=
  let readable := negb (f_remote_eof s) && wants_read (f_net s) in
  let writable := wants_write (f_net s) in
  let '(w, reg, r) := update_registration (f_net s) SideRemote token readable writable (registration s) in
  ({| f_net := w; registration := reg; f_remote_eof := f_remote_eof s |}, r).

Definition framed_register (s : TlsFramedSession) (token : Z) : TlsFramedSession * result ErrorKind unit :=
  if registered (registration s) then (s, Err EAlreadyExists) else framed_refresh s token.

Definition framed_service (s : TlsFramedSession) : TlsFramedSession * result ErrorKind unit :=
  let '(w, r) := write_remote_tls (f_net s) in
  let s := set_f_net s w in
  match r with
  | Ok _ =>
      let '(s, r) :=
        if negb (f_remote_eof s) then
          let '(w, eof, r) := read_remote_tls (f_net s) (f_remote_eof s) in
          ({| f_net := w; registration := registration s; f_remote_eof := eof |}, r)
        else (s, Ok tt) in
      match r with
      | Ok _ => let '(w, r) := write_remote_tls (f_net s) in (set_f_net s w, r)
      | r => (s, r)
      end
  | r => (s, r)
  end.

(** The session is what the Trojan datagram execution works over. *)
#[export] Instance framed_FramedSession : FramedSession TlsFramedSession := {
  write_plaintext := framed_write;
  read_plaintext := framed_read;
  service_io := framed_service;
  refresh_tls := framed_refresh;
  register_tls := framed_register;
  remote_eof := f_remote_eof;
  accepted s := to_remote (f_net s);
  patience s := budget (f_net s);
}.

(** ** Pending plaintext *)
Record Pending := { p_bytes : bytes; p_offset : nat }.
Definition Pending_default : Pending := {| p_bytes := []; p_offset := 0 |}.
Definition p_is_empty (p : Pending) : bool := length (p_bytes p) <=? p_offset p.
Definition p_remaining (p : Pending) : bytes := drop (p_offset p) (p_bytes p).
Definition p_advance (p : Pending) (n : nat) : Pending := {| p_bytes := p_bytes p; p_offset := p_offset p + n |}.
Definition p_tidy (p : Pending) : Pending := if p_is_empty p then Pending_default else p.

Fixpoint feed_loop (fuel : nat) (w : W) (p : Pending) : W * Pending * result ErrorKind unit :=
  match fuel with
  | O => (w, p, Panic)
  | S fuel' =>
      if p_is_empty p then (w, p_tidy p, Ok tt)
      else match tls_write w (p_remaining p) with
      | (w, Ok n) => if n =? 0 then (w, p_tidy p, Ok tt) else feed_loop fuel' w (p_advance p n)
      | (w, Err error) =>
          if bool_decide (error = EWouldBlock) then (w, p_tidy p, Ok tt)
          else if bool_decide (error = EInterrupted) then feed_loop fuel' w p
          else (w, p, Err error)
      | (w, Panic) => (w, p, Panic)
      end
  end.
Definition feed_upstream (w : W) (p : Pending) : W * Pending * result ErrorKind unit :=
  feed_loop (S (length (p_remaining p) + budget w)) w p.

Definition fill_downstream (w : W) (p : Pending) : W * Pending * result ErrorKind unit :=
  if negb (p_is_empty p) then (w, p, Ok tt)
  else match tls_read w IO_CHUNK with
  | (w, Ok b) => (w, {| p_bytes := b; p_offset := 0 |}, Ok tt)
  | (w, Err error) =>
      if bool_decide (error = EWouldBlock) || bool_decide (error = EInterrupted)
      then (w, Pending_default, Ok tt) else (w, Pending_default, Err error)
  | (w, Panic) => (w, Pending_default, Panic)
  end.

Definition read_client (w : W) (p : Pending) (eof : bool) : W * Pending * bool * result ErrorKind unit :=
  if negb (p_is_empty p) then (w, p, eof, Ok tt)
  else match client_read w IO_CHUNK with
  | (w, Ok b) => (w, {| p_bytes := b; p_offset := 0 |}, (if length b =? 0 then true else eof), Ok tt)
  | (w, Err error) =>
      if bool_decide (error = EWouldBlock) || bool_decide (error = EInterrupted)
      then (w, Pending_default, eof, Ok tt) else (w, Pending_default, eof, Err error)
  | (w, Panic) => (w, Pending_default, eof, Panic)
  end.

Fixpoint write_loop (fuel : nat) (w : W) (p : Pending) : W * Pending * result ErrorKind unit :=
  match fuel with
  | O => (w, p, Panic)
  | S fuel' =>
      if p_is_empty p then (w, p_tidy p, Ok tt)
      else match client_write w (p_remaining p) with
      | (w, Ok n) => if n =? 0 then (w, p, Err EWriteZero) else write_loop fuel' w (p_advance p n)
      | (w, Err error) =>
          if bool_decide (error = EWouldBlock) then (w, p_tidy p, Ok tt)
          else if bool_decide (error = EInterrupted) then write_loop fuel' w p
          else (w, p, Err error)
      | (w, Panic) => (w, p, Panic)
      end
  end.
Definition write_pending (w : W) (p : Pending) : W * Pending * result ErrorKind unit :=
  write_loop (S (length (p_remaining p) + budget w)) w p.

(** ** The relay loop *)
Record TlsRelay := {
  r_net : W;
  client_registration : Registration;
  remote_registration : Registration;
  client_eof : bool;
  r_remote_eof : bool;
  close_notify_sent : bool;
  client_write_shutdown : bool;
  upstream : Pending;
  downstream : Pending;
}.
Definition set_up_ (r : TlsRelay) (w : W) (p : Pending) (eof : bool) : TlsRelay :=
  {| r_net := w; client_registration := client_registration r; remote_registration := remote_registration r;
     client_eof := eof; r_remote_eof := r_remote_eof r; close_notify_sent := close_notify_sent r;
     client_write_shutdown := client_write_shutdown r; upstream := p; downstream := downstream r |}.
Definition set_down (r : TlsRelay) (w : W) (p : Pending) : TlsRelay :=
  {| r_net := w; client_registration := client_registration r; remote_registration := remote_registration r;
     client_eof := client_eof r; r_remote_eof := r_remote_eof r; close_notify_sent := close_notify_sent r;
     client_write_shutdown := client_write_shutdown r; upstream := upstream r; downstream := p |}.
Definition set_remote (r : TlsRelay) (w : W) (eof : bool) : TlsRelay :=
  {| r_net := w; client_registration := client_registration r; remote_registration := remote_registration r;
     client_eof := client_eof r; r_remote_eof := eof; close_notify_sent := close_notify_sent r;
     client_write_shutdown := client_write_shutdown r; upstream := upstream r; downstream := downstream r |}.
Definition set_close (r : TlsRelay) (w : W) (eof notify shutdown : bool) : TlsRelay :=
  {| r_net := w; client_registration := client_registration r; remote_registration := remote_registration r;
     client_eof := eof; r_remote_eof := r_remote_eof r; close_notify_sent := notify;
     client_write_shutdown := shutdown; upstream := upstream r; downstream := downstream r |}.
Definition set_regs (r : TlsRelay) (w : W) (c m : Registration) : TlsRelay :=
  {| r_net := w; client_registration := c; remote_registration := m;
     client_eof := client_eof r; r_remote_eof := r_remote_eof r; close_notify_sent := close_notify_sent r;
     client_write_shutdown := client_write_shutdown r; upstream := upstream r; downstream := downstream r |}.

Definition relay_new (w : W) : TlsRelay :=
  {| r_net := w; client_registration := Registration_default; remote_registration := Registration_default;
     client_eof := false; r_remote_eof := false; close_notify_sent := false; client_write_shutdown := false;
     upstream := Pending_default; downstream := Pending_default |}.

Definition do_feed (r : TlsRelay) : TlsRelay * result ErrorKind unit :=
  let '(w, p, res) := feed_upstream (r_net r) (upstream r) in (set_up_ r w p (client_eof r), res).
Definition do_fill (r : TlsRelay) : TlsRelay * result ErrorKind unit :=
  let '(w, p, res) := fill_downstream (r_net r) (downstream r) in (set_down r w p, res).

(** The client finished and everything it sent was handed on. *)
Definition close_up (r : TlsRelay) : TlsRelay :=
  if client_eof r && p_is_empty (upstream r) && negb (close_notify_sent r)
  then set_close r (send_close_notify (r_net r)) (client_eof r) true (client_write_shutdown r)
  else r.

(** The remote finished and everything it sent was delivered. *)
Definition close_down (r : TlsRelay) : TlsRelay * result ErrorKind unit :=
  if r_remote_eof r && p_is_empty (downstream r) && negb (client_write_shutdown r) then
    match client_shutdown (r_net r) with
    | (w, Ok _) =>
        if negb (close_notify_sent r)
        then (set_close r (send_close_notify w) true true true, Ok tt)
        else (set_close r w true (close_notify_sent r) true, Ok tt)
    | (w, res) => (set_down r w (downstream r), res)
    end
  else (r, Ok tt).

Definition relay_done (r : TlsRelay) : bool :=
  client_eof r && r_remote_eof r && p_is_empty (upstream r) && p_is_empty (downstream r)
  && negb (wants_write (r_net r)).

(** The interest of this pass: client read and write, remote read and write. *)
Definition wants (r : TlsRelay) : bool * bool * bool * bool :=
  (negb (client_eof r) && p_is_empty (upstream r), negb (p_is_empty (downstream r)),
   negb (r_remote_eof r) && wants_read (r_net r), wants_write (r_net r)).

(** Registers both sockets and gives the interest of the pass. *)
Definition do_register (r : TlsRelay) : TlsRelay * result ErrorKind (bool * bool * bool * bool) :=
  let '(cr, cw, _, _) := wants r in
  match update_registration (r_net r) SideClient 0 cr cw (client_registration r) with
  | (w, creg, Ok _) =>
      let r := set_regs r w creg (remote_registration r) in
      let '(_, _, rr, rw) := wants r in
      let '(w, rreg, res) := update_registration (r_net r) SideRemote 1 rr rw (remote_registration r) in
      (set_regs r w (client_registration r) rreg,
       match res with Ok _ => Ok (cr, cw, rr, rw) | Err e => Err e | Panic => Panic end)
  | (w, creg, Err e) => (set_regs r w creg (remote_registration r), Err e)
  | (w, creg, Panic) => (set_regs r w creg (remote_registration r), Panic)
  end.

(** One event; the interest is that of the start of the pass. *)
Definition client_event (cr cw : bool) (ev : RelayEvent) (r : TlsRelay) : TlsRelay * result ErrorKind unit :=
  let! r _r :=
    (if re_readable ev && cr then
       let '(w, p, eof, res) := read_client (r_net r) (upstream r) (client_eof r) in (set_up_ r w p eof, res)
     else (r, Ok tt)) in
  let! r _w :=
    (if re_writable ev && cw then
       let '(w, p, res) := write_pending (r_net r) (downstream r) in (set_down r w p, res)
     else (r, Ok tt)) in
  (if re_error ev || re_read_closed ev || re_write_closed ev
   then set_up_ r (r_net r) (upstream r) true else r, Ok tt).
Definition remote_event (rr rw : bool) (ev : RelayEvent) (r : TlsRelay) : TlsRelay * result ErrorKind unit :=
  let! r _r :=
    (if re_readable ev && rr then
       let '(w, eof, res) := read_remote_tls (r_net r) (r_remote_eof r) in (set_remote r w eof, res)
     else (r, Ok tt)) in
  let! r _w :=
    (if re_writable ev && rw then
       let '(w, res) := write_remote_tls (r_net r) in (set_remote r w (r_remote_eof r), res)
     else (r, Ok tt)) in
  (if re_error ev || re_read_closed ev || re_write_closed ev
   then set_remote r (r_net r) true else r, Ok tt).
Fixpoint relay_events (i : bool * bool * bool * bool) (evs : list RelayEvent) (r : TlsRelay)
    : TlsRelay * result ErrorKind unit :=
  match evs with
  | [] => (r, Ok tt)
  | ev :: evs' =>
      let '(cr, cw, rr, rw) := i in
      let! r _e :=
        match re_side ev with
        | Some SideClient => client_event cr cw ev r
        | Some SideRemote => remote_event rr rw ev r
        | None => (r, Ok tt)
        end in
      relay_events i evs' r
  end.

(** One pass: [Ok true] when the relay returns [Ok(())]. *)
Definition relay_iter (r : TlsRelay) : TlsRelay * result ErrorKind bool :=
  let! r _f := do_feed r in
  let! r _g := do_fill r in
  let! r _c := close_down (close_up r) in
  if relay_done r then (r, Ok true)
  else
    let! r i := do_register r in
    if negb (registered (client_registration r)) && negb (registered (remote_registration r))
    then (r, Err EUnexpectedEof)
    else
      match relay_poll (r_net r) with
      | (w, Ok evs) =>
          let! r _e := relay_events i evs (set_down r w (downstream r)) in
          (r, Ok false)
      | (w, Err e) => (set_down r w (downstream r), Err e)
      | (w, Panic) => (set_down r w (downstream r), Panic)
      end.

(** The loop; [fuel] bounds the passes looked at. *)
Fixpoint relay_loop (fuel : nat) (r : TlsRelay) : TlsRelay * result ErrorKind unit :=
  match fuel with
  | O => (r, Panic)
  | S fuel' =>
      match relay_iter r with
      | (r, Ok true) => (r, Ok tt)
      | (r, Ok false) => relay_loop fuel' r
      | (r, Err e) => (r, Err e)
      | (r, Panic) => (r, Panic)
      end
  end.

  Context `{HLaws : !TlsNetLaws W}.

(** ** Loops *)
Lemma p_remaining_tidy p : p_remaining (p_tidy p) = p_remaining p.
Proof.
  unfold p_tidy, p_is_empty, p_remaining. destruct (_ <=? _) eqn:E; [|done]. bool_to_prop. cbn.
  by rewrite drop_ge.
Qed.
Lemma p_tidy_bytes p : length (p_bytes (p_tidy p)) ≤ length (p_bytes p).
Proof. unfold p_tidy. case_match; cbn; lia. Qed.
Lemma p_remaining_advance p n : n ≤ length (p_remaining p) →
  p_remaining p = take n (p_remaining p) ++ p_remaining (p_advance p n).
Proof. intros _. unfold p_remaining. cbn. by rewrite <- drop_drop, take_drop. Qed.
Lemma p_is_empty_true p : p_is_empty p = true → p_remaining p = [].
Proof. unfold p_is_empty, p_remaining. intros E. bool_to_prop. by apply drop_ge. Qed.

Lemma feed_loop_ok fuel w p :
  length (p_remaining p) + budget w < fuel →
  let '(w', p', res) := feed_loop fuel w p in
  res ≠ Panic ∧ length (p_bytes p') ≤ length (p_bytes p)
  ∧ ∃ u, p_remaining p = u ++ p_remaining p'
      ∧ traffic w' = (from_client w, to_remote w ++ u, from_remote w, to_client w).
Proof.
  revert w p; induction fuel as [|fuel IH]; intros w p Hf; [lia|]. cbn [feed_loop].
  assert (∀ w', traffic w' = traffic w → ∃ u, p_remaining p = u ++ p_remaining (p_tidy p)
      ∧ traffic w' = (from_client w, to_remote w ++ u, from_remote w, to_client w)) as Hstop.
  { intros w' Hw. exists []. rewrite p_remaining_tidy, app_nil_r, Hw. done. }
  pose proof (p_tidy_bytes p) as Hb. destruct (p_is_empty p) eqn:Ee; [by auto|].
  pose proof (tls_write_returns w (p_remaining p)) as Hr.
  destruct (tls_write w (p_remaining p)) as [w1 [n|e|]] eqn:Ew; cbn in Hr; [| |done].
  - apply tls_write_ok in Ew as (Hn & Ht & Hbud). destruct (n =? 0) eqn:E0; bool_to_prop.
    + subst n. split_and!; [done|done|]. exists []. by rewrite p_remaining_tidy, Ht.
    + pose proof (p_remaining_advance p n Hn) as Hadv. specialize (IH w1 (p_advance p n)).
      destruct (feed_loop fuel w1 (p_advance p n)) as [[w2 p2] res]. destruct IH as (I1 & I2 & u & I3 & I4).
      { apply (f_equal length) in Hadv. rewrite length_app, length_take in Hadv. lia. }
      split_and!; [done|done|]. exists (take n (p_remaining p) ++ u). rewrite Hadv at 1. rewrite I3, app_assoc.
      split; [done|]. rewrite I4. unfold traffic in Ht. injection Ht as -> -> -> ->. by rewrite app_assoc.
  - apply tls_write_err in Ew as [Ht Hi]. destruct (bool_decide (e = EWouldBlock)); [by auto|].
    case_bool_decide as Hei.
    + specialize (IH w1 p). destruct (feed_loop fuel w1 p) as [[w2 p2] res].
      destruct IH as (I1 & I2 & u & I3 & I4); [specialize (Hi Hei); lia|].
      split_and!; [done|done|]. exists u. split; [done|]. rewrite I4. by unfold traffic in Ht; injection Ht as -> -> -> ->.
    + split_and!; [done|done|]. exists []. by rewrite app_nil_r, Ht.
Qed.

Lemma write_loop_ok fuel w p :
  length (p_remaining p) + budget w < fuel →
  let '(w', p', res) := write_loop fuel w p in
  res ≠ Panic ∧ length (p_bytes p') ≤ length (p_bytes p)
  ∧ ∃ u, p_remaining p = u ++ p_remaining p'
      ∧ traffic w' = (from_client w, to_remote w, from_remote w, to_client w ++ u).
Proof.
  revert w p; induction fuel as [|fuel IH]; intros w p Hf; [lia|]. cbn [write_loop].
  assert (∀ w', traffic w' = traffic w → ∃ u, p_remaining p = u ++ p_remaining (p_tidy p)
      ∧ traffic w' = (from_client w, to_remote w, from_remote w, to_client w ++ u)) as Hstop.
  { intros w' Hw. exists []. rewrite p_remaining_tidy, app_nil_r, Hw. done. }
  pose proof (p_tidy_bytes p) as Hb. destruct (p_is_empty p) eqn:Ee; [by auto|].
  pose proof (client_write_returns w (p_remaining p)) as Hr.
  destruct (client_write w (p_remaining p)) as [w1 [n|e|]] eqn:Ew; cbn in Hr; [| |done].
  - apply client_write_ok in Ew as (Hn & Ht & Hbud). destruct (n =? 0) eqn:E0; bool_to_prop.
    + subst n. split_and!; [done|done|]. exists []. by rewrite Ht.
    + pose proof (p_remaining_advance p n Hn) as Hadv. specialize (IH w1 (p_advance p n)).
      destruct (write_loop fuel w1 (p_advance p n)) as [[w2 p2] res]. destruct IH as (I1 & I2 & u & I3 & I4).
      { apply (f_equal length) in Hadv. rewrite length_app, length_take in Hadv. lia. }
      split_and!; [done|done|]. exists (take n (p_remaining p) ++ u). rewrite Hadv at 1. rewrite I3, app_assoc.
      split; [done|]. rewrite I4. unfold traffic in Ht. injection Ht as -> -> -> ->. by rewrite app_assoc.
  - apply client_write_err in Ew as [Ht Hi]. destruct (bool_decide (e = EWouldBlock)); [by auto|].
    case_bool_decide as Hei.
    + specialize (IH w1 p). destruct (write_loop fuel w1 p) as [[w2 p2] res].
      destruct IH as (I1 & I2 & u & I3 & I4); [specialize (Hi Hei); lia|].
      split_and!; [done|done|]. exists u. split; [done|]. rewrite I4. by unfold traffic in Ht; injection Ht as -> -> -> ->.
    + split_and!; [done|done|]. exists []. by rewrite app_nil_r, Ht.
Qed.

Lemma read_remote_loop_ok fuel w eof :
  budget w < fuel →
  let '(w', _, res) := read_remote_loop fuel w eof in res ≠ Panic ∧ traffic w' = traffic w.
Proof.
  revert w; induction fuel as [|fuel IH]; intros w Hf; [lia|]. cbn [read_remote_loop].
  pose proof (tls_read_io_returns w) as Hr. pose proof (tls_read_io_keeps w) as Hk.
  destruct (tls_read_io w) as [w1 [n|e|]] eqn:Ew; cbn in Hr, Hk; [| |done].
  - destruct (n =? 0) eqn:E0; [done|]. apply Nat.eqb_neq in E0. pose proof (tls_read_io_progress _ _ _ Ew E0).
    specialize (IH w1). destruct (read_remote_loop fuel w1 eof) as [[w2 b2] res].
    destruct IH as [? ?]; [lia|]. split; [done|congruence].
  - destruct (bool_decide (e = EWouldBlock)); [done|]. case_bool_decide as Hi; [|done]. subst e.
    pose proof (tls_read_io_interrupted _ _ Ew). specialize (IH w1).
    destruct (read_remote_loop fuel w1 eof) as [[w2 b2] res]. destruct IH as [? ?]; [lia|]. split; [done|congruence].
Qed.

Lemma write_remote_loop_ok fuel w :
  budget w < fuel →
  let '(w', res) := write_remote_loop fuel w in res ≠ Panic ∧ traffic w' = traffic w.
Proof.
  revert w; induction fuel as [|fuel IH]; intros w Hf; [lia|]. cbn [write_remote_loop]. destruct (negb (wants_write w)); [done|].
  pose proof (tls_write_io_returns w) as Hr. pose proof (tls_write_io_keeps w) as Hk.
  destruct (tls_write_io w) as [w1 [n|e|]] eqn:Ew; cbn in Hr, Hk; [| |done].
  - destruct (n =? 0) eqn:E0; [done|]. apply Nat.eqb_neq in E0. pose proof (tls_write_io_progress _ _ _ Ew E0).
    specialize (IH w1). destruct (write_remote_loop fuel w1) as [w2 res].
    destruct IH as [? ?]; [lia|]. split; [done|congruence].
  - destruct (bool_decide (e = EWouldBlock)); [done|]. case_bool_decide as Hi; [|done]. subst e.
    pose proof (tls_write_io_interrupted _ _ Ew). specialize (IH w1).
    destruct (write_remote_loop fuel w1) as [w2 res]. destruct IH as [? ?]; [lia|]. split; [done|congruence].
Qed.

Lemma update_registration_ok w side token rd wr st :
  let '(w', st', res) := update_registration w side token rd wr st in
  res ≠ Panic ∧ traffic w' = traffic w
  ∧ (res = Ok tt → registered st' = rd || wr ∧ (registered st' = true →
       registered st = false ∨ st' = {| registered := true; readable := rd; writable := wr |})).
Proof.
  unfold update_registration. destruct rd, wr; cbn [negb andb orb];
    [destruct st as [[|] [|] [|]] | destruct st as [[|] [|] [|]] | destruct st as [[|] [|] [|]] | destruct st as [[|] r0 w0]];
    cbn [registered readable writable negb Bool.eqb orb];
    repeat match goal with
    | |- context [poll_op ?w ?s ?o ?t ?r ?x] =>
        pose proof (poll_op_keeps w s o t r x); pose proof (poll_op_returns w s o t r x);
        destruct (poll_op w s o t r x) as [? [?|?|]]; cbn in *
    end; (split; [done|]); (split; [done|]); intros ?; simplify_eq; cbn; auto.
Qed.

Lemma write_remote_tls_ok w : (write_remote_tls w).2 ≠ Panic ∧ traffic (write_remote_tls w).1 = traffic w.
Proof.
  pose proof (write_remote_loop_ok (S (budget w)) w) as H. unfold write_remote_tls.
  destruct (write_remote_loop _ w) as [w' r]. apply H. lia.
Qed.
Lemma read_remote_tls_ok w eof :
  (read_remote_tls w eof).2 ≠ Panic ∧ traffic (read_remote_tls w eof).1.1 = traffic w.
Proof.
  pose proof (read_remote_loop_ok (S (budget w)) w eof) as H. unfold read_remote_tls.
  destruct (read_remote_loop _ w eof) as [[w' b] r]. apply H. lia.
Qed.

Lemma framed_service_ok s :
  (framed_service s).2 ≠ Panic ∧ traffic (f_net (framed_service s).1) = traffic (f_net s).
Proof.
  unfold framed_service. destruct (write_remote_tls_ok (f_net s)) as [P1 T1].
  destruct (write_remote_tls (f_net s)) as [w1 [u|e|]]; cbn [fst snd] in *; [|done..].
  cbn [f_remote_eof set_f_net f_net]. destruct (f_remote_eof s); cbn [negb].
  - cbn [f_net set_f_net]. destruct (write_remote_tls_ok w1) as [P2 T2].
    destruct (write_remote_tls w1) as [w2 r]. cbn [fst snd f_net set_f_net] in *. split; [done|congruence].
  - destruct (read_remote_tls_ok w1 false) as [P2 T2]. destruct (read_remote_tls w1 false) as [[w2 eof] [u2|e|]]; cbn [fst snd f_net set_f_net] in *;
      [|split; [done|congruence]..].
    destruct (write_remote_tls_ok w2) as [P3 T3]. destruct (write_remote_tls w2) as [w3 r]. cbn [fst snd f_net set_f_net] in *. split; [done|congruence].
Qed.
Lemma framed_refresh_ok s t :
  (framed_refresh s t).2 ≠ Panic ∧ traffic (f_net (framed_refresh s t).1) = traffic (f_net s).
Proof.
  unfold framed_refresh.
  pose proof (update_registration_ok (f_net s) SideRemote t (negb (f_remote_eof s) && wants_read (f_net s))
    (wants_write (f_net s)) (registration s)) as H.
  destruct (update_registration _ _ _ _ _ _) as [[w reg] r]. by destruct H as (? & ? & _).
Qed.

(** ** The framed session satisfies the interface of the datagram path *)
#[export] Instance framed_laws : FramedSessionLaws (TlsFramedSession).
Proof.
  split; cbn.
  - intros s b. unfold framed_write. pose proof (tls_write_returns (f_net s) b). by destruct (tls_write _ _).
  - intros s n. unfold framed_read. pose proof (tls_read_returns (f_net s) n). by destruct (tls_read _ _).
  - intros s b s' n. unfold framed_write. destruct (tls_write (f_net s) b) as [w r] eqn:E. intros [= <- ->].
    apply tls_write_ok in E as (H1 & H2 & H3). unfold traffic in H2. cbn. by injection H2 as _ -> _ _.
  - intros s b s' e. unfold framed_write. destruct (tls_write (f_net s) b) as [w r] eqn:E. intros [= <- ->].
    apply tls_write_err in E as [H1 H2]. unfold traffic in H1. cbn. by injection H1 as _ -> _ _.
  - intros s n s' b Hn. unfold framed_read. destruct (tls_read (f_net s) n) as [w r] eqn:E. intros [= <- ->].
    apply tls_read_ok in E as (H1 & H2 & H3); [|done]. unfold traffic in H2. cbn. by injection H2 as _ -> _ _.
  - intros s n s' e. unfold framed_read. destruct (tls_read (f_net s) n) as [w r] eqn:E. intros [= <- ->].
    apply tls_read_err in E as [H1 H2]. unfold traffic in H1. cbn. by injection H1 as _ -> _ _.
  - intros s. apply framed_service_ok.
  - intros s t. apply framed_refresh_ok.
  - intros s t. unfold framed_register. case_match; [done|]. apply framed_refresh_ok.
  - intros s. destruct (framed_service_ok s) as [_ Hk]. by injection Hk as _ -> _ _.
  - intros s t. destruct (framed_refresh_ok s t) as [_ Hk]. by injection Hk as _ -> _ _.
  - intros s t. unfold framed_register. case_match; [done|].
    destruct (framed_refresh_ok s t) as [_ Hk]. by injection Hk as _ -> _ _.
Qed.

(** ** What the relay has carried *)

(** Since [base], [u] went up and [d] went down, in order; the rest of what
    was read is still pending. *)
Definition carried (base : W) (r : TlsRelay) : Prop :=
  ∃ u d, from_client (r_net r) = from_client base ++ u ++ p_remaining (upstream r)
    ∧ to_remote (r_net r) = to_remote base ++ u
    ∧ from_remote (r_net r) = from_remote base ++ d ++ p_remaining (downstream r)
    ∧ to_client (r_net r) = to_client base ++ d
    ∧ (Z.of_nat (length (p_bytes (upstream r))) ≤ IO_CHUNK)%Z
    ∧ (Z.of_nat (length (p_bytes (downstream r))) ≤ IO_CHUNK)%Z.

  Context (base : W).

(** A step of the relay that does not panic and keeps the account. *)
Definition sound {A} (r : TlsRelay) (p : TlsRelay * result ErrorKind A) : Prop :=
  p.2 ≠ Panic ∧ (carried base r → carried base p.1).

Lemma seq_sound {A B} r (p : TlsRelay * result ErrorKind A) (f : TlsRelay → A → TlsRelay * result ErrorKind B) :
  sound r p → (∀ r1 a, sound r1 (f r1 a)) → sound r (seq_ p f).
Proof.
  intros [Hp Hc] Hf. destruct p as [r1 [a|e|]]; cbn in *; [|done..]. destruct (Hf r1 a) as [H1 H2]. split; [done|auto].
Qed.

Lemma carried_ext r r' :
  traffic (r_net r') = traffic (r_net r) → upstream r' = upstream r → downstream r' = downstream r →
  carried base r → carried base r'.
Proof.
  intros Ht Eu Ed (u & d & H). unfold traffic in Ht. injection Ht as T1 T2 T3 T4.
  exists u, d. by rewrite T1, T2, T3, T4, Eu, Ed.
Qed.

Lemma do_feed_sound r : sound r (do_feed r).
Proof.
  unfold do_feed, feed_upstream.
  pose proof (feed_loop_ok (S (length (p_remaining (upstream r)) + budget (r_net r))) (r_net r) (upstream r)) as H.
  destruct (feed_loop _ _ _) as [[w p] res]. destruct H as (H1 & H2 & x & H3 & H4); [lia|].
  split; [done|]. intros (u & d & C1 & C2 & C3 & C4 & C5 & C6). unfold traffic in H4. injection H4 as T1 T2 T3 T4.
  exists (u ++ x), d. cbn [fst r_net set_up_ upstream downstream]. rewrite T1, T2, T3, T4.
  split_and!; [by rewrite C1, H3, <- app_assoc|by rewrite C2, app_assoc|done|done|lia|done].
Qed.

Lemma do_fill_sound r : sound r (do_fill r).
Proof.
  unfold do_fill, fill_downstream. destruct (p_is_empty (downstream r)) eqn:Ee; cbn [negb].
  2: { split; [done|]. by apply carried_ext. }
  apply p_is_empty_true in Ee. pose proof (tls_read_returns (r_net r) IO_CHUNK) as Hr.
  assert (∀ w, traffic w = traffic (r_net r) → carried base r → carried base (set_down r w Pending_default)) as Hnone.
  { intros w Ht (u & d & C1 & C2 & C3 & C4 & C5 & C6). unfold traffic in Ht. injection Ht as T1 T2 T3 T4.
    exists u, d. cbn [r_net set_down upstream downstream]. rewrite T1, T2, T3, T4. rewrite Ee in C3.
    by split_and!. }
  destruct (tls_read (r_net r) IO_CHUNK) as [w [b|e|]] eqn:E; cbn in Hr; [| |done].
  - apply tls_read_ok in E as (Hl & Ht & _); [|done]. split; [done|].
    intros (u & d & C1 & C2 & C3 & C4 & C5 & C6). unfold traffic in Ht. injection Ht as T1 T2 T3 T4.
    exists u, d. cbn [fst r_net set_down upstream downstream]. rewrite T1, T2, T3, T4. rewrite Ee, app_nil_r in C3.
    split_and!; try done. cbn. by rewrite C3, <- app_assoc.
  - apply tls_read_err in E as [Ht _]. destruct (_ || _); (split; [done|by apply Hnone]).
Qed.

Lemma close_up_carried r : carried base r → carried base (close_up r).
Proof. unfold close_up. case_match; [|done]. apply carried_ext; [apply close_notify_keeps|done..]. Qed.

Lemma close_down_sound r : sound r (close_down r).
Proof.
  unfold close_down. case_match; [|by split]. pose proof (client_shutdown_returns (r_net r)) as Hr.
  pose proof (client_shutdown_keeps (r_net r)) as Hk. destruct (client_shutdown (r_net r)) as [w [u|e|]]; cbn in Hr, Hk; [| |done].
  - case_match; (split; [done|]); apply carried_ext; try done. cbn. by rewrite close_notify_keeps.
  - split; [done|]. by apply carried_ext.
Qed.

Lemma do_register_sound r : sound r (do_register r).
Proof.
  unfold do_register. cbn [wants].
  pose proof (update_registration_ok (r_net r) SideClient 0 (negb (client_eof r) && p_is_empty (upstream r))
    (negb (p_is_empty (downstream r))) (client_registration r)) as H1.
  destruct (update_registration (r_net r) SideClient _ _ _ _) as [[w creg] [u|e|]]; destruct H1 as (P1 & T1 & _); [| |done].
  2: { split; [done|]. by apply carried_ext. }
  cbn [r_net set_regs client_eof r_remote_eof upstream downstream remote_registration client_registration].
  pose proof (update_registration_ok w SideRemote 1 (negb (r_remote_eof r) && wants_read w) (wants_write w)
    (remote_registration r)) as H2.
  destruct (update_registration w SideRemote _ _ _ _) as [[w2 rreg] res]. destruct H2 as (P2 & T2 & _).
  split; [by destruct res|]. apply carried_ext; cbn; [congruence|done..].
Qed.

Lemma read_client_sound r :
  sound r (let '(w, p, eof, res) := read_client (r_net r) (upstream r) (client_eof r) in (set_up_ r w p eof, res)).
Proof.
  unfold read_client. destruct (p_is_empty (upstream r)) eqn:Ee; cbn [negb].
  2: { split; [done|]. by apply carried_ext. }
  apply p_is_empty_true in Ee. pose proof (client_read_returns (r_net r) IO_CHUNK) as Hr.
  assert (∀ w eof, traffic w = traffic (r_net r) → carried base r → carried base (set_up_ r w Pending_default eof)) as Hnone.
  { intros w eof Ht (u & d & C1 & C2 & C3 & C4 & C5 & C6). unfold traffic in Ht. injection Ht as T1 T2 T3 T4.
    exists u, d. cbn [r_net set_up_ upstream downstream]. rewrite T1, T2, T3, T4. rewrite Ee in C1.
    by split_and!. }
  destruct (client_read (r_net r) IO_CHUNK) as [w [b|e|]] eqn:E; cbn in Hr; [| |done].
  - apply client_read_ok in E as [Hl Ht]; [|done]. split; [done|].
    intros (u & d & C1 & C2 & C3 & C4 & C5 & C6). unfold traffic in Ht. injection Ht as T1 T2 T3 T4.
    exists u, d. cbn [fst r_net set_up_ upstream downstream]. rewrite T1, T2, T3, T4. rewrite Ee, app_nil_r in C1.
    split_and!; try done. cbn. by rewrite C1, <- app_assoc.
  - apply client_read_err in E. destruct (_ || _); (split; [done|by apply Hnone]).
Qed.

Lemma write_pending_sound r :
  sound r (let '(w, p, res) := write_pending (r_net r) (downstream r) in (set_down r w p, res)).
Proof.
  unfold write_pending.
  pose proof (write_loop_ok (S (length (p_remaining (downstream r)) + budget (r_net r))) (r_net r) (downstream r)) as H.
  destruct (write_loop _ _ _) as [[w p] res]. destruct H as (H1 & H2 & x & H3 & H4); [lia|].
  split; [done|]. intros (u & d & C1 & C2 & C3 & C4 & C5 & C6). unfold traffic in H4. injection H4 as T1 T2 T3 T4.
  exists u, (d ++ x). cbn [fst r_net set_down upstream downstream]. rewrite T1, T2, T3, T4.
  split_and!; [done|done|by rewrite C3, H3, <- app_assoc|by rewrite C4, app_assoc|done|lia].
Qed.

Lemma relay_events_sound i evs r : sound r (relay_events i evs r).
Proof.
  revert r; induction evs as [|ev evs IH]; intros r; cbn [relay_events]; [by split|].
  destruct i as [[[cr cw] rr] rw]. apply seq_sound; [|auto]. destruct (re_side ev) as [[|]|]; [| |by split].
  - unfold client_event. apply seq_sound; [destruct (_ && cr); [apply read_client_sound|by split]|intros r1 _].
    apply seq_sound; [destruct (_ && cw); [apply write_pending_sound|by split]|intros r2 _].
    split; [done|]. cbn. case_match; [by apply carried_ext|done].
  - unfold remote_event. apply seq_sound; [|intros r1 _; apply seq_sound; [|intros r2 _]].
    + destruct (_ && rr); [|by split]. destruct (read_remote_tls_ok (r_net r) (r_remote_eof r)) as [P T].
      destruct (read_remote_tls _ _) as [[w eof] res]. split; [done|]. by apply carried_ext.
    + destruct (_ && rw); [|by split]. destruct (write_remote_tls_ok (r_net r1)) as [P T].
      destruct (write_remote_tls _) as [w res]. split; [done|]. by apply carried_ext.
    + split; [done|]. cbn. case_match; [by apply carried_ext|done].
Qed.

Lemma relay_iter_sound r : sound r (relay_iter r).
Proof.
  unfold relay_iter. apply seq_sound; [apply do_feed_sound|intros r1 _].
  apply seq_sound; [apply do_fill_sound|intros r2 _]. apply seq_sound.
  { destruct (close_down_sound (close_up r2)) as [P C]. split; [done|]. intros Hc. by apply C, close_up_carried. }
  intros r3 _. case_match; [by split|]. apply seq_sound; [apply do_register_sound|intros r4 i].
  case_match; [by split|]. pose proof (poll_keeps_traffic (r_net r4)) as Hk. pose proof (poll_returns (r_net r4)) as Hr.
  destruct (relay_poll (r_net r4)) as [w [evs|e|]]; cbn in Hk, Hr; [| |done].
  - assert (sound r4 (set_down r4 w (downstream r4), Ok (E:=ErrorKind) tt)) as Hset by (split; [done|by apply carried_ext]).
    destruct (relay_events_sound i evs (set_down r4 w (downstream r4))) as [P C].
    apply seq_sound; [|by split]. split; [done|]. intros Hc. apply C. by apply Hset.
  - split; [done|]. by apply carried_ext.
Qed.

Lemma relay_iter_done r r' : relay_iter r = (r', Ok true) → relay_done r' = true.
Proof.
  unfold relay_iter. intros E. apply seq_ok_inv in E as (r1 & a1 & _ & E). apply seq_ok_inv in E as (r2 & a2 & _ & E).
  apply seq_ok_inv in E as (r3 & a3 & _ & E). destruct (relay_done r3) eqn:Ed; [by simplify_eq|].
  apply seq_ok_inv in E as (r4 & i & _ & E). case_match; [done|].
  destruct (relay_poll (r_net r4)) as [w [evs|e|]]; [|done..]. by apply seq_ok_inv in E as (r5 & a5 & _ & ?).
Qed.

Lemma relay_loop_carried fuel r :
  carried base r →
  carried base (relay_loop fuel r).1
  ∧ ((relay_loop fuel r).2 = Ok tt → relay_done (relay_loop fuel r).1 = true).
Proof.
  revert r; induction fuel as [|fuel IH]; intros r Hc; cbn [relay_loop]; [done|].
  pose proof (relay_iter_done r) as Hd. destruct (relay_iter_sound r) as [P C]. specialize (C Hc).
  destruct (relay_iter r) as [r1 [[|]|e|]]; cbn in P, C; [|by apply IH|done..]. cbn. auto.
Qed.
End sessions.
Arguments TlsFramedSession : clear implicits.
Arguments TlsRelay : clear implicits.

Section relay_theorem.
  Context {W : Type} `{HNet : TlsNet W} `{HLaws : !TlsNetLaws W}.

(** C18. The TLS relay neither loses, duplicates, reorders nor invents bytes.
    However long it runs and whatever its sockets answer, what it has handed
    to the TLS connection is a prefix of what it has read from the client, the
    rest being in a buffer of at most 16 KiB, and the same holds from the TLS
    connection to the client. When it returns successfully both buffers are
    empty: every byte read on one side has been handed to the other. No pass
    of the loop panics or loops forever. *)
Theorem tls_relay_exact (w : W) fuel :
  let '(r, res) := relay_loop fuel (relay_new w) in
  (∃ u d up down,
     from_client (r_net r) = from_client w ++ u ++ up ∧ to_remote (r_net r) = to_remote w ++ u
     ∧ from_remote (r_net r) = from_remote w ++ d ++ down ∧ to_client (r_net r) = to_client w ++ d
     ∧ (Z.of_nat (length up) ≤ IO_CHUNK)%Z ∧ (Z.of_nat (length down) ≤ IO_CHUNK)%Z
     ∧ (res = Ok tt → up = [] ∧ down = []))
  ∧ ∀ r0 : TlsRelay W, (relay_iter r0).2 ≠ Panic.
Proof.
  assert (carried w (relay_new w)) as H0.
  { exists [], []. cbn. rewrite !app_nil_r. split_and!; try done; unfold IO_CHUNK; lia. }
  destruct (relay_loop_carried w fuel (relay_new w) H0) as [Hc Hd].
  destruct (relay_loop fuel (relay_new w)) as [r res]. cbn in Hc, Hd. split; [|intros r0; apply (relay_iter_sound w)].
  destruct Hc as (u & d & C1 & C2 & C3 & C4 & C5 & C6).
  exists u, d, (p_remaining (upstream r)), (p_remaining (downstream r)). split_and!; try done.
  - unfold p_remaining. rewrite length_drop. lia.
  - unfold p_remaining. rewrite length_drop. lia.
  - intros Hr. specialize (Hd Hr). unfold relay_done in Hd. bool_to_prop.
    split; apply p_is_empty_true; tauto.
Qed.
End relay_theorem.

(** ** A concrete relay *)

(** A client with pieces of data to read, a TLS connection that takes
    everything and whose peer closes when the client has; [closing] says
    whether the client's events also report its end of stream. *)
Record toy_tls := { tt_in : list bytes; tt_closing : bool; tt_from : bytes; tt_to : bytes; tt_back : bytes; tt_down : bytes }.
Definition tt_set (w : toy_tls) (i : list bytes) (f t b d : bytes) : toy_tls :=
  {| tt_in := i; tt_closing := tt_closing w; tt_from := f; tt_to := t; tt_back := b; tt_down := d |}.
Definition toy_client_read (w : toy_tls) (n : Z) : toy_tls * result ErrorKind bytes :=
  match tt_in w with
  | b :: bs =>
      if (Z.of_nat (length b) <=? n)%Z
      then (tt_set w bs (tt_from w ++ b) (tt_to w) (tt_back w) (tt_down w), Ok b)
      else (w, Err EInvalidData)
  | [] => (w, Ok [])
  end.
Definition toy_events (w : toy_tls) : list RelayEvent :=
  let ev side closed := {| re_side := Some side; re_readable := true; re_writable := true; re_error := false;
                           re_read_closed := closed; re_write_closed := false |} in
  ev SideClient (tt_closing w) :: if (length (tt_in w) =? 0) || tt_closing w then [ev SideRemote false] else [].

#[local] Instance toy_TlsNet : TlsNet toy_tls := {
  tls_write w b := (tt_set w (tt_in w) (tt_from w) (tt_to w ++ b) (tt_back w) (tt_down w), Ok (length b));
  tls_read w n := (w, Err EWouldBlock);
  tls_read_io w := (w, Ok 0);
  tls_write_io w := (w, Ok 0);
  wants_read w := true;
  wants_write w := false;
  send_close_notify w := w;
  client_read := toy_client_read;
  client_write w b := (tt_set w (tt_in w) (tt_from w) (tt_to w) (tt_back w) (tt_down w ++ b), Ok (length b));
  client_shutdown w := (w, Ok tt);
  poll_op w _ _ _ _ _ := (w, Ok tt);
  relay_poll w := (w, Ok (toy_events w));
  from_client := tt_from;
  to_remote := tt_to;
  from_remote := tt_back;
  to_client := tt_down;
  budget _ := 0;
}.
#[local] Instance toy_TlsNetLaws : TlsNetLaws toy_tls.
Proof.
  split; try done; cbn;
    try (intros w b w' n [= <- <-]; by rewrite firstn_all);
    try (intros w b w' e [=]; done); try (intros w w' n [= <- <-]; done).
  - by intros w n w' e [= <- <-].
  - intros w n w' b Hn. unfold toy_client_read. destruct (tt_in w) as [|p ps].
    + intros [= <- <-]. cbn. rewrite app_nil_r. split; [lia|done].
    + destruct (_ <=? _)%Z eqn:E; [|done]. intros [= <- <-]. bool_to_prop. split; [lia|done].
  - intros w n w' e. unfold toy_client_read. destruct (tt_in w) as [|p ps]; [done|].
    destruct (_ <=? _)%Z; [done|]. by intros [= <- _].
  - intros w n. unfold toy_client_read. destruct (tt_in w) as [|p ps]; [done|]. by destruct (_ <=? _)%Z.
Qed.

Definition toy_relay (closing : bool) : toy_tls :=
  {| tt_in := [[x01; x02]; [x03]]; tt_closing := closing; tt_from := []; tt_to := []; tt_back := []; tt_down := [] |}.
Definition toy_result (closing : bool) : toy_tls * result ErrorKind unit :=
  let '(r, res) := relay_loop 10 (relay_new (toy_relay closing)) in (r_net r, res).

Lemma toy_result_open : toy_result false = (tt_set (toy_relay false) [] [x01; x02; x03] [x01; x02; x03] [] [], Ok tt).
Proof. vm_compute. reflexivity. Qed.

Lemma tls_relay_exact_witness :
  ∃ r res, relay_loop 10 (relay_new (toy_relay false)) = (r, res)
    ∧ ∃ u up, from_client (r_net r) = from_client (toy_relay false) ++ u ++ up
        ∧ to_remote (r_net r) = to_remote (toy_relay false) ++ u ∧ (res = Ok tt → up = []).
Proof.
  pose proof (tls_relay_exact (toy_relay false) 10) as H.
  destruct (relay_loop 10 (relay_new (toy_relay false))) as [r res]. exists r, res. split; [reflexivity|].
  destruct H as [(u & d & up & down & H1 & H2 & _ & _ & _ & _ & H7) _]. exists u, up.
  split; [exact H1|]. split; [exact H2|]. intros Hr. apply (H7 Hr).
Defined.

(** A client that closes its sending side while more than one buffer of data
    is waiting: the closing event marks the stream as ended after the first
    read, and the rest is never read although the relay reports success. *)
Lemma read_closed_drops_data :
  (toy_result true).2 = Ok tt ∧ tt_in (toy_result true).1 = [[x03]] ∧ to_remote (toy_result true).1 = [x01; x02].
Proof. split_and!; vm_compute; reflexivity. Qed.
