(* ===== verification/TlsInterest.v ===== *)
(** * What the TLS relay and the framed session wait for ([transport/src/tls.rs])

    The poll registry as the operating system sees it, and that the
    [Registration] values the code keeps always agree with it: operations are
    never applied to a socket in the wrong state, and when the relay goes to
    wait it has asked for exactly the events it can use. *)

From S2P Require Import Prelude RustStr RustNet Flow Policy DnsBase Proxy Trojan Conn Datagram TrojanDatagram TlsRelay.

(** The registry: what each socket is registered for, and whether an operation
    was ever applied to a socket in the wrong state (registering one that is
    registered, or changing one that is not), which mio leaves undefined. *)
Class PollRegistry (W : Type) `{TlsNet W} := {
  interest : W → RelaySide → option (Z * bool * bool);
  misused : W → bool;
}.
Definition op_illegal (o : PollOp) (i : option (Z * bool * bool)) : bool :=
  match o, i with OpRegister, Some _ | OpReregister, None | OpDeregister, None => true | _, _ => false end.
Definition registry_of `{PollRegistry W} (w : W) :=
  (interest w SideClient, interest w SideRemote, misused w).

Class PollRegistryLaws (W : Type) `{PollRegistry W} : Prop := {
  op_ok : ∀ w side o t rd wr w', poll_op w side o t rd wr = (w', Ok tt) →
    interest w' side = (match o with OpDeregister => None | _ => Some (t, rd, wr) end)
    ∧ (∀ side', side' ≠ side → interest w' side' = interest w side')
    ∧ misused w' = misused w || op_illegal o (interest w side);
  op_refused : ∀ w side o t rd wr w' e, poll_op w side o t rd wr = (w', e) → e ≠ Ok tt →
    (∀ side', interest w' side' = interest w side') ∧ misused w' = misused w || op_illegal o (interest w side);
  tls_write_registry : ∀ w b, registry_of (tls_write w b).1 = registry_of w;
  tls_read_registry : ∀ w n, registry_of (tls_read w n).1 = registry_of w;
  tls_read_io_registry : ∀ w, registry_of (tls_read_io w).1 = registry_of w;
  tls_write_io_registry : ∀ w, registry_of (tls_write_io w).1 = registry_of w;
  close_notify_registry : ∀ w, registry_of (send_close_notify w) = registry_of w;
  client_read_registry : ∀ w n, registry_of (client_read w n).1 = registry_of w;
  client_write_registry : ∀ w b, registry_of (client_write w b).1 = registry_of w;
  client_shutdown_registry : ∀ w, registry_of (client_shutdown w).1 = registry_of w;
  relay_poll_registry : ∀ w, registry_of (relay_poll w).1 = registry_of w;
  (** Changing the registry does not change what rustls wants. *)
  poll_op_wants : ∀ w side o t rd wr,
    wants_read (poll_op w side o t rd wr).1 = wants_read w ∧ wants_write (poll_op w side o t rd wr).1 = wants_write w;
}.

Section interest.
  Context {W : Type} `{HReg : PollRegistry W} `{HLaws : !PollRegistryLaws W}.

(** The code's record of a registration agrees with the registry. *)
Definition tracks (token : Z) (i : option (Z * bool * bool)) (st : Registration) : Prop :=
  i = if registered st then Some (token, readable st, writable st) else None.

(** What the code asks for. *)
Definition asked (token : Z) (rd wr : bool) : option (Z * bool * bool) :=
  if rd || wr then Some (token, rd, wr) else None.

Lemma update_registration_interest w side token rd wr st :
  tracks token (interest w side) st → misused w = false →
  let '(w', st', res) := update_registration w side token rd wr st in
  tracks token (interest w' side) st' ∧ misused w' = false
  ∧ (∀ side', side' ≠ side → interest w' side' = interest w side')
  ∧ wants_read w' = wants_read w ∧ wants_write w' = wants_write w
  ∧ (res = Ok tt → interest w' side = asked token rd wr).
Proof.
  unfold tracks, update_registration, asked. intros Ht Hm.
  assert (∀ o (st1 : Registration), op_illegal o (interest w side) = false →
    (match o with OpDeregister => None | _ => Some (token, rd, wr) end)
      = (if registered st1 then Some (token, readable st1, writable st1) else None) →
    (match o with OpDeregister => None | _ => Some (token, rd, wr) end) = (if rd || wr then Some (token, rd, wr) else None) →
    let '(w', st', res) := match poll_op w side o token rd wr with (w, Ok _) => (w, st1, Ok tt) | (w, r) => (w, st, r) end in
    interest w' side = (if registered st' then Some (token, readable st', writable st') else None) ∧ misused w' = false
    ∧ (∀ side', side' ≠ side → interest w' side' = interest w side')
    ∧ wants_read w' = wants_read w ∧ wants_write w' = wants_write w
    ∧ (res = Ok tt → interest w' side = if rd || wr then Some (token, rd, wr) else None)) as Hop.
  { intros o st1 Hlegal Hst Hask. pose proof (poll_op_wants w side o token rd wr) as [Hw1 Hw2].
    destruct (poll_op w side o token rd wr) as [w1 [[]|e|]] eqn:Eo; cbn in Hw1, Hw2.
    - apply op_ok in Eo as (-> & Hs & ->). rewrite Hm, Hlegal. split_and!; try done.
    - apply op_refused in Eo as (Hs & ->); [|done]. rewrite Hm, Hlegal, Hs. split_and!; try done.
    - apply op_refused in Eo as (Hs & ->); [|done]. rewrite Hm, Hlegal, Hs. split_and!; try done. }
  destruct (negb rd && negb wr) eqn:En.
  - apply andb_true_iff in En as [?%negb_true_iff ?%negb_true_iff]; subst rd wr.
    destruct (registered st) eqn:Er; [apply (Hop OpDeregister Registration_default); [by rewrite Ht|done|done]|].
    by rewrite Er.
  - assert (rd || wr = true) as Ho by (by destruct rd, wr).
    destruct (registered st) eqn:Er; cbn [negb].
    + destruct (negb (Bool.eqb (readable st) rd) || negb (Bool.eqb (writable st) wr)) eqn:Ed.
      * apply (Hop OpReregister); [by rewrite Ht|done|by rewrite Ho].
      * apply orb_false_elim in Ed as [Ed1%negb_false_iff Ed2%negb_false_iff].
        apply Bool.eqb_prop in Ed1 as <-, Ed2 as <-. rewrite Er, Ho, Ht. by split_and!.
    + apply (Hop OpRegister); [by rewrite Ht|done|by rewrite Ho].
Qed.

(** ** Moving data leaves the registry alone *)

(** Takes one operation apart and remembers what it kept. *)
Ltac registry_step :=
  match goal with
  | |- context [tls_write ?w ?b] => pose proof (tls_write_registry w b); destruct (tls_write w b) as [? [?|?|]]
  | |- context [tls_read ?w ?n] => pose proof (tls_read_registry w n); destruct (tls_read w n) as [? [?|?|]]
  | |- context [tls_read_io ?w] => pose proof (tls_read_io_registry w); destruct (tls_read_io w) as [? [?|?|]]
  | |- context [tls_write_io ?w] => pose proof (tls_write_io_registry w); destruct (tls_write_io w) as [? [?|?|]]
  | |- context [client_read ?w ?n] => pose proof (client_read_registry w n); destruct (client_read w n) as [? [?|?|]]
  | |- context [client_write ?w ?b] => pose proof (client_write_registry w b); destruct (client_write w b) as [? [?|?|]]
  end; cbn [fst] in *.

Lemma read_remote_registry fuel w eof : registry_of (read_remote_loop fuel w eof).1.1 = registry_of w.
Proof.
  revert w; induction fuel as [|fuel IH]; intros w; cbn [read_remote_loop]; [done|]. registry_step; [..|done].
  - destruct (_ =? 0); [done|]. by rewrite IH.
  - destruct (bool_decide (_ = EWouldBlock)); [done|]. case_bool_decide; [by rewrite IH|done].
Qed.
Lemma write_remote_registry fuel w : registry_of (write_remote_loop fuel w).1 = registry_of w.
Proof.
  revert w; induction fuel as [|fuel IH]; intros w; cbn [write_remote_loop]; [done|].
  destruct (negb (wants_write w)); [done|]. registry_step; [..|done].
  - destruct (_ =? 0); [done|]. by rewrite IH.
  - destruct (bool_decide (_ = EWouldBlock)); [done|]. case_bool_decide; [by rewrite IH|done].
Qed.
Lemma feed_registry fuel w p : registry_of (feed_loop fuel w p).1.1 = registry_of w.
Proof.
  revert w p; induction fuel as [|fuel IH]; intros w p; cbn [feed_loop]; [done|]. destruct (p_is_empty p); [done|].
  registry_step; [..|done].
  - destruct (_ =? 0); [done|]. by rewrite IH.
  - destruct (bool_decide (_ = EWouldBlock)); [done|]. case_bool_decide; [by rewrite IH|done].
Qed.
Lemma write_pending_registry fuel w p : registry_of (write_loop fuel w p).1.1 = registry_of w.
Proof.
  revert w p; induction fuel as [|fuel IH]; intros w p; cbn [write_loop]; [done|]. destruct (p_is_empty p); [done|].
  registry_step; [..|done].
  - destruct (_ =? 0); [done|]. by rewrite IH.
  - destruct (bool_decide (_ = EWouldBlock)); [done|]. case_bool_decide; [by rewrite IH|done].
Qed.

(** A step that changes neither the registry nor the code's record of it. *)
Definition quiet (r r' : TlsRelay W) : Prop :=
  registry_of (r_net r') = registry_of (r_net r)
  ∧ client_registration r' = client_registration r ∧ remote_registration r' = remote_registration r.
#[local] Instance quiet_refl : Reflexive quiet.
Proof. by intros r. Qed.
#[local] Instance quiet_trans : Transitive quiet.
Proof. intros r1 r2 r3 (A1 & A2 & A3) (B1 & B2 & B3). split_and!; congruence. Qed.

Lemma quiet_seq {A B} r (p : TlsRelay W * result ErrorKind A) (f : TlsRelay W → A → TlsRelay W * result ErrorKind B) :
  quiet r p.1 → (∀ r' a, p = (r', Ok a) → quiet r' (f r' a).1) → quiet r (seq_ p f).1.
Proof. destruct p as [r' [a|e|]]; cbn; [|done..]. intros H1 H2. trans r'; auto. Qed.

Lemma do_feed_quiet r : quiet r (do_feed r).1.
Proof.
  unfold do_feed, feed_upstream. pose proof (feed_registry (S (length (p_remaining (upstream r)) + budget (r_net r))) (r_net r) (upstream r)) as Hk.
  by destruct (feed_loop _ _ _) as [[w p] res].
Qed.
Lemma do_fill_quiet r : quiet r (do_fill r).1.
Proof.
  unfold do_fill, fill_downstream. destruct (negb _); [done|]. registry_step; [done| |done]. by destruct (_ || _).
Qed.
Lemma close_quiet r : quiet r (close_down (close_up r)).1.
Proof.
  assert (quiet r (close_up r)) as H1.
  { unfold close_up. destruct (_ && _); [|done]. split_and!; [apply close_notify_registry|done|done]. }
  trans (close_up r); [done|]. clear H1. unfold close_down. destruct (_ && _ && _); [|done].
  pose proof (client_shutdown_registry (r_net (close_up r))) as Hk.
  destruct (client_shutdown _) as [w [u|e|]]; cbn in Hk; [|done..].
  destruct (negb _); [|done]. split_and!; [|done..]. cbn. by rewrite close_notify_registry.
Qed.

Lemma client_event_quiet cr cw ev r : quiet r (client_event cr cw ev r).1.
Proof.
  unfold client_event. apply quiet_seq.
  { destruct (_ && _); [|done]. unfold read_client. destruct (negb _); [done|]. registry_step; [done| |done]. by destruct (_ || _). }
  intros r1 _ _. apply quiet_seq.
  { destruct (_ && _); [|done]. unfold write_pending.
    pose proof (write_pending_registry (S (length (p_remaining (downstream r1)) + budget (r_net r1))) (r_net r1) (downstream r1)) as Hk.
    by destruct (write_loop _ _ _) as [[w p] res]. }
  intros r2 _ _. cbn. by destruct (_ || _).
Qed.
Lemma remote_event_quiet rr rw ev r : quiet r (remote_event rr rw ev r).1.
Proof.
  unfold remote_event. apply quiet_seq.
  { destruct (_ && _); [|done]. unfold read_remote_tls.
    pose proof (read_remote_registry (S (budget (r_net r))) (r_net r) (r_remote_eof r)) as Hk.
    by destruct (read_remote_loop _ _ _) as [[w eof] res]. }
  intros r1 _ _. apply quiet_seq.
  { destruct (_ && _); [|done]. unfold write_remote_tls.
    pose proof (write_remote_registry (S (budget (r_net r1))) (r_net r1)) as Hk. by destruct (write_remote_loop _ _) as [w res]. }
  intros r2 _ _. cbn. by destruct (_ || _).
Qed.
Lemma relay_events_quiet i evs r : quiet r (relay_events i evs r).1.
Proof.
  revert r; induction evs as [|ev evs IH]; intros r; cbn [relay_events]; [done|]. destruct i as [[[cr cw] rr] rw].
  apply quiet_seq; [|by intros]. destruct (re_side ev) as [[]|]; [apply client_event_quiet|apply remote_event_quiet|done].
Qed.

(** ** The relay *)

(** Everything a pass does before it waits. *)
Definition before_poll (r : TlsRelay W) : TlsRelay W * result ErrorKind (bool * bool * bool * bool) :=
  let! r _f := do_feed r in
  let! r _g := do_fill r in
  let! r _c := close_down (close_up r) in
  do_register r.

(** The code's record is the registry's. *)
Definition in_step (r : TlsRelay W) : Prop :=
  tracks 0 (interest (r_net r) SideClient) (client_registration r)
  ∧ tracks 1 (interest (r_net r) SideRemote) (remote_registration r) ∧ misused (r_net r) = false.

Lemma in_step_quiet r r' : quiet r r' → in_step r → in_step r'.
Proof. unfold quiet, in_step, registry_of. intros ([= -> -> ->] & -> & ->). done. Qed.

Lemma do_register_in_step r :
  in_step r →
  let '(r', res) := do_register r in
  in_step r'
  ∧ ∀ cr cw rr rw, res = Ok (cr, cw, rr, rw) →
      wants r' = (cr, cw, rr, rw)
      ∧ interest (r_net r') SideClient = asked 0 cr cw ∧ interest (r_net r') SideRemote = asked 1 rr rw.
Proof.
  intros (H1 & H2 & H3). unfold do_register, wants.
  pose proof (update_registration_interest (r_net r) SideClient 0 (negb (client_eof r) && p_is_empty (upstream r))
    (negb (p_is_empty (downstream r))) (client_registration r) H1 H3) as Hc.
  destruct (update_registration _ SideClient _ _ _ _) as [[w1 creg] [[]|e|]]; destruct Hc as (C1 & C2 & C3 & C4 & C5 & C6).
  2,3: split; [split_and!; cbn; [done|by rewrite C3|done]|done].
  cbn [set_regs r_net client_eof upstream downstream r_remote_eof remote_registration client_registration].
  assert (tracks 1 (interest w1 SideRemote) (remote_registration r)) as H2' by (by rewrite C3).
  pose proof (update_registration_interest w1 SideRemote 1 (negb (r_remote_eof r) && wants_read w1)
    (wants_write w1) (remote_registration r) H2' C2) as Hr.
  destruct (update_registration w1 SideRemote _ _ _ _) as [[w2 rreg] res]; destruct Hr as (D1 & D2 & D3 & D4 & D5 & D6).
  split; [split_and!; cbn; [by rewrite D3|done|done]|].
  intros cr cw rr rw Hres. destruct res as [[]|e|]; [|done..]. injection Hres as <- <- <- <-.
  cbn. rewrite D4, D5. split_and!; [done|by rewrite D3 by done; apply C6|by apply D6].
Qed.

Lemma before_poll_in_step r :
  in_step r →
  let '(r', res) := before_poll r in
  in_step r'
  ∧ ∀ cr cw rr rw, res = Ok (cr, cw, rr, rw) →
      wants r' = (cr, cw, rr, rw)
      ∧ interest (r_net r') SideClient = asked 0 cr cw ∧ interest (r_net r') SideRemote = asked 1 rr rw.
Proof.
  intros Hr. unfold before_poll, seq_.
  pose proof (in_step_quiet _ _ (do_feed_quiet r) Hr) as H1. destruct (do_feed r) as [r1 [u|e|]]; [|by split..].
  pose proof (in_step_quiet _ _ (do_fill_quiet r1) H1) as H2. destruct (do_fill r1) as [r2 [u2|e|]]; [|by split..].
  pose proof (in_step_quiet _ _ (close_quiet r2) H2) as H3. destruct (close_down (close_up r2)) as [r3 [u3|e|]]; [|by split..].
  by apply do_register_in_step.
Qed.

Lemma relay_iter_in_step r : in_step r → in_step (relay_iter r).1.
Proof.
  intros Hr. unfold relay_iter, seq_.
  pose proof (in_step_quiet _ _ (do_feed_quiet r) Hr) as H1. destruct (do_feed r) as [r1 [u|e|]]; [|done..].
  pose proof (in_step_quiet _ _ (do_fill_quiet r1) H1) as H2. destruct (do_fill r1) as [r2 [u2|e|]]; [|done..].
  pose proof (in_step_quiet _ _ (close_quiet r2) H2) as H3. destruct (close_down (close_up r2)) as [r3 [u3|e|]]; [|done..].
  destruct (relay_done r3); [done|].
  pose proof (do_register_in_step r3 H3) as H4. destruct (do_register r3) as [r4 [i|e|]]; destruct H4 as [H4 _]; [|done..].
  destruct (_ && _); [done|]. pose proof (relay_poll_registry (r_net r4)) as Hp.
  destruct (relay_poll (r_net r4)) as [w5 [evs|e|]]; cbn in Hp.
  - assert (in_step (set_down r4 w5 (downstream r4))) as H5 by (by eapply in_step_quiet; [|exact H4]).
    pose proof (in_step_quiet _ _ (relay_events_quiet i evs _) H5) as H6.
    by destruct (relay_events i evs _) as [r6 [u6|e|]].
  - by eapply in_step_quiet; [|exact H4].
  - by eapply in_step_quiet; [|exact H4].
Qed.

(** One pass to the next. *)
Definition relay_pass (r r' : TlsRelay W) : Prop := relay_iter r = (r', Ok false).

(** C19. The relay waits for exactly what it can use. However many passes it
    has made, its record of the poll registry is right and no operation was
    applied to a socket in the wrong state. When it goes to wait, the client
    socket is registered for reading exactly when more can be read from the
    client and nothing is pending upstream, and for writing exactly when
    something is pending downstream; the TLS socket is registered for exactly
    what the TLS connection wants, reading only while the remote side is open.
    So writable readiness is never left on after the output has drained, and
    no needed wake-up is missed. Refreshing a framed session has the same
    effect on its socket. *)
Theorem relay_interest_exact (w : W) (r : TlsRelay W) :
  interest w SideClient = None → interest w SideRemote = None → misused w = false →
  rtc relay_pass (relay_new w) r →
  misused (r_net r) = false
  ∧ (∀ r' i, before_poll r = (r', Ok i) →
       misused (r_net r') = false
       ∧ interest (r_net r') SideClient
         = asked 0 (negb (client_eof r') && p_is_empty (upstream r')) (negb (p_is_empty (downstream r')))
       ∧ interest (r_net r') SideRemote
         = asked 1 (negb (r_remote_eof r') && wants_read (r_net r')) (wants_write (r_net r')))
  ∧ (∀ (s s' : TlsFramedSession W) token,
       tracks token (interest (f_net s) SideRemote) (registration s) → misused (f_net s) = false →
       framed_refresh s token = (s', Ok tt) →
       tracks token (interest (f_net s') SideRemote) (registration s') ∧ misused (f_net s') = false
       ∧ interest (f_net s') SideRemote
         = asked token (negb (f_remote_eof s') && wants_read (f_net s')) (wants_write (f_net s'))).
Proof.
  intros Hc Hr Hm Hs. assert (in_step r) as Hin.
  { eapply (rtc_preserves relay_pass); [|exact Hs|by split_and!].
    intros x y Hxy Hx. pose proof (relay_iter_in_step x Hx) as Hy. by rewrite Hxy in Hy. }
  split_and!; [apply Hin| |].
  - intros r' [[[cr cw] rr] rw] Hb. pose proof (before_poll_in_step r Hin) as Hp. rewrite Hb in Hp.
    destruct Hp as [(_ & _ & Hm') Hi]. destruct (Hi cr cw rr rw eq_refl) as (Hw & Ic & Ir).
    unfold wants in Hw. injection Hw as -> -> -> ->. done.
  - intros s s' token Ht Hms. unfold framed_refresh.
    pose proof (update_registration_interest (f_net s) SideRemote token (negb (f_remote_eof s) && wants_read (f_net s))
      (wants_write (f_net s)) (registration s) Ht Hms) as Hu.
    destruct (update_registration _ _ _ _ _ _) as [[w' reg] res]. destruct Hu as (U1 & U2 & _ & U4 & U5 & U6).
    intros [= <- ->]. cbn. rewrite U4, U5. split_and!; [done|done|by apply U6].
Qed.
End interest.

(** ** A relay with a poll registry *)
Record toy_polled := { tp_base : toy_tls; tp_client : option (Z * bool * bool); tp_remote : option (Z * bool * bool); tp_misused : bool }.
Definition tp_with {A} (w : toy_polled) (p : toy_tls * A) : toy_polled * A :=
  ({| tp_base := p.1; tp_client := tp_client w; tp_remote := tp_remote w; tp_misused := tp_misused w |}, p.2).
Definition tp_interest (w : toy_polled) (side : RelaySide) : option (Z * bool * bool) :=
  match side with SideClient => tp_client w | SideRemote => tp_remote w end.
Definition tp_poll_op (w : toy_polled) (side : RelaySide) (o : PollOp) (t : Z) (rd wr : bool) : toy_polled * result ErrorKind unit :=
  let i := match o with OpDeregister => None | _ => Some (t, rd, wr) end in
  ({| tp_base := tp_base w; tp_client := match side with SideClient => i | SideRemote => tp_client w end;
      tp_remote := match side with SideClient => tp_remote w | SideRemote => i end;
      tp_misused := tp_misused w || op_illegal o (tp_interest w side) |}, Ok tt).
#[local] Instance toy_polled_net : TlsNet toy_polled := {
  tls_write w b := tp_with w (@tls_write _ toy_TlsNet (tp_base w) b);
  tls_read w n := tp_with w (@tls_read _ toy_TlsNet (tp_base w) n);
  tls_read_io w := tp_with w (@tls_read_io _ toy_TlsNet (tp_base w));
  tls_write_io w := tp_with w (@tls_write_io _ toy_TlsNet (tp_base w));
  wants_read w := true;
  wants_write w := false;
  send_close_notify w := w;
  client_read w n := tp_with w (toy_client_read (tp_base w) n);
  client_write w b := tp_with w (@client_write _ toy_TlsNet (tp_base w) b);
  client_shutdown w := (w, Ok tt);
  poll_op := tp_poll_op;
  relay_poll w := (w, Ok (toy_events (tp_base w)));
  TlsRelay.from_client w := tt_from (tp_base w);
  TlsRelay.to_remote w := tt_to (tp_base w);
  TlsRelay.from_remote w := tt_back (tp_base w);
  TlsRelay.to_client w := tt_down (tp_base w);
  budget _ := 0;
}.
#[local] Instance toy_polled_registry : PollRegistry toy_polled := { interest := tp_interest; misused := tp_misused }.
#[local] Instance toy_polled_laws : PollRegistryLaws toy_polled.
Proof.
  split; try done.
  - intros w side o t rd wr w' [= <-]. cbn. split_and!; [by destruct side, o|by intros [] ?; destruct side|done].
  - intros w side o t rd wr w' e [= <- <-]. done.
Qed.

Lemma relay_interest_exact_witness :
  let w := {| tp_base := toy_relay false; tp_client := None; tp_remote := None; tp_misused := false |} in
  ∃ r, rtc relay_pass (relay_new w) r ∧ client_eof r = false ∧ misused (r_net r) = false.
Proof.
  cbn zeta. eexists. split; [eapply rtc_once; unfold relay_pass; vm_compute; reflexivity|]. split; [reflexivity|].
  apply (relay_interest_exact {| tp_base := toy_relay false; tp_client := None; tp_remote := None; tp_misused := false |});
    [reflexivity|reflexivity|reflexivity|]. eapply rtc_once; unfold relay_pass; vm_compute; reflexivity.
Defined.
