(* ===== verification/EdgePoll.v ===== *)
(** * Relays over an edge-triggered poll

    A whole machine around the TLS relay of [transport/src/tls.rs]: an
    application on the client socket, a server behind the TLS connection, and
    the poll the relay waits on. The poll is edge-triggered, as mio documents
    it: a socket is reported when something new happens on it or when its
    registration is made or changed, and then with all that it is ready for;
    a socket that merely stays ready is not reported again. The TLS connection
    passes plaintext on and has the 64 KiB buffer limit of the transport.

    The machine satisfies the interface [TlsNet] and its laws. The transport's
    own tests run on it ([TransportTests]), and it shows where the relay
    depends on a readiness it has not used up. *)

From S2P Require Import Prelude RustStr RustNet Flow Policy Proxy Trojan Conn Protocol Outbound Sockets.
From S2P Require Import Datagram TrojanDatagram TlsRelay Socks5 Socks5Udp.

(** ** The machine *)

(** One direction of a stream: bytes under way, and whether its end follows. *)
Record Pipe := { data : bytes; ended : bool }.
Definition Pipe_new : Pipe := {| data := []; ended := false |}.
Definition has_more (p : Pipe) : bool := negb (length (data p) =? 0) || ended p.
Definition append (p q : Pipe) : Pipe := {| data := data p ++ data q; ended := ended p || ended q |}.

(** What the application and the server do, in order: wait for so many bytes,
    send, echo until the end of the stream and then close, end the sending
    side, or wait to be released. *)
Inductive PeerAct := PRecv (n : nat) | PSend (b : bytes) | PEcho | PEnd | PGate.

(** The registration of a socket: readable and writable interest. *)
Definition Interest : Type := option (bool * bool).

Record Machine := {
  app : list PeerAct;      (** what the application has still to do *)
  app_got : bytes;         (** what it has received *)
  server : list PeerAct;
  up_client : Pipe;        (** in the client socket, for the relay to read *)
  down_client : Pipe;      (** in the client socket, for the application *)
  up_tls : Pipe;           (** accepted by TLS; its end is a queued close_notify *)
  up_wire : Pipe;          (** under way to the server *)
  down_wire : Pipe;        (** under way from the server *)
  down_fin : bool;         (** the server's socket is closed *)
  down_tls : Pipe;         (** received by TLS *)
  eof_seen : bool;         (** TLS has read the end of its socket *)
  reg_client : Interest;
  reg_remote : Interest;
  edge_client : bool;      (** something new happened on the socket *)
  edge_remote : bool;
  eager : bool;            (** the peers act whenever the relay polls *)
  records : nat;           (** TLS records the connection still carries *)
  seen : bytes * bytes * bytes * bytes;
}.

Definition set_app (m : Machine) (acts : list PeerAct) (got : bytes) : Machine :=
  {| app := acts; app_got := got; server := server m; up_client := up_client m; down_client := down_client m;
     up_tls := up_tls m; up_wire := up_wire m; down_wire := down_wire m; down_fin := down_fin m;
     down_tls := down_tls m; eof_seen := eof_seen m; reg_client := reg_client m; reg_remote := reg_remote m;
     edge_client := edge_client m; edge_remote := edge_remote m; eager := eager m; records := records m; seen := seen m |}.
Definition set_server (m : Machine) (acts : list PeerAct) (up down : Pipe) (fin : bool) : Machine :=
  {| app := app m; app_got := app_got m; server := acts; up_client := up_client m; down_client := down_client m;
     up_tls := up_tls m; up_wire := up; down_wire := down; down_fin := fin;
     down_tls := down_tls m; eof_seen := eof_seen m; reg_client := reg_client m; reg_remote := reg_remote m;
     edge_client := edge_client m; edge_remote := edge_remote m; eager := eager m; records := records m; seen := seen m |}.
Definition set_client (m : Machine) (up down : Pipe) (s : bytes * bytes * bytes * bytes) : Machine :=
  {| app := app m; app_got := app_got m; server := server m; up_client := up; down_client := down;
     up_tls := up_tls m; up_wire := up_wire m; down_wire := down_wire m; down_fin := down_fin m;
     down_tls := down_tls m; eof_seen := eof_seen m; reg_client := reg_client m; reg_remote := reg_remote m;
     edge_client := edge_client m; edge_remote := edge_remote m; eager := eager m; records := records m; seen := s |}.
Definition set_conn (m : Machine) (up down : Pipe) (eof : bool) (n : nat) (s : bytes * bytes * bytes * bytes) : Machine :=
  {| app := app m; app_got := app_got m; server := server m; up_client := up_client m; down_client := down_client m;
     up_tls := up; up_wire := up_wire m; down_wire := down_wire m; down_fin := down_fin m;
     down_tls := down; eof_seen := eof; reg_client := reg_client m; reg_remote := reg_remote m;
     edge_client := edge_client m; edge_remote := edge_remote m; eager := eager m; records := n; seen := s |}.
Definition set_poll (m : Machine) (c r : Interest) (ec er : bool) : Machine :=
  {| app := app m; app_got := app_got m; server := server m; up_client := up_client m; down_client := down_client m;
     up_tls := up_tls m; up_wire := up_wire m; down_wire := down_wire m; down_fin := down_fin m;
     down_tls := down_tls m; eof_seen := eof_seen m; reg_client := c; reg_remote := r;
     edge_client := ec; edge_remote := er; eager := eager m; records := records m; seen := seen m |}.

Definition Machine_new (application peer : list PeerAct) (eager_ : bool) : Machine :=
  {| app := application; app_got := []; server := peer; up_client := Pipe_new; down_client := Pipe_new;
     up_tls := Pipe_new; up_wire := Pipe_new; down_wire := Pipe_new; down_fin := false; down_tls := Pipe_new;
     eof_seen := false; reg_client := None; reg_remote := None; edge_client := false; edge_remote := false;
     eager := eager_; records := 1000; seen := ([], [], [], []) |}.

(** ** Readiness *)
Definition client_ready (m : Machine) (i : bool * bool) : bool * bool := (i.1 && has_more (up_client m), i.2).
Definition remote_ready (m : Machine) (i : bool * bool) : bool * bool :=
  (i.1 && (has_more (down_wire m) || down_fin m), i.2).

(** Something arrived on a socket: an edge, when reading is of interest. *)
Definition arrival (i : Interest) (edge : bool) : bool := match i with Some (true, _) => true | _ => edge end.
Definition client_arrival (m : Machine) : Machine :=
  set_poll m (reg_client m) (reg_remote m) (arrival (reg_client m) (edge_client m)) (edge_remote m).
Definition remote_arrival (m : Machine) : Machine :=
  set_poll m (reg_client m) (reg_remote m) (edge_client m) (arrival (reg_remote m) (edge_remote m)).

(** ** The peers *)
Definition app_step (m : Machine) : option Machine :=
  match app m with
  | PSend b :: acts =>
      Some (client_arrival (set_client (set_app m acts (app_got m))
        (append (up_client m) {| data := b; ended := false |}) (down_client m) (seen m)))
  | PRecv n :: acts =>
      if n <=? length (data (down_client m)) then
        Some (set_client (set_app m acts (app_got m ++ take n (data (down_client m)))) (up_client m)
          {| data := drop n (data (down_client m)); ended := ended (down_client m) |} (seen m))
      else None
  | PEnd :: acts =>
      Some (client_arrival (set_client (set_app m acts (app_got m))
        (append (up_client m) {| data := []; ended := true |}) (down_client m) (seen m)))
  | _ => None
  end.

Definition server_step (m : Machine) : option Machine :=
  match server m with
  | PSend b :: acts =>
      Some (remote_arrival (set_server m acts (up_wire m) (append (down_wire m) {| data := b; ended := false |}) (down_fin m)))
  | PRecv n :: acts =>
      if n <=? length (data (up_wire m)) then
        Some (set_server m acts {| data := drop n (data (up_wire m)); ended := ended (up_wire m) |} (down_wire m) (down_fin m))
      else None
  | PEcho :: acts =>
      if negb (length (data (up_wire m)) =? 0) then
        Some (remote_arrival (set_server m (PEcho :: acts) {| data := []; ended := ended (up_wire m) |}
          (append (down_wire m) {| data := data (up_wire m); ended := false |}) (down_fin m)))
      else if ended (up_wire m) then Some (set_server m (PEnd :: acts) (up_wire m) (down_wire m) (down_fin m))
      else None
  | PEnd :: acts =>
      Some (remote_arrival (set_server m acts (up_wire m) (append (down_wire m) {| data := []; ended := true |}) true))
  | _ => None
  end.

Definition peers_step (m : Machine) : option Machine :=
  match app_step m with Some m' => Some m' | None => server_step m end.

(** ** The poll *)
Definition side_event (side : RelaySide) (i : Interest) (edge : bool) (ready : bool * bool → bool * bool) (closed : bool)
    : list RelayEvent :=
  match i, edge with
  | Some i, true =>
      let '(r, w) := ready i in
      if r || w then
        [{| re_side := Some side; re_readable := r; re_writable := w; re_error := false;
            re_read_closed := i.1 && closed; re_write_closed := false |}]
      else []
  | _, _ => []
  end.
Definition poll_events (m : Machine) : list RelayEvent :=
  side_event SideClient (reg_client m) (edge_client m) (client_ready m) (ended (up_client m))
  ++ side_event SideRemote (reg_remote m) (edge_remote m) (remote_ready m) (down_fin m).

(** Blocks until there is an event; a poll that would block for ever reports
    none. [fuel] bounds the steps of the peers looked at. *)
Fixpoint poll_wait (fuel : nat) (m : Machine) : Machine * list RelayEvent :=
  match poll_events m with
  | [] =>
      match fuel, peers_step m with
      | S fuel', Some m' => poll_wait fuel' m'
      | _, _ => (m, [])
      end
  | evs => (set_poll m (reg_client m) (reg_remote m) false false, evs)
  end.
Definition machine_poll (m : Machine) : Machine * result ErrorKind (list RelayEvent) :=
  let m := if eager m then default m (peers_step m) else m in
  let '(m, evs) := poll_wait 100 m in (m, Ok evs).

Definition interest_of (o : PollOp) (r w : bool) : Interest :=
  match o with OpDeregister => None | _ => Some (r, w) end.
Definition machine_poll_op (m : Machine) (side : RelaySide) (o : PollOp) (t : Z) (r w : bool)
    : Machine * result ErrorKind unit :=
  let i := interest_of o r w in
  let armed ready := match i with Some j => let '(a, b) := ready j in a || b | None => false end in
  (match side with
   | SideClient => set_poll m i (reg_remote m) (armed (client_ready m)) (edge_remote m)
   | SideRemote => set_poll m (reg_client m) i (edge_client m) (armed (remote_ready m))
   end, Ok tt).

(** ** The TLS connection and the client socket *)
Definition machine_tls_write (m : Machine) (b : bytes) : Machine * result ErrorKind nat :=
  let n := Nat.min (length b) (Z.to_nat TLS_BUFFER_LIMIT - length (data (up_tls m))) in
  let '(fc, tr, fr, tc) := seen m in
  (set_conn m {| data := data (up_tls m) ++ take n b; ended := ended (up_tls m) |} (down_tls m) (eof_seen m) (records m)
     (fc, tr ++ take n b, fr, tc), Ok n).
Definition machine_tls_read (m : Machine) (n : Z) : Machine * result ErrorKind bytes :=
  let b := take (Z.to_nat n) (data (down_tls m)) in
  let '(fc, tr, fr, tc) := seen m in
  if negb (length (data (down_tls m)) =? 0) then
    (set_conn m (up_tls m) {| data := drop (Z.to_nat n) (data (down_tls m)); ended := ended (down_tls m) |} (eof_seen m)
       (records m) (fc, tr, fr ++ b, tc), Ok b)
  else if ended (down_tls m) then (m, Ok [])
  else if eof_seen m then (m, Err EUnexpectedEof)
  else (m, Err EWouldBlock).

(** A record at a time. While more plaintext than its buffer takes is waiting
    to be read, the connection refuses to read on, with an error of the kind
    [Other]; after the peer's close_notify there is nothing more to read. *)
Definition RECEIVED_PLAINTEXT_LIMIT : nat := Z.to_nat 16384.
Definition next_record (p : Pipe) : Pipe * Pipe :=
  if length (data p) <=? RECEIVED_PLAINTEXT_LIMIT then (p, Pipe_new)
  else ({| data := take RECEIVED_PLAINTEXT_LIMIT (data p); ended := false |},
        {| data := drop RECEIVED_PLAINTEXT_LIMIT (data p); ended := ended p |}).
Definition machine_read_io (m : Machine) : Machine * result ErrorKind nat :=
  if RECEIVED_PLAINTEXT_LIMIT <? length (data (down_tls m)) then (m, Err EOther)
  else if ended (down_tls m) then (m, Ok 0)
  else if has_more (down_wire m) then
    match records m with
    | O => (m, Err EConnectionReset)
    | S n =>
        let '(record, rest) := next_record (down_wire m) in
        (set_server (set_conn m (up_tls m) (append (down_tls m) record) (eof_seen m) n (seen m))
           (server m) (up_wire m) rest (down_fin m), Ok (S (length (data record))))
    end
  else if down_fin m then (set_conn m (up_tls m) (down_tls m) true (records m) (seen m), Ok 0)
  else (m, Err EWouldBlock).
Definition machine_write_io (m : Machine) : Machine * result ErrorKind nat :=
  if has_more (up_tls m) then
    match records m with
    | O => (m, Err EConnectionReset)
    | S n =>
        (set_server (set_conn m Pipe_new (down_tls m) (eof_seen m) n (seen m))
           (server m) (append (up_wire m) (up_tls m)) (down_wire m) (down_fin m), Ok (S (length (data (up_tls m)))))
    end
  else (m, Ok 0).
Definition machine_close_notify (m : Machine) : Machine :=
  set_conn m {| data := data (up_tls m); ended := true |} (down_tls m) (eof_seen m) (records m) (seen m).

Definition machine_client_read (m : Machine) (n : Z) : Machine * result ErrorKind bytes :=
  let b := take (Z.to_nat n) (data (up_client m)) in
  let '(fc, tr, fr, tc) := seen m in
  if negb (length (data (up_client m)) =? 0) then
    (set_client m {| data := drop (Z.to_nat n) (data (up_client m)); ended := ended (up_client m) |} (down_client m)
       (fc ++ b, tr, fr, tc), Ok b)
  else if ended (up_client m) then (m, Ok [])
  else (m, Err EWouldBlock).
Definition machine_client_write (m : Machine) (b : bytes) : Machine * result ErrorKind nat :=
  let '(fc, tr, fr, tc) := seen m in
  (set_client m (up_client m) (append (down_client m) {| data := b; ended := false |}) (fc, tr, fr, tc ++ b), Ok (length b)).
Definition machine_shutdown (m : Machine) : Machine * result ErrorKind unit :=
  (set_client m (up_client m) (append (down_client m) {| data := []; ended := true |}) (seen m), Ok tt).

#[export] Instance machine_net : TlsNet Machine := {
  tls_write := machine_tls_write;
  tls_read := machine_tls_read;
  tls_read_io := machine_read_io;
  tls_write_io := machine_write_io;
  wants_read m := (length (data (down_tls m)) =? 0) && negb (ended (down_tls m));
  wants_write m := has_more (up_tls m);
  send_close_notify := machine_close_notify;
  client_read := machine_client_read;
  client_write := machine_client_write;
  client_shutdown := machine_shutdown;
  poll_op := machine_poll_op;
  relay_poll := machine_poll;
  from_client m := (seen m).1.1.1;
  to_remote m := (seen m).1.1.2;
  from_remote m := (seen m).1.2;
  to_client m := (seen m).2;
  budget := records;
}.

(** ** The machine obeys the laws of the interface *)
Lemma traffic_seen (m : Machine) : traffic m = seen m.
Proof. unfold traffic. cbn. by destruct (seen m) as [[[? ?] ?] ?]. Qed.

Lemma peers_step_seen m m' : peers_step m = Some m' → seen m' = seen m.
Proof. unfold peers_step, app_step, server_step. intros H. repeat case_match; by simplify_eq. Qed.

Lemma poll_wait_seen fuel m : seen (poll_wait fuel m).1 = seen m.
Proof.
  revert m; induction fuel as [|fuel IH]; intros m; cbn [poll_wait]; destruct (poll_events m); try done.
  destruct (peers_step m) as [m'|] eqn:E; [|done]. apply peers_step_seen in E. by rewrite IH.
Qed.

Lemma machine_poll_seen m : seen (machine_poll m).1 = seen m.
Proof.
  unfold machine_poll. set (m0 := if eager m then _ else m). assert (seen m0 = seen m) as H0.
  { unfold m0. destruct (eager m); [|done]. destruct (peers_step m) eqn:E; [by apply peers_step_seen in E|done]. }
  pose proof (poll_wait_seen 100 m0) as H. destruct (poll_wait 100 m0). cbn in *. congruence.
Qed.

#[export] Instance machine_laws : TlsNetLaws Machine.
Proof.
  split.
  - intros m b m' n. cbn [tls_write machine_net]. unfold machine_tls_write. rewrite traffic_seen. cbn [from_client to_remote from_remote to_client machine_net budget].
    destruct (seen m) as [[[fc tr] fr] tc]. cbn [fst snd]. intros [= <- <-]. split_and!; [lia|done|done].
  - intros m b m' e. cbn. unfold machine_tls_write. by destruct (seen m) as [[[? ?] ?] ?].
  - intros m b. cbn. unfold machine_tls_write. by destruct (seen m) as [[[? ?] ?] ?].
  - intros m n m' b Hn. cbn [tls_read machine_net]. unfold machine_tls_read. rewrite traffic_seen.
    cbn [from_client to_remote from_remote to_client machine_net budget].
    destruct (seen m) as [[[fc tr] fr] tc] eqn:Es. cbn [fst snd]. destruct (negb _).
    + intros [= <- <-]. split_and!; [rewrite length_take; lia|done|done].
    + destruct (ended _); [|by destruct (eof_seen m)]. intros [= <- <-]. rewrite app_nil_r. split_and!; [cbn; lia|done|done].
  - intros m n m' e. cbn [tls_read machine_net]. unfold machine_tls_read. rewrite !traffic_seen.
    destruct (seen m) as [[[fc tr] fr] tc] eqn:Es. destruct (negb _); [done|]. destruct (ended _); [done|].
    destruct (eof_seen m); intros [= <- <-]; by rewrite Es.
  - intros m n. cbn. unfold machine_tls_read. destruct (seen m) as [[[? ?] ?] ?]. by repeat case_match.
  - intros m. rewrite !traffic_seen. cbn. unfold machine_read_io. by repeat case_match.
  - intros m m' n. cbn. unfold machine_read_io. repeat case_match; intros [= <- <-]; cbn; try done. lia.
  - intros m m'. cbn. unfold machine_read_io. by repeat case_match.
  - intros m. cbn. unfold machine_read_io. by repeat case_match.
  - intros m. rewrite !traffic_seen. cbn. unfold machine_write_io. by repeat case_match.
  - intros m m' n. cbn. unfold machine_write_io. repeat case_match; intros [= <- <-]; cbn; try done. lia.
  - intros m m'. cbn. unfold machine_write_io. by repeat case_match.
  - intros m. cbn. unfold machine_write_io. by repeat case_match.
  - intros m. by rewrite !traffic_seen.
  - intros m n m' b Hn. cbn [client_read machine_net]. unfold machine_client_read. rewrite traffic_seen.
    cbn [from_client to_remote from_remote to_client machine_net].
    destruct (seen m) as [[[fc tr] fr] tc] eqn:Es. cbn [fst snd]. destruct (negb _).
    + intros [= <- <-]. split; [rewrite length_take; lia|done].
    + destruct (ended _); [|done]. intros [= <- <-]. rewrite app_nil_r. split; [cbn; lia|done].
  - intros m n m' e. cbn [client_read machine_net]. unfold machine_client_read. rewrite !traffic_seen.
    destruct (seen m) as [[[fc tr] fr] tc] eqn:Es. destruct (negb _); [done|]. destruct (ended _); [done|].
    intros [= <- <-]. by rewrite Es.
  - intros m n. cbn. unfold machine_client_read. destruct (seen m) as [[[? ?] ?] ?]. by repeat case_match.
  - intros m b m' n. cbn [client_write machine_net]. unfold machine_client_write. rewrite traffic_seen.
    cbn [from_client to_remote from_remote to_client machine_net budget].
    destruct (seen m) as [[[fc tr] fr] tc]. cbn [fst snd]. intros [= <- <-]. by rewrite firstn_all.
  - intros m b m' e. cbn. unfold machine_client_write. by destruct (seen m) as [[[? ?] ?] ?].
  - intros m b. cbn. unfold machine_client_write. by destruct (seen m) as [[[? ?] ?] ?].
  - intros m. by rewrite !traffic_seen.
  - done.
  - intros m s o t r w. rewrite !traffic_seen. cbn. unfold machine_poll_op. by destruct s.
  - done.
  - intros m. rewrite !traffic_seen. apply machine_poll_seen.
  - intros m. cbn. unfold machine_poll. by destruct (poll_wait _ _).
Qed.

(** ** Where the relay waits for an edge that does not come

    The relay leaves a socket's readiness unused in three places: it reads the
    client once per event; and it stops writing, to the server or to the
    client, when it has nothing left, while the registration stays as it is if
    new bytes are there by the next pass. A poll that reports edges does not
    report such a socket again. *)
Fixpoint relay_passes (n : nat) (r : TlsRelay Machine) : TlsRelay Machine * result ErrorKind bool :=
  match n with
  | O => (r, Ok false)
  | S n => match relay_iter r with (r, Ok false) => relay_passes n r | p => p end
  end.
Definition machine_run (n : nat) (application peer : list PeerAct) (eager : bool) : TlsRelay Machine * result ErrorKind bool :=
  relay_passes n (relay_new (Machine_new application peer eager)).

(** A pass that changes nothing and goes on: the relay is blocked for good. *)
Definition blocked (r : TlsRelay Machine) : Prop := relay_iter r = (r, Ok false).

Lemma blocked_for_ever r : blocked r → ∀ n, relay_passes n r = (r, Ok false).
Proof. intros Hb n. induction n as [|n IH]; [done|]. cbn [relay_passes]. by rewrite Hb. Qed.

(** The client writes twice in a row, and then both wait for the server's
    answer. The second piece stays in the TLS connection, whose socket is
    registered for writing and is writable. *)
Lemma upload_stalls :
  let r := (machine_run 3 [PSend (#"one"); PSend (#"two"); PRecv 4] [PRecv 6; PSend (#"done")] true).1 in
  blocked r ∧ data (up_tls (r_net r)) = #"two" ∧ reg_remote (r_net r) = Some (true, true)
  ∧ (write_remote_tls (r_net r)).2 = Ok tt ∧ data (up_wire (write_remote_tls (r_net r)).1) = #"onetwo".
Proof. unfold blocked. split_and!; vm_compute; reflexivity. Qed.

(** The same towards the client: the server writes twice. *)
Lemma download_stalls :
  let r := (machine_run 3 [PRecv 6] [PSend (#"one"); PSend (#"two")] true).1 in
  blocked r ∧ p_remaining (downstream r) = #"two" ∧ reg_client (r_net r) = Some (true, true)
  ∧ data (down_client (r_net r)) = #"one".
Proof. unfold blocked. split_and!; vm_compute; reflexivity. Qed.

(** One write of more than 16 KiB by the client: the rest is never read. *)
Lemma upload_burst_stalls :
  let r := (machine_run 3 [PSend (replicate 16400 x41); PRecv 4] [PRecv 16400; PSend (#"done")] false).1 in
  blocked r ∧ length (data (up_client (r_net r))) = 16 ∧ reg_client (r_net r) = Some (true, false).
Proof. unfold blocked. split_and!; vm_compute; reflexivity. Qed.

(** One write of more than 16 KiB by the server: the TLS connection asks for
    its plaintext to be read first, and the relay gives up. *)
Lemma download_burst_fails :
  let '(r, res) := machine_run 1 [PRecv 6] [PSend (replicate 16400 x41)] false in
  res = Err EOther ∧ to_client (r_net r) = [].
Proof. vm_compute. done. Qed.

(** ** The same for datagrams

    A SOCKS5 association takes at most 32 datagrams per event. When more were
    waiting, and nothing new arrives, the rest waits until the association is
    idle for long enough to end. *)
Record UdpMachine := { um_queue : list (bytes * SocketAddr); um_edge : bool; um_clock : Z }.
#[local] Instance udp_machine_net : UdpNet UdpMachine := {
  relay_recv_from w n :=
    match um_queue w with
    | p :: ps => ({| um_queue := ps; um_edge := um_edge w; um_clock := um_clock w |}, Ok p)
    | [] => (w, Err EWouldBlock)
    end;
  relay_send_to w p a := (w, Ok (length p));
  control_read w n := (w, Err EWouldBlock);
  poll w d :=
    if um_edge w then
      ({| um_queue := um_queue w; um_edge := false; um_clock := um_clock w |},
       Ok [{| ev_token := UDP_CLIENT_TOKEN; ev_readable := true; ev_writable := false;
              ev_read_closed := false; ev_error := false |}])
    else ({| um_queue := um_queue w; um_edge := false; um_clock := (um_clock w + d)%Z |}, Ok []);
  reregister_relay w b := (w, Ok tt);
  net_now w := (w, um_clock w);
  replies _ := [];
  send_patience _ := 0;
}.
#[local] Existing Instance toy_execution.
Definition udp_burst (n : nat) : UdpMachine :=
  {| um_queue := replicate n ([x00; x00; x00; x01; x08; x08; x08; x08; x00; x35; x2a], SockV4 2130706433 4000);
     um_edge := true; um_clock := 5 |}.
Definition udp_run (fuel n : nat) : UdpAssociation UdpMachine nat * result ErrorKind unit :=
  assoc_loop (λ w, (w, Ok 0)) (λ w (_ : unit), (w, Ok 0)) map_to_list toy_runtime {| endpoints := ∅ |} fuel (V4 2130706433)
    (association_new (udp_burst n) 0 (V4 2130706433) {| hint_ip := None; hint_port := None |}).

(** Of 33 datagrams one is still in the socket when the association ends. *)
Lemma datagram_burst_waits :
  let '(a, r) := udp_run 3 33 in
  r = Ok tt ∧ length (um_queue (a_net a)) = 1 ∧ um_clock (a_net a) = (5 + UDP_IDLE_TIMEOUT)%Z.
Proof. vm_compute. done. Qed.
