(* ===== verification/TrojanStream.v ===== *)
(** * A Trojan datagram association as two channels of datagrams

    The association of [daemon/src/trojan_datagram.rs] turns datagrams into
    bytes of one TLS stream and back. Seen from outside it is a pair of FIFO
    channels. Towards the server: whoever reads the stream with the program's
    own frame parser gets the datagrams that were sent, in order. From the
    server: what [receive] gives are the datagrams the server put on the
    stream, in order. Both hold for any sequence of operations and however TLS
    cuts the stream, and for the framed session of [TlsRelay]. *)

From S2P Require Import Prelude RustStr RustNet Flow Policy DnsBase Proxy Trojan Conn Protocol Outbound Sockets Datagram.
From S2P Require Import TrojanDatagram TlsRelay EdgePoll.

(** The plaintext a session has handed out. *)
Class FramedTrace (S : Type) := { received : S → bytes }.
Class FramedTraceLaws (S : Type) `{FramedSession S, FramedTrace S} : Prop := {
  read_traced : ∀ s n s' b, (0 ≤ n)%Z → read_plaintext s n = (s', Ok b) → received s' = received s ++ b;
  read_err_traced : ∀ s n s' e, read_plaintext s n = (s', Err e) → received s' = received s;
  write_traced : ∀ s b s' r, write_plaintext s b = (s', r) → r ≠ Panic → received s' = received s;
  service_traced : ∀ s, received (service_io s).1 = received s;
  refresh_traced : ∀ s t, received (refresh_tls s t).1 = received s;
  register_traced : ∀ s t, received (register_tls s t).1 = received s;
}.

Definition Datagram : Type := Target * bytes.
Definition datagram_ok (d : Datagram) : Prop := target_ok d.1 ∧ (Z.of_nat (length d.2) ≤ 65535)%Z.
Definition wire (d : Datagram) : bytes := wire_frame d.1 d.2.

(** ** Reading a stream of frames *)

(** All whole frames at the front of [b], and what is left. *)
Fixpoint decode_loop (fuel : nat) (b : bytes) : list Datagram * bytes :=
  match fuel with
  | O => ([], b)
  | S fuel =>
      match parse_udp_frame b with
      | Ok (Some f) =>
          let '(ds, rest) := decode_loop fuel (drop (consumed f) b) in
          ((source f, default [] (slice_get b (payload_start f) (payload_end f))) :: ds, rest)
      | _ => ([], b)
      end
  end.
Definition decode_frames (b : bytes) : list Datagram * bytes := decode_loop (S (length b)) b.

(** The beginning of a frame that has not arrived in full. *)
Definition torn (part : bytes) : Prop :=
  part = [] ∨ ∃ d k, datagram_ok d ∧ k < length (wire d) ∧ part = take k (wire d).

Lemma wire_length d : 4 ≤ length (wire d).
Proof. unfold wire, wire_frame, u16_be. rewrite !length_app, length_be_bytes. cbn. lia. Qed.

Lemma parse_wire d rest :
  datagram_ok d →
  ∃ f, parse_udp_frame (wire d ++ rest) = Ok (Some f) ∧ source f = d.1 ∧ drop (consumed f) (wire d ++ rest) = rest
    ∧ slice_get (wire d ++ rest) (payload_start f) (payload_end f) = Some d.2.
Proof.
  intros [Ht Hp]. unfold wire. rewrite (parse_udp_frame_wire d.1 d.2 rest Ht Hp). eexists. split; [done|].
  cbn [source consumed payload_start payload_end]. split_and!; [done|by rewrite drop_app_length|].
  unfold wire_frame. rewrite <- !app_assoc, (app_assoc (wire_target d.1)), (app_assoc (wire_target d.1 ++ _)).
  apply slice_get_mid'; rewrite !length_app; unfold u16_be; rewrite !length_be_bytes; cbn; lia.
Qed.

Lemma torn_undecided part : torn part → ¬ ∃ f, parse_udp_frame part = Ok (Some f).
Proof.
  intros [->|(d & k & [Ht Hp] & Hk & ->)] [f Hf]; [discriminate Hf|].
  unfold wire in Hf, Hk. by rewrite (parse_udp_frame_prefix d.1 d.2 k Ht Hp Hk) in Hf.
Qed.

Lemma decode_loop_wire fuel ds part :
  Forall datagram_ok ds → torn part → length ds < fuel →
  decode_loop fuel (mjoin (wire <$> ds) ++ part) = (ds, part).
Proof.
  revert fuel; induction ds as [|d ds IH]; intros fuel Hds Hpart Hf; (destruct fuel as [|fuel]; [cbn in Hf; lia|]).
  - cbn. pose proof (torn_undecided part Hpart) as Hu. destruct (parse_udp_frame part) as [[f|]|e|] eqn:E; try done.
    destruct Hu. by eauto.
  - apply Forall_cons in Hds as [Hd Hds].
    change (mjoin (wire <$> d :: ds)) with (wire d ++ mjoin (wire <$> ds)). rewrite <- app_assoc.
    destruct (parse_wire d (mjoin (wire <$> ds) ++ part) Hd) as (f & Ep & Es & Ec & El). cbn [decode_loop].
    rewrite Ep, Ec, El, Es, IH by (done || (cbn in Hf; lia)). by destruct d.
Qed.

Lemma length_mjoin_wire ds : length ds ≤ length (mjoin (wire <$> ds)).
Proof.
  induction ds as [|d ds IH]; [done|]. change (mjoin (wire <$> d :: ds)) with (wire d ++ mjoin (wire <$> ds)).
  rewrite length_app. pose proof (wire_length d). cbn. lia.
Qed.

(** The parser finds exactly the frames of the stream. *)
Lemma decode_frames_wire ds part :
  Forall datagram_ok ds → torn part → decode_frames (mjoin (wire <$> ds) ++ part) = (ds, part).
Proof.
  intros Hds Hp. apply decode_loop_wire; try done. rewrite length_app. pose proof (length_mjoin_wire ds). lia.
Qed.

(** A stream cut anywhere is some whole frames and a torn one. *)
Lemma cut_stream ds b rest :
  Forall datagram_ok ds → mjoin (wire <$> ds) = b ++ rest →
  ∃ k part, b = mjoin (wire <$> take k ds) ++ part ∧ torn part.
Proof.
  revert b rest; induction ds as [|d ds IH]; intros b rest Hds Hb.
  { cbn in Hb. symmetry in Hb. apply app_eq_nil in Hb as [-> _]. exists 0, []. by split; [|left]. }
  apply Forall_cons in Hds as [Hd Hds]. change (mjoin (wire <$> d :: ds)) with (wire d ++ mjoin (wire <$> ds)) in Hb.
  destruct (decide (length (wire d) ≤ length b)) as [Hle|Hlt].
  - apply (f_equal (take (length (wire d)))) in Hb as Ht. rewrite take_app_length, take_app_le in Ht by done.
    apply (f_equal (drop (length (wire d)))) in Hb as Hdr. rewrite drop_app_length, drop_app_le in Hdr by done.
    destruct (IH _ _ Hds Hdr) as (k & part & Hk & Hpart). exists (S k), part. split; [|done].
    cbn [take]. change (mjoin (wire <$> d :: take k ds)) with (wire d ++ mjoin (wire <$> take k ds)).
    rewrite <- app_assoc, <- Hk. rewrite Ht at 1. by rewrite take_drop.
  - exists 0, b. split; [done|]. right. exists d, (length b). split_and!; [done|lia|].
    apply (f_equal (take (length b))) in Hb. rewrite take_app_length, take_app_le in Hb by lia. done.
Qed.

(** Two streams of which one continues the other agree on their frames. *)
Lemma streams_agree ds es r1 r2 :
  Forall datagram_ok ds → Forall datagram_ok es →
  mjoin (wire <$> es) = (mjoin (wire <$> ds) ++ r1) ++ r2 → ds `prefix_of` es.
Proof.
  revert es; induction ds as [|d ds IH]; intros es Hds Hes Heq; [apply prefix_nil|].
  apply Forall_cons in Hds as [Hd Hds].
  change (mjoin (wire <$> d :: ds)) with (wire d ++ mjoin (wire <$> ds)) in Heq.
  rewrite <- !app_assoc in Heq. destruct es as [|e es].
  { cbn in Heq. symmetry in Heq. apply app_eq_nil in Heq as [Hw _]. pose proof (wire_length d). rewrite Hw in H. cbn in H. lia. }
  apply Forall_cons in Hes as [He Hes]. change (mjoin (wire <$> e :: es)) with (wire e ++ mjoin (wire <$> es)) in Heq.
  destruct (parse_wire e (mjoin (wire <$> es)) He) as (f & P1 & S1 & C1 & L1). rewrite Heq in P1, C1, L1.
  destruct (parse_wire d (mjoin (wire <$> ds) ++ r1 ++ r2) Hd) as (g & P2 & S2 & C2 & L2).
  rewrite P1 in P2. injection P2 as <-. rewrite C1 in C2. rewrite L1 in L2.
  assert (e = d) as -> by (destruct e, d; cbn in *; congruence).
  apply prefix_cons. apply IH; [done|done|]. by rewrite <- app_assoc.
Qed.

(** ** The association *)
Section session.
  Context {S : Type} `{HSess : FramedSession S, HTrace : FramedTrace S}.
  Context `{HLaws : !FramedSessionLaws S, HTL : !FramedTraceLaws S}.
  #[local] Notation X := (TrojanDatagramExecution (S:=S)).

(** What was read from the session is the delivered frames and the buffer. *)
Definition inbox (base : bytes) (got : list Datagram) (x : X) : Prop :=
  received (tls x) = base ++ mjoin (wire <$> got) ++ rx x.

(** A step that may read but delivers nothing. *)
Definition reads (x x' : X) : Prop :=
  ∃ new, received (tls x') = received (tls x) ++ new ∧ rx x' = rx x ++ new.

#[local] Instance reads_refl : Reflexive reads.
Proof. intros x. exists []. by rewrite !app_nil_r. Qed.
#[local] Instance reads_trans : Transitive reads.
Proof.
  intros x y z (n1 & A1 & A2) (n2 & B1 & B2). exists (n1 ++ n2). rewrite B1, A1, B2, A2. by rewrite !app_assoc.
Qed.

Lemma reads_same x x' : received (tls x') = received (tls x) → rx x' = rx x → reads x x'.
Proof. intros H1 H2. exists []. by rewrite !app_nil_r. Qed.

Lemma reads_inbox base got x x' : reads x x' → inbox base got x → inbox base got x'.
Proof. intros (new & H1 & H2) H. unfold inbox in *. by rewrite H1, H2, H, <- !app_assoc. Qed.

Lemma drain_loop_reads fuel x : reads x (drain_loop fuel x).1.
Proof.
  revert x; induction fuel as [|fuel IH]; intros x; [reflexivity|]. cbn [drain_loop].
  destruct (pending x) as [|f rest]; [reflexivity|]. case_match; [reflexivity|]. case_match.
  { etransitivity; [|apply IH]. by apply reads_same. }
  pose proof (write_no_panic (tls x) (drop (offset f) (frame_bytes f))) as Hnp.
  destruct (write_plaintext (tls x) _) as [s r] eqn:Ew. cbn in Hnp.
  pose proof (write_traced _ _ _ _ Ew Hnp) as Ht.
  assert (∀ q n, reads x (set_queue (set_tls x s) q n)) as Hq by (intros q n; by apply reads_same).
  assert (reads x (set_tls x s)) as Hs by by apply reads_same.
  destruct r as [n|e|]; [| |done].
  - case_match; [done|]. etransitivity; [apply Hq|apply IH].
  - destruct (bool_decide _); [done|]. destruct (bool_decide _); [|done]. etransitivity; [exact Hs|apply IH].
Qed.

Lemma read_loop_reads fuel x : reads x (read_loop fuel x).1.
Proof.
  revert x; induction fuel as [|fuel IH]; intros x; [reflexivity|]. cbn [read_loop].
  destruct (_ <=? _)%Z eqn:El; [reflexivity|]. bool_to_prop. set (limit := Z.min _ _).
  pose proof (read_no_panic (tls x) limit) as Hnp.
  destruct (read_plaintext (tls x) limit) as [s [b|e|]] eqn:Er; [| |done].
  - apply read_traced in Er; [|unfold limit, TLS_PLAINTEXT_READ_CHUNK; lia]. destruct (length b =? 0) eqn:Eb.
    + bool_to_prop. apply nil_length_inv in Eb as ->. rewrite app_nil_r in Er. by apply reads_same.
    + etransitivity; [|apply IH]. by exists b.
  - apply read_err_traced in Er. assert (reads x (set_tls x s)) as Hs by by apply reads_same.
    destruct (bool_decide _); [done|]. destruct (bool_decide _); [|done]. etransitivity; [exact Hs|apply IH].
Qed.

Lemma refresh_reads x : reads x (refresh_readiness x).1.
Proof.
  unfold refresh_readiness. destruct (has_registry x), (token x) as [t|]; try reflexivity.
  pose proof (refresh_traced (tls x) t) as Ht. destruct (refresh_tls (tls x) t). by apply reads_same.
Qed.

Lemma then_reads {A B} x (p : X * result ErrorKind A) (f : X → A → X * result ErrorKind B) :
  reads x p.1 → (∀ y a, reads y (f y a).1) → reads x (then_ p f).1.
Proof. intros Hp Hf. destruct p as [y [a|e|]]; cbn in *; [|done..]. etransitivity; [exact Hp|apply Hf]. Qed.

Lemma service_ready_reads x : reads x (service_ready x).1.
Proof.
  unfold service_ready. apply then_reads; [apply drain_loop_reads|intros y _]. apply then_reads.
  { pose proof (service_traced (tls y)) as Ht. destruct (service_io (tls y)). by apply reads_same. }
  intros z _. apply then_reads; [apply drain_loop_reads|intros z1 _].
  apply then_reads; [apply read_loop_reads|intros z2 _]. apply refresh_reads.
Qed.

(** What a call gave. *)
Definition delivered (r : result ErrorKind (option ReceivedDatagram)) : list Datagram :=
  match r with Ok (Some g) => [(dg_source g, dg_payload g)] | _ => [] end.

Lemma take_frame_inbox base got x n :
  inbox base got x →
  inbox base (got ++ delivered (take_frame x n).2) (take_frame x n).1
  ∧ Forall datagram_ok (delivered (take_frame x n).2).
Proof.
  intros Hi. unfold take_frame. destruct (parse_udp_frame (rx x)) as [[f|]|e|] eqn:Ef;
    try (cbn; rewrite app_nil_r; by split).
  apply parse_udp_frame_inv in Ef as (payload & rest & Ht & Hl & Hrx & Hc & He & Hs & Hsl).
  case_match; [cbn; rewrite app_nil_r; by split|].
  assert (slice_get (rx x) (payload_start f) (payload_end f) = Some payload) as ->.
  { apply slice_get_Some. split; [|done]. rewrite He, Hs, Hc, Hrx, length_app. split; [|lia].
    unfold wire_frame, u16_be. rewrite !length_app, length_be_bytes. cbn. lia. }
  cbn [fst snd delivered dg_source dg_payload]. split; [|by apply Forall_singleton].
  unfold inbox in *. cbn [tls rx set_rx]. rewrite Hc, Hrx, drop_app_length, Hi, Hrx, fmap_app, join_app. cbn.
  by rewrite app_nil_r, <- !app_assoc.
Qed.

Lemma trojan_receive_inbox base got x n :
  inbox base got x →
  inbox base (got ++ delivered (trojan_receive x n).2) (trojan_receive x n).1
  ∧ Forall datagram_ok (delivered (trojan_receive x n).2).
Proof.
  intros Hi. unfold trojan_receive, then_. pose proof (take_frame_inbox base got x n Hi) as H1.
  destruct (take_frame x n) as [x1 [[g|]|e|]]; cbn [fst snd] in H1; try exact H1.
  cbn [delivered] in H1. rewrite app_nil_r in H1. destruct H1 as [H1 _].
  pose proof (reads_inbox base got x1 _ (service_ready_reads x1) H1) as H2.
  destruct (service_ready x1) as [x2 [u|e|]]; cbn [fst] in H2; try (cbn; rewrite app_nil_r; by split).
  pose proof (take_frame_inbox base got x2 n H2) as H3.
  destruct (take_frame x2 n) as [x3 [[g|]|e|]]; cbn [fst snd] in H3; try exact H3. by destruct (remote_eof _).
Qed.

Lemma trojan_send_reads x t p : reads x (trojan_send x t p).1.
Proof.
  unfold trojan_send. destruct (encode_udp_frame t p) as [frame|e|]; [|reflexivity..].
  apply then_reads; [|intros y _; apply then_reads; [apply drain_loop_reads|intros z _; apply refresh_reads]].
  unfold enqueue. repeat case_match; by apply reads_same.
Qed.

Lemma trojan_register_reads x ts : reads x (trojan_register x ts).1.
Proof.
  unfold trojan_register. destruct ts as [|t [|? ?]]; try reflexivity. case_match; [reflexivity|].
  pose proof (register_traced (tls x) t) as Ht. destruct (register_tls (tls x) t) as [s [u|e|]]; by apply reads_same.
Qed.

(** ** Any sequence of operations *)
Inductive TrojanOp :=
| OpSend (t : Target) (p : bytes)
| OpReceive (buffer : nat)
| OpRegisterTokens (tokens : list Z).

(** The association, the datagrams it took on to send and those it gave. A
    send is counted when its frame entered the queue or the session. *)
Definition session_step (st : X * list Datagram * list Datagram) (op : TrojanOp) : X * list Datagram * list Datagram :=
  let '(x, taken, got) := st in
  match op with
  | OpSend t p =>
      let x' := (trojan_send x t p).1 in
      (x', if length (outgoing x) <? length (outgoing x') then taken ++ [(t, p)] else taken, got)
  | OpReceive n => let '(x', r) := trojan_receive x n in (x', taken, got ++ delivered r)
  | OpRegisterTokens ts => ((trojan_register x ts).1, taken, got)
  end.
Definition session_run (ops : list TrojanOp) (x : X) : X * list Datagram * list Datagram :=
  foldl session_step (x, [], []) ops.

Record session_ok (out base : bytes) (st : X * list Datagram * list Datagram) : Prop := {
  so_exec : exec_ok st.1.1;
  so_taken : Forall datagram_ok st.1.2;
  so_out : outgoing st.1.1 = out ++ mjoin (wire <$> st.1.2);
  so_got : Forall datagram_ok st.2;
  so_in : inbox base st.2 st.1.1;
}.

(** The targets of the sends are ones that the inbounds produce. *)
Definition op_ok (op : TrojanOp) : Prop := match op with OpSend t _ => target_ok t | _ => True end.

Lemma encode_wire t p frame :
  target_ok t → encode_udp_frame t p = Ok frame → datagram_ok (t, p) ∧ frame = wire (t, p).
Proof.
  intros Ht. unfold encode_udp_frame. destruct (_ <? _)%Z eqn:El; [done|]. bool_to_prop.
  rewrite encode_target_ok by done. cbn. intros [= <-]. by split; [split; [done|cbn; lia]|].
Qed.

(** A send is counted exactly when it put its frame behind the others, and
    always when it reported success. *)
Lemma send_counted out base x taken got t p :
  target_ok t → session_ok out base (x, taken, got) →
  session_ok out base (session_step (x, taken, got) (OpSend t p))
  ∧ ((trojan_send x t p).2 = Ok tt → (session_step (x, taken, got) (OpSend t p)).1.2 = taken ++ [(t, p)]).
Proof.
  intros Ht [H1 H2 H3 H4 H5]. cbn [fst snd] in *. cbn [session_step].
  pose proof (reads_inbox base got x _ (trojan_send_reads x t p) H5) as Hi.
  pose proof (trojan_send_whole_frame x t p H1) as Hs. destruct (trojan_send x t p) as [x' r]. cbn [fst snd] in *.
  destruct Hs as (E1 & _ & _ & [[-> [e ->]]|(frame & Ee & Eo)]).
  - rewrite (proj2 (Nat.ltb_ge _ _)) by lia. split; [by constructor|done].
  - apply encode_wire in Ee as [Hd ->]; [|done]. pose proof (wire_length (t, p)) as Hw.
    rewrite (proj2 (Nat.ltb_lt _ _)) by (rewrite Eo, length_app; lia). split; [|done].
    constructor; cbn [fst snd]; [done|apply Forall_app; by split; [|apply Forall_singleton]| |done|done].
    rewrite Eo, H3, fmap_app, join_app. cbn. by rewrite app_nil_r, app_assoc.
Qed.

Lemma register_ok x ts : exec_ok x → exec_ok (trojan_register x ts).1 ∧ outgoing (trojan_register x ts).1 = outgoing x.
Proof.
  intros Hx. unfold trojan_register. destruct ts as [|t [|? ?]]; try done. case_match; [done|].
  pose proof (register_keeps (tls x) t) as Hk. unfold outgoing.
  destruct (register_tls (tls x) t) as [s [u|e|]]; cbn in *; by rewrite Hk.
Qed.

Lemma session_step_ok out base st op : op_ok op → session_ok out base st → session_ok out base (session_step st op).
Proof.
  destruct st as [[x taken] got]. destruct op as [t p|n|ts]; intros Hop Hst.
  - by apply send_counted.
  - destruct Hst as [H1 H2 H3 H4 H5]. cbn [fst snd session_step] in *.
    pose proof (trojan_receive_inbox base got x n H5) as [Hi Hd]. pose proof (trojan_receive_in_order x n H1) as Hr.
    destruct (trojan_receive x n) as [x' r]. cbn [fst snd] in *. destruct Hr as (R1 & R2 & _ & _).
    constructor; cbn [fst snd]; [done|done|congruence|by apply Forall_app|done].
  - destruct Hst as [H1 H2 H3 H4 H5]. cbn [fst snd session_step] in *. destruct (register_ok x ts H1) as [R1 R2].
    constructor; cbn [fst snd]; [done|done|congruence|done|]. eapply reads_inbox; [apply trojan_register_reads|done].
Qed.

Lemma session_run_ok out base ops x :
  Forall op_ok ops → session_ok out base (x, [], []) → session_ok out base (session_run ops x).
Proof.
  unfold session_run. generalize (x, @nil Datagram, @nil Datagram). intros st Hops. revert st.
  induction Hops as [|op ops Hop _ IH]; intros st Hst; [done|]. cbn. by apply IH, session_step_ok.
Qed.

Lemma trojan_open_reads v s : reads (fresh_execution s) (trojan_open v s).1.
Proof.
  unfold trojan_open. apply then_reads; [|intros y _; apply drain_loop_reads].
  unfold enqueue. repeat case_match; by apply reads_same.
Qed.

(** C15. A Trojan association is two channels of datagrams. Open it on a fresh
    session and run any sequence of sends, receives and registrations,
    whatever partial writes, blocking, interruptions and cuts the session
    produces. Towards the server: behind the association's request the TLS
    stream holds a whole number of the datagrams taken on, from the first and
    in order, and at most the beginning of the next; the program's own frame
    parser reads exactly these. The rest is in the queue, nothing is lost. A
    send that reports success was taken on. From the server: when what has
    arrived is the beginning of a stream of datagrams, those given by
    [receive] are the first of them, in order, each once; every other byte
    read is still in the buffer. Queue and buffer stay within 64 frames,
    512 KiB and 128 KiB. *)
Theorem trojan_association_channels v s x0 r0 ops :
  trojan_open v s = (x0, r0) → accepted s = [] → received s = [] →
  (Z.of_nat (length (encode_udp_associate_request v)) ≤ MAX_PENDING_BYTES)%Z → Forall op_ok ops →
  let '(x, taken, got) := session_run ops x0 in
  let request := encode_udp_associate_request v in
  exec_ok x
  ∧ (∃ k part, decode_frames (drop (length request) (accepted (tls x))) = (take k taken, part) ∧ torn part)
  ∧ request ++ mjoin (wire <$> taken) = accepted (tls x) ++ queue_bytes (pending x)
  ∧ (∀ t p, target_ok t → (trojan_send x t p).2 = Ok tt → (session_step (x, taken, got) (OpSend t p)).1.2 = taken ++ [(t, p)])
  ∧ received (tls x) = mjoin (wire <$> got) ++ rx x
  ∧ (∀ ds, Forall datagram_ok ds → received (tls x) `prefix_of` mjoin (wire <$> ds) → got `prefix_of` ds).
Proof.
  intros Ho Ha Hr Hl Hops. pose proof (trojan_open_ok v s Hl) as H0. pose proof (trojan_open_reads v s) as Hrd.
  rewrite Ho in H0, Hrd. cbn [fst] in Hrd. destruct H0 as (E0 & _ & O0). rewrite Ha in O0. cbn [app] in O0.
  assert (session_ok (encode_udp_associate_request v) [] (x0, [], [])) as Hst.
  { constructor; cbn [fst snd]; [done|done|by rewrite O0, app_nil_r|done|].
    apply (reads_inbox [] [] (fresh_execution s)); [done|]. unfold inbox. cbn. by rewrite Hr. }
  apply (session_run_ok _ _ ops) in Hst; [|done]. destruct (session_run ops x0) as [[x taken] got].
  pose proof Hst as [S1 S2 S3 S4 S5]. cbn [fst snd] in *. unfold outgoing in S3. unfold inbox in S5. cbn [app] in S5.
  split_and!; [done| |done| |done|].
  - set (request := encode_udp_associate_request v) in *.
    assert (∃ rest, mjoin (wire <$> taken) = drop (length request) (accepted (tls x)) ++ rest) as [rest Hcut].
    { apply (f_equal (drop (length request))) in S3. rewrite drop_app_length, drop_app in S3. by eauto. }
    destruct (cut_stream taken _ _ S2 Hcut) as (k & part & Hk & Hp). exists k, part. split; [|done].
    rewrite Hk. apply decode_frames_wire; [by apply Forall_take|done].
  - intros t p Ht. by apply (send_counted _ _ x taken got t p Ht Hst).
  - intros ds Hds [rest Hpre]. rewrite S5 in Hpre. by eapply streams_agree.
Qed.
End session.

(** ** The framed TLS session *)
Section framed.
  Context {W : Type} `{HNet : TlsNet W} `{HNetLaws : !TlsNetLaws W}.

#[export] Instance framed_trace : FramedTrace (TlsFramedSession W) := { received s := from_remote (f_net s) }.

#[export] Instance framed_trace_laws : FramedTraceLaws (TlsFramedSession W).
Proof.
  split; cbn.
  - intros s n s' b Hn. unfold framed_read. destruct (tls_read (f_net s) n) as [w r] eqn:E. intros [= <- ->].
    apply tls_read_ok in E as (_ & Ht & _); [|done]. unfold traffic in Ht. cbn. by injection Ht as _ _ -> _.
  - intros s n s' e. unfold framed_read. destruct (tls_read (f_net s) n) as [w r] eqn:E. intros [= <- ->].
    apply tls_read_err in E as [Ht _]. unfold traffic in Ht. cbn. by injection Ht as _ _ -> _.
  - intros s b s' r. unfold framed_write. destruct (tls_write (f_net s) b) as [w q] eqn:E. intros [= <- ->] Hr.
    destruct r as [n|e|]; [apply tls_write_ok in E as (_ & Ht & _)|apply tls_write_err in E as [Ht _]|done];
      unfold traffic in Ht; cbn; by injection Ht as _ _ -> _.
  - intros s. destruct (framed_service_ok s) as [_ Ht]. unfold traffic in Ht. by injection Ht as _ _ -> _.
  - intros s t. destruct (framed_refresh_ok s t) as [_ Ht]. unfold traffic in Ht. by injection Ht as _ _ -> _.
  - intros s t. unfold framed_register. case_match; [done|].
    destruct (framed_refresh_ok s t) as [_ Ht]. unfold traffic in Ht. by injection Ht as _ _ -> _.
Qed.
End framed.

(** ** A concrete association

    Over the machine of [EdgePoll]: two datagrams are sent; the server's
    answer, a frame and the beginning of another, is already on the wire. *)
Definition sample_verifier : TrojanVerifier := {| as_bytes := replicate 56 x61 |}.
Definition sample_wire : Machine :=
  default (Machine_new [] [] false)
    (peers_step (Machine_new [] [PSend (wire (sample_target, [x2a]) ++ take 5 (wire (sample_target, [x2b])))] false)).
Definition sample_session : TlsFramedSession Machine :=
  {| f_net := sample_wire; registration := Registration_default; f_remote_eof := false |}.
Definition sample_ops : list TrojanOp :=
  [OpRegisterTokens [7%Z]; OpSend sample_target [x01; x02]; OpReceive 100; OpSend sample_target []; OpReceive 100].
Definition sample_outcome : TrojanDatagramExecution (S:=TlsFramedSession Machine) * list Datagram * list Datagram :=
  session_run sample_ops (trojan_open sample_verifier sample_session).1.

Lemma trojan_association_channels_witness :
  sample_outcome.1.2 = [(sample_target, [x01; x02]); (sample_target, [])]
  ∧ sample_outcome.2 = [(sample_target, [x2a])]
  ∧ ∃ k part, decode_frames (drop (length (encode_udp_associate_request sample_verifier)) (accepted (tls sample_outcome.1.1)))
      = (take k [(sample_target, [x01; x02]); (sample_target, [])], part) ∧ torn part.
Proof.
  assert (sample_outcome.1.2 = [(sample_target, [x01; x02]); (sample_target, [])]) as Ht by (vm_compute; reflexivity).
  assert (sample_outcome.2 = [(sample_target, [x2a])]) as Hg by (vm_compute; reflexivity).
  split; [exact Ht|]. split; [exact Hg|].
  destruct (trojan_open sample_verifier sample_session) as [x0 r0] eqn:Eo.
  assert (Forall op_ok sample_ops) as Hops.
  { repeat apply Forall_cons_2; try exact (Forall_nil_2 _); try exact I; exact sample_target_ok. }
  assert (accepted sample_session = []) as Ha by (vm_compute; reflexivity).
  assert (received sample_session = []) as Hr by (vm_compute; reflexivity).
  assert (Z.of_nat (length (encode_udp_associate_request sample_verifier)) ≤ MAX_PENDING_BYTES)%Z as Hl
    by (apply Z.leb_le; vm_compute; reflexivity).
  pose proof (trojan_association_channels sample_verifier sample_session x0 r0 sample_ops Eo Ha Hr Hl Hops) as H.
  assert (session_run sample_ops x0 = sample_outcome) as Es by (unfold sample_outcome; rewrite Eo; reflexivity).
  rewrite Es in H. destruct sample_outcome as [[x taken] got]. cbn [fst snd] in Ht. rewrite Ht in H. exact (proj1 (proj2 H)).
Defined.
