(* ===== verification/Transparent.v ===== *)
(** * Transparent inbounds ([daemon/src/transparent_tcp.rs],
    [daemon/src/transparent_udp.rs])

    TCP: the target is the stream's original destination. UDP: one listener
    serves many clients; each has its own route set, all route sets share one
    token allocator, and [token_clients] leads from a readiness token to the
    client it belongs to. Sockets, poll and clock are the interface
    [TproxyNet]. *)

From S2P Require Import Prelude RustStr RustNet Flow Policy DnsBase Proxy Trojan Conn Protocol Outbound Datagram.

(** ** TCP *)
Section tcp.
  Context {S W R : Type}.
  Context (local_addr : S → result ErrorKind SocketAddr).
  Context (connect_tcp : W → Endpoint → Target → W * result ErrorKind R).
  Context (relay_to_client : W → R → S → W * result ErrorKind unit).

Definition target_from_stream (stream : S) : result ErrorKind Target :=
  original ← local_addr stream; Target_new (Ip (sock_ip original)) (sock_port original).

Definition tproxy_tcp_handle (runtime : Runtime) (stream : S) (w : W) (next_flow : Z)
    : W * Z * result ErrorKind unit :=
  match target_from_stream stream with
  | Err e => (w, next_flow, Err e)
  | Panic => (w, next_flow, Panic)
  | Ok target =>
      let '(next_flow, action) := plan_action runtime next_flow target Tcp in
      match action with
      | Route endpoint =>
          match connect_tcp w endpoint target with
          | (w, Ok session) => let '(w, r) := relay_to_client w session stream in (w, next_flow, r)
          | (w, Err e) => (w, next_flow, Err e)
          | (w, Panic) => (w, next_flow, Panic)
          end
      | Reject _ => (w, next_flow, Err EPermissionDenied)
      end
  end.
End tcp.

(** ** UDP *)
Definition INBOUND_TOKEN : Z := 0.
Definition OUTBOUND_FIRST_TOKEN : Z := 1.
Definition MAX_PACKET : Z := 65535.
Definition MAX_EVENT_BURST : nat := 32.
Definition MAX_CLIENTS : Z := 512.
Definition MAX_REPLY_SOCKETS : Z := 256.
Definition CLIENT_IDLE_TIMEOUT : Z := 120 * 1000000000.
Definition REPLY_SOCKET_IDLE_TIMEOUT : Z := 120 * 1000000000.

(** The address a message came from, of whatever family. *)
Inductive SockaddrStorage :=
| StorageIn (ip port : Z)
| StorageIn6 (ip port flowinfo scope_id : Z)
| StorageOther (family : Z).
Definition as_sockaddr_in (storage : SockaddrStorage) : option (Z * Z) :=
  match storage with StorageIn ip port => Some (ip, port) | _ => None end.
Definition as_sockaddr_in6 (storage : SockaddrStorage) : option (Z * Z * Z * Z) :=
  match storage with StorageIn6 ip port f sc => Some (ip, port, f, sc) | _ => None end.
Definition storage_to_socket_addr (storage : SockaddrStorage) : option SocketAddr :=
  match as_sockaddr_in storage with
  | Some (ip, port) => Some (SockV4 ip port)
  | None => match as_sockaddr_in6 storage with
            | Some (ip, port, f, sc) => Some (SockV6 ip port f sc)
            | None => None
            end
  end.

Inductive ControlMessage :=
| Ipv4OrigDstAddr (ip port : Z)
| Ipv6OrigDstAddr (ip port flowinfo scope_id : Z)
| OtherControl.
Definition original_destination (c : ControlMessage) : option SocketAddr :=
  match c with
  | Ipv4OrigDstAddr ip port => Some (SockV4 ip port)
  | Ipv6OrigDstAddr ip port f sc => Some (SockV6 ip port f sc)
  | OtherControl => None
  end.

(** What [recvmsg] returns: truncation flags, sender, control messages and
    payload. *)
Record RecvMsg := {
  msg_truncated : bool;
  msg_address : option SockaddrStorage;
  msg_cmsgs : result ErrorKind (list ControlMessage);
  msg_payload : bytes;
}.
(** An error of [recvmsg]: [EAGAIN], [EINTR] or another. *)
Inductive RecvError := Again | Intr | OtherErrno (e : ErrorKind).

Class TproxyNet (W : Type) := {
  recvmsg : W → Z → W * (RecvMsg + RecvError);
  bind_reply : W → SocketAddr → W * result ErrorKind unit;
  reply_send_to : W → SocketAddr → bytes → SocketAddr → W * result ErrorKind nat;
  tproxy_poll : W → option Z → W * result ErrorKind (list (Z * bool));
  tproxy_now : W → W * Z;
}.

Definition target_socket_addr (t : Target) : result ErrorKind SocketAddr :=
  match host t with
  | Ip ip => Ok (sock_new ip (port t))
  | Domain _ => Err EAddrNotAvailable
  end.

Section udp.
  Context {W : Type} `{HNet : TproxyNet W}.
  Context {X : Type} `{HExec : DatagramExecution X} {Provider : Type}.
  Context (open_direct : W → W * result ErrorKind X).
  Context (open_provider : W → Provider → W * result ErrorKind X).
  Context (iter : gmap Endpoint (DatagramRoute X) → list (Endpoint * DatagramRoute X)).
  (** The iteration order of the reply-socket map. *)
  Context (iter_sockets : gmap SocketAddr Z → list (SocketAddr * Z)).
  Context (runtime : Runtime) (outbounds : OutboundRegistry Provider).

(** *** Receiving *)
Definition recv_original_datagram (w : W) : W * result ErrorKind (option (SocketAddr * Target * bytes)) :=
  match recvmsg w MAX_PACKET with
  | (w, inr Again) => (w, Ok None)
  | (w, inr Intr) => (w, Ok None)
  | (w, inr (OtherErrno e)) => (w, Err e)
  | (w, inl m) =>
      (w,
       if msg_truncated m then Err EInvalidData
       else
         client ← ok_or (match msg_address m with Some a => storage_to_socket_addr a | None => None end) EInvalidData;
         cmsgs ← msg_cmsgs m;
         (* the last original destination wins *)
         original ← ok_or (foldl (λ o c, match original_destination c with Some a => Some a | None => o end) None cmsgs) EInvalidData;
         target ← Target_new (Ip (sock_ip original)) (sock_port original);
         Ok (Some (client, target, msg_payload m)))
  end.

(** *** Reply sockets: bound source address and time of last use *)
Record ReplySocketCache := { sockets : gmap SocketAddr Z }.
Definition cleanup_expired (c : ReplySocketCache) (now : Z) : ReplySocketCache :=
  {| sockets := filter (λ e, (Z.max 0 (now - e.2) < REPLY_SOCKET_IDLE_TIMEOUT)%Z) (sockets c) |}.

(** [min_by_key]: the first of the least. *)
Fixpoint oldest (l : list (SocketAddr * Z)) : option (SocketAddr * Z) :=
  match l with
  | [] => None
  | e :: l' => match oldest l' with
               | Some e' => if (e'.2 <? e.2)%Z then Some e' else Some e
               | None => Some e
               end
  end.
Definition evict_oldest (c : ReplySocketCache) : ReplySocketCache :=
  if (MAX_REPLY_SOCKETS <=? Z.of_nat (size (sockets c)))%Z then
    match oldest (iter_sockets (sockets c)) with
    | Some (a, _) => {| sockets := delete a (sockets c) |}
    | None => c
    end
  else c.

Definition reply_send (c : ReplySocketCache) (w : W) (source : Target) (client : SocketAddr) (payload : bytes)
    : ReplySocketCache * W * result ErrorKind unit :=
  match target_socket_addr source with
  | Err e => (c, w, Err e)
  | Panic => (c, w, Panic)
  | Ok source =>
      if negb (Bool.eqb (sock_is_ipv4 source) (sock_is_ipv4 client)) then (c, w, Err EInvalidInput)
      else
        let '(c, w, r) :=
          if bool_decide (is_Some (sockets c !! source)) then (c, w, Ok tt)
          else
            let '(w, now) := tproxy_now w in
            let c := evict_oldest (cleanup_expired c now) in
            match bind_reply w source with
            | (w, Ok _) =>
                let '(w, now) := tproxy_now w in
                ({| sockets := <[source := now]> (sockets c) |}, w, Ok tt)
            | (w, r) => (c, w, r)
            end in
        match r with
        | Ok _ =>
            match sockets c !! source with
            | None => (c, w, Err EOther)
            | Some _ =>
                match reply_send_to w source payload client with
                | (w, Ok sent) =>
                    if negb (sent =? length payload) then (c, w, Err EWriteZero)
                    else let '(w, now) := tproxy_now w in ({| sockets := <[source := now]> (sockets c) |}, w, Ok tt)
                | (w, Err e) => (c, w, Err e)
                | (w, Panic) => (c, w, Panic)
                end
            end
        | r => (c, w, r)
        end
  end.

(** *** Clients *)
Record ClientState := { cl_routes : DatagramRouteSet X; cl_last_activity : Z }.

(** The local variables of [serve_forever]. *)
Record TproxyState := {
  t_net : W;
  clients : gmap SocketAddr ClientState;
  token_clients : gmap Z SocketAddr;
  t_tokens : DatagramTokenAllocator;
  reply_sockets : ReplySocketCache;
  t_next_flow : Z;
}.
Definition set_t_net (s : TproxyState) (w : W) : TproxyState :=
  {| t_net := w; clients := clients s; token_clients := token_clients s; t_tokens := t_tokens s;
     reply_sockets := reply_sockets s; t_next_flow := t_next_flow s |}.
Definition set_clients (s : TproxyState) (w : W) (c : gmap SocketAddr ClientState) (t : gmap Z SocketAddr)
    (a : DatagramTokenAllocator) : TproxyState :=
  {| t_net := w; clients := c; token_clients := t; t_tokens := a;
     reply_sockets := reply_sockets s; t_next_flow := t_next_flow s |}.
Definition set_reply (s : TproxyState) (w : W) (c : ReplySocketCache) : TproxyState :=
  {| t_net := w; clients := clients s; token_clients := token_clients s; t_tokens := t_tokens s;
     reply_sockets := c; t_next_flow := t_next_flow s |}.
Definition set_flow (s : TproxyState) (n : Z) : TproxyState :=
  {| t_net := t_net s; clients := clients s; token_clients := token_clients s; t_tokens := t_tokens s;
     reply_sockets := reply_sockets s; t_next_flow := n |}.

Definition idle (now : Z) (st : ClientState) : bool :=
  (CLIENT_IDLE_TIMEOUT <=? Z.max 0 (now - cl_last_activity st))%Z.

(** The expired clients are collected first, in any order; removing one
    removes the tokens it owns. *)
Definition remove_client (p : gmap SocketAddr ClientState * gmap Z SocketAddr) (e : SocketAddr * ClientState)
    : gmap SocketAddr ClientState * gmap Z SocketAddr :=
  match p.1 !! e.1 with
  | Some st => (delete e.1 p.1, foldl (λ m t, delete t m) p.2 (owned_tokens iter (cl_routes st)))
  | None => p
  end.
Definition cleanup_idle_clients (cs : gmap SocketAddr ClientState) (ts : gmap Z SocketAddr) (now : Z)
    : gmap SocketAddr ClientState * gmap Z SocketAddr :=
  foldl remove_client (cs, ts) (List.filter (λ e, idle now e.2) (map_to_list cs)).

(** [clients.values().map(..).min()] *)
Definition next_client_timeout (cs : gmap SocketAddr ClientState) (now : Z) : option Z :=
  foldr (λ e o, let d := Z.max 0 (CLIENT_IDLE_TIMEOUT - Z.max 0 (now - cl_last_activity e.2)) in
                Some (match o with Some m => Z.min d m | None => d end)) None (map_to_list cs).

(** Making room for a client: [None] when the table is full. *)
Definition ensure_client (s : TproxyState) (client : SocketAddr) : TproxyState * option bool :=
  match clients s !! client with
  | Some _ => (s, Some false)
  | None =>
      let '(w, now) := tproxy_now (t_net s) in
      let '(cs, ts) := cleanup_idle_clients (clients s) (token_clients s) now in
      let s := set_clients s w cs ts (t_tokens s) in
      if (MAX_CLIENTS <=? Z.of_nat (size cs))%Z then (s, None)
      else
        let '(w, now) := tproxy_now (t_net s) in
        (set_clients s w (<[client := {| cl_routes := DatagramRouteSet_new; cl_last_activity := now |}]> cs) ts
           (t_tokens s), Some true)
  end.

Definition handle_inbound (s : TproxyState) (client : SocketAddr) (target : Target) (payload : bytes)
    : TproxyState * result ErrorKind bool :=
  let '(next, action) := plan_action runtime (t_next_flow s) target Udp in
  let s := set_flow s next in
  match action with
  | Reject _ => (s, Ok false)
  | Route endpoint =>
      if negb (supports cap_udp (capabilities outbounds endpoint)) then (s, Ok false)
      else
        match ensure_client s client with
        | (s, None) => (s, Ok false)
        | (s, Some inserted) =>
            match clients s !! client with
            | None => (s, Ok false)
            | Some st =>
                let '(rs, al, w, r) :=
                  send_with (cl_routes st) (t_tokens s) (t_net s) endpoint target payload
                    (open_datagram open_direct open_provider outbounds) in
                let cs := <[client := {| cl_routes := rs; cl_last_activity := cl_last_activity st |}]> (clients s) in
                match r with
                | Panic => (set_clients s w cs (token_clients s) al, Panic)
                | Err _ => (set_clients s w (if inserted then delete client cs else cs) (token_clients s) al, Ok false)
                | Ok _ =>
                    (set_clients s w cs (foldl (λ m t, <[t := client]> m) (token_clients s) (owned_tokens iter rs)) al,
                     Ok true)
                end
            end
        end
  end.

(** [if let Some(state) = clients.get_mut(&client) { state.last_activity = Instant::now() }] *)
Definition touch_client (s : TproxyState) (client : SocketAddr) : TproxyState :=
  match clients s !! client with
  | Some st =>
      let '(w, now) := tproxy_now (t_net s) in
      set_clients s w (<[client := {| cl_routes := cl_routes st; cl_last_activity := now |}]> (clients s))
        (token_clients s) (t_tokens s)
  | None => s
  end.

(** *** The loop *)
Fixpoint inbound_burst (n : nat) (s : TproxyState) : TproxyState * result ErrorKind unit :=
  match n with
  | O => (s, Ok tt)
  | S n' =>
      match recv_original_datagram (t_net s) with
      | (w, Err e) => (set_t_net s w, Err e)
      | (w, Panic) => (set_t_net s w, Panic)
      | (w, Ok None) => (set_t_net s w, Ok tt)
      | (w, Ok (Some (client, target, payload))) =>
          match handle_inbound (set_t_net s w) client target payload with
          | (s, Ok true) => inbound_burst n' (touch_client s client)
          | (s, Ok false) => inbound_burst n' s
          | (s, Err e) => (s, Err e)
          | (s, Panic) => (s, Panic)
          end
      end
  end.

Fixpoint tproxy_outbound_burst (n : nat) (s : TproxyState) (token : Z) (client : SocketAddr)
    : TproxyState * result ErrorKind unit :=
  match n with
  | O => (s, Ok tt)
  | S n' =>
      match clients s !! client with
      | None => (set_clients s (t_net s) (clients s) (delete token (token_clients s)) (t_tokens s), Ok tt)
      | Some st =>
          let '(rs, r) := receive_ready iter (cl_routes st) token (Z.to_nat MAX_PACKET) in
          let s := set_clients s (t_net s)
            (<[client := {| cl_routes := rs; cl_last_activity := cl_last_activity st |}]> (clients s))
            (token_clients s) (t_tokens s) in
          match r with
          | Err e => (s, Err e)
          | Panic => (s, Panic)
          | Ok None => (s, Ok tt)
          | Ok (Some received) =>
              let '(c, w, r) := reply_send (reply_sockets s) (t_net s) (dg_source received) client (dg_payload received) in
              let s := set_reply s w c in
              match r with
              | Ok _ => tproxy_outbound_burst n' (touch_client s client) token client
              | Err _ => tproxy_outbound_burst n' s token client
              | Panic => (s, Panic)
              end
          end
      end
  end.
Fixpoint tproxy_outbound_bursts (s : TproxyState) (ready : list (Z * SocketAddr)) : TproxyState * result ErrorKind unit :=
  match ready with
  | [] => (s, Ok tt)
  | (token, client) :: ready' =>
      let! s _u := tproxy_outbound_burst MAX_EVENT_BURST s token client in
      tproxy_outbound_bursts s ready'
  end.

(** One pass of [serve_forever]; the loop itself never returns [Ok]. *)
Definition tproxy_iter (s : TproxyState) : TproxyState * result ErrorKind unit :=
  let '(w, now) := tproxy_now (t_net s) in
  match tproxy_poll w (next_client_timeout (clients s) now) with
  | (w, Panic) => (set_t_net s w, Panic)
  | (w, Err e) => (set_t_net s w, if bool_decide (e = EInterrupted) then Ok tt else Err e)
  | (w, Ok events) =>
      let '(w, now) := tproxy_now w in
      let '(cs, ts) := cleanup_idle_clients (clients s) (token_clients s) now in
      let s := set_clients s w cs ts (t_tokens s) in
      let s := set_reply s (t_net s) (cleanup_expired (reply_sockets s) now) in
      let inbound_ready := existsb (λ e, (e.1 =? INBOUND_TOKEN)%Z && e.2) events in
      let! s _i := (if inbound_ready then inbound_burst MAX_EVENT_BURST s else (s, Ok tt)) in
      tproxy_outbound_bursts s (omap (λ e, match token_clients s !! e.1 with
                                            | Some c => Some (e.1, c)
                                            | None => None
                                            end) events)
  end.

Definition tproxy_new (w : W) (next : Z) : TproxyState :=
  {| t_net := w; clients := ∅; token_clients := ∅; t_tokens := DatagramTokenAllocator_new OUTBOUND_FIRST_TOKEN;
     reply_sockets := {| sockets := ∅ |}; t_next_flow := next |}.

(** *** Clients do not share tokens *)
  Hypothesis iter_perm : ∀ m, iter m ≡ₚ map_to_list m.
  Hypothesis iter_sockets_perm : ∀ m, iter_sockets m ≡ₚ map_to_list m.

Definition owns (rs : DatagramRouteSet X) (t : Z) : Prop := ∃ e r, routes rs !! e = Some r ∧ t ∈ tokens r.

(** Every route set is in order, no token belongs to two clients, a token
    leads to the client that owns it, and routes are the policy's. *)
Record clients_ok (cs : gmap SocketAddr ClientState) (ts : gmap Z SocketAddr) (al : DatagramTokenAllocator) : Prop := {
  co_routes : ∀ c st, cs !! c = Some st → routes_ok (cl_routes st) al;
  co_unique : ∀ c1 c2 st1 st2 t, cs !! c1 = Some st1 → cs !! c2 = Some st2 →
    owns (cl_routes st1) t → owns (cl_routes st2) t → c1 = c2;
  co_owner : ∀ t c, ts !! t = Some c → ∃ st, cs !! c = Some st ∧ owns (cl_routes st) t;
  co_policy : ∀ c st e, cs !! c = Some st → is_Some (routes (cl_routes st) !! e) →
    ∃ n t, (plan_action runtime n t Udp).2 = Route e;
}.

Record tproxy_ok (s : TproxyState) : Prop := {
  tk_clients : (Z.of_nat (size (clients s)) ≤ MAX_CLIENTS)%Z;
  tk_sockets : (Z.of_nat (size (sockets (reply_sockets s))) ≤ MAX_REPLY_SOCKETS)%Z;
  tk_ok : clients_ok (clients s) (token_clients s) (t_tokens s);
}.

Lemma owns_old rs al t : routes_ok rs al → owns rs t → (t < next_token al)%Z.
Proof. intros (_ & H & _) (e & r & Hr & Ht). destruct (H e r Hr) as [_ Hf]. rewrite Forall_forall in Hf. by apply Hf. Qed.

Lemma lookup_foldl_delete (l : list Z) (m : gmap Z SocketAddr) t c :
  foldl (λ m t, delete t m) m l !! t = Some c ↔ t ∉ l ∧ m !! t = Some c.
Proof.
  revert m; induction l as [|a l IH]; intros m; cbn; [split; [intros H; split; [apply not_elem_of_nil|done]|by intros []]|].
  rewrite IH, lookup_delete_Some, not_elem_of_cons. naive_solver.
Qed.

Lemma lookup_foldl_insert (l : list Z) (m : gmap Z SocketAddr) t c c' :
  foldl (λ m t, <[t := c]> m) m l !! t = Some c' → (t ∈ l ∧ c' = c) ∨ m !! t = Some c'.
Proof.
  revert m; induction l as [|a l IH]; intros m H; cbn in H; [by right|].
  destruct (IH _ H) as [[Hin ->]|Hm]; [left; split; [by apply list_elem_of_further|done]|].
  apply lookup_insert_Some in Hm as [[<- <-]|[_ Hm]]; [left; split; [apply list_elem_of_here|done]|by right].
Qed.

Lemma remove_client_ok p e al :
  clients_ok p.1 p.2 al → clients_ok (remove_client p e).1 (remove_client p e).2 al ∧ (remove_client p e).1 ⊆ p.1.
Proof.
  destruct p as [cs ts]. destruct e as [x st0]. unfold remove_client. cbn [fst snd]. intros [H1 H2 H3 H4].
  destruct (cs !! x) as [st|] eqn:Ex; [|done]. cbn [fst snd]. split; [|apply delete_subseteq].
  constructor.
  - intros c st' [_ Hc]%lookup_delete_Some. eauto.
  - intros c1 c2 st1 st2 t [_ Hc1]%lookup_delete_Some [_ Hc2]%lookup_delete_Some. eauto.
  - intros t c [Hn Ht]%lookup_foldl_delete. destruct (H3 t c Ht) as (st' & Hc & Ho). exists st'. split; [|done].
    apply lookup_delete_Some. split; [|done]. intros ->. simplify_eq. apply Hn. by apply (elem_of_owned_tokens iter iter_perm).
  - intros c st' e' [_ Hc]%lookup_delete_Some. eauto.
Qed.

Lemma cleanup_ok cs ts al now :
  clients_ok cs ts al →
  let '(cs', ts') := cleanup_idle_clients cs ts now in clients_ok cs' ts' al ∧ cs' ⊆ cs.
Proof.
  intros Hok. unfold cleanup_idle_clients.
  assert (∀ l p, clients_ok p.1 p.2 al →
    clients_ok (foldl remove_client p l).1 (foldl remove_client p l).2 al ∧ (foldl remove_client p l).1 ⊆ p.1) as H.
  { induction l as [|e l IH]; intros p Hp; [done|]. cbn [foldl].
    destruct (remove_client_ok p e al Hp) as [H1 H2]. destruct (IH _ H1) as [H3 H4]. split; [done|]. by etrans. }
  specialize (H (List.filter (λ e, idle now e.2) (map_to_list cs)) (cs, ts) Hok). by destruct (foldl _ _ _).
Qed.

Lemma cleanup_subset cs ts now : (cleanup_idle_clients cs ts now).1 ⊆ cs.
Proof.
  unfold cleanup_idle_clients. set (l := List.filter _ _). clearbody l.
  cut (∀ p : gmap SocketAddr ClientState * gmap Z SocketAddr, p.1 ⊆ cs → (foldl remove_client p l).1 ⊆ cs); [intros H; by apply H|].
  induction l as [|e l IH]; intros p Hp; [done|]. cbn [foldl]. apply IH. unfold remove_client.
  destruct (p.1 !! e.1); [|done]. cbn. etransitivity; [apply delete_subseteq|done].
Qed.

(** A client's route set replaced by one with the same tokens. *)
Lemma clients_ok_same cs ts al c st st' :
  cs !! c = Some st → routes_ok (cl_routes st') al → (∀ t, owns (cl_routes st') t ↔ owns (cl_routes st) t) →
  (∀ e, is_Some (routes (cl_routes st') !! e) → is_Some (routes (cl_routes st) !! e)) →
  clients_ok cs ts al → clients_ok (<[c := st']> cs) ts al.
Proof.
  intros Hc Hr Ho He [H1 H2 H3 H4]. constructor.
  - intros c' s' [[<- <-]|[_ Hl]]%lookup_insert_Some; eauto.
  - intros c1 c2 s1 s2 t [[<- <-]|[_ L1]]%lookup_insert_Some [[<- <-]|[_ L2]]%lookup_insert_Some; rewrite ?Ho; eauto.
  - intros t c' Ht. destruct (H3 t c' Ht) as (s' & Hs' & Hos). destruct (decide (c = c')) as [<-|Hne].
    + exists st'. rewrite lookup_insert_eq. simplify_eq. split; [done|]. by apply Ho.
    + exists s'. by rewrite lookup_insert_ne.
  - intros c' s' e [[<- <-]|[_ Hl]]%lookup_insert_Some; eauto.
Qed.

Lemma clients_ok_admit cs ts al c now :
  cs !! c = None → clients_ok cs ts al →
  clients_ok (<[c := {| cl_routes := DatagramRouteSet_new; cl_last_activity := now |}]> cs) ts al.
Proof.
  assert (∀ t, ¬ owns DatagramRouteSet_new t) as Hn.
  { intros t (e & r & Hr & _). cbn in Hr. by rewrite lookup_empty in Hr. }
  intros Hc [H1 H2 H3 H4]. constructor.
  - intros c' s' [[<- <-]|[_ Hl]]%lookup_insert_Some; [apply routes_ok_new|eauto].
  - intros c1 c2 s1 s2 t [[<- <-]|[_ L1]]%lookup_insert_Some [[<- <-]|[_ L2]]%lookup_insert_Some O1 O2; try done.
    + by apply Hn in O1.
    + by apply Hn in O2.
    + eauto.
  - intros t c' Ht. destruct (H3 t c' Ht) as (s' & Hs' & Hos). exists s'.
    rewrite lookup_insert_ne by (intros ->; congruence). done.
  - intros c' s' e [[<- <-]|[_ Hl]]%lookup_insert_Some; [|eauto]. intros [r Hr]. cbn in Hr. by rewrite lookup_empty in Hr.
Qed.

(** A send: new tokens come from the shared allocator and are nobody else's. *)
Lemma clients_ok_send cs ts al c st w e target payload n :
  cs !! c = Some st → (plan_action runtime n target Udp).2 = Route e → clients_ok cs ts al →
  let '(rs, al', _, _) := send_with (cl_routes st) al w e target payload (open_datagram open_direct open_provider outbounds) in
  clients_ok (<[c := {| cl_routes := rs; cl_last_activity := cl_last_activity st |}]> cs) ts al'.
Proof.
  intros Hc Hp [H1 H2 H3 H4].
  pose proof (send_with_ok (cl_routes st) al w e target payload (open_datagram open_direct open_provider outbounds) (H1 _ _ Hc)) as Hs.
  pose proof (send_with_routes (cl_routes st) al w e target payload (open_datagram open_direct open_provider outbounds)) as Hk.
  destruct (send_with _ _ _ _ _ _ _) as [[[rs al'] w'] r]. cbn [fst] in Hk. destruct Hs as (S1 & S2 & S3).
  assert (∀ t, owns rs t → owns (cl_routes st) t ∨ (next_token al ≤ t)%Z) as Hnew.
  { intros t (e' & r' & Hr' & Ht). destruct (S3 e' r' Hr') as [(r0 & Hr0 & Et)|(-> & _ & Hf)].
    - left. exists e', r0. by rewrite Et.
    - right. rewrite Forall_forall in Hf. by apply Hf. }
  assert (∀ t, owns (cl_routes st) t → owns rs t) as Hold.
  { intros t (e' & r0 & Hr0 & Ht). destruct (Hk e' r0 Hr0) as (r' & Hr' & Et). exists e', r'. by rewrite Et. }
  assert (∀ c2 st2 t, c ≠ c2 → cs !! c2 = Some st2 → owns rs t → owns (cl_routes st2) t → False) as Hdis.
  { intros c2 st2 t Hne L2 O1 O2. destruct (Hnew t O1) as [O|Hge]; [by apply Hne, (H2 c c2 st st2 t)|].
    pose proof (owns_old _ _ _ (H1 _ _ L2) O2). lia. }
  constructor.
  - intros c' s' [[<- <-]|[_ Hl]]%lookup_insert_Some; [done|]. eapply routes_ok_mono; [by eapply H1|done].
  - intros c1 c2 s1 s2 t [[<- <-]|[N1 L1]]%lookup_insert_Some [[<- <-]|[N2 L2]]%lookup_insert_Some O1 O2; try done.
    + exfalso. by eapply Hdis.
    + exfalso. by eapply (Hdis c1).
    + eauto.
  - intros t c' Ht. destruct (H3 t c' Ht) as (s' & Hs' & Hos). destruct (decide (c = c')) as [<-|Hne].
    + eexists. rewrite lookup_insert_eq. split; [done|]. simplify_eq. by apply Hold.
    + exists s'. by rewrite lookup_insert_ne.
  - intros c' s' e' [[<- <-]|[_ Hl]]%lookup_insert_Some; [|by eauto]. intros [r' Hr']. cbn in Hr'.
    destruct (S3 e' r' Hr') as [(r0 & Hr0 & _)|(-> & _)]; [by eapply H4|by eexists n, target].
Qed.

Lemma clients_ok_map cs ts al c st :
  cs !! c = Some st → clients_ok cs ts al →
  clients_ok cs (foldl (λ m t, <[t := c]> m) ts (owned_tokens iter (cl_routes st))) al.
Proof.
  intros Hc [H1 H2 H3 H4]. constructor; try done. intros t c' Ht.
  apply lookup_foldl_insert in Ht as [[Hin ->]|Ht]; [|by apply H3]. exists st. split; [done|].
  by apply (elem_of_owned_tokens iter iter_perm).
Qed.

Lemma clients_ok_remove cs ts al c :
  (∀ t, ts !! t ≠ Some c) → clients_ok cs ts al → clients_ok (delete c cs) ts al.
Proof.
  intros Hn [H1 H2 H3 H4]. constructor.
  - intros c' st' [_ Hc]%lookup_delete_Some. eauto.
  - intros c1 c2 st1 st2 t [_ Hc1]%lookup_delete_Some [_ Hc2]%lookup_delete_Some. eauto.
  - intros t c' Ht. destruct (H3 t c' Ht) as (st & Hst & Ho). exists st. split; [|done].
    apply lookup_delete_Some. split; [|done]. intros ->. by apply (Hn t).
  - intros c' st' e' [_ Hc]%lookup_delete_Some. eauto.
Qed.

(** *** The reply-socket cache stays small *)
Lemma oldest_elem l : l ≠ [] → ∃ e, oldest l = Some e ∧ e ∈ l.
Proof.
  induction l as [|e l IH]; [done|]. intros _. cbn. destruct (oldest l) as [e'|] eqn:Eo.
  - assert (l ≠ []) as Hl by by destruct l. destruct (IH Hl) as (e2 & [= <-] & Hin).
    case_match; eexists; (split; [done|]); [by apply list_elem_of_further|apply list_elem_of_here].
  - eexists. split; [done|apply list_elem_of_here].
Qed.

Lemma evict_oldest_size c :
  (Z.of_nat (size (sockets c)) ≤ MAX_REPLY_SOCKETS → Z.of_nat (size (sockets (evict_oldest c))) < MAX_REPLY_SOCKETS)%Z.
Proof.
  intros Hs. unfold evict_oldest. destruct (_ <=? _)%Z eqn:El; [|by apply Z.leb_gt in El]. apply Z.leb_le in El.
  assert (iter_sockets (sockets c) ≠ []) as Hne.
  { intros E. pose proof (iter_sockets_perm (sockets c)) as Hp. rewrite E in Hp.
    apply Permutation_nil_l, eq_sym, map_to_list_empty_iff in Hp. rewrite Hp, map_size_empty in El.
    unfold MAX_REPLY_SOCKETS in El. lia. }
  destruct (oldest_elem _ Hne) as ([a z] & -> & Hin). rewrite iter_sockets_perm, elem_of_map_to_list in Hin.
  cbn. rewrite map_size_delete_Some by eauto.
  assert (size (sockets c) ≠ 0) by (unfold MAX_REPLY_SOCKETS in El; lia). lia.
Qed.

Lemma cleanup_expired_size c now : size (sockets (cleanup_expired c now)) ≤ size (sockets c).
Proof. apply map_subseteq_size, map_filter_subseteq. Qed.

Lemma insert_size_le {A} (m : gmap SocketAddr A) k v : size (<[k := v]> m) ≤ S (size m).
Proof. rewrite map_size_insert. destruct (m !! k); cbn; lia. Qed.

Lemma reply_send_size c w source client payload :
  (Z.of_nat (size (sockets c)) ≤ MAX_REPLY_SOCKETS)%Z →
  (Z.of_nat (size (sockets (reply_send c w source client payload).1.1)) ≤ MAX_REPLY_SOCKETS)%Z.
Proof.
  intros Hc. unfold reply_send. destruct (target_socket_addr source) as [a|e|]; [|done..]. case_match; [done|].
  set (p := if bool_decide _ then _ else _).
  assert (Z.of_nat (size (sockets p.1.1)) ≤ MAX_REPLY_SOCKETS)%Z as Hp.
  { unfold p. destruct (bool_decide _); [done|]. destruct (tproxy_now w) as [w1 now].
    pose proof (cleanup_expired_size c now) as H1.
    assert (Z.of_nat (size (sockets (evict_oldest (cleanup_expired c now)))) < MAX_REPLY_SOCKETS)%Z as H2
      by (apply evict_oldest_size; lia).
    destruct (bind_reply w1 a) as [w2 [u|e|]]; [|cbn [fst]; lia..]. destruct (tproxy_now w2) as [w3 now3]. cbn [fst sockets].
    pose proof (insert_size_le (sockets (evict_oldest (cleanup_expired c now))) a now3). lia. }
  destruct p as [[c1 w1] r1]. cbn [fst] in Hp. destruct r1 as [u|e|]; [|done..].
  destruct (sockets c1 !! a) as [z|] eqn:Ez; [|done]. destruct (reply_send_to w1 a payload client) as [w2 [n|e|]]; [|done..].
  case_match; [done|]. destruct (tproxy_now w2) as [w3 now]. cbn [fst sockets]. by rewrite map_size_insert, Ez.
Qed.

(** *** Every step keeps the invariant *)
Lemma touch_client_ok s c : tproxy_ok s → tproxy_ok (touch_client s c).
Proof.
  intros [H1 H2 H3]. unfold touch_client. destruct (clients s !! c) as [st|] eqn:Ec; [|by constructor].
  destruct (tproxy_now (t_net s)) as [w now]. constructor; cbn; [by rewrite map_size_insert, Ec|done|].
  apply (clients_ok_same _ _ _ c st); try done. exact (co_routes _ _ _ H3 _ _ Ec).
Qed.

Lemma admit_ok s c :
  tproxy_ok s →
  tproxy_ok (ensure_client s c).1
  ∧ ((ensure_client s c).2 = Some true → ∀ t, token_clients (ensure_client s c).1 !! t ≠ Some c).
Proof.
  intros [H1 H2 H3]. unfold ensure_client. destruct (clients s !! c) as [st|] eqn:Ec; [split; [by constructor|done]|].
  destruct (tproxy_now (t_net s)) as [w now]. pose proof (cleanup_ok _ _ _ now H3) as Hc.
  destruct (cleanup_idle_clients (clients s) (token_clients s) now) as [cs ts]. destruct Hc as [C1 C2].
  pose proof (map_subseteq_size _ _ C2) as Hsz. destruct (_ <=? _)%Z eqn:El.
  - split; [|done]. constructor; cbn; [lia|done|done].
  - apply Z.leb_gt in El. cbn [t_net set_clients]. destruct (tproxy_now w) as [w2 now2].
    assert (cs !! c = None) as Hn.
    { destruct (cs !! c) as [st|] eqn:E; [|done]. rewrite map_subseteq_spec in C2. apply C2 in E. congruence. }
    split; [constructor; cbn; [rewrite map_size_insert, Hn; lia|done|by apply clients_ok_admit]|].
    intros _ t Ht. cbn in Ht. destruct (co_owner _ _ _ C1 t c Ht) as (st & Hst & _). congruence.
Qed.

Lemma handle_inbound_ok s c target payload : tproxy_ok s → tproxy_ok (handle_inbound s c target payload).1.
Proof.
  intros Hok. unfold handle_inbound. destruct (plan_action runtime (t_next_flow s) target Udp) as [next action] eqn:Ep.
  assert (tproxy_ok (set_flow s next)) as Hf by (destruct Hok; by constructor).
  destruct action as [e|reason]; [|done]. case_match; [done|].
  destruct (admit_ok (set_flow s next) c Hf) as [Ha Hnew]. destruct (ensure_client (set_flow s next) c) as [s1 [inserted|]]; [|done].
  cbn [fst snd] in Ha, Hnew. destruct Ha as [A1 A2 A3]. destruct (clients s1 !! c) as [st|] eqn:Ec; [|by constructor].
  pose proof (clients_ok_send (clients s1) (token_clients s1) (t_tokens s1) c st (t_net s1) e target payload (t_next_flow s) Ec) as Hs.
  rewrite Ep in Hs. specialize (Hs eq_refl A3). destruct (send_with _ _ _ _ _ _ _) as [[[rs al] w] r].
  set (cs := <[c := _]> (clients s1)) in *. assert (size cs = size (clients s1)) as Hsz by (unfold cs; by rewrite map_size_insert, Ec).
  destruct r as [u|er|]; cbn [fst]; constructor; cbn; try done; try lia.
  - apply (clients_ok_map cs _ _ c {| cl_routes := rs; cl_last_activity := cl_last_activity st |}); [|done].
    unfold cs. by rewrite lookup_insert_eq.
  - destruct inserted; [|lia]. assert (size (delete c cs) ≤ size cs) by apply map_subseteq_size, delete_subseteq. lia.
  - destruct inserted; [|done]. apply clients_ok_remove; [by apply Hnew|done].
Qed.

Lemma inbound_burst_ok n s : tproxy_ok s → tproxy_ok (inbound_burst n s).1.
Proof.
  revert s; induction n as [|n IH]; intros s Hok; [done|]. cbn [inbound_burst].
  destruct (recv_original_datagram (t_net s)) as [w r].
  assert (tproxy_ok (set_t_net s w)) as Hw by (destruct Hok; by constructor).
  destruct r as [[[[c target] payload]|]|e|]; [|done..].
  pose proof (handle_inbound_ok (set_t_net s w) c target payload Hw) as Hi.
  destruct (handle_inbound _ _ _ _) as [s1 [[|]|e|]]; [by apply IH, touch_client_ok|by apply IH|done..].
Qed.

Lemma tproxy_outbound_burst_ok n s token c : tproxy_ok s → tproxy_ok (tproxy_outbound_burst n s token c).1.
Proof.
  revert s; induction n as [|n IH]; intros s Hok; [done|]. cbn [tproxy_outbound_burst]. destruct Hok as [H1 H2 H3].
  destruct (clients s !! c) as [st|] eqn:Ec.
  2: { constructor; cbn; try done. destruct H3 as [C1 C2 C3 C4]. constructor; try done.
       intros t c' [_ Ht]%lookup_delete_Some. by apply C3. }
  pose proof (receive_ready_ok iter iter_perm (cl_routes st) (t_tokens s) token (Z.to_nat MAX_PACKET) (co_routes _ _ _ H3 _ _ Ec)) as Hr.
  pose proof (λ e0 r0, receive_ready_routes iter (cl_routes st) token (Z.to_nat MAX_PACKET) e0 r0 iter_perm) as Hk.
  destruct (receive_ready _ _ _ _) as [rs r]. cbn [fst] in Hr, Hk.
  assert (∀ t, owns rs t ↔ owns (cl_routes st) t) as Ho.
  { intros t. split; intros (e & r0 & Hr0 & Ht); destruct (Hk e r0) as [K1 K2].
    - destruct K1 as (r1 & ? & E); [by eauto|]. exists e, r1. by rewrite E.
    - destruct K2 as (r1 & ? & E); [by eauto|]. exists e, r1. by rewrite E. }
  assert (tproxy_ok (set_clients s (t_net s) (<[c := {| cl_routes := rs; cl_last_activity := cl_last_activity st |}]> (clients s))
    (token_clients s) (t_tokens s))) as Hs.
  { constructor; cbn; [by rewrite map_size_insert, Ec|done|]. apply (clients_ok_same _ _ _ c st); try done.
    intros e [r0 Hr0]. destruct (Hk e r0) as [K1 _]. destruct K1 as (r1 & ? & _); eauto. }
  set (s1 := set_clients _ _ _ _ _) in *. destruct r as [[received|]|e|]; [|done..].
  pose proof (reply_send_size (reply_sockets s1) (t_net s1) (dg_source received) c (dg_payload received) (tk_sockets _ Hs)) as Hz.
  destruct (reply_send _ _ _ _ _) as [[cache w] res]. cbn [fst] in Hz.
  assert (tproxy_ok (set_reply s1 w cache)) as Hs2 by (destruct Hs; by constructor).
  destruct res as [u|e|]; [by apply IH, touch_client_ok|by apply IH|done].
Qed.

Lemma tproxy_outbound_bursts_ok l s : tproxy_ok s → tproxy_ok (tproxy_outbound_bursts s l).1.
Proof.
  revert s; induction l as [|[t c] l IH]; intros s Hok; [done|]. cbn [tproxy_outbound_bursts].
  pose proof (tproxy_outbound_burst_ok MAX_EVENT_BURST s t c Hok) as Hb. unfold seq_.
  destruct (tproxy_outbound_burst MAX_EVENT_BURST s t c) as [s1 [u|e|]]; [by apply IH|done..].
Qed.

Lemma tproxy_iter_ok s : tproxy_ok s → tproxy_ok (tproxy_iter s).1.
Proof.
  intros Hok. unfold tproxy_iter. destruct (tproxy_now (t_net s)) as [w now].
  destruct (tproxy_poll w _) as [w1 [events|e|]]; [|destruct Hok; by constructor..].
  destruct (tproxy_now w1) as [w2 now2]. destruct Hok as [H1 H2 H3]. pose proof (cleanup_ok _ _ _ now2 H3) as Hc.
  destruct (cleanup_idle_clients _ _ now2) as [cs ts]. destruct Hc as [C1 C2].
  pose proof (map_subseteq_size _ _ C2) as Hsz. pose proof (cleanup_expired_size (reply_sockets s) now2) as Hsz2.
  set (s1 := set_reply _ _ _). assert (tproxy_ok s1) as Hs1
    by (unfold s1; constructor; cbn [clients token_clients t_tokens reply_sockets set_reply set_clients]; [lia|lia|done]).
  unfold seq_. assert (tproxy_ok (if existsb (λ e, (e.1 =? INBOUND_TOKEN)%Z && e.2) events
    then inbound_burst MAX_EVENT_BURST s1 else (s1, Ok tt)).1) as Hb by (case_match; [by apply inbound_burst_ok|done]).
  destruct (if existsb _ events then _ else _) as [s2 [u|e|]]; [|done..]. by apply tproxy_outbound_bursts_ok.
Qed.

(** A pass of the loop, whatever it returns. *)
Definition tproxy_step (s s' : TproxyState) : Prop := (tproxy_iter s).1 = s'.

(** *** What is answered to whom *)

(** What the reply sockets did: a datagram sent from an address to a client,
    or an address that could not be bound or sent from. *)
Inductive ReplyEvent :=
| Replied (from : SocketAddr) (payload : bytes) (to : SocketAddr)
| Refused (from : SocketAddr).

  Context (replies : W → list ReplyEvent) (taken : X → list ReceivedDatagram).
(** The calls do what they report; nothing else replies, and an execution
    takes a datagram only by [receive]. *)
Record TproxyTrace : Prop := {
  recvmsg_silent : ∀ w n, replies (recvmsg w n).1 = replies w;
  poll_silent : ∀ w d, replies (tproxy_poll w d).1 = replies w;
  now_silent : ∀ w, replies (tproxy_now w).1 = replies w;
  bind_reply_traced : ∀ w a, replies (bind_reply w a).1
    = replies w ++ match (bind_reply w a).2 with Ok _ => [] | _ => [Refused a] end;
  reply_send_traced : ∀ w a p c, replies (reply_send_to w a p c).1
    = replies w ++ match (reply_send_to w a p c).2 with Ok _ => [Replied a p c] | _ => [Refused a] end;
  open_direct_silent : ∀ w, replies (open_direct w).1 = replies w;
  open_provider_silent : ∀ w p, replies (open_provider w p).1 = replies w;
  open_direct_fresh : ∀ w w' x, open_direct w = (w', Ok x) → taken x = [];
  open_provider_fresh : ∀ w p w' x, open_provider w p = (w', Ok x) → taken x = [];
  dg_send_taken : ∀ x t p, taken (dg_send x t p).1 = taken x;
  register_taken : ∀ x l, taken (register_readiness x l).1 = taken x;
  dg_receive_taken : ∀ x n, taken (dg_receive x n).1
    = taken x ++ match (dg_receive x n).2 with Ok (Some g) => [g] | _ => [] end;
}.
  Hypothesis trace : TproxyTrace.

(** What a route, and a client's route, has received so far. *)
Definition took (rs : DatagramRouteSet X) (e : Endpoint) : list ReceivedDatagram :=
  match routes rs !! e with Some r => taken (execution r) | None => [] end.
Definition had (cs : gmap SocketAddr ClientState) (c : SocketAddr) (e : Endpoint) : list ReceivedDatagram :=
  match cs !! c with Some st => took (cl_routes st) e | None => [] end.

(** A datagram taken from a client's route, and how it is answered: to that
    client, from the datagram's source, with its payload, once; not at all if
    the source is not an address of the client's family. *)
Record Taken := { tk_client : SocketAddr; tk_route : Endpoint; tk_datagram : ReceivedDatagram }.
Definition answered (x : Taken) (l : list ReplyEvent) : Prop :=
  match target_socket_addr (dg_source (tk_datagram x)) with
  | Ok a => if Bool.eqb (sock_is_ipv4 a) (sock_is_ipv4 (tk_client x))
            then l = [Replied a (dg_payload (tk_datagram x)) (tk_client x)] ∨ l = [Refused a]
            else l = []
  | _ => l = []
  end.
Definition of_route (c : SocketAddr) (e : Endpoint) (log : list Taken) : list ReceivedDatagram :=
  tk_datagram <$> List.filter (λ x, bool_decide (tk_client x = c) && bool_decide (tk_route x = e)) log.

(** [quiet]: nothing is replied or received; clients may go and come. *)
Definition quiet (s s' : TproxyState) : Prop :=
  replies (t_net s') = replies (t_net s)
  ∧ ∀ c e, had (clients s') c e = had (clients s) c e ∨ had (clients s') c e = [].
(** [answers]: exactly the datagrams of the log were taken, and answered. *)
Definition answers (s s' : TproxyState) (log : list Taken) : Prop :=
  (∃ evs, Forall2 answered log evs ∧ replies (t_net s') = replies (t_net s) ++ mjoin evs)
  ∧ ∀ c e, had (clients s') c e = had (clients s) c e ++ of_route c e log.

#[local] Instance quiet_preorder : PreOrder quiet.
Proof.
  split; [intros s; split; [done|by left]|]. intros s1 s2 s3 [A1 A2] [B1 B2]. split; [congruence|].
  intros c e. destruct (A2 c e), (B2 c e); (left; congruence) || (right; congruence).
Qed.

Lemma answers_nil s s' : replies (t_net s') = replies (t_net s) → (∀ c e, had (clients s') c e = had (clients s) c e) → answers s s' [].
Proof. intros Hr Hh. split; [exists []; split; [constructor|by rewrite app_nil_r]|]. intros c e. by rewrite Hh, app_nil_r. Qed.

Lemma answers_app s1 s2 s3 l1 l2 : answers s1 s2 l1 → answers s2 s3 l2 → answers s1 s3 (l1 ++ l2).
Proof.
  intros [(e1 & F1 & R1) H1] [(e2 & F2 & R2) H2]. split.
  - exists (e1 ++ e2). split; [by apply Forall2_app|]. by rewrite R2, R1, <-app_assoc, join_app.
  - intros c e. unfold of_route. by rewrite H2, H1, List.filter_app, fmap_app, app_assoc.
Qed.

Lemma had_insert cs c st c' e :
  had (<[c := st]> cs) c' e = if decide (c' = c) then took (cl_routes st) e else had cs c' e.
Proof. unfold had. destruct (decide (c' = c)) as [->|Hn]; [by rewrite lookup_insert_eq|by rewrite lookup_insert_ne by congruence]. Qed.

Lemma had_subset cs cs' c e : cs' ⊆ cs → had cs' c e = had cs c e ∨ had cs' c e = [].
Proof.
  rewrite map_subseteq_spec. intros Hs. unfold had at 1 3. destruct (cs' !! c) as [st|] eqn:Ec; [|by right].
  left. apply Hs in Ec. unfold had. by rewrite Ec.
Qed.

(** A client whose route set has taken nothing new. *)
Lemma had_same cs c st st' c' e :
  cs !! c = Some st → (∀ e, took (cl_routes st') e = took (cl_routes st) e) → had (<[c := st']> cs) c' e = had cs c' e.
Proof. intros Hc Ht. rewrite had_insert. destruct (decide (c' = c)) as [->|]; [|done]. unfold had. by rewrite Hc. Qed.

Lemma open_silent w e : replies (open_datagram open_direct open_provider outbounds w e).1 = replies w.
Proof.
  unfold open_datagram. repeat case_match; try done; [apply (open_direct_silent trace)|apply (open_provider_silent trace)].
Qed.
Lemma open_fresh w e w' x : open_datagram open_direct open_provider outbounds w e = (w', Ok x) → taken x = [].
Proof.
  unfold open_datagram. intros E. repeat case_match; try done; [by eapply (open_direct_fresh trace)|by eapply (open_provider_fresh trace)].
Qed.

Lemma took_insert rs e r e' : took {| routes := <[e := r]> (routes rs) |} e' = if decide (e' = e) then taken (execution r) else took rs e'.
Proof. unfold took. cbn. destruct (decide (e' = e)) as [->|Hn]; [by rewrite lookup_insert_eq|by rewrite lookup_insert_ne by congruence]. Qed.

Lemma send_with_took rs al w e t p :
  let '(rs', _, w', _) := send_with rs al w e t p (open_datagram open_direct open_provider outbounds) in
  replies w' = replies w ∧ ∀ e', took rs' e' = took rs e'.
Proof.
  assert (∀ x l, taken (dg_send x t p).1 = l → ∀ rs ts e', took rs e = l →
    took {| routes := <[e := {| execution := (dg_send x t p).1; tokens := ts |}]> (routes rs) |} e' = took rs e') as Hs.
  { intros x l Hx rs0 ts e' Hl. rewrite took_insert. destruct (decide (e' = e)) as [->|]; [cbn; congruence|done]. }
  pose proof (dg_send_taken trace) as Hd. unfold send_with. destruct (routes rs !! e) as [route|] eqn:Er.
  - specialize (Hd (execution route) t p). specialize (Hs _ _ Hd rs (tokens route)). destruct (dg_send _ _ _) as [x r].
    split; [done|]. intros e'. apply Hs. unfold took. by rewrite Er.
  - destruct (_ <=? _); [done|]. pose proof (open_silent w e) as Ho. pose proof (open_fresh w e) as Hf.
    destruct (open_datagram _ _ _ w e) as [w1 [x|er|]]; [|done..]. cbn [fst] in Ho. specialize (Hf _ _ eq_refl).
    destruct (allocate al _) as [al1 [ts|er|]]; [|done..].
    pose proof (register_taken trace x ts) as Hr. destruct (register_readiness x ts) as [x1 [u|er|]]; [|done..]. cbn [fst execution] in Hr |- *.
    specialize (Hd x1 t p). rewrite Hr, Hf in Hd. destruct (dg_send x1 t p) as [x2 r]. cbn [fst] in Hd. split; [done|]. intros e'.
    cbn [routes]. rewrite insert_insert_eq, took_insert. destruct (decide (e' = e)) as [->|]; [|done]. unfold took. by rewrite Er.
Qed.

Lemma receive_ready_took rs token n :
  let '(rs', r) := receive_ready iter rs token n in
  ∃ e, ∀ e', took rs' e' = took rs e' ++ match r with Ok (Some g) => if decide (e' = e) then [g] else [] | _ => [] end.
Proof.
  unfold receive_ready. destruct (List.find _ _) as [[e r]|] eqn:Ef.
  2: { exists Direct. intros e'. by rewrite app_nil_r. }
  apply find_some in Ef as [Hin _]. apply list_elem_of_In in Hin. rewrite iter_perm, elem_of_map_to_list in Hin.
  pose proof (dg_receive_taken trace (execution r) n) as Hr. destruct (dg_receive _ _) as [x res]. cbn [fst snd] in Hr.
  exists e. intros e'. rewrite took_insert. cbn [execution]. destruct (decide (e' = e)) as [->|Hn].
  - unfold took. by rewrite Hr, Hin.
  - destruct res as [[g|]|er|]; by rewrite app_nil_r.
Qed.

(** A reply socket is bound for the source if there is none; then it sends. *)
Lemma reply_send_answers c w e g client :
  let '(_, w', _) := reply_send c w (dg_source g) client (dg_payload g) in
  ∃ l, replies w' = replies w ++ l ∧ answered {| tk_client := client; tk_route := e; tk_datagram := g |} l.
Proof.
  unfold reply_send, answered. cbn [tk_client tk_datagram].
  destruct (target_socket_addr (dg_source g)) as [a|er|]; [|exists []; by rewrite app_nil_r..].
  destruct (Bool.eqb _ _) eqn:Ef; cbn [negb]; [|exists []; by rewrite app_nil_r].
  set (p := if bool_decide _ then _ else _).
  assert (match p.2 with Ok _ => replies p.1.2 = replies w ∧ is_Some (sockets p.1.1 !! a)
          | _ => replies p.1.2 = replies w ++ [Refused a] end) as Hp.
  { unfold p. destruct (bool_decide _) eqn:Eb; [by apply bool_decide_eq_true in Eb|].
    pose proof (now_silent trace w) as N1. destruct (tproxy_now w) as [w1 now]. cbn [fst] in N1.
    pose proof (bind_reply_traced trace w1 a) as B. rewrite N1 in B. destruct (bind_reply w1 a) as [w2 [u|er|]]; [|exact B..].
    pose proof (now_silent trace w2) as N2. destruct (tproxy_now w2) as [w3 now3]. cbn in *.
    rewrite lookup_insert_eq, N2, B, app_nil_r. eauto. }
  destruct p as [[c1 w1] [u|er|]]; cbn [fst snd] in Hp; [|exists [Refused a]; by auto..].
  destruct Hp as [R1 [z Hz]]. rewrite Hz. pose proof (reply_send_traced trace w1 a (dg_payload g) client) as S. rewrite R1 in S.
  destruct (reply_send_to w1 a _ _) as [w2 [n|er|]]; cbn [fst snd] in S; [|exists [Refused a]; by auto..].
  destruct (negb _); [exists [Replied a (dg_payload g) client]; by auto|].
  pose proof (now_silent trace w2) as N2. destruct (tproxy_now w2) as [w3 now3]. cbn [fst] in N2. rewrite N2, S.
  exists [Replied a (dg_payload g) client]. by auto.
Qed.

Lemma touch_client_same s c :
  replies (t_net (touch_client s c)) = replies (t_net s) ∧ ∀ c' e, had (clients (touch_client s c)) c' e = had (clients s) c' e.
Proof.
  unfold touch_client. destruct (clients s !! c) as [st|] eqn:Ec; [|done].
  pose proof (now_silent trace (t_net s)) as N. destruct (tproxy_now _) as [w now]. split; [exact N|]. intros c' e. by eapply had_same.
Qed.

Lemma touch_client_quiet s c : quiet s (touch_client s c).
Proof. destruct (touch_client_same s c) as [R H]. split; [done|]. intros c' e. left. apply H. Qed.

Lemma ensure_client_quiet s c : quiet s (ensure_client s c).1.
Proof.
  unfold ensure_client. destruct (clients s !! c) as [st|] eqn:Ec; [done|].
  pose proof (now_silent trace (t_net s)) as N1. destruct (tproxy_now (t_net s)) as [w now]. cbn [fst] in N1.
  pose proof (cleanup_subset (clients s) (token_clients s) now) as Hs. destruct (cleanup_idle_clients _ _ now) as [cs ts]. cbn [fst] in Hs.
  destruct (_ <=? _)%Z; [split; [exact N1|]; intros; by apply had_subset|]. cbn [t_net set_clients].
  pose proof (now_silent trace w) as N2. destruct (tproxy_now w) as [w2 now2]. cbn in *. split; [cbn; congruence|].
  intros c' e. cbn. rewrite had_insert. destruct (decide (c' = c)) as [->|]; [|by apply had_subset]. right. unfold took. cbn. by rewrite lookup_empty.
Qed.

Lemma handle_inbound_quiet s c target payload : quiet s (handle_inbound s c target payload).1.
Proof.
  unfold handle_inbound. destruct (plan_action _ _ _ _) as [next [e|reason]]; [|by split; [|left]].
  case_match; [by split; [|left]|]. transitivity (ensure_client (set_flow s next) c).1.
  { etransitivity; [|apply ensure_client_quiet]. by split; [|left]. }
  destruct (ensure_client _ c) as [s1 [inserted|]]; [|done]. cbn [fst]. destruct (clients s1 !! c) as [st|] eqn:Ec; [|done].
  pose proof (send_with_took (cl_routes st) (t_tokens s1) (t_net s1) e target payload) as Hs.
  destruct (send_with _ _ _ _ _ _ _) as [[[rs al] w] r]. destruct Hs as [R1 T1].
  assert (∀ c' e', had (<[c := {| cl_routes := rs; cl_last_activity := cl_last_activity st |}]> (clients s1)) c' e' = had (clients s1) c' e') as Hh
    by (intros c' e'; by eapply had_same).
  destruct r as [u|er|]; (split; [exact R1|]); intros c' e'; cbn; rewrite ?Hh; auto.
  destruct inserted; rewrite ?Hh; auto. rewrite <-(Hh c' e'). apply had_subset, delete_subseteq.
Qed.

Lemma inbound_burst_quiet n s : quiet s (inbound_burst n s).1.
Proof.
  revert s; induction n as [|n IH]; intros s; [done|]. cbn [inbound_burst].
  assert (quiet s (set_t_net s (recv_original_datagram (t_net s)).1)) as Hq.
  { split; [|by left]. cbn. unfold recv_original_datagram. pose proof (recvmsg_silent trace (t_net s) MAX_PACKET) as H.
    by destruct (recvmsg _ _) as [w [m|[]]]. }
  destruct (recv_original_datagram (t_net s)) as [w [[[[c t] p]|]|e|]]; cbn [fst] in Hq; [|done..].
  etransitivity; [exact Hq|]. pose proof (handle_inbound_quiet (set_t_net s w) c t p) as Hi.
  destruct (handle_inbound _ c t p) as [s1 [[|]|e|]]; [|by etransitivity; [exact Hi|apply IH]|done..].
  etransitivity; [exact Hi|]. etransitivity; [apply touch_client_quiet|apply IH].
Qed.

Lemma tproxy_outbound_burst_answers n s token c : ∃ log, answers s (tproxy_outbound_burst n s token c).1 log.
Proof.
  revert s; induction n as [|n IH]; intros s; [exists []; by apply answers_nil|]. cbn [tproxy_outbound_burst].
  destruct (clients s !! c) as [st|] eqn:Ec; [|exists []; by apply answers_nil].
  pose proof (receive_ready_took (cl_routes st) token (Z.to_nat MAX_PACKET)) as Ht.
  destruct (receive_ready _ _ _ _) as [rs r]. destruct Ht as [e Ht]. set (s1 := set_clients _ _ _ _ _).
  assert (∀ c' e', had (clients s1) c' e' = had (clients s) c' e'
    ++ match r with Ok (Some g) => of_route c' e' [{| tk_client := c; tk_route := e; tk_datagram := g |}] | _ => [] end) as H1.
  { intros c' e'. unfold s1. cbn. rewrite had_insert. unfold of_route. cbn. destruct (decide (c' = c)) as [->|Hn].
    - rewrite Ht. unfold had. rewrite Ec. destruct r as [[g|]|er|]; [|done..]. cbn. rewrite bool_decide_eq_true_2 by done. cbn.
      destruct (decide (e' = e)) as [->|Hne]; [by rewrite bool_decide_eq_true_2|by rewrite bool_decide_eq_false_2 by congruence].
    - destruct r as [[g|]|er|]; rewrite ?bool_decide_eq_false_2 by congruence; by rewrite app_nil_r. }
  destruct r as [[g|]|er|]; [|exists []; apply answers_nil; [done|intros c' e'; by rewrite H1, app_nil_r]..].
  pose proof (reply_send_answers (reply_sockets s1) (t_net s1) e g c) as Hr.
  destruct (reply_send _ _ _ _ _) as [[cache w] res]. destruct Hr as (l & R1 & A1).
  assert (answers s (set_reply s1 w cache) [{| tk_client := c; tk_route := e; tk_datagram := g |}]) as Ha.
  { split; [|exact H1]. exists [l]. split; [by constructor|]. cbn. rewrite app_nil_r. exact R1. }
  destruct res as [u|er|]; [|destruct (IH (set_reply s1 w cache)) as [log Hl]; eexists; by eapply answers_app|by eexists].
  destruct (touch_client_same (set_reply s1 w cache) c) as [T1 T2]. destruct (IH (touch_client (set_reply s1 w cache) c)) as [log Hl].
  eexists. eapply answers_app; [exact Ha|]. eapply (answers_app _ _ _ []); [by apply answers_nil|exact Hl].
Qed.

Lemma tproxy_outbound_bursts_answers l s : ∃ log, answers s (tproxy_outbound_bursts s l).1 log.
Proof.
  revert s; induction l as [|[t c] l IH]; intros s; [exists []; by apply answers_nil|]. cbn [tproxy_outbound_bursts]. unfold seq_.
  destruct (tproxy_outbound_burst_answers MAX_EVENT_BURST s t c) as [log Hb].
  destruct (tproxy_outbound_burst MAX_EVENT_BURST s t c) as [s1 [u|e|]]; [|by eexists..].
  destruct (IH s1) as [log2 H2]. eexists. by eapply answers_app.
Qed.

(** A pass first takes in and cleans up, then answers. *)
Lemma tproxy_iter_answers s : ∃ s1 log, quiet s s1 ∧ answers s1 (tproxy_iter s).1 log.
Proof.
  unfold tproxy_iter. pose proof (now_silent trace (t_net s)) as N1. destruct (tproxy_now (t_net s)) as [w now]. cbn [fst] in N1.
  pose proof (poll_silent trace w (next_client_timeout (clients s) now)) as P1.
  destruct (tproxy_poll w _) as [w1 [events|e|]]; cbn [fst] in P1;
    [|exists s, []; split; [done|apply answers_nil; [cbn; congruence|done]]..].
  pose proof (now_silent trace w1) as N2. destruct (tproxy_now w1) as [w2 now2]. cbn [fst] in N2.
  pose proof (cleanup_subset (clients s) (token_clients s) now2) as Hs. destruct (cleanup_idle_clients _ _ now2) as [cs ts]. cbn [fst] in Hs.
  set (s1 := set_reply _ _ _). assert (quiet s s1) as Q1 by (split; [cbn; congruence|intros; by apply had_subset]).
  unfold seq_. set (b := if existsb _ events then _ else _).
  assert (quiet s b.1) as Q2 by (unfold b; case_match; [etransitivity; [exact Q1|apply inbound_burst_quiet]|exact Q1]).
  destruct b as [s2 [u|e|]]; cbn [fst] in Q2; [|exists s2, []; split; [done|by apply answers_nil]..].
  set (ready := omap _ _). destruct (tproxy_outbound_bursts_answers ready s2) as [log Hl]. by exists s2, log.
Qed.

(** C17. Transparent UDP clients are kept apart. After any number of passes of
    the loop there are at most 512 clients and 256 reply sockets; every token
    in the dispatch table leads to a client that owns a route with that token,
    and to no other client; routes exist only for endpoints the policy chose.
    In a further pass, every datagram taken from a client's route is answered,
    in order and once, to that client: its payload, sent from its source
    address. It is left out only when its source is not an address of the
    client's family or the reply socket fails. Nothing else is sent, and each
    route's received datagrams are the earlier ones (none after the client was
    dropped) followed by those answered in the pass. *)
Theorem tproxy_clients_isolated w next s :
  rtc tproxy_step (tproxy_new w next) s →
  (Z.of_nat (size (clients s)) ≤ MAX_CLIENTS)%Z
  ∧ (Z.of_nat (size (sockets (reply_sockets s))) ≤ MAX_REPLY_SOCKETS)%Z
  ∧ (∀ t c, token_clients s !! t = Some c →
       (∃ st, clients s !! c = Some st ∧ owns (cl_routes st) t)
       ∧ ∀ c' st', clients s !! c' = Some st' → owns (cl_routes st') t → c' = c)
  ∧ (∀ c st e, clients s !! c = Some st → is_Some (routes (cl_routes st) !! e) →
       ∃ n t, (plan_action runtime n t Udp).2 = Route e)
  ∧ ∃ log events, Forall2 answered log events
      ∧ replies (t_net (tproxy_iter s).1) = replies (t_net s) ++ mjoin events
      ∧ ∀ c e, ∃ old, (old = had (clients s) c e ∨ old = [])
          ∧ had (clients (tproxy_iter s).1) c e = old ++ of_route c e log.
Proof.
  intros Hs. assert (tproxy_ok s) as [H1 H2 [C1 C2 C3 C4]].
  { eapply (rtc_preserves tproxy_step); [|exact Hs|].
    - intros x y <-. apply tproxy_iter_ok.
    - constructor; cbn; [rewrite map_size_empty; unfold MAX_CLIENTS; lia|rewrite map_size_empty; unfold MAX_REPLY_SOCKETS; lia|].
      constructor; intros *; by rewrite lookup_empty. }
  split_and!; try done.
  - intros t c Ht. destruct (C3 t c Ht) as (st & Hc & Ho). split; [by eauto|]. intros c' st' Hc' Ho'. by eapply (C2 c' c).
  - destruct (tproxy_iter_answers s) as (s1 & log & [Q1 Q2] & (events & F & R) & Hh). exists log, events.
    split_and!; [done|by rewrite R, Q1|]. intros c e. exists (had (clients s1) c e). by split; [apply Q2|].
Qed.
End udp.

(** ** Concrete runs *)

(** A listener with one datagram waiting; events for the listener and for the
    first outbound token. Replies are logged. *)
Record toy_tproxy := { tp_in : list RecvMsg; tp_clock : Z; tp_replies : list ReplyEvent }.
#[local] Instance toy_TproxyNet : TproxyNet toy_tproxy := {
  recvmsg w n :=
    match tp_in w with
    | m :: ms => ({| tp_in := ms; tp_clock := tp_clock w; tp_replies := tp_replies w |}, inl m)
    | [] => (w, inr Again)
    end;
  bind_reply w a := (w, Ok tt);
  reply_send_to w s p c :=
    ({| tp_in := tp_in w; tp_clock := tp_clock w; tp_replies := tp_replies w ++ [Replied s p c] |}, Ok (length p));
  tproxy_poll w d := (w, Ok [(0%Z, true); (1%Z, true)]);
  tproxy_now w := (w, tp_clock w);
}.
(** Executions with the answers they will give to [receive], then the last,
    and what they gave. *)
Record toy_route := { tx_answers : list ReceivedDatagram; tx_last : result ErrorKind unit; tx_taken : list ReceivedDatagram }.
#[local] Instance toy_answer : DatagramExecution toy_route := {
  dg_send x _ _ := (x, Ok tt);
  dg_receive x _ :=
    match tx_answers x with
    | g :: l => ({| tx_answers := l; tx_last := tx_last x; tx_taken := tx_taken x ++ [g] |}, Ok (Some g))
    | [] => (x, match tx_last x with Ok _ => Ok None | Err e => Err e | Panic => Panic end)
    end;
  readiness_source_count _ := 1;
  register_readiness x _ := (x, Ok tt);
}.
Definition tp_start : toy_tproxy :=
  {| tp_in := [{| msg_truncated := false; msg_address := Some (StorageIn 167772161 4000);
                  msg_cmsgs := Ok [OtherControl; Ipv4OrigDstAddr 134744072 53]; msg_payload := [x2a] |}];
     tp_clock := 7; tp_replies := [] |}.
Definition tp_open (answers : list ReceivedDatagram) (last : result ErrorKind unit) (w : toy_tproxy)
    : toy_tproxy * result ErrorKind toy_route := (w, Ok {| tx_answers := answers; tx_last := last; tx_taken := [] |}).
Definition tp_provider (w : toy_tproxy) (p : unit) : toy_tproxy * result ErrorKind toy_route := (w, Err EUnsupported).
Definition tp_runtime : Runtime := Runtime_new (PolicyEngine_new [] (PRoute Direct)).
#[local] Notation tp_pass answers last :=
  (tproxy_iter (tp_open answers last) tp_provider map_to_list map_to_list tp_runtime {| endpoints := ∅ |}).
#[local] Notation tp_iter answers last := (tp_pass answers last (tproxy_new tp_start 0)).

Lemma tp_trace answers last : TproxyTrace (tp_open answers last) tp_provider tp_replies tx_taken.
Proof.
  split; cbn; try done; try (intros; by rewrite app_nil_r); try (by intros; simplify_eq).
  - intros w n. by destruct (tp_in w).
  - by intros w w' x [= _ <-].
  - intros [[|g l] [u|e|] tk] n; cbn; by rewrite ?app_nil_r.
Qed.

(** The answer of 8.8.8.8:53, in the first pass, goes back to the client. *)
Definition tp_answer : ReceivedDatagram := {| dg_source := {| host := Ip (V4 134744072); port := 53 |}; dg_payload := [x2b] |}.

Lemma tproxy_clients_isolated_witness :
  token_clients (tp_iter [tp_answer] (Ok tt)).1 !! 1%Z = Some (SockV4 167772161 4000)
  ∧ (∀ c' st', clients (tp_iter [tp_answer] (Ok tt)).1 !! c' = Some st' → owns (cl_routes st') 1 → c' = SockV4 167772161 4000)
  ∧ tp_replies (t_net (tp_iter [tp_answer] (Ok tt)).1) = [Replied (SockV4 134744072 53) [x2b] (SockV4 167772161 4000)]
  ∧ ∃ log events, Forall2 answered log events
      ∧ tp_replies (t_net (tp_iter [tp_answer] (Ok tt)).1) = mjoin events
      ∧ of_route (SockV4 167772161 4000) Direct log = [tp_answer].
Proof.
  assert (token_clients (tp_iter [tp_answer] (Ok tt)).1 !! 1%Z = Some (SockV4 167772161 4000)) as Ht by (vm_compute; reflexivity).
  split; [exact Ht|].
  pose proof (tproxy_clients_isolated (tp_open [tp_answer] (Ok tt)) tp_provider map_to_list map_to_list tp_runtime {| endpoints := ∅ |}
    (λ m, reflexivity (map_to_list m)) (λ m, reflexivity (map_to_list m)) tp_replies tx_taken (tp_trace [tp_answer] (Ok tt)) tp_start 0) as H.
  split.
  { destruct (H (tp_iter [tp_answer] (Ok tt)).1) as (_ & _ & H3 & _); [apply rtc_once; reflexivity|]. apply (H3 _ _ Ht). }
  split; [vm_compute; reflexivity|].
  destruct (H (tproxy_new tp_start 0)) as (_ & _ & _ & _ & log & events & H5 & H6 & H7); [reflexivity|].
  exists log, events. split; [exact H5|]. split; [exact H6|]. destruct (H7 (SockV4 167772161 4000) Direct) as (old & Hold & Hh).
  assert (old = []) as -> by (destruct Hold as [->| ->]; reflexivity). rewrite app_nil_l in Hh. rewrite <-Hh. vm_compute. reflexivity.
Defined.

(** One route that fails to receive (a proxy that closed its session, say)
    ends the whole listener and all its clients. *)
Lemma route_error_ends_listener : (tp_iter [] (Err EUnexpectedEof)).2 = Err EUnexpectedEof.
Proof. vm_compute. reflexivity. Qed.
