(* ===== verification/UdpPolicy.v ===== *)
(** * Datagrams and the configuration text

    What the two UDP inbounds hand to their outbound executions, measured
    against the configuration file. Every execution of a datagram route
    carries, as a ghost, the datagrams it was asked to send and the provider
    that opened it; the file shows that after any number of passes of either
    event loop each of these datagrams came from the client of the route, and
    went through the endpoint the text gives for its destination. *)

From S2P Require Import Prelude RustStr RustNet Flow Policy Blocklist DnsBase DnsEngine Proxy Trojan.
From S2P Require Import Datagram Conn Protocol Outbound Socks5 Socks5Udp Config RuleMeaning Transparent.

(** What an execution was asked to send since it was opened, oldest first, and
    the provider it was opened from; [None] is the direct association. *)
Class DatagramTrace (X Provider : Type) := {
  sent : X → list (Target * bytes);
  via : X → option Provider;
}.

Class DatagramTraceLaws (X Provider : Type) `{DatagramExecution X, DatagramTrace X Provider} : Prop := {
  send_traced : ∀ x t p, sent (dg_send x t p).1 = sent x ++ [(t, p)] ∧ via (dg_send x t p).1 = via x;
  receive_traced : ∀ x n, sent (dg_receive x n).1 = sent x ∧ via (dg_receive x n).1 = via x;
  register_traced : ∀ x ts, sent (register_readiness x ts).1 = sent x ∧ via (register_readiness x ts).1 = via x;
}.

(** Any execution can be recorded, without a change to what it does. *)
Section recorded.
  Context {X Provider : Type} `{DatagramExecution X}.

Record recorded := { rec_inner : X; rec_sent : list (Target * bytes); rec_via : option Provider }.
Definition with_inner (x : recorded) (y : X) : recorded :=
  {| rec_inner := y; rec_sent := rec_sent x; rec_via := rec_via x |}.
Definition record_open (x : X) (p : option Provider) : recorded := {| rec_inner := x; rec_sent := []; rec_via := p |}.

#[export] Instance recorded_execution : DatagramExecution recorded := {
  dg_send x t p :=
    let '(y, r) := dg_send (rec_inner x) t p in
    ({| rec_inner := y; rec_sent := rec_sent x ++ [(t, p)]; rec_via := rec_via x |}, r);
  dg_receive x n := let '(y, r) := dg_receive (rec_inner x) n in (with_inner x y, r);
  readiness_source_count x := readiness_source_count (rec_inner x);
  register_readiness x ts := let '(y, r) := register_readiness (rec_inner x) ts in (with_inner x y, r);
}.
#[export] Instance recorded_trace : DatagramTrace recorded Provider := { sent := rec_sent; via := rec_via }.
#[export] Instance recorded_laws : DatagramTraceLaws recorded Provider.
Proof.
  split; intros; cbn; [destruct (dg_send _ _ _)|destruct (dg_receive _ _)|destruct (register_readiness _ _)]; done.
Qed.
End recorded.
Arguments recorded : clear implicits.

(** ** A plan does not depend on the number of its flow *)
Lemma matcher_ignores_id m n n' src dst proto net :
  matcher_matches m (FlowContext_new n src dst proto net) = matcher_matches m (FlowContext_new n' src dst proto net).
Proof.
  revert m. fix IH 1. intros [| | | | | | | | | | |ms|ms|m]; try reflexivity.
  - cbn. induction ms as [|m ms IHms]; [reflexivity|]. cbn. by rewrite IH, IHms.
  - cbn. induction ms as [|m ms IHms]; [reflexivity|]. cbn. by rewrite IH, IHms.
  - cbn. by rewrite IH.
Qed.

Lemma plan_ignores_id runtime n n' t proto :
  (plan_action runtime n t proto).2 = (plan_action runtime n' t proto).2.
Proof.
  unfold plan_action, Target_flow, Runtime_plan, PolicyEngine_decide. cbn [snd plan_execution].
  induction (engine_rules _) as [|rule rules IH]; [reflexivity|]. cbn [List.find].
  rewrite (matcher_ignores_id _ n n'). by destruct (matcher_matches _ _).
Qed.

(** ** Route sets *)
Section routes.
  Context {X Provider : Type} `{HExec : DatagramExecution X, HTrace : DatagramTrace X Provider}.
  Context `{HTL : !DatagramTraceLaws X Provider}.
  Context {W : Type}.
  Context (open_direct : W → W * result ErrorKind X).
  Context (open_provider : W → Provider → W * result ErrorKind X).
  Context (outbounds : OutboundRegistry Provider).
  Hypothesis open_direct_traced : ∀ w w' x, open_direct w = (w', Ok x) → sent x = [] ∧ via x = None.
  Hypothesis open_provider_traced : ∀ w p w' x, open_provider w p = (w', Ok x) → sent x = [] ∧ via x = Some p.

(** [x] was opened for [e]: a proxy's datagrams go through the provider of
    that very endpoint. *)
Definition opened_for (e : Endpoint) (x : X) : Prop :=
  match e with
  | Direct => via x = None
  | Proxy id => ∃ ep p, endpoints outbounds !! id = Some ep ∧ ep_datagram ep = Some p ∧ via x = Some p
  end.

  (** The datagrams that may leave through an endpoint. *)
  Context (allowed : Endpoint → Target → bytes → Prop).

Definition traced (e : Endpoint) (x : X) : Prop :=
  opened_for e x ∧ ∀ t p, (t, p) ∈ sent x → allowed e t p.
Definition routes_traced (rs : DatagramRouteSet X) : Prop :=
  ∀ e r, routes rs !! e = Some r → traced e (execution r).

Lemma traced_same e x y : sent y = sent x ∧ via y = via x → traced e x → traced e y.
Proof. intros [Hs Hv] [Ho Ha]. split; [|by rewrite Hs]. unfold opened_for in *. by rewrite Hv. Qed.

Lemma traced_send e x t p : allowed e t p → traced e x → traced e (dg_send x t p).1.
Proof.
  intros Hp [Ho Ha]. destruct (send_traced x t p) as [Hs Hv]. split.
  - unfold opened_for in *. by rewrite Hv.
  - intros t' p'. rewrite Hs, elem_of_app, list_elem_of_singleton. intros [?|[= -> ->]]; [by apply Ha|done].
Qed.

Lemma open_traced w e w' x : open_datagram open_direct open_provider outbounds w e = (w', Ok x) → traced e x.
Proof.
  unfold open_datagram, traced, opened_for. destruct e as [|id].
  - intros [Hs Hv]%open_direct_traced. rewrite Hs. split; [done|]. by intros t p ?%not_elem_of_nil.
  - destruct (endpoints outbounds !! id) as [ep|] eqn:Ee; [|done]. destruct (ep_datagram ep) as [p|] eqn:Ep; [|done].
    intros [Hs Hv]%open_provider_traced. rewrite Hs. split; [by eauto|]. by intros t p' ?%not_elem_of_nil.
Qed.

Lemma routes_traced_insert rs e x ts :
  traced e x → routes_traced rs → routes_traced {| routes := <[e := {| execution := x; tokens := ts |}]> (routes rs) |}.
Proof. intros Hx Hrs e' r. cbn. intros [[<- <-]|[_ Hl]]%lookup_insert_Some; [done|by apply Hrs]. Qed.

Lemma routes_traced_new : routes_traced DatagramRouteSet_new.
Proof. intros e r. cbn. by rewrite lookup_empty. Qed.

Lemma send_with_traced rs al w e t p :
  allowed e t p → routes_traced rs →
  routes_traced (send_with rs al w e t p (open_datagram open_direct open_provider outbounds)).1.1.1.
Proof.
  intros Hp Hrs. unfold send_with. destruct (routes rs !! e) as [r|] eqn:Er.
  { pose proof (traced_send e (execution r) t p Hp (Hrs e r Er)) as Hx. destruct (dg_send _ _ _) as [x res]. cbn.
    by apply routes_traced_insert. }
  destruct (_ <=? _); [done|]. destruct (open_datagram _ _ _ w e) as [w1 [x|er|]] eqn:Eo; [|done..].
  apply open_traced in Eo. destruct (allocate _ _) as [al' [ts|er|]]; [|done..].
  pose proof (traced_same e _ _ (register_traced x ts) Eo) as Hx.
  destruct (register_readiness x ts) as [x1 [u|er|]]; [|done..]. cbn [fst execution] in *.
  pose proof (traced_send e x1 t p Hp Hx) as Hy. destruct (dg_send x1 t p) as [y res]. cbn in Hy |- *.
  rewrite insert_insert_eq. by apply routes_traced_insert.
Qed.

  Context (iter : gmap Endpoint (DatagramRoute X) → list (Endpoint * DatagramRoute X)).
  Hypothesis iter_perm : ∀ m, iter m ≡ₚ map_to_list m.

Lemma receive_ready_traced rs token n : routes_traced rs → routes_traced (receive_ready iter rs token n).1.
Proof.
  intros Hrs. unfold receive_ready. destruct (List.find _ _) as [[e r]|] eqn:Ef; [|done].
  apply find_some in Ef as [Hin _]. apply list_elem_of_In, (elem_of_iter iter iter_perm) in Hin.
  pose proof (traced_same e _ _ (receive_traced (execution r) n) (Hrs e r Hin)) as Hx.
  destruct (dg_receive _ _) as [x res]. by apply routes_traced_insert.
Qed.
End routes.

(** ** The SOCKS5 association *)
Section association.
  Context {W : Type} `{HNet : UdpNet W}.
  Context {X Provider : Type} `{HExec : DatagramExecution X, HTrace : DatagramTrace X Provider}.
  Context `{HTL : !DatagramTraceLaws X Provider}.
  Context (open_direct : W → W * result ErrorKind X).
  Context (open_provider : W → Provider → W * result ErrorKind X).
  Context (iter : gmap Endpoint (DatagramRoute X) → list (Endpoint * DatagramRoute X)).
  Context (runtime : Runtime) (outbounds : OutboundRegistry Provider) (control_ip : IpAddr).
  Hypothesis open_direct_traced : ∀ w w' x, open_direct w = (w', Ok x) → sent x = [] ∧ via x = None.
  Hypothesis open_provider_traced : ∀ w p w' x, open_provider w p = (w', Ok x) → sent x = [] ∧ via x = Some p.
  Hypothesis iter_perm : ∀ m, iter m ≡ₚ map_to_list m.

(** The relay socket received the datagram, encapsulated, from the host of
    the control connection. *)
Definition asked_on_relay (t : Target) (p : bytes) : Prop :=
  ∃ w w' packet source, relay_recv_from w MAX_UDP_PACKET = (w', Ok (packet, source))
    ∧ sock_ip source = control_ip ∧ parse_udp_request packet = Ok (t, p).

Definition planned_udp (e : Endpoint) (t : Target) : Prop := ∃ n, (plan_action runtime n t Udp).2 = Route e.

#[local] Notation rs_ok := (routes_traced outbounds (λ e t p, planned_udp e t ∧ asked_on_relay t p)).

Record assoc_traced (a : UdpAssociation W X) : Prop := {
  at_client : ∀ c, client_address a = Some c → sock_ip c = control_ip;
  at_routes : rs_ok (a_routes a);
}.

(** Steps that touch neither the client nor the routes. *)
Lemma assoc_traced_same a b :
  client_address b = client_address a → a_routes b = a_routes a → assoc_traced a → assoc_traced b.
Proof. intros Hc Hr [H1 H2]. constructor; [by rewrite Hc|by rewrite Hr]. Qed.

Lemma touch_same (a : UdpAssociation W X) : client_address (touch a) = client_address a ∧ a_routes (touch a) = a_routes a.
Proof. unfold touch. by destruct (net_now (a_net a)). Qed.

Lemma touch_traced a : assoc_traced a → assoc_traced (touch a).
Proof. apply assoc_traced_same; apply touch_same. Qed.

Lemma packet_traced a packet :
  (∀ t p, parse_udp_request packet = Ok (t, p) → asked_on_relay t p) → assoc_traced a →
  assoc_traced (handle_udp_client_packet open_direct open_provider runtime outbounds a packet).1.
Proof.
  intros Hp [H1 H2]. unfold handle_udp_client_packet.
  destruct (parse_udp_request packet) as [[t p]|e|] eqn:Eq; [|by constructor..].
  destruct (plan_action runtime (next_flow a) t Udp) as [next [e|reason]] eqn:Ep; [|by constructor].
  destruct (negb _); [by constructor|]. cbn [a_routes route_tokens a_net set_routes].
  pose proof (send_with_traced open_direct open_provider outbounds open_direct_traced open_provider_traced
    (λ e t p, planned_udp e t ∧ asked_on_relay t p) (a_routes a) (route_tokens a) (a_net a) e t p) as Hs.
  destruct (send_with _ _ _ _ _ _ _) as [[[rs al] w] r]. constructor; [done|]. apply Hs; [|done].
  split; [exists (next_flow a); by rewrite Ep|by apply Hp].
Qed.

Lemma client_burst_traced n a :
  assoc_traced a → assoc_traced (client_burst open_direct open_provider runtime outbounds n control_ip a).1.
Proof.
  revert a; induction n as [|n IH]; intros a Ha; [done|]. cbn [client_burst].
  destruct (relay_recv_from (a_net a) MAX_UDP_PACKET) as [w r] eqn:Er.
  assert (assoc_traced (set_a_net a w)) as Hw by (destruct Ha; by constructor).
  destruct r as [[packet source]|e|]; [| |done].
  2: { destruct (bool_decide _); [done|]. destruct (bool_decide _); [by apply IH|done]. }
  destruct (negb _) eqn:Ec; [by apply IH|]. apply negb_false_iff in Ec.
  assert (sock_ip source = control_ip) as Hip.
  { unfold is_client_packet in Ec. cbn [client_address set_a_net] in Ec. destruct (client_address a) as [c|] eqn:Ea.
    - apply bool_decide_eq_true in Ec as ->. by apply (at_client _ Ha).
    - by apply bool_decide_eq_true in Ec. }
  pose proof (packet_traced (set_a_net a w) packet (λ t p E, ex_intro _ _ (ex_intro _ _ (ex_intro _ _ (ex_intro _ _
    (conj Er (conj Hip E)))))) Hw) as Hp.
  destruct (handle_udp_client_packet _ _ _ _ _ _) as [b [[|]|e|]]; [|by apply IH|done..]. cbn [fst] in Hp.
  apply IH, touch_traced. destruct (client_address b) eqn:Eb; [done|]. destruct Hp as [_ H2].
  constructor; [|done]. cbn. by intros c [= <-].
Qed.

Lemma outbound_burst_traced n a token :
  assoc_traced a → assoc_traced (outbound_burst iter n a token).1.
Proof.
  revert a; induction n as [|n IH]; intros a Ha; [done|]. cbn [outbound_burst].
  pose proof (receive_ready_traced outbounds _ iter iter_perm (a_routes a) token (Z.to_nat MAX_UDP_PACKET) (at_routes _ Ha)) as Hr.
  destruct (receive_ready _ _ _ _) as [rs res]. cbn [fst] in Hr.
  assert (assoc_traced (take_routes a rs)) as Ht by (destruct Ha; by constructor).
  destruct res as [[received|]|e|]; [|done..].
  destruct (client_address (take_routes a rs)) as [c|]; [|by apply IH].
  destruct (encode_udp_response _ _) as [response|e|]; [|done..].
  destruct (send_or_queue_client_reply _ _ _ _) as [[w p] r].
  assert (assoc_traced (set_pending (take_routes a rs) w p)) as Hp by (destruct Ht; by constructor).
  destruct r as [[|]|e|]; [by apply IH, touch_traced|by apply IH|done..].
Qed.

Lemma seq_traced {A B} (q : UdpAssociation W X * result ErrorKind A) (f : UdpAssociation W X → A → UdpAssociation W X * result ErrorKind B) :
  assoc_traced q.1 → (∀ b x, assoc_traced b → assoc_traced (f b x).1) → assoc_traced (seq_ q f).1.
Proof. intros Hq Hf. destruct q as [b [x|e|]]; cbn in *; auto. Qed.

Lemma outbound_bursts_traced ts a : assoc_traced a → assoc_traced (outbound_bursts iter a ts).1.
Proof.
  revert a; induction ts as [|t ts IH]; intros a Ha; [done|]. cbn [outbound_bursts].
  apply seq_traced; [by apply outbound_burst_traced|auto].
Qed.

Lemma serve_events_traced a events :
  assoc_traced a → assoc_traced (serve_events open_direct open_provider iter runtime outbounds control_ip a events).1.
Proof.
  intros Ha. unfold serve_events.
  apply seq_traced; [destruct (existsb _ _); [by apply client_burst_traced|done]|intros b _ Hb].
  apply seq_traced; [by apply outbound_bursts_traced|intros c _ Hc]. apply seq_traced.
  - unfold flush_if. destruct (existsb _ _); [|done]. destruct (flush_pending_client_replies _ _) as [[w p] r].
    assert (assoc_traced (set_pending c w p)) by (destruct Hc; by constructor).
    destruct r as [[|]|e|]; [by apply touch_traced|done..].
  - intros d _ Hd. unfold update_interest. destruct (negb (Bool.eqb _ _)); [|done].
    destruct (reregister_relay _ _) as [w [u|e|]]; destruct Hd; by constructor.
Qed.

Lemma assoc_iter_traced a :
  assoc_traced a → assoc_traced (assoc_iter open_direct open_provider iter runtime outbounds control_ip a).1.
Proof.
  intros Ha. unfold assoc_iter. destruct (net_now (a_net a)) as [w n].
  assert (∀ b w, assoc_traced b → assoc_traced (set_a_net b w)) as Hset by (intros b w' []; by constructor).
  case_match; [by apply Hset|]. destruct (poll _ _) as [w1 [events|e|]]; [|cbn [fst]; by auto..].
  case_match; [cbn [fst]; by auto|]. destruct (control_closed _ _) as [w2 [[|]|e|]]; try (cbn [fst]; by auto).
  apply seq_traced; [by apply serve_events_traced; auto|done].
Qed.

Lemma association_traced w next hint a :
  rtc (assoc_step open_direct open_provider iter runtime outbounds control_ip) (association_new w next control_ip hint) a →
  assoc_traced a.
Proof.
  intros Hs. eapply (rtc_preserves (assoc_step open_direct open_provider iter runtime outbounds control_ip)); [|exact Hs|].
  - intros x y <-. apply assoc_iter_traced.
  - unfold association_new. destruct (net_now w) as [w1 n]. constructor; cbn; [|apply routes_traced_new].
    intros c. destruct (hint_port hint); [|done]. intros [= <-]. by destruct control_ip.
Qed.
End association.

(** ** The transparent listener *)
Section listener.
  Context {W : Type} `{HNet : TproxyNet W}.
  Context {X Provider : Type} `{HExec : DatagramExecution X, HTrace : DatagramTrace X Provider}.
  Context `{HTL : !DatagramTraceLaws X Provider}.
  Context (open_direct : W → W * result ErrorKind X).
  Context (open_provider : W → Provider → W * result ErrorKind X).
  Context (iter : gmap Endpoint (DatagramRoute X) → list (Endpoint * DatagramRoute X)).
  Context (iter_sockets : gmap SocketAddr Z → list (SocketAddr * Z)).
  Context (runtime : Runtime) (outbounds : OutboundRegistry Provider).
  Hypothesis open_direct_traced : ∀ w w' x, open_direct w = (w', Ok x) → sent x = [] ∧ via x = None.
  Hypothesis open_provider_traced : ∀ w p w' x, open_provider w p = (w', Ok x) → sent x = [] ∧ via x = Some p.
  Hypothesis iter_perm : ∀ m, iter m ≡ₚ map_to_list m.

(** The listener received the datagram from this client, for this original
    destination. *)
Definition asked_of_listener (client : SocketAddr) (t : Target) (p : bytes) : Prop :=
  ∃ w w', recv_original_datagram w = (w', Ok (Some (client, t, p))).

#[local] Notation rs_ok c := (routes_traced outbounds (λ e t p, planned_udp runtime e t ∧ asked_of_listener c t p)).

Definition clients_traced (cs : gmap SocketAddr (ClientState (X:=X))) : Prop :=
  ∀ c st, cs !! c = Some st → rs_ok c (cl_routes st).

Lemma clients_traced_insert cs c rs n :
  rs_ok c rs → clients_traced cs → clients_traced (<[c := {| cl_routes := rs; cl_last_activity := n |}]> cs).
Proof. intros Hr Hc c' st [[<- <-]|[_ Hl]]%lookup_insert_Some; [done|by apply Hc]. Qed.

Lemma clients_traced_subset cs cs' : cs' ⊆ cs → clients_traced cs → clients_traced cs'.
Proof. rewrite map_subseteq_spec. intros Hs Hc c st Hl. by apply Hc, Hs. Qed.

Lemma touch_client_traced s c : clients_traced (clients s) → clients_traced (clients (touch_client s c)).
Proof.
  intros Hc. unfold touch_client. destruct (clients s !! c) as [st|] eqn:Es; [|done].
  destruct (tproxy_now (t_net s)) as [w now]. cbn. by apply clients_traced_insert; [apply Hc|].
Qed.

Lemma ensure_client_traced s c :
  clients_traced (clients s) → clients_traced (clients (ensure_client iter s c).1).
Proof.
  intros Hc. unfold ensure_client. destruct (clients s !! c) as [st|]; [done|].
  destruct (tproxy_now (t_net s)) as [w now]. pose proof (cleanup_subset iter (clients s) (token_clients s) now) as Hs.
  destruct (cleanup_idle_clients _ _ _ _) as [cs ts]. cbn [fst] in Hs.
  pose proof (clients_traced_subset _ _ Hs Hc) as Hcs. destruct (_ <=? _)%Z; [done|].
  destruct (tproxy_now _) as [w2 now2]. cbn. apply clients_traced_insert; [apply routes_traced_new|done].
Qed.

Lemma handle_inbound_traced s c t p :
  asked_of_listener c t p → clients_traced (clients s) →
  clients_traced (clients (handle_inbound open_direct open_provider iter runtime outbounds s c t p).1).
Proof.
  intros Hp Hc. unfold handle_inbound.
  destruct (plan_action runtime (t_next_flow s) t Udp) as [next [e|reason]] eqn:Ep; [|done].
  case_match; [done|]. pose proof (ensure_client_traced (set_flow s next) c Hc) as He.
  destruct (ensure_client iter (set_flow s next) c) as [s1 [inserted|]]; [|done]. cbn [fst] in He.
  destruct (clients s1 !! c) as [st|] eqn:Es; [|done].
  pose proof (send_with_traced open_direct open_provider outbounds open_direct_traced open_provider_traced
    (λ e t p, planned_udp runtime e t ∧ asked_of_listener c t p) (cl_routes st) (t_tokens s1) (t_net s1) e t p) as Hs.
  destruct (send_with _ _ _ _ _ _ _) as [[[rs al] w] r]. cbn [fst] in Hs.
  assert (clients_traced (<[c := {| cl_routes := rs; cl_last_activity := cl_last_activity st |}]> (clients s1))) as Hins.
  { apply clients_traced_insert; [|done]. apply Hs; [|by apply He]. split; [exists (t_next_flow s); by rewrite Ep|done]. }
  destruct r as [u|er|]; [done| |done]. cbn. destruct inserted; [|done].
  eapply clients_traced_subset; [apply delete_subseteq|exact Hins].
Qed.

Lemma inbound_burst_traced n s :
  clients_traced (clients s) →
  clients_traced (clients (inbound_burst open_direct open_provider iter runtime outbounds n s).1).
Proof.
  revert s; induction n as [|n IH]; intros s Hc; [done|]. cbn [inbound_burst].
  destruct (recv_original_datagram (t_net s)) as [w [[[[c t] p]|]|e|]] eqn:Er; [|done..].
  pose proof (handle_inbound_traced (set_t_net s w) c t p (ex_intro _ _ (ex_intro _ _ Er)) Hc) as Hi.
  destruct (handle_inbound _ _ _ _ _ _ _ _ _) as [s1 [[|]|e|]]; [by apply IH, touch_client_traced|by apply IH|done..].
Qed.

Lemma tproxy_outbound_burst_traced n s token c :
  clients_traced (clients s) → clients_traced (clients (tproxy_outbound_burst iter iter_sockets n s token c).1).
Proof.
  revert s; induction n as [|n IH]; intros s Hc; [done|]. cbn [tproxy_outbound_burst].
  destruct (clients s !! c) as [st|] eqn:Es; [|done].
  pose proof (receive_ready_traced outbounds _ iter iter_perm (cl_routes st) token (Z.to_nat MAX_PACKET) (Hc c st Es)) as Hr.
  destruct (receive_ready _ _ _ _) as [rs res]. cbn [fst] in Hr.
  pose proof (clients_traced_insert (clients s) c rs (cl_last_activity st) Hr Hc) as Hi.
  destruct res as [[received|]|e|]; [|done..]. destruct (reply_send _ _ _ _ _ _) as [[cache w] [u|e|]];
    [by apply IH, touch_client_traced|by apply IH|done].
Qed.

Lemma tproxy_iter_traced s :
  clients_traced (clients s) →
  clients_traced (clients (tproxy_iter open_direct open_provider iter iter_sockets runtime outbounds s).1).
Proof.
  intros Hc. unfold tproxy_iter. destruct (tproxy_now (t_net s)) as [w now].
  destruct (tproxy_poll w _) as [w1 [events|e|]]; [|done..]. destruct (tproxy_now w1) as [w2 now2].
  pose proof (cleanup_subset iter (clients s) (token_clients s) now2) as Hs.
  destruct (cleanup_idle_clients _ _ _ now2) as [cs ts]. cbn [fst] in Hs. pose proof (clients_traced_subset _ _ Hs Hc) as Hcs.
  set (s1 := set_reply _ _ _). unfold seq_.
  assert (clients_traced (clients (if existsb (λ e, (e.1 =? INBOUND_TOKEN)%Z && e.2) events
    then inbound_burst open_direct open_provider iter runtime outbounds MAX_EVENT_BURST s1 else (s1, Ok tt)).1)) as Hb
    by (case_match; [by apply inbound_burst_traced|done]).
  destruct (if existsb _ events then _ else _) as [s2 [u|e|]]; [|done..]. cbn [fst] in Hb.
  set (ready := omap _ _). clearbody ready. clear -Hb iter_perm HTL. revert s2 Hb.
  induction ready as [|[t c] ready IH]; intros s2 Hb; [done|]. cbn [tproxy_outbound_bursts]. unfold seq_.
  pose proof (tproxy_outbound_burst_traced MAX_EVENT_BURST s2 t c Hb) as Ho.
  destruct (tproxy_outbound_burst _ _ _ s2 t c) as [s3 [u|e|]]; [by apply IH|done..].
Qed.

Lemma listener_traced w next s :
  rtc (tproxy_step open_direct open_provider iter iter_sockets runtime outbounds) (tproxy_new w next) s →
  clients_traced (clients s).
Proof.
  intros Hs. eapply (rtc_preserves (tproxy_step open_direct open_provider iter iter_sockets runtime outbounds)
    (λ s, clients_traced (clients s))); [|exact Hs|].
  - intros x y <-. apply tproxy_iter_traced.
  - intros c st. cbn. by rewrite lookup_empty.
Qed.
End listener.

(** ** Both inbounds, from the text *)
Section text.
  Context {E W : Type} `{HUdp : UdpNet W, HTproxy : TproxyNet W}.
  Context {X : Type} `{HExec : DatagramExecution X, HTrace : DatagramTrace X TrojanDatagramProvider}.
  Context `{HTL : !DatagramTraceLaws X TrojanDatagramProvider}.
  Context (open_direct : W → W * result ErrorKind X).
  Context (open_provider : W → TrojanDatagramProvider → W * result ErrorKind X).
  Context (iter : gmap Endpoint (DatagramRoute X) → list (Endpoint * DatagramRoute X)).
  Context (iter_sockets : gmap SocketAddr Z → list (SocketAddr * Z)).
  Context (fs_len : str → option Z) (fs_read : str → option str).
  Context (valid_server_name : str → bool) (sha224 : bytes → bytes).
  Context (to_socket_addrs : E → str → E * option (list SocketAddr)).
  Context (make_resolver : DnsResolverSummary → resolver E).
  Hypothesis open_direct_traced : ∀ w w' x, open_direct w = (w', Ok x) → sent x = [] ∧ via x = None.
  Hypothesis open_provider_traced : ∀ w p w' x, open_provider w p = (w', Ok x) → sent x = [] ∧ via x = Some p.
  Hypothesis iter_perm : ∀ m, iter m ≡ₚ map_to_list m.
  (** The kernel reports original destinations that are addresses. *)
  Hypothesis recvmsg_wf : ∀ w n w' m cs c a,
    recvmsg w n = (w', inl m) → msg_cmsgs m = Ok cs → c ∈ cs → original_destination c = Some a → sock_wf a.

Lemma asked_on_relay_ok ip t p n : asked_on_relay (W:=W) ip t p → flow_ok (Target_flow n t Udp).2.
Proof.
  intros (w & w' & packet & source & _ & _ & [(_ & _ & Hn) _]%parse_udp_request_ok) a Ha. cbn in Ha.
  by rewrite Ha in Hn.
Qed.

Lemma last_destination_elem l o a :
  foldl (λ o c, match original_destination c with Some x => Some x | None => o end) o l = Some a →
  o = Some a ∨ ∃ c, c ∈ l ∧ original_destination c = Some a.
Proof.
  revert o; induction l as [|c l IH]; intros o Hf; cbn [foldl] in Hf; [by left|].
  apply IH in Hf as [Hf|(c' & ? & ?)]; [|right; exists c'; by split; [apply list_elem_of_further|]].
  destruct (original_destination c) as [x|] eqn:Ec; [|by left]. right. exists c. split; [apply list_elem_of_here|congruence].
Qed.

Lemma asked_of_listener_ok client t p n : asked_of_listener (W:=W) client t p → flow_ok (Target_flow n t Udp).2.
Proof.
  intros (w & w' & Hr) a Ha. cbn in Ha. unfold recv_original_datagram in Hr.
  destruct (recvmsg w MAX_PACKET) as [w1 [m|[]]] eqn:Em; [|done..]. injection Hr as _ Hr.
  destruct (msg_truncated m); [done|]. apply bind_ok_inv in Hr as (c & _ & Hr). apply bind_ok_inv in Hr as (cs & Hcs & Hr).
  apply bind_ok_inv in Hr as (o & Ho%ok_or_ok & Hr). apply bind_ok_inv in Hr as (t' & Ht & [= _ <- _]).
  apply last_destination_elem in Ho as [?|(c' & Hc' & Ho)]; [done|]. pose proof (recvmsg_wf _ _ _ _ _ _ _ Em Hcs Hc' Ho) as Hwf.
  unfold Target_new in Ht. destruct (_ =? 0)%Z; [done|]. injection Ht as <-. cbn in Ha. injection Ha as <-.
  destruct o; cbn in *; tauto.
Qed.

(** C2. Datagrams obey the configuration file. Let a text compile. After any
    number of passes of a SOCKS5 UDP association or of the transparent UDP
    listener, whatever clients, network and outbounds do, every datagram a
    route was asked to send came from the route's own client: encapsulated, on
    the relay socket, from the host of the control connection, or from the
    transparent client for the original destination the kernel reported. Its
    destination and payload are the ones the client gave, and the route is the
    endpoint the text gives for that destination; the execution of a proxy
    route was opened from that very endpoint's provider, that of a direct one
    from none. A datagram the text rejects is never sent. *)
Theorem datagrams_obey_config text root c :
  parse_config_at fs_len fs_read valid_server_name sha224 to_socket_addrs make_resolver text root = Ok c →
  words_utf8 (lines text) →
  (∀ control_ip w next hint a e r,
     rtc (assoc_step open_direct open_provider iter (c_runtime c) (c_outbounds c) control_ip)
       (association_new w next control_ip hint) a →
     routes (a_routes a) !! e = Some r →
     opened_for (c_outbounds c) e (execution r)
     ∧ ∀ t p, (t, p) ∈ sent (execution r) →
         asked_on_relay (W:=W) control_ip t p
         ∧ ∀ n, file_says fs_read root (lines text) (Target_flow n t Udp).2 (PRoute e))
  ∧ (∀ w next s client st e r,
     rtc (tproxy_step open_direct open_provider iter iter_sockets (c_runtime c) (c_outbounds c)) (tproxy_new w next) s →
     clients s !! client = Some st → routes (cl_routes st) !! e = Some r →
     opened_for (c_outbounds c) e (execution r)
     ∧ ∀ t p, (t, p) ∈ sent (execution r) →
         asked_of_listener (W:=W) client t p
         ∧ ∀ n, file_says fs_read root (lines text) (Target_flow n t Udp).2 (PRoute e)).
Proof.
  intros Hc Hu.
  assert (∀ e t, (∀ n, flow_ok (Target_flow n t Udp).2) → planned_udp (c_runtime c) e t →
    ∀ n, file_says fs_read root (lines text) (Target_flow n t Udp).2 (PRoute e)) as Hsays.
  { intros e t Hf [n0 Hn] n. rewrite (plan_ignores_id _ n0 n) in Hn. by apply (config_file_says _ _ _ _ _ _ _ _ c _ Hc Hu (Hf n)). }
  split.
  - intros control_ip w next hint a e r Hs Hr.
    apply (association_traced open_direct open_provider) in Hs as [_ Ha]; [|done..]. destruct (Ha e r Hr) as [Ho Hp].
    split; [done|]. intros t p [Hpl Hask]%Hp. split; [done|]. apply Hsays; [|done]. intros n. by eapply asked_on_relay_ok.
  - intros w next s client st e r Hs Hc' Hr.
    apply (listener_traced open_direct open_provider) in Hs; [|done..]. destruct (Hs client st Hc' e r Hr) as [Ho Hp].
    split; [done|]. intros t p [Hpl Hask]%Hp. split; [done|]. apply Hsays; [|done]. intros n. by eapply asked_of_listener_ok.
Qed.
End text.

(** ** A concrete daemon *)

#[local] Existing Instance toy_execution.
#[local] Notation traced_execution := (recorded nat TrojanDatagramProvider).
#[local] Existing Instance toy_UdpNet.
#[local] Instance toy_listener : TproxyNet toy_net := {
  recvmsg w _ := (w, inr Again);
  bind_reply w _ := (w, Ok tt);
  reply_send_to w _ p _ := (w, Ok (length p));
  tproxy_poll w _ := (w, Ok []);
  tproxy_now w := (w, toy_clock w);
}.
Definition traced_direct (w : toy_net) : toy_net * result ErrorKind traced_execution := (w, Ok (record_open 0 None)).
Definition traced_provider (w : toy_net) (p : TrojanDatagramProvider) : toy_net * result ErrorKind traced_execution :=
  (w, Ok (record_open 0 (Some p))).
Definition sample_pass (c : CompiledConfig (W:=nat)) : UdpAssociation toy_net traced_execution :=
  (assoc_iter traced_direct traced_provider map_to_list (c_runtime c) (c_outbounds c) (V4 2130706433)
    (association_new toy_start 0 (V4 2130706433) {| hint_ip := None; hint_port := None |})).1.

(** The client's datagram to 8.8.8.8:53 leaves through the direct route, which
    is what the sample file says of it. *)
Lemma datagrams_obey_config_witness :
  ∃ c r, parse_config_at (λ _, None) (λ _, None) (λ _, true) (λ _, []) os_fixed sample_resolver sample_text (#"/etc") = Ok c
    ∧ routes (a_routes (sample_pass c)) !! Direct = Some r
    ∧ sent (execution r) = [({| host := Ip (V4 134744072); port := 53 |}, [x2a])]
    ∧ ∀ n, file_says (λ _, None) (#"/etc") (lines sample_text)
             (Target_flow n {| host := Ip (V4 134744072); port := 53 |} Udp).2 (PRoute Direct).
Proof.
  assert (match parse_config_at (λ _, None) (λ _, None) (λ _, true) (λ _, []) os_fixed sample_resolver sample_text (#"/etc") with
          | Ok c => (λ r, sent (execution r)) <$> routes (a_routes (sample_pass c)) !! Direct
          | _ => None
          end = Some [({| host := Ip (V4 134744072); port := 53 |}, [x2a])]) as H by (vm_compute; reflexivity).
  destruct (parse_config_at (λ _, None) (λ _, None) (λ _, true) (λ _, []) os_fixed sample_resolver sample_text (#"/etc"))
    as [c|e|] eqn:Ec; [|discriminate H..].
  destruct (routes (a_routes (sample_pass c)) !! Direct) as [r|] eqn:Er; [|discriminate H].
  assert (sent (execution r) = [({| host := Ip (V4 134744072); port := 53 |}, [x2a])]) as Hsent
    by (injection H as H; exact H).
  assert (words_utf8 (lines sample_text)) as Hu by (apply words_utf8b_ok; vm_compute; reflexivity).
  exists c, r. split; [reflexivity|]. split; [exact Er|]. split; [exact Hsent|].
  assert (({| host := Ip (V4 134744072); port := 53 |}, [x2a]) ∈ sent (execution r)) as Hin
    by (rewrite Hsent; apply list_elem_of_here).
  assert (∀ w w' x, traced_direct w = (w', Ok x) → sent x = [] ∧ via x = None) as Hdirect by (intros w w' x [= _ <-]; by split).
  assert (∀ w p w' x, traced_provider w p = (w', Ok x) → sent x = [] ∧ via x = Some p) as Hprovider
    by (intros w p w' x [= _ <-]; by split).
  assert (∀ (w : toy_net) n w' m cs c a, recvmsg w n = (w', inl m) → msg_cmsgs m = Ok cs → c ∈ cs → original_destination c = Some a → sock_wf a) as Hrecv
    by (intros w n w' m cs c' a [=]).
  destruct (datagrams_obey_config (W:=toy_net) traced_direct traced_provider map_to_list map_to_list
    (λ _, None) (λ _, None) (λ _, true) (λ _, []) os_fixed sample_resolver Hdirect Hprovider
    (λ m, reflexivity (map_to_list m)) Hrecv sample_text (#"/etc") c Ec Hu) as [Ha _].
  eapply (Ha (V4 2130706433) toy_start 0%Z {| hint_ip := None; hint_port := None |} (sample_pass c) Direct r); [|exact Er|].
  - apply rtc_once. unfold assoc_step, sample_pass. reflexivity.
  - exact Hin.
Defined.
