(* ===== verification/Server.v ===== *)
(** * The server ([daemon/src/server.rs])

    The connection limiter as a lock-free counter shared by any number of
    threads, the accept loop, and the dispatch of a connection. *)

From S2P Require Import Prelude RustStr RustNet Flow Policy DnsBase Proxy Conn Config.

Definition ACCEPT_ERROR_RETRY_LIMIT : nat := 8.
Definition MAX_ACTIVE_CONNECTIONS : Z := 256.

(** ** The limiter *)
Record ConnectionLimiter := { l_active : Z; l_limit : Z }.
Definition ConnectionLimiter_new (limit : Z) : ConnectionLimiter := {| l_active := 0; l_limit := limit |}.

(** Where a thread is in [try_acquire]: not in it, with the value of [active]
    it last saw, or holding a permit. *)
Inductive ThreadState :=
| Outside
| Trying (active : Z)
| Holding.

(** The first load. *)
Definition acquire_load (l : ConnectionLimiter) : ThreadState := Trying (l_active l).

(** One turn of the loop: the limit check, then [compare_exchange_weak],
    which may fail spuriously. *)
Definition acquire_turn (l : ConnectionLimiter) (seen : Z) (spurious : bool) : ConnectionLimiter * ThreadState :=
  if (l_limit l <=? seen)%Z then (l, Outside)
  else if (l_active l =? seen)%Z && negb spurious
  then ({| l_active := (seen + 1) mod 2 ^ 64; l_limit := l_limit l |}, Holding)
  else (l, Trying (l_active l)).

(** [ConnectionPermit::drop]: [fetch_sub] wraps. *)
Definition permit_drop (l : ConnectionLimiter) : ConnectionLimiter :=
  {| l_active := (l_active l - 1) mod 2 ^ 64; l_limit := l_limit l |}.

(** Any number of threads, one atomic step at a time. *)
Definition world : Type := ConnectionLimiter * list ThreadState.
Inductive limiter_step : world → world → Prop :=
| step_load l ts i :
    ts !! i = Some Outside → limiter_step (l, ts) (l, <[i := acquire_load l]> ts)
| step_turn l ts i seen spurious l' t :
    ts !! i = Some (Trying seen) → acquire_turn l seen spurious = (l', t) →
    limiter_step (l, ts) (l', <[i := t]> ts)
| step_drop l ts i :
    ts !! i = Some Holding → limiter_step (l, ts) (permit_drop l, <[i := Outside]> ts).

(** [try_acquire] without interference. *)
Definition try_acquire (l : ConnectionLimiter) : ConnectionLimiter * bool :=
  match acquire_turn l (l_active l) false with
  | (l, Holding) => (l, true)
  | (l, _) => (l, false)
  end.

Definition holding (t : ThreadState) : nat := match t with Holding => 1 | _ => 0 end.
Fixpoint holders (ts : list ThreadState) : nat :=
  match ts with [] => 0 | t :: ts' => holding t + holders ts' end.

Lemma holders_insert ts i t t' :
  ts !! i = Some t → holders (<[i := t']> ts) + holding t = holders ts + holding t'.
Proof.
  revert i; induction ts as [|x ts IH]; intros [|i] H; [done..| |].
  - cbn in *. simplify_eq. lia.
  - specialize (IH i H). change (holding x + holders (<[i := t']> ts) + holding t = holding x + holders ts + holding t'). lia.
Qed.

Lemma holders_elem ts i t : ts !! i = Some t → holding t ≤ holders ts.
Proof.
  revert i; induction ts as [|x ts IH]; intros [|i] H; cbn in *; try done; [simplify_eq; lia|].
  specialize (IH i H). lia.
Qed.

Lemma holders_fresh n : holders (replicate n Outside) = 0.
Proof. by induction n. Qed.

Definition limiter_ok (limit : Z) (s : world) : Prop :=
  l_limit s.1 = limit ∧ l_active s.1 = Z.of_nat (holders s.2) ∧ (Z.of_nat (holders s.2) ≤ limit)%Z.

Lemma limiter_step_ok limit s s' :
  (0 ≤ limit < 2 ^ 64)%Z → limiter_step s s' → limiter_ok limit s → limiter_ok limit s'.
Proof.
  intros Hl Hs (H1 & H2 & H3). inversion Hs as [l ts i Hi|l ts i seen sp l' t Hi Ht|l ts i Hi]; subst; cbn in *.
  - pose proof (holders_insert ts i _ (acquire_load l) Hi) as Hh. cbn in Hh. split_and!; cbn; [done|lia|lia].
  - pose proof (holders_insert ts i _ t Hi) as Hh. cbn in Hh. unfold acquire_turn in Ht.
    destruct (_ <=? _)%Z eqn:E1; [injection Ht as <- <-; cbn in Hh; split_and!; cbn; [done|lia|lia]|].
    destruct (_ && _) eqn:E2; injection Ht as <- <-; cbn in Hh; bool_to_prop; split_and!; cbn; try done; try lia.
    rewrite Z.mod_small; lia.
  - pose proof (holders_insert ts i _ Outside Hi) as Hh. cbn in Hh. pose proof (holders_elem ts i _ Hi) as He. cbn in He.
    split_and!; cbn; [done| |lia]. rewrite Z.mod_small; lia.
Qed.

(** C21. The limiter is exact under any interleaving of any number of threads
    acquiring and dropping permits, spurious compare-and-swap failures
    included: the counter always equals the number of permits held, so it
    never wraps, and never exceeds the limit. A thread is refused only when it
    saw the limit reached; without interference a permit is granted exactly
    when one is free. *)
Theorem limiter_exact limit n l ts :
  (0 ≤ limit < 2 ^ 64)%Z →
  rtc limiter_step (ConnectionLimiter_new limit, replicate n Outside) (l, ts) →
  l_active l = Z.of_nat (holders ts) ∧ (Z.of_nat (holders ts) ≤ limit)%Z
  ∧ (∀ seen spurious, (acquire_turn l seen spurious).2 = Outside ↔ (limit ≤ seen)%Z)
  ∧ ((try_acquire l).2 = true ↔ (Z.of_nat (holders ts) < limit)%Z).
Proof.
  intros Hl Hs. assert (limiter_ok limit (l, ts)) as (H1 & H2 & H3).
  { eapply (rtc_preserves limiter_step); [by intros; eapply limiter_step_ok|exact Hs|].
    split_and!; cbn [fst snd]; rewrite ?holders_fresh; [done|done|lia]. }
  cbn in *. split_and!; [done|done| |].
  - intros seen sp. unfold acquire_turn. rewrite H1. destruct (_ <=? _)%Z eqn:E; bool_to_prop; [done|].
    destruct (_ && _); cbn; (split; [done|lia]).
  - unfold try_acquire, acquire_turn. rewrite H1, Z.eqb_refl. destruct (_ <=? _)%Z eqn:E; cbn; bool_to_prop;
      (split; [done || lia|done || lia]).
Qed.

Lemma limiter_exact_witness :
  ∃ l ts, rtc limiter_step (ConnectionLimiter_new 1, replicate 2 Outside) (l, ts)
    ∧ holders ts = 1 ∧ (try_acquire l).2 = false ∧ l_active l = Z.of_nat (holders ts).
Proof.
  exists {| l_active := 1; l_limit := 1 |}, [Holding; Outside].
  assert (rtc limiter_step (ConnectionLimiter_new 1, replicate 2 Outside)
    ({| l_active := 1; l_limit := 1 |}, [Holding; Outside])) as Hs.
  { eapply rtc_l; [apply (step_load _ _ 0); reflexivity|].
    eapply rtc_l; [apply (step_turn _ _ 0 0 false {| l_active := 1; l_limit := 1 |} Holding); reflexivity|]. apply rtc_refl. }
  split; [exact Hs|]. split; [reflexivity|]. split; [reflexivity|].
  apply (limiter_exact 1 2 _ _ ltac:(lia) Hs).
Defined.

(** A failed turn without a spurious failure means that the counter moved. *)
Lemma acquire_turn_retry l seen l' seen' :
  acquire_turn l seen false = (l', Trying seen') → l' = l ∧ seen' = l_active l ∧ l_active l ≠ seen.
Proof.
  unfold acquire_turn. destruct (_ <=? _)%Z; [done|]. destruct (_ =? _)%Z eqn:E; [done|].
  intros [= <- <-]. bool_to_prop. done.
Qed.

(** From any state the permits held can be given back, one by one. *)
Lemma permits_returned limit s :
  (0 ≤ limit < 2 ^ 64)%Z → limiter_ok limit s → ∃ s', rtc limiter_step s s' ∧ l_active s'.1 = 0%Z ∧ holders s'.2 = 0.
Proof.
  intros Hl. destruct s as [l ts]. remember (holders ts) as n eqn:Hn. revert l ts Hn.
  induction n as [|n IH]; intros l ts Hn Hok.
  - exists (l, ts). destruct Hok as (_ & Ha & _). cbn in *. rewrite <- Hn in Ha. split_and!; [apply rtc_refl|done|done].
  - assert (∃ i, ts !! i = Some Holding) as [i Hi].
    { clear -Hn. induction ts as [|t ts IH]; [done|]. destruct t; cbn in Hn.
      - destruct (IH Hn) as [i Hi]. by exists (Datatypes.S i).
      - destruct (IH Hn) as [i Hi]. by exists (Datatypes.S i).
      - by exists 0. }
    pose proof (holders_insert ts i _ Outside Hi) as Hh. cbn [holding] in Hh.
    pose proof (limiter_step_ok _ _ _ Hl (step_drop l ts i Hi) Hok) as Hok'.
    destruct (IH _ (<[i:=Outside]> ts) ltac:(lia) Hok') as (s' & Hs & H1 & H2).
    exists s'. split; [|done]. eapply rtc_l; [by apply step_drop|done].
Qed.

(** C22. The limiter never blocks and never leaks. In every reachable state, a
    thread whose compare-and-swap fails, other than spuriously, has been
    overtaken by a thread that changed the counter; a thread that runs alone
    ends within two turns, with a permit exactly when one was free; and all
    permits can always be given back, down to zero. *)
Theorem limiter_lock_free limit n l ts :
  (0 ≤ limit < 2 ^ 64)%Z →
  rtc limiter_step (ConnectionLimiter_new limit, replicate n Outside) (l, ts) →
  (∀ seen l' seen', acquire_turn l seen false = (l', Trying seen') → l' = l ∧ l_active l ≠ seen)
  ∧ (∀ seen, (seen < limit)%Z → ∃ l1 t1, acquire_turn l seen false = (l1, t1)
       ∧ match t1 with
         | Trying seen' =>
             (acquire_turn l1 seen' false).2 = if (Z.of_nat (holders ts) <? limit)%Z then Holding else Outside
         | t => t = Holding ∧ (Z.of_nat (holders ts) < limit)%Z
         end)
  ∧ ∃ s', rtc limiter_step (l, ts) s' ∧ l_active s'.1 = 0%Z ∧ holders s'.2 = 0.
Proof.
  intros Hl Hs. assert (limiter_ok limit (l, ts)) as Hok.
  { eapply (rtc_preserves limiter_step); [by intros; eapply limiter_step_ok|exact Hs|].
    split_and!; cbn [fst snd]; rewrite ?holders_fresh; [done|done|lia]. }
  pose proof Hok as (H1 & H2 & H3). cbn in H1, H2, H3. split_and!; [..|by eapply permits_returned].
  - intros seen l' seen' Ht%acquire_turn_retry. tauto.
  - intros seen Hseen. unfold acquire_turn at 1. rewrite H1, (proj2 (Z.leb_gt _ _)) by lia. cbn [negb].
    rewrite andb_true_r. destruct (l_active l =? seen)%Z eqn:E; eexists _, _; (split; [reflexivity|]).
    + bool_to_prop. split; [done|lia].
    + unfold acquire_turn. rewrite H1, Z.eqb_refl, H2. cbn [andb negb].
      destruct (limit <=? _)%Z eqn:El; bool_to_prop; [by rewrite (proj2 (Z.ltb_ge _ _))|by rewrite (proj2 (Z.ltb_lt _ _))].
Qed.

Lemma limiter_lock_free_witness :
  ∃ l ts, rtc limiter_step (ConnectionLimiter_new 1, replicate 2 Outside) (l, ts) ∧ holders ts = 1
    ∧ ∃ s', rtc limiter_step (l, ts) s' ∧ l_active s'.1 = 0%Z ∧ holders s'.2 = 0.
Proof.
  exists {| l_active := 1; l_limit := 1 |}, [Holding; Outside].
  assert (rtc limiter_step (ConnectionLimiter_new 1, replicate 2 Outside)
    ({| l_active := 1; l_limit := 1 |}, [Holding; Outside])) as Hs.
  { eapply rtc_l; [apply (step_load _ _ 0); reflexivity|].
    eapply rtc_l; [apply (step_turn _ _ 0 0 false {| l_active := 1; l_limit := 1 |} Holding); reflexivity|]. apply rtc_refl. }
  split; [exact Hs|]. split; [reflexivity|].
  apply (limiter_lock_free 1 2 _ _ ltac:(lia) Hs).
Defined.

(** ** Binding the listeners *)
Inductive BoundListener (T U : Type) :=
| BTcp (protocol : ListenerProtocol) (listener : T)
| BTproxyUdp (address : SocketAddr) (listener : U).
Arguments BTcp {T U} _ _.
Arguments BTproxyUdp {T U} _ _.

Section bind.
  Context {W T U : Type}.
  (** [transparent_udp::bind_listener], [transparent_tcp::bind_listener] and
      [TcpListener::bind]: system calls. *)
  Context (bind_tproxy_udp : W → SocketAddr → W * result ErrorKind U).
  Context (bind_tproxy_tcp bind_tcp : W → SocketAddr → W * result ErrorKind T).

Definition bind_one (w : W) (listener : ListenerConfig) : W * result ErrorKind (BoundListener T U) :=
  let address := l_address listener in
  match l_protocol listener with
  | LTproxyUdp =>
      let '(w, r) := bind_tproxy_udp w address in (w, (u ← r; Ok (BTproxyUdp address u)))
  | LTproxyTcp =>
      let '(w, r) := bind_tproxy_tcp w address in (w, (t ← r; Ok (BTcp LTproxyTcp t)))
  | p =>
      let '(w, r) := bind_tcp w address in (w, (t ← r; Ok (BTcp p t)))
  end.

(** [Server::bind]: in the order of the configuration; the first failure
    drops the listeners bound so far. *)
Fixpoint bind (w : W) (configured : list ListenerConfig) : W * result ErrorKind (list (BoundListener T U)) :=
  match configured with
  | [] => (w, Ok [])
  | listener :: rest =>
      match bind_one w listener with
      | (w, Ok bound) => let '(w, r) := bind w rest in (w, (bs ← r; Ok (bound :: bs)))
      | (w, Err e) => (w, Err e)
      | (w, Panic) => (w, Panic)
      end
  end.

Definition bound_protocol (b : BoundListener T U) : ListenerProtocol :=
  match b with BTcp p _ => p | BTproxyUdp _ _ => LTproxyUdp end.

Lemma bind_one_ok w l w' b :
  bind_one w l = (w', Ok b) →
  bound_protocol b = l_protocol l ∧ ∀ t, b ≠ BTcp LTproxyUdp t.
Proof.
  unfold bind_one.
  destruct (l_protocol l), (bind_tcp w (l_address l)) as [? []], (bind_tproxy_tcp w (l_address l)) as [? []],
    (bind_tproxy_udp w (l_address l)) as [? []]; intros [= <- <-]; by split.
Qed.

(** A bound server has the configured listeners, one for one and with their
    protocols; its TCP listeners never carry the UDP protocol, so the
    [InvalidInput] branch of [handle_connection] is dead. *)
Lemma bind_ok w cs w' bs :
  bind w cs = (w', Ok bs) →
  map bound_protocol bs = map l_protocol cs ∧ Forall (λ b, ∀ t, b ≠ BTcp LTproxyUdp t) bs.
Proof.
  revert w w' bs. induction cs as [|c cs IH]; intros w w' bs; cbn [bind]; [by intros [= _ <-]|].
  destruct (bind_one w c) as [w1 [b|e|]] eqn:E1; [|done..]. apply bind_one_ok in E1 as [Hp Hn].
  destruct (bind w1 cs) as [w2 [bs'|e|]] eqn:E2; [|done..]. intros [= _ <-].
  apply IH in E2 as [IH1 IH2]. split; [cbn; by rewrite Hp, IH1|by constructor].
Qed.
End bind.

(** ** The accept loop *)
Section accept.
  Context {W S : Type}.
  Context (accept : W → W * result ErrorKind (S * SocketAddr)).
  (** Starting the session thread, which owns the permit; [sleep] is the
      back-off after an error. *)
  Context (spawn_session : W → S → SocketAddr → W * result ErrorKind unit) (sleep : W → W).

(** [spawn_connection]: without a permit the stream is dropped. When no
    thread can be made the closure, and the permit in it, are dropped. *)
Definition spawn_connection (l : ConnectionLimiter) (w : W) (stream : S) (peer : SocketAddr) : ConnectionLimiter * W :=
  match try_acquire l with
  | (l, true) =>
      match spawn_session w stream peer with
      | (w, Err _) => (permit_drop l, w)
      | (w, _) => (l, w)
      end
  | (l, false) => (l, w)
  end.

(** A connection that is refused, or whose thread cannot be made, leaves the
    limiter as it was. *)
Lemma spawn_connection_balanced l w s p :
  (0 ≤ l_active l < 2 ^ 64)%Z → (l_limit l < 2 ^ 64)%Z →
  let '(l', _) := spawn_connection l w s p in
  l_limit l' = l_limit l
  ∧ (l_active l' = l_active l ∨ (l_active l < l_limit l)%Z ∧ l_active l' = (l_active l + 1)%Z).
Proof.
  intros Ha Hl. unfold spawn_connection, try_acquire, acquire_turn, permit_drop.
  rewrite Z.eqb_refl. destruct (l_limit l <=? l_active l)%Z eqn:E; bool_to_prop; [split; auto|].
  cbn [andb negb]. destruct (spawn_session w s p) as [w' [u|e|]]; cbn [l_active l_limit];
    rewrite (Z.mod_small (l_active l + 1)) by lia; rewrite ?Z.add_simpl_r, ?(Z.mod_small (l_active l)) by lia; auto.
Qed.

(** One pass; [Some e] ends the listener. *)
Definition accept_iter (l : ConnectionLimiter) (w : W) (consecutive_errors : nat)
    : ConnectionLimiter * W * nat * result ErrorKind (option ErrorKind) :=
  match accept w with
  | (w, Ok (stream, peer)) => let '(l, w) := spawn_connection l w stream peer in (l, w, 0, Ok None)
  | (w, Err error) =>
      if bool_decide (error = EInterrupted) then (l, w, consecutive_errors, Ok None)
      else
        let consecutive_errors := consecutive_errors + 1 in
        if ACCEPT_ERROR_RETRY_LIMIT <=? consecutive_errors then (l, w, consecutive_errors, Ok (Some error))
        else (l, sleep w, consecutive_errors, Ok None)
  | (w, Panic) => (l, w, consecutive_errors, Panic)
  end.

(** A listener that is still running has seen fewer than 8 errors in a row. *)
Lemma accept_iter_errors l w n l' w' n' :
  n < ACCEPT_ERROR_RETRY_LIMIT → accept_iter l w n = (l', w', n', Ok None) → n' < ACCEPT_ERROR_RETRY_LIMIT.
Proof.
  intros Hn. unfold accept_iter, ACCEPT_ERROR_RETRY_LIMIT in *. destruct (accept w) as [w1 [[s p]|e|]]; [|..|done].
  - destruct (spawn_connection l w1 s p). intros [= _ _ <-]. lia.
  - case_bool_decide; [by intros [= _ _ <-]|]. destruct (_ <=? _) eqn:E; [done|]. intros [= _ _ <-]. bool_to_prop. lia.
Qed.

(** What one [accept] gave. *)
Inductive AcceptOutcome := Accepted | AcceptInterrupted | AcceptFailed (e : ErrorKind).
Definition outcome (w : W) : AcceptOutcome :=
  match (accept w).2 with
  | Ok _ | Panic => Accepted
  | Err e => if bool_decide (e = EInterrupted) then AcceptInterrupted else AcceptFailed e
  end.

(** [serve_forever], looked at for [fuel] passes: what the accepts gave, and
    the error it ended with. *)
Fixpoint serve_forever (fuel : nat) (l : ConnectionLimiter) (w : W) (consecutive_errors : nat)
    : ConnectionLimiter * W * list AcceptOutcome * result ErrorKind (option ErrorKind) :=
  match fuel with
  | O => (l, w, [], Ok None)
  | Datatypes.S fuel' =>
      match accept_iter l w consecutive_errors with
      | (l', w', n, Ok None) =>
          let '(l', w', outs, r) := serve_forever fuel' l' w' n in (l', w', outcome w :: outs, r)
      | (l', w', n, r) => (l', w', [outcome w], r)
      end
  end.

(** Failures since the last accepted connection. *)
Definition streak_step (n : nat) (o : AcceptOutcome) : nat :=
  match o with Accepted => 0 | AcceptInterrupted => n | AcceptFailed _ => n + 1 end.
Definition streak (n : nat) (outs : list AcceptOutcome) : nat := foldl streak_step n outs.

  Hypothesis accept_returns : ∀ w, (accept w).2 ≠ Panic.

Lemma accept_iter_cases l w n :
  n < ACCEPT_ERROR_RETRY_LIMIT →
  let '(_, _, n', r) := accept_iter l w n in
  n' = streak_step n (outcome w)
  ∧ match r with
    | Ok None => n' < ACCEPT_ERROR_RETRY_LIMIT
    | Ok (Some e) => n' = ACCEPT_ERROR_RETRY_LIMIT ∧ outcome w = AcceptFailed e
    | _ => False
    end.
Proof.
  intros Hn. pose proof (accept_returns w) as Hr. unfold accept_iter, outcome, ACCEPT_ERROR_RETRY_LIMIT in *.
  destruct (accept w) as [w1 [[s p]|e|]]; cbn [snd] in Hr |- *; [..|done].
  - destruct (spawn_connection l w1 s p). cbn [streak_step]. split; [done|lia].
  - case_bool_decide; [by cbn [streak_step]|]. destruct (8 <=? n + 1) eqn:E; bool_to_prop; cbn [streak_step]; (split; [done|]); [split; [lia|done]|lia].
Qed.

Lemma serve_forever_streak fuel l w n :
  n < ACCEPT_ERROR_RETRY_LIMIT →
  let '(_, _, outs, r) := serve_forever fuel l w n in
  (∀ before o after, outs = before ++ o :: after → streak n before < ACCEPT_ERROR_RETRY_LIMIT)
  ∧ match r with
    | Ok None => length outs = fuel ∧ streak n outs < ACCEPT_ERROR_RETRY_LIMIT
    | Ok (Some e) => streak n outs = ACCEPT_ERROR_RETRY_LIMIT ∧ last outs = Some (AcceptFailed e)
    | _ => False
    end.
Proof.
  revert l w n. induction fuel as [|fuel IH]; intros l w n Hn; cbn [serve_forever].
  { split; [by intros [] ?|done]. }
  pose proof (accept_iter_cases l w n Hn) as Hc. destruct (accept_iter l w n) as [[[l1 w1] n1] r1].
  destruct Hc as [-> Hc]. destruct r1 as [[e|]|e|]; [| |done..].
  - destruct Hc as [Hc Ho]. split; [|by rewrite Ho in *].
    intros [|x before] o after [= <- Hb]; [done|]. by destruct before.
  - specialize (IH l1 w1 _ Hc). destruct (serve_forever fuel l1 w1 _) as [[[l2 w2] outs] r2].
    destruct IH as [IH1 IH2]. split.
    + intros [|x before] o after [= <- Hb]; [done|]. by eapply IH1.
    + destruct r2 as [[e|]|e|]; [| |done..].
      * destruct IH2 as [H1 H2]. split; [done|]. destruct outs; [done|exact H2].
      * destruct IH2 as [H1 H2]. split; [cbn; lia|done].
Qed.

(** C23. A listener ends when, and only when, eight accepts in a row have
    failed, an interrupted one not counting, and then with the last error: it
    survives every other pattern of failures, for as long as it is looked at. *)
Theorem listener_ends_exactly fuel l w :
  let '(_, _, outs, r) := serve_forever fuel l w 0 in
  (∀ before o after, outs = before ++ o :: after → streak 0 before < ACCEPT_ERROR_RETRY_LIMIT)
  ∧ match r with
    | Ok None => length outs = fuel ∧ streak 0 outs < ACCEPT_ERROR_RETRY_LIMIT
    | Ok (Some e) => streak 0 outs = ACCEPT_ERROR_RETRY_LIMIT ∧ last outs = Some (AcceptFailed e)
    | _ => False
    end.
Proof. apply serve_forever_streak. unfold ACCEPT_ERROR_RETRY_LIMIT. lia. Qed.

(** ** Dispatch *)
  Context (socks5_handle http_handle tproxy_handle : W → S → W * result ErrorKind unit).

Definition handle_connection (w : W) (protocol : ListenerProtocol) (stream : S) : W * result ErrorKind unit :=
  match protocol with
  | LSocks5 => socks5_handle w stream
  | LHttpConnect => http_handle w stream
  | LTproxyTcp => tproxy_handle w stream
  | LTproxyUdp => (w, Err EInvalidInput)
  end.
End accept.

(** ** [Server::run]: the first listener that ends ends the server. *)
Definition run_result (first_exit : option (SocketAddr * result ErrorKind unit)) : result ErrorKind unit :=
  match first_exit with
  | Some (_, Ok _) => Err EOther
  | Some (_, Err error) => Err error
  | Some (_, Panic) => Panic
  | None => Err EOther
  end.

Section run.
  Context {W T U : Type}.
  Context (local_addr : T → result ErrorKind SocketAddr).
  (** Starting a listener thread, and waiting for the first to report. *)
  Context (spawn_listener : W → BoundListener T U → SocketAddr → W * result ErrorKind unit).
  Context (recv : W → W * option (SocketAddr * result ErrorKind unit)).

Definition bound_address (b : BoundListener T U) : result ErrorKind SocketAddr :=
  match b with BTcp _ listener => local_addr listener | BTproxyUdp address _ => Ok address end.

Fixpoint start_listeners (w : W) (bs : list (BoundListener T U)) : W * result ErrorKind unit :=
  match bs with
  | [] => (w, Ok tt)
  | b :: bs' =>
      match bound_address b with
      | Ok address => let! w _s := spawn_listener w b address in start_listeners w bs'
      | Err e => (w, Err e)
      | Panic => (w, Panic)
      end
  end.

Definition run (w : W) (bs : list (BoundListener T U)) : W * result ErrorKind unit :=
  let! w _s := start_listeners w bs in
  let '(w, exit) := recv w in (w, run_result exit).

Lemma run_never_ok w bs : (run w bs).2 ≠ Ok tt.
Proof.
  unfold run, seq_. destruct (start_listeners w bs) as [w1 [u|e|]]; [|done..].
  destruct (recv w1) as [w2 [[a [v|e|]]|]]; done.
Qed.
End run.

(** ** A concrete listener: seven failures, an interrupted accept, one
    connection, then nothing but failures. *)
Definition flaky_accept (w : nat) : nat * result ErrorKind (unit * SocketAddr) :=
  (w + 1, if w <? 7 then Err EOther else if w =? 7 then Err EInterrupted
          else if w =? 8 then Ok (tt, SockV4 1 1) else Err EOther).
Definition flaky_run (fuel : nat) : list AcceptOutcome * result ErrorKind (option ErrorKind) :=
  let '(_, _, outs, r) :=
    serve_forever flaky_accept (λ w _ _, (w, Ok tt)) (λ w, w) fuel (ConnectionLimiter_new MAX_ACTIVE_CONNECTIONS) 0 0 in
  (outs, r).

Lemma listener_ends_exactly_witness :
  (flaky_run 16).2 = Ok None ∧ (flaky_run 30).2 = Ok (Some EOther) ∧ length (flaky_run 30).1 = 17
  ∧ streak 0 (flaky_run 30).1 = ACCEPT_ERROR_RETRY_LIMIT.
Proof.
  split; [vm_compute; reflexivity|]. split; [vm_compute; reflexivity|]. split; [vm_compute; reflexivity|].
  assert (∀ w, (flaky_accept w).2 ≠ Panic) as Hr.
  { intros w. unfold flaky_accept. cbn. by repeat case_match. }
  pose proof (listener_ends_exactly flaky_accept (λ w _ _, (w, Ok tt)) (λ w, w) Hr 30
    (ConnectionLimiter_new MAX_ACTIVE_CONNECTIONS) 0) as H.
  unfold flaky_run. destruct (serve_forever _ _ _ 30 _ 0 0) as [[[l w] outs] r] eqn:E.
  assert (r = Ok (Some EOther)) as ->.
  { change r with ((l, w, outs, r).2). rewrite <- E. vm_compute. reflexivity. }
  apply H.
Defined.
