(* ===== verification/System.v ===== *)
(** * The daemon put together

    A running daemon as its parts compose it: a compiled configuration, the
    DNS engine and the flow counter it owns, and one client connection handled
    by the inbound of its listener, over the registry's outbound connections.
    The world keeps a log of what leaves the machine: names looked up,
    connection attempts to addresses, transports dialled, sessions handed to a
    relay, and UDP associations served. *)

From S2P Require Import Prelude RustStr RustNet Flow Policy Blocklist DnsBase DnsCache DnsEngine.
From S2P Require Import Proxy Trojan Conn HttpConnect Protocol Outbound Datagram Socks5 Socks5Udp Config RuleMeaning.
From S2P Require Import Transparent Server.

Section system.
  (** Everything outside the process: clock, sockets, resolvers. *)
  Context {E S : Type} `{HConn : Conn S}.
  Context (iter : gmap str CacheEntry → list (str * CacheEntry)).
  Context (clock : E → E * Z).
  Context (tcp_connect : E → SocketAddr → Z → E * result ErrorKind S).
  Context (set_nodelay : S → result ErrorKind unit).
  Context (dial : E → TransportConfig → E * result ErrorKind S).
  Context (relay : E → S → S → E * result ErrorKind unit).
  Context (set_timeouts : S → bool → S * result ErrorKind unit).
  Context (session_local_addr : S → option SocketAddr) (stream_local_addr : S → result ErrorKind SocketAddr).
  (** What UDP ASSOCIATE needs: sockets, poll and clock, executions and how to
      open them, and how many passes of its loop are looked at. *)
  Context `{HUdp : UdpNet E} {X : Type} `{HExec : DatagramExecution X}.
  Context (open_direct : E → E * result ErrorKind X) (open_provider : E → TrojanDatagramProvider → E * result ErrorKind X).
  Context (route_iter : gmap Endpoint (DatagramRoute X) → list (Endpoint * DatagramRoute X)).
  Context (peer_addr : S → result ErrorKind SocketAddr) (bind_relay : E → SocketAddr → E * result ErrorKind SocketAddr).
  Context (set_up : S → E → E * result ErrorKind unit) (passes : nat).
  Context (version : str).

(** What left the machine. *)
Inductive OutEvent :=
| EvResolve (name : str)
| EvConnect (address : SocketAddr)
| EvDial (transport : TransportConfig)
| EvRelay (session : S)
| EvAssociate (hint : UdpClientHint).

Record World := { env : E; dns : DnsEngine E; log : list OutEvent; next_flow_id : Z }.
Definition with_env (w : World) (e : E) (evs : list OutEvent) : World :=
  {| env := e; dns := dns w; log := log w ++ evs; next_flow_id := next_flow_id w |}.
Definition with_flow (w : World) (n : Z) : World :=
  {| env := env w; dns := dns w; log := log w; next_flow_id := n |}.

(** The operations the components use, over the world. *)
Definition sys_now (w : World) : World * Z := let '(e, n) := clock (env w) in (with_env w e [], n).
Definition sys_resolve (w : World) (name : str) : World * result DnsError (list IpAddr) :=
  let '(w, now) := sys_now w in
  let '(d, e, r) := DnsEngine_resolve iter (dns w) (env w) now name in
  ({| env := e; dns := d; log := log w ++ [EvResolve name]; next_flow_id := next_flow_id w |}, r).
Definition sys_connect (w : World) (a : SocketAddr) (t : Z) : World * result ErrorKind S :=
  let '(e, r) := tcp_connect (env w) a t in (with_env w e [EvConnect a], r).
Definition sys_dial (w : World) (c : TransportConfig) : World * result ErrorKind S :=
  let '(e, r) := dial (env w) c in (with_env w e [EvDial c], r).
Definition sys_relay (w : World) (remote client : S) : World * result ErrorKind unit :=
  let '(e, r) := relay (env w) remote client in (with_env w e [EvRelay remote], r).

Definition sys_connect_direct : World → Target → World * result ErrorKind S :=
  connect_direct sys_resolve sys_now sys_connect set_nodelay.

(** [OutboundRegistry::connect_tcp] of the running configuration. *)
Definition sys_connect_tcp (outbounds : OutboundRegistry TrojanDatagramProvider)
    : World → Endpoint → Target → World * result ErrorKind S :=
  connect_tcp sys_connect_direct sys_dial outbounds.

(** ** The inbounds *)
Definition socks5_session (c : CompiledConfig (W:=E)) (w : World) (client : S) : World * result ErrorKind unit :=
  let '(_, w', n, r) :=
    Socks5.handle (sys_connect_tcp (c_outbounds c)) session_local_addr sys_relay set_timeouts
      (λ s w n hint,
         let '(s, e, n, r) :=
           handle_udp_associate open_direct open_provider route_iter (c_runtime c) (c_outbounds c)
             peer_addr stream_local_addr bind_relay set_up passes s (env w) n hint in
         (s, with_env w e [EvAssociate hint], n, r))
      (c_runtime c) client w (next_flow_id w) in
  (with_flow w' n, r).
Definition http_session (c : CompiledConfig (W:=E)) (w : World) (client : S) : World * result ErrorKind unit :=
  let '(st, r) :=
    HttpConnect.handle (sys_connect_tcp (c_outbounds c)) conn_write_all sys_relay set_timeouts version
      (c_runtime c) client w (next_flow_id w) in
  (with_flow (h_world st) (h_next_flow st), r).
Definition tproxy_session (c : CompiledConfig (W:=E)) (w : World) (client : S) : World * result ErrorKind unit :=
  let '(w', n, r) :=
    tproxy_tcp_handle stream_local_addr (sys_connect_tcp (c_outbounds c)) sys_relay
      (c_runtime c) client w (next_flow_id w) in
  (with_flow w' n, r).

Definition session (c : CompiledConfig (W:=E)) : World → ListenerProtocol → S → World * result ErrorKind unit :=
  handle_connection (socks5_session c) (http_session c) (tproxy_session c).

(** What the client asked for, read off the inbound's own parser. *)
Definition requested (p : ListenerProtocol) (client : S) (t : Target) : Prop :=
  match p with
  | LSocks5 =>
      ∃ client', (let! client _t := set_timeouts client true in
                  let! client _n := negotiate_method client in
                  Socks5.read_request client) = (client', Ok (RConnect t))
  | LHttpConnect =>
      ∃ client1 client2 rest, set_timeouts client true = (client1, Ok tt)
        ∧ HttpConnect.read_request client1 = (client2, Ok (t, rest))
  | LTproxyTcp => target_from_stream stream_local_addr client = Ok t
  | LTproxyUdp => False
  end.

(** The client asked for a UDP association. *)
Definition requested_association (p : ListenerProtocol) (client : S) (hint : UdpClientHint) : Prop :=
  p = LSocks5 ∧ ∃ client', (let! client _t := set_timeouts client true in
                            let! client _n := negotiate_method client in
                            Socks5.read_request client) = (client', Ok (RUdpAssociate hint)).

(** ** Outbound connections and the log *)

(** The lookup a direct connection to [t] makes. *)
Definition lookup_of (t : Target) : list OutEvent :=
  match host t with Domain name => [EvResolve name] | Ip _ => [] end.

(** The addresses a direct connection to [t] may try. *)
Definition candidates (w : World) (t : Target) (l : list SocketAddr) : Prop := (resolve_target sys_resolve w t).2 = Ok l.

Lemma connect_each_log w deadline l last_error :
  ∃ tried rest, l = tried ++ rest ∧ log (connect_each sys_now sys_connect set_nodelay w deadline l last_error).1
    = log w ++ map EvConnect tried.
Proof.
  revert w last_error. induction l as [|a l IH]; intros w last_error; cbn [connect_each].
  { exists [], []. cbn. by rewrite app_nil_r. }
  unfold sys_now at 1. destruct (clock (env w)) as [e n]. destruct (_ =? 0)%Z.
  { exists [], (a :: l). cbn. by rewrite !app_nil_r. }
  unfold sys_connect at 1. destruct (tcp_connect _ a _) as [e1 [s|er|]]; cbn [fst].
  - exists [a], l. cbn. by rewrite app_nil_r.
  - destruct (IH (with_env (with_env w e []) e1 [EvConnect a]) (Some er)) as (tried & rest & -> & ->).
    exists (a :: tried), rest. split; [done|]. cbn. by rewrite app_nil_r, <- app_assoc.
  - exists [a], l. cbn. by rewrite app_nil_r.
Qed.

Lemma sys_resolve_log w name : log (sys_resolve w name).1 = log w ++ [EvResolve name].
Proof.
  unfold sys_resolve, sys_now. destruct (clock (env w)) as [e n].
  destruct (DnsEngine_resolve _ _ _ _ _) as [[d e'] r]. cbn. by rewrite app_nil_r.
Qed.

Lemma resolve_target_log w t : log (resolve_target sys_resolve w t).1 = log w ++ lookup_of t.
Proof.
  unfold resolve_target, lookup_of. destruct (host t) as [d|a]; [|by rewrite app_nil_r].
  pose proof (sys_resolve_log w d) as H. by destruct (sys_resolve w d) as [w' r].
Qed.

Lemma sys_connect_direct_log w t :
  ∃ tried, log (sys_connect_direct w t).1 = log w ++ lookup_of t ++ map EvConnect tried
    ∧ (tried = [] ∨ ∃ l rest, candidates w t l ∧ l = tried ++ rest).
Proof.
  unfold sys_connect_direct, connect_direct, candidates. pose proof (resolve_target_log w t) as Hl.
  destruct (resolve_target sys_resolve w t) as [w1 [l|e|]]; cbn [fst snd] in *.
  - unfold sys_now at 1. destruct (clock (env w1)) as [e n].
    destruct (connect_each_log (with_env w1 e []) (n + CONNECT_TIMEOUT) l None) as (tried & rest & -> & ->).
    exists tried. cbn. rewrite app_nil_r, Hl, <- app_assoc. split; [done|]. right. eauto.
  - exists []. cbn. rewrite app_nil_r. split; [done|by left].
  - exists []. cbn. rewrite app_nil_r. split; [done|by left].
Qed.

(** What opening a connection to [t] through [e] may do. *)
Definition opened (r : OutboundRegistry TrojanDatagramProvider) (w : World) (e : Endpoint) (t : Target)
    (evs : list OutEvent) : Prop :=
  match e with
  | Direct =>
      ∃ tried, evs = lookup_of t ++ map EvConnect tried ∧ (tried = [] ∨ ∃ l rest, candidates w t l ∧ l = tried ++ rest)
  | Proxy id => evs = [] ∨ ∃ ep, endpoints r !! id = Some ep ∧ evs = [EvDial (ep_transport ep)]
  end.

(** [s] is a session to [t] through [e]: for a proxy, the endpoint's own
    transport with the endpoint's own handshake for [t] completed. *)
Definition session_for (r : OutboundRegistry TrojanDatagramProvider) (w : World) (e : Endpoint) (t : Target) (s : S) : Prop :=
  match e with
  | Direct => (sys_connect_direct w t).2 = Ok s
  | Proxy id =>
      ∃ ep s0 e' u, endpoints r !! id = Some ep ∧ dial (env w) (ep_transport ep) = (e', Ok s0)
        ∧ handshake_stream (ep_protocol ep) s0 t = (s, Ok u)
  end.

Lemma sys_connect_tcp_log r w e t :
  let '(w', res) := sys_connect_tcp r w e t in
  ∃ evs, log w' = log w ++ evs ∧ opened r w e t evs ∧ ∀ s, res = Ok s → session_for r w e t s.
Proof.
  unfold sys_connect_tcp, connect_tcp. destruct e as [|id].
  - change (negb (supports cap_tcp (capabilities r Direct))) with false. cbv iota. pose proof (sys_connect_direct_log w t) as (tried & Hl & Ht).
    destruct (sys_connect_direct w t) as [w' res] eqn:Ed. cbn in Hl. exists (lookup_of t ++ map EvConnect tried).
    split_and!; [done|by exists tried|]. intros s ->. cbn. by rewrite Ed.
  - destruct (negb _) eqn:Ec.
    { exists []. rewrite app_nil_r. split_and!; [done|by left|done]. }
    destruct (endpoints r !! id) as [ep|] eqn:Ee.
    2: { exists []. rewrite app_nil_r. split_and!; [done|by left|done]. }
    unfold sys_dial. destruct (dial (env w) (ep_transport ep)) as [e' [s0|er|]] eqn:Ed.
    + destruct (handshake_stream (ep_protocol ep) s0 t) as [s1 h] eqn:Eh. exists [EvDial (ep_transport ep)].
      split_and!; [done|right; eauto|]. intros s Hs. destruct h as [u|er|]; simplify_eq. cbn. eauto 10.
    + exists [EvDial (ep_transport ep)]. split_and!; [done|right; eauto|done].
    + exists [EvDial (ep_transport ep)]. split_and!; [done|right; eauto|done].
Qed.

(** ** One session *)

(** What a session may send out: nothing, or what its endpoint opens, and
    then at most one relay over the session it opened. The HTTP inbound
    passes early tunnel bytes on before the relay. *)
Definition outcome_for (r : OutboundRegistry TrojanDatagramProvider) (w : World) (e : Endpoint) (t : Target)
    (evs : list OutEvent) : Prop :=
  ∃ evs1, opened r w e t evs1
    ∧ (evs = evs1 ∨ ∃ s early s', session_for r w e t s ∧ (s' = s ∨ conn_write_all s early = (s', Ok tt))
                      ∧ evs = evs1 ++ [EvRelay s']).

Definition obeys (c : CompiledConfig (W:=E)) (w : World) (p : ListenerProtocol) (client : S) (evs : list OutEvent) : Prop :=
  evs = [] ∨ (∃ hint, requested_association p client hint ∧ evs = [EvAssociate hint])
  ∨ ∃ t e, requested p client t ∧ (plan_action (c_runtime c) (next_flow_id w) t Tcp).2 = Route e
                    ∧ outcome_for (c_outbounds c) w e t evs.

Lemma sys_relay_log w s client : log (sys_relay w s client).1 = log w ++ [EvRelay s].
Proof. unfold sys_relay. by destruct (relay (env w) s client). Qed.

Lemma socks5_session_obeys c w client :
  ∃ evs, log (socks5_session c w client).1 = log w ++ evs ∧ obeys c w LSocks5 client evs.
Proof.
  unfold socks5_session, Socks5.handle.
  destruct (let! client _t := set_timeouts client true in _) as [c1 [[t|hint]|er|]] eqn:Er.
  2: { destruct (handle_udp_associate _ _ _ _ _ _ _ _ _ _ c1 _ _ _) as [[[s e'] n] r]. exists [EvAssociate hint].
       split; [done|]. right; left. exists hint. split; [|done]. split; [done|]. by exists c1. }
  2,3: (exists []; cbn; rewrite app_nil_r; split; [done|by left]).
  unfold handle_connect. destruct (plan_action (c_runtime c) (next_flow_id w) t Tcp) as [n [e|reason]] eqn:Ep.
  2: { destruct (write_reply c1 _ _) as [c2 r]. exists []. cbn. rewrite app_nil_r. split; [done|by left]. }
  pose proof (sys_connect_tcp_log (c_outbounds c) w e t) as Hc.
  destruct (sys_connect_tcp (c_outbounds c) w e t) as [w1 res]. destruct Hc as (evs & Hl & Ho & Hs).
  assert (∀ evs', outcome_for (c_outbounds c) w e t evs' → obeys c w LSocks5 client evs') as Hgoal.
  { intros evs' H'. right; right. exists t, e. rewrite Ep. split; [by exists c1|done]. }
  destruct res as [remote|er|].
  - destruct (let! client _w := write_reply c1 x00 (session_local_addr remote) in set_timeouts client false) as [c2 [u|er|]].
    + pose proof (sys_relay_log w1 remote c2) as Hr. destruct (sys_relay w1 remote c2) as [w2 r2]. cbn in Hr.
      exists (evs ++ [EvRelay remote]). cbn [fst with_flow log h_world h_next_flow]. rewrite Hr, Hl, <- app_assoc. split; [done|]. apply Hgoal.
      exists evs. split; [done|]. right. exists remote, [], remote. auto.
    + exists evs. split; [done|]. apply Hgoal. exists evs. auto.
    + exists evs. split; [done|]. apply Hgoal. exists evs. auto.
  - destruct (write_reply c1 _ _) as [c2 r]. exists evs. split; [done|]. apply Hgoal. exists evs. auto.
  - exists evs. split; [done|]. apply Hgoal. exists evs. auto.
Qed.

Lemma http_session_obeys c w client :
  ∃ evs, log (http_session c w client).1 = log w ++ evs ∧ obeys c w LHttpConnect client evs.
Proof.
  unfold http_session, HttpConnect.handle.
  destruct (set_timeouts client true) as [c1 [[]|er|]] eqn:Et.
  2,3: (exists []; cbn; rewrite app_nil_r; split; [done|by left]).
  destruct (HttpConnect.read_request c1) as [c2 [[t early]|er|]] eqn:Er.
  2: { destruct (conn_write_all c2 RESPONSE_400). exists []. cbn. rewrite app_nil_r. split; [done|by left]. }
  2: { exists []. cbn. rewrite app_nil_r. split; [done|by left]. }
  destruct (plan_action (c_runtime c) (next_flow_id w) t Tcp) as [n [e|reason]] eqn:Ep.
  2: { destruct (conn_write_all c2 RESPONSE_403). exists []. cbn. rewrite app_nil_r. split; [done|by left]. }
  pose proof (sys_connect_tcp_log (c_outbounds c) w e t) as Hc.
  destruct (sys_connect_tcp (c_outbounds c) w e t) as [w1 res]. destruct Hc as (evs & Hl & Ho & Hs).
  assert (∀ evs', outcome_for (c_outbounds c) w e t evs' → obeys c w LHttpConnect client evs') as Hgoal.
  { intros evs' H'. right; right. exists t, e. rewrite Ep. split; [by exists c1, c2, early|done]. }
  assert (∃ evs', log w1 = log w ++ evs' ∧ outcome_for (c_outbounds c) w e t evs') as (evs1 & Hl1 & Ho1).
  { exists evs. split; [done|]. exists evs. auto. }
  destruct res as [remote|er|].
  2: { destruct (conn_write_all c2 RESPONSE_502). exists evs1. auto. } 2: { exists evs1. auto. }
  destruct (conn_write_all c2 _) as [c3 [u|er|]]; [|exists evs1; by auto..].
  destruct (if negb _ then _ else _) as [remote' [u2|er|]] eqn:Ew; [|exists evs1; by auto..].
  destruct (set_timeouts c3 false) as [c4 [u3|er|]]; [|exists evs1; by auto..].
  pose proof (sys_relay_log w1 remote' c4) as Hr. destruct (sys_relay w1 remote' c4) as [w2 r2]. cbn in Hr.
  exists (evs ++ [EvRelay remote']). cbn [fst with_flow log h_world h_next_flow]. rewrite Hr, Hl, <- app_assoc. split; [done|]. apply Hgoal.
  exists evs. split; [done|]. right. exists remote, early, remote'. split_and!; [by auto| |done].
  destruct (negb _); [right; by destruct u2|left; congruence].
Qed.

Lemma tproxy_session_obeys c w client :
  ∃ evs, log (tproxy_session c w client).1 = log w ++ evs ∧ obeys c w LTproxyTcp client evs.
Proof.
  unfold tproxy_session, tproxy_tcp_handle.
  destruct (target_from_stream stream_local_addr client) as [t|er|] eqn:Et.
  2,3: (exists []; cbn; rewrite app_nil_r; split; [done|by left]).
  destruct (plan_action (c_runtime c) (next_flow_id w) t Tcp) as [n [e|reason]] eqn:Ep.
  2: { exists []. cbn. rewrite app_nil_r. split; [done|by left]. }
  pose proof (sys_connect_tcp_log (c_outbounds c) w e t) as Hc.
  destruct (sys_connect_tcp (c_outbounds c) w e t) as [w1 res]. destruct Hc as (evs & Hl & Ho & Hs).
  assert (∀ evs', outcome_for (c_outbounds c) w e t evs' → obeys c w LTproxyTcp client evs') as Hgoal.
  { intros evs' H'. right; right. exists t, e. by rewrite Ep. }
  destruct res as [remote|er|].
  - pose proof (sys_relay_log w1 remote client) as Hr. destruct (sys_relay w1 remote client) as [w2 r2]. cbn in Hr.
    exists (evs ++ [EvRelay remote]). cbn [fst with_flow log h_world h_next_flow]. rewrite Hr, Hl, <- app_assoc. split; [done|]. apply Hgoal.
    exists evs. split; [done|]. right. exists remote, [], remote. auto.
  - exists evs. split; [done|]. apply Hgoal. exists evs. auto.
  - exists evs. split; [done|]. apply Hgoal. exists evs. auto.
Qed.

Lemma session_obeys c w p client :
  ∃ evs, log (session c w p client).1 = log w ++ evs ∧ obeys c w p client evs.
Proof.
  destruct p; cbn; [apply socks5_session_obeys|apply http_session_obeys|apply tproxy_session_obeys|].
  exists []. rewrite app_nil_r. by split; [|left].
Qed.

  Context (fs_len : str → option Z) (fs_read : str → option str).
  Context (valid_server_name : str → bool) (sha224 : bytes → bytes).
  Context (to_socket_addrs : E → str → E * option (list SocketAddr)).
  Context (make_resolver : DnsResolverSummary → resolver E).

(** *** The addresses a client asks for are in range *)
  Context `{HLaws : !ConnLaws S}.
  Hypothesis local_addr_wf : ∀ s a, stream_local_addr s = Ok a → sock_wf a.

Lemma requested_flow_ok p client t n : requested p client t → flow_ok (Target_flow n t Tcp).2.
Proof.
  intros Hr a Ha. cbn in Ha. destruct p; cbn in Hr.
  - destruct Hr as (client' & Er). apply seq_ok_inv in Er as (c1 & u1 & _ & Er). apply seq_ok_inv in Er as (c2 & u2 & _ & Er).
    apply Socks5.read_request_ok in Er as (_ & raw & _ & ty & addr & pt & h & _ & _ & Hn & _ & -> & _).
    cbn in Ha. subst h. exact Hn.
  - destruct Hr as (c1 & c2 & rest & _ & Er). pose proof (HttpConnect.read_request_cases c1) as H. rewrite Er in H.
    destruct H as (_ & _ & H). destruct (H t rest eq_refl) as (e & _ & _ & (_ & _ & Hok) & _). by rewrite Ha in Hok.
  - unfold target_from_stream in Hr. apply bind_ok_inv in Hr as (o & Ho%local_addr_wf & Hr). unfold Target_new in Hr.
    destruct (_ =? 0)%Z; [done|]. injection Hr as <-. cbn in Ha. injection Ha as <-. destruct o; cbn in *; tauto.
  - done.
Qed.

(** C1. The daemon does what its configuration file says. Let a text compile.
    Whatever a client of any stream inbound sends, and whatever the network
    answers, the session sends out nothing, or it serves the UDP association
    the client asked for, or it sends only what the file permits for the flow
    to the requested target: the first of its lines that speaks about the flow
    decides, or the [default] line. When it says reject, nothing at all is
    sent, and no name is looked up. When it says direct, the target's name is
    looked up once, and the addresses the DNS engine gives for it are tried, in
    order, and no others. When it names a proxy, that endpoint exists and there
    is one connection, over the transport of that endpoint's own line, and no
    name is looked up. Then at most one relay is started, over the
    connection just opened and, for a proxy, only after that endpoint's
    handshake for this very target has succeeded. *)
Theorem session_obeys_config text root c w p client :
  parse_config_at fs_len fs_read valid_server_name sha224 to_socket_addrs make_resolver text root = Ok c →
  words_utf8 (lines text) →
  ∃ evs, log (session c w p client).1 = log w ++ evs
    ∧ (evs = []
       ∨ (∃ hint, requested_association p client hint ∧ evs = [EvAssociate hint])
       ∨ ∃ t e, requested p client t
           ∧ file_says fs_read root (lines text) (Target_flow (next_flow_id w) t Tcp).2 (PRoute e)
           ∧ outcome_for (c_outbounds c) w e t evs
           ∧ ∀ id, e = Proxy id → is_Some (endpoints (c_outbounds c) !! id)).
Proof.
  intros Hc Hu. destruct (session_obeys c w p client) as (evs & He & Ho). exists evs. split; [done|].
  destruct Ho as [->|[(hint & Hr & ->)|(t & e & Hr & Hplan & Ho)]]; [by left|right; left; by exists hint|right; right]. exists t, e.
  pose proof (requested_flow_ok p client t (next_flow_id w) Hr) as Hf.
  destruct (config_file_says _ _ _ _ _ _ _ _ c _ Hc Hu Hf) as [Hsays Hreg].
  unfold plan_action in Hplan. destruct (Target_flow (next_flow_id w) t Tcp) as [n flow]. cbn [fst snd] in *.
  split_and!; [done| |done|intros id ->; by apply Hreg]. by apply Hsays.
Qed.
End system.
Arguments World : clear implicits.
Arguments OutEvent : clear implicits.

(** ** A running daemon *)

(** A network on which every connection succeeds; the proxy answers 200. *)
Definition toy_remote : script_conn := {| sc_in := [ #"HTTP/1.1 200 OK" ++ [x0d; x0a; x0d; x0a]]; sc_sent := [] |}.
#[local] Existing Instance toy_execution.
#[local] Instance idle_net : UdpNet nat := {
  relay_recv_from w _ := (w, Err EWouldBlock);
  relay_send_to w p _ := (w, Ok (length p));
  control_read w _ := (w, Err EWouldBlock);
  poll w _ := (w, Ok []);
  reregister_relay w _ := (w, Ok tt);
  net_now w := (w, Z.of_nat w);
  replies _ := [];
  send_patience _ := 0;
}.
Definition toy_session (c : CompiledConfig (W:=nat)) (client : script_conn) : World nat script_conn * result ErrorKind unit :=
  session map_to_list (λ e, (e + 1, Z.of_nat e)) (λ e _ _, (e, Ok toy_remote)) (λ _, Ok tt) (λ e _, (e, Ok toy_remote))
    (λ e _ _, (e, Ok tt)) (λ s _, (s, Ok tt)) (λ _, None) (λ _, Err EOther) (λ e, (e, Ok 0)) (λ e _, (e, Ok 0)) map_to_list (λ _, Ok (SockV4 2130706433 4000))
    (λ e a, (e, Ok a)) (λ _ e, (e, Ok tt)) 1 (#"0.1")
    c {| env := 0; dns := c_dns c; log := []; next_flow_id := 1 |} LSocks5 client.
Definition socks_connect (t : Target) : script_conn :=
  {| sc_in := [[x05; x01; x00] ++ [x05; x01; x00] ++ wire_target t]; sc_sent := [] |}.

(** The events of a session with the sample configuration, without the
    relayed sessions' contents. *)
Inductive EventShape :=
| ShResolve (name : str)
| ShConnect (a : SocketAddr)
| ShDial (a : SocketAddr)
| ShRelay
| ShAssociate.
Definition shape (e : OutEvent script_conn) : EventShape :=
  match e with
  | EvResolve name => ShResolve name
  | EvAssociate _ => ShAssociate
  | EvConnect a => ShConnect a
  | EvDial (TcpConfig t) => ShDial (tcp_address t)
  | EvDial (TlsConfig t) => ShDial (tls_address t)
  | EvRelay _ => ShRelay
  end.
Definition sample_events (t : Target) : option (list EventShape) :=
  match parse_config_at (λ _, None) (λ _, None) (λ _, true) (λ _, []) os_fixed sample_resolver sample_text (#"/etc") with
  | Ok c => Some (map shape (log (toy_session c (socks_connect t)).1))
  | _ => None
  end.

(** Mail is rejected, [*.example.com] goes through the proxy, an address is
    connected to directly. *)
Example sample_runs :
  sample_events {| host := Domain (#"mail.example.org"); port := 25 |} = Some []
  ∧ sample_events {| host := Domain (#"www.example.com"); port := 443 |} = Some [ShDial (SockV4 3221225985 443); ShRelay]
  ∧ sample_events {| host := Ip (V4 3325256711); port := 80 |} = Some [ShConnect (SockV4 3325256711 80); ShRelay].
Proof. split_and!; vm_compute; reflexivity. Qed.

(** A client that asks for a name under [example.com]: the proxy line of the
    sample file is what its session was allowed. *)
Lemma session_obeys_config_witness :
  ∃ c evs, parse_config_at (λ _, None) (λ _, None) (λ _, true) (λ _, []) os_fixed sample_resolver sample_text (#"/etc") = Ok c
    ∧ let client := socks_connect {| host := Domain (#"www.example.com"); port := 443 |} in
      log (toy_session c client).1 = [] ++ evs ∧ evs ≠ []
      ∧ ∃ t e, requested (λ s _, (s, Ok tt)) (λ _, Err EOther) LSocks5 client t
          ∧ file_says (λ _, None) (#"/etc") (lines sample_text) (Target_flow 1 t Tcp).2 (PRoute e).
Proof.
  assert (match parse_config_at (λ _, None) (λ _, None) (λ _, true) (λ _, []) os_fixed sample_resolver sample_text (#"/etc") with
          | Ok c => length (log (toy_session c (socks_connect {| host := Domain (#"www.example.com"); port := 443 |})).1)
          | _ => 0
          end = 2) as H by (vm_compute; reflexivity).
  destruct (parse_config_at (λ _, None) (λ _, None) (λ _, true) (λ _, []) os_fixed sample_resolver sample_text (#"/etc"))
    as [c|e|] eqn:Ec; [|discriminate H..].
  assert (words_utf8 (lines sample_text)) as Hu by (apply words_utf8b_ok; vm_compute; reflexivity).
  destruct (session_obeys_config map_to_list (λ e, (e + 1, Z.of_nat e)) (λ e _ _, (e, Ok toy_remote)) (λ _, Ok tt)
    (λ e _, (e, Ok toy_remote)) (λ e _ _, (e, Ok tt)) (λ s _, (s, Ok tt)) (λ _, None) (λ _, Err EOther)
    (λ e, (e, Ok 0)) (λ e _, (e, Ok 0)) map_to_list (λ _, Ok (SockV4 2130706433 4000)) (λ e a, (e, Ok a)) (λ _ e, (e, Ok tt)) 1
    (#"0.1") _ _ _ _ _ _ (λ s a (E : Err EOther = Ok a), ltac:(discriminate E)) _ _ c
    {| env := 0; dns := c_dns c; log := []; next_flow_id := 1 |} LSocks5
    (socks_connect {| host := Domain (#"www.example.com"); port := 443 |}) Ec Hu) as (evs & He & Ho).
  assert (evs ≠ []) as Hne.
  { intros ->. unfold toy_session in H. rewrite He in H. discriminate H. }
  exists c, evs. split; [reflexivity|]. cbn zeta. split; [exact He|]. split; [exact Hne|].
  destruct Ho as [Ho|[(hint & [_ [client' Hq]] & _)|(t & e & Hr & Hf & _)]]; [contradiction (Hne Ho)|vm_compute in Hq; discriminate Hq|]. exists t, e. split; [exact Hr|exact Hf].
Defined.
