(* ===== verification/TcpRelay.v ===== *)
(** * The plain TCP relay ([transport/src/lib.rs], [TcpTransportSession])

    Two threads copy, one in each direction, over two sockets they share. A
    step is one operation of one thread on a socket; what the operation
    returns is an event chosen by the environment. [io::copy] reads a piece,
    writes all of it, retries [Interrupted] and ends at the end of the input
    or at an error. A socket that was shut down in both directions yields no
    more data and takes none; a shutdown that failed changes nothing. *)

From S2P Require Import Prelude Proxy.

(** What an operation returned. *)
Inductive IoEvent :=
| ReadData (b : bytes)
| ReadEof
| ReadErr (e : ErrorKind)
| Wrote (n : nat)
| WriteErr (e : ErrorKind)
| ShutdownResult (r : result ErrorKind unit)
| Joined.

(** One operation of [io::copy] with [buf] read and not yet written: it goes
    on with a new buffer, having read and written some bytes, or it ends. *)
Inductive CopyOutcome :=
| CopyMore (buf rd wr : bytes)
| CopyEnd (r : result ErrorKind unit).
Definition copy_step (reader_open writer_open : bool) (buf : bytes) (ev : IoEvent) : option CopyOutcome :=
  match buf, ev with
  | [], ReadData b => if reader_open && negb (length b =? 0) then Some (CopyMore b b []) else None
  | [], ReadEof => Some (CopyEnd (Ok tt))
  | [], ReadErr e =>
      if bool_decide (e = EInterrupted) then (if reader_open then Some (CopyMore [] [] []) else None)
      else Some (CopyEnd (Err e))
  | _ :: _, Wrote n =>
      if writer_open && (n <=? length buf) then
        if n =? 0 then Some (CopyEnd (Err EWriteZero)) else Some (CopyMore (drop n buf) [] (take n buf))
      else None
  | _ :: _, WriteErr e =>
      if bool_decide (e = EInterrupted) then (if writer_open then Some (CopyMore buf [] []) else None)
      else Some (CopyEnd (Err e))
  | _, _ => None
  end.

(** Where the worker is: copying, before [remote_writer.shutdown(Write)],
    before the two shutdowns that follow an error, or finished. *)
Inductive UpState :=
| UpCopy (buf : bytes)
| UpShutdown
| UpFailClient (e : ErrorKind)
| UpFailRemote (e : ErrorKind)
| UpDone (r : result ErrorKind unit).

(** Where the calling thread is; it waits for the worker before it returns. *)
Inductive DownState :=
| DownCopy (buf : bytes)
| DownShutdown
| DownFailClient (e : ErrorKind)
| DownFailRemote (e : ErrorKind)
| DownJoin (downlink shutdown : result ErrorKind unit)
| Returned (r : result ErrorKind unit).

(** [client_cut], [remote_cut]: both directions of the socket were asked to be
    shut down, where [cut_failed] if such a call, whose result is ignored,
    returned an error; [client_open], [remote_open]: that has not happened;
    [remote_fin], [client_fin]: the end of the stream was passed on. The four
    byte strings are what crossed each side of the relay. *)
Record TcpRelay := {
  up : UpState;
  down : DownState;
  client_open : bool;
  remote_open : bool;
  client_cut : bool;
  remote_cut : bool;
  cut_failed : bool;
  remote_fin : bool;
  client_fin : bool;
  from_client : bytes;
  to_remote : bytes;
  from_remote : bytes;
  to_client : bytes;
}.
Definition tcp_relay_new : TcpRelay :=
  {| up := UpCopy []; down := DownCopy []; client_open := true; remote_open := true;
     client_cut := false; remote_cut := false; cut_failed := false; remote_fin := false;
     client_fin := false; from_client := []; to_remote := []; from_remote := []; to_client := [] |}.

Definition set_up_state (s : TcpRelay) (u : UpState) (fin : bool) (fc tr : bytes) : TcpRelay :=
  {| up := u; down := down s; client_open := client_open s; remote_open := remote_open s;
     client_cut := client_cut s; remote_cut := remote_cut s; cut_failed := cut_failed s; remote_fin := fin;
     client_fin := client_fin s; from_client := fc; to_remote := tr; from_remote := from_remote s; to_client := to_client s |}.
Definition set_down_state (s : TcpRelay) (d : DownState) (fin : bool) (fr tc : bytes) : TcpRelay :=
  {| up := up s; down := d; client_open := client_open s; remote_open := remote_open s;
     client_cut := client_cut s; remote_cut := remote_cut s; cut_failed := cut_failed s; remote_fin := remote_fin s;
     client_fin := fin; from_client := from_client s; to_remote := to_remote s; from_remote := fr; to_client := tc |}.
(** [let _ = stream.shutdown(Shutdown::Both)] on the client's or the remote's
    socket. *)
Definition close_socket (s : TcpRelay) (client : bool) (r : result ErrorKind unit) : TcpRelay :=
  {| up := up s; down := down s;
     client_open := client_open s && negb (client && is_ok r);
     remote_open := remote_open s && negb (negb client && is_ok r);
     client_cut := client_cut s || client; remote_cut := remote_cut s || negb client; cut_failed := cut_failed s || negb (is_ok r);
     remote_fin := remote_fin s; client_fin := client_fin s; from_client := from_client s; to_remote := to_remote s;
     from_remote := from_remote s; to_client := to_client s |}.

(** The worker. *)
Definition up_step (s : TcpRelay) (ev : IoEvent) : option TcpRelay :=
  let go u := set_up_state s u (remote_fin s) (from_client s) (to_remote s) in
  match up s, ev with
  | UpCopy buf, _ =>
      match copy_step (client_open s) (remote_open s) buf ev with
      | Some (CopyMore buf rd wr) =>
          Some (set_up_state s (UpCopy buf) (remote_fin s) (from_client s ++ rd) (to_remote s ++ wr))
      | Some (CopyEnd (Ok _)) => Some (go UpShutdown)
      | Some (CopyEnd (Err e)) => Some (go (UpFailClient e))
      | Some (CopyEnd Panic) => Some (go (UpDone Panic))
      | None => None
      end
  | UpShutdown, ShutdownResult (Ok _) =>
      Some (set_up_state s (UpDone (Ok tt)) true (from_client s) (to_remote s))
  | UpShutdown, ShutdownResult (Err e) => Some (go (UpDone (Err e)))
  | UpFailClient e, ShutdownResult r => Some (close_socket (go (UpFailRemote e)) true r)
  | UpFailRemote e, ShutdownResult r => Some (close_socket (go (UpDone (Err e))) false r)
  | _, _ => None
  end.

(** [downlink?; shutdown?; uplink?; Ok(())], where a worker that panicked is
    an error of its own and comes first. *)
Definition relay_result (uplink downlink shutdown : result ErrorKind unit) : result ErrorKind unit :=
  match uplink with
  | Panic => Err EOther
  | _ => _d ← downlink; _s ← shutdown; uplink
  end.

(** The calling thread. *)
Definition down_step (s : TcpRelay) (ev : IoEvent) : option TcpRelay :=
  let go d := set_down_state s d (client_fin s) (from_remote s) (to_client s) in
  match down s, ev with
  | DownCopy buf, _ =>
      match copy_step (remote_open s) (client_open s) buf ev with
      | Some (CopyMore buf rd wr) =>
          Some (set_down_state s (DownCopy buf) (client_fin s) (from_remote s ++ rd) (to_client s ++ wr))
      | Some (CopyEnd (Ok _)) => Some (go DownShutdown)
      | Some (CopyEnd (Err e)) => Some (go (DownFailClient e))
      | Some (CopyEnd Panic) => Some (go (Returned Panic))
      | None => None
      end
  | DownShutdown, ShutdownResult (Ok _) =>
      Some (set_down_state s (DownJoin (Ok tt) (Ok tt)) true (from_remote s) (to_client s))
  | DownShutdown, ShutdownResult (Err e) => Some (go (DownJoin (Ok tt) (Err e)))
  | DownFailClient e, ShutdownResult r => Some (close_socket (go (DownFailRemote e)) true r)
  | DownFailRemote e, ShutdownResult r => Some (close_socket (go (DownJoin (Err e) (Ok tt))) false r)
  | DownJoin d sh, Joined =>
      match up s with
      | UpDone u => Some (go (Returned (relay_result u d sh)))
      | _ => None
      end
  | _, _ => None
  end.

(** Either thread moves. *)
Inductive tcp_step : TcpRelay → TcpRelay → Prop :=
| step_up s ev s' : up_step s ev = Some s' → tcp_step s s'
| step_down s ev s' : down_step s ev = Some s' → tcp_step s s'.

(** ** What every reachable state satisfies *)
Definition closed (s : TcpRelay) : Prop := client_open s = false ∧ remote_open s = false.
Definition cut (s : TcpRelay) : Prop := client_cut s = true ∧ remote_cut s = true.
Definition partial (a b : bytes) : Prop := ∃ rest, a = b ++ rest.

Definition up_ok (s : TcpRelay) : Prop :=
  match up s with
  | UpCopy buf => from_client s = to_remote s ++ buf
  | UpShutdown => from_client s = to_remote s
  | UpFailClient _ => partial (from_client s) (to_remote s)
  | UpFailRemote _ => partial (from_client s) (to_remote s) ∧ client_cut s = true
  | UpDone (Ok _) => from_client s = to_remote s ∧ remote_fin s = true
  | UpDone (Err _) => from_client s = to_remote s ∨ partial (from_client s) (to_remote s) ∧ cut s
  | UpDone Panic => False
  end.

Definition down_ok (s : TcpRelay) : Prop :=
  match down s with
  | DownCopy buf => from_remote s = to_client s ++ buf
  | DownShutdown => from_remote s = to_client s
  | DownFailClient _ => partial (from_remote s) (to_client s)
  | DownFailRemote _ => partial (from_remote s) (to_client s) ∧ client_cut s = true
  | DownJoin (Ok _) sh => from_remote s = to_client s ∧ (sh = Ok tt → client_fin s = true) ∧ sh ≠ Panic
  | DownJoin (Err _) sh => partial (from_remote s) (to_client s) ∧ cut s ∧ sh = Ok tt
  | DownJoin Panic _ => False
  | Returned r =>
      (∃ u, up s = UpDone u) ∧ partial (from_remote s) (to_client s) ∧ r ≠ Panic
      ∧ (r = Ok tt → up s = UpDone (Ok tt) ∧ from_remote s = to_client s ∧ client_fin s = true)
      ∧ (from_remote s ≠ to_client s → cut s)
  end.

Lemma copy_step_more ro wo buf ev buf' rd wr :
  copy_step ro wo buf ev = Some (CopyMore buf' rd wr) → buf ++ rd = wr ++ buf' ∧ (ro = true ∨ wo = true).
Proof.
  unfold copy_step. destruct buf as [|x buf], ev as [b| |e|n|e| |]; try done.
  - destruct ro; cbn; [|done]. destruct (length b =? 0); [done|]. intros [= <- <- <-]. auto.
  - case_bool_decide; [|done]. destruct ro; [|done]. intros [= <- <- <-]. auto.
  - destruct wo; [|done]. cbn [andb]. destruct (n <=? _); [|done]. destruct (n =? 0); [done|].
    intros [= <- <- <-]. rewrite app_nil_r, take_drop. auto.
  - case_bool_decide; [|done]. destruct wo; [|done]. intros [= <- <- <-]. rewrite app_nil_r. auto.
Qed.

Lemma copy_step_end ro wo buf ev r :
  copy_step ro wo buf ev = Some (CopyEnd r) → r ≠ Panic ∧ (r = Ok tt → buf = []).
Proof.
  unfold copy_step. destruct buf as [|x buf], ev as [b| |e|n|e| |]; try done; intros Hs;
    repeat (case_match; try done); by simplify_eq.
Qed.

Lemma partial_app (a b : bytes) : partial (a ++ b) a.
Proof. by exists b. Qed.
Lemma partial_refl a : partial a a.
Proof. exists []. by rewrite app_nil_r. Qed.
Lemma partial_eq a b : a = b → partial a b.
Proof. intros ->. apply partial_refl. Qed.
#[local] Hint Resolve partial_app partial_refl partial_eq : core.

Lemma copy_more_bytes (a b buf rd wr buf' : bytes) :
  a = b ++ buf → buf ++ rd = wr ++ buf' → a ++ rd = (b ++ wr) ++ buf'.
Proof. intros -> Hb. by rewrite <- !app_assoc, Hb. Qed.

Lemma up_step_up s ev s' : up_step s ev = Some s' → up_ok s → up_ok s'.
Proof.
  unfold up_step. intros Hs Hu. unfold up_ok in Hu.
  destruct (up s) as [buf| |e|e|r].
  - destruct (copy_step _ _ buf ev) as [[buf' rd wr|r]|] eqn:Ec; [| |done].
    + apply copy_step_more in Ec as [Ec _]. injection Hs as <-. by apply (copy_more_bytes _ _ buf).
    + apply copy_step_end in Ec as [Hp Hb]. destruct r as [[]|e|]; [| |done]; injection Hs as <-; unfold up_ok; cbn.
      * by rewrite Hu, (Hb eq_refl), app_nil_r.
      * rewrite Hu. auto.
  - destruct ev as [| | | | |[u|e|]|]; try done; injection Hs as <-; unfold up_ok; cbn; auto.
  - destruct ev; try done. injection Hs as <-. unfold up_ok; cbn. by rewrite orb_true_r.
  - destruct ev; try done. injection Hs as <-. unfold up_ok, cut; cbn. destruct Hu as [? ->]. rewrite orb_true_r. auto.
  - by destruct ev.
Qed.

Lemma down_step_down s ev s' : down_step s ev = Some s' → up_ok s → down_ok s → down_ok s'.
Proof.
  unfold down_step. intros Hs Hu Hd. unfold down_ok in Hd.
  destruct (down s) as [buf| |e|e|d sh|r].
  - destruct (copy_step _ _ buf ev) as [[buf' rd wr|r]|] eqn:Ec; [| |done].
    + apply copy_step_more in Ec as [Ec _]. injection Hs as <-. by apply (copy_more_bytes _ _ buf).
    + apply copy_step_end in Ec as [Hp Hb]. destruct r as [[]|e|]; [| |done]; injection Hs as <-; unfold down_ok; cbn.
      * by rewrite Hd, (Hb eq_refl), app_nil_r.
      * rewrite Hd. auto.
  - destruct ev as [| | | | |[u|e|]|]; try done; injection Hs as <-; unfold down_ok; cbn; by split_and!.
  - destruct ev; try done. injection Hs as <-. unfold down_ok; cbn. by rewrite orb_true_r.
  - destruct ev; try done. injection Hs as <-. unfold down_ok, cut; cbn. destruct Hd as [? ->]. rewrite orb_true_r. auto.
  - destruct ev; try done. unfold up_ok in Hu. destruct (up s) as [| | | |u] eqn:Eu; try done. injection Hs as <-.
    unfold down_ok; cbn. rewrite Eu. destruct u as [[]|e|]; [| |done].
    + destruct d as [[]|e|]; [| |done]; cbn.
      * destruct Hd as (-> & Hf & Hsh). destruct sh as [[]|e|]; cbn; split_and!; eauto; try done. 
      * destruct Hd as (Hp & Hc & ->). split_and!; eauto; done.
    + destruct d as [[]|e'|]; [| |done]; cbn.
      * destruct Hd as (-> & Hf & Hsh). destruct sh as [[]|e'|]; cbn; split_and!; eauto; done.
      * destruct Hd as (Hp & Hc & ->). split_and!; eauto; done.
  - by destruct ev.
Qed.

(** A step of one thread leaves the other's bytes alone and never reopens a
    socket. *)
Definition frame (s s' : TcpRelay) : Prop :=
  ((client_open s = false → client_open s' = false) ∧ (remote_open s = false → remote_open s' = false))
  ∧ (client_cut s = true → client_cut s' = true) ∧ (remote_cut s = true → remote_cut s' = true).

Lemma up_step_frame s ev s' :
  up_step s ev = Some s' →
  frame s s' ∧ down s' = down s ∧ from_remote s' = from_remote s ∧ to_client s' = to_client s ∧ client_fin s' = client_fin s
  ∧ ∀ r, up s ≠ UpDone r.
Proof.
  unfold up_step, frame. intros Hs. destruct (up s) as [buf| |e|e|r]; [|..|by destruct ev].
  all: repeat (case_match; try done); simplify_eq; cbn; split_and!; try done; by intros ->.
Qed.

Lemma down_step_frame s ev s' :
  down_step s ev = Some s' →
  frame s s' ∧ up s' = up s ∧ from_client s' = from_client s ∧ to_remote s' = to_remote s ∧ remote_fin s' = remote_fin s.
Proof.
  unfold down_step, frame. intros Hs. destruct (down s) as [buf| |e|e|d sh|r].
  all: repeat (case_match; try done); simplify_eq; cbn; split_and!; try done; by intros ->.
Qed.

(** A socket whose shutdown did not fail is closed. *)
Definition cut_ok (s : TcpRelay) : Prop :=
  cut_failed s = false → (client_cut s = true → client_open s = false) ∧ (remote_cut s = true → remote_open s = false).
Lemma close_socket_cut s client r : cut_ok s → cut_ok (close_socket s client r).
Proof.
  unfold cut_ok. cbn. intros H [Hf Hr]%orb_false_iff. apply negb_false_iff in Hr. rewrite Hr. destruct (H Hf) as [H1 H2].
  destruct client, (client_cut s), (remote_cut s); cbn; rewrite ?andb_false_r, ?andb_true_r; auto.
Qed.
Lemma tcp_step_cut s s' : tcp_step s s' → cut_ok s → cut_ok s'.
Proof.
  intros [s0 ev s1 Hs|s0 ev s1 Hs] Hc; unfold up_step, down_step in Hs; repeat (case_match; try done); simplify_eq;
    try exact Hc; by apply close_socket_cut.
Qed.

Definition tcp_ok (s : TcpRelay) : Prop := up_ok s ∧ down_ok s.

Lemma tcp_step_ok s s' : tcp_step s s' → tcp_ok s → tcp_ok s'.
Proof.
  intros [s0 ev s1 Hs|s0 ev s1 Hs] [Hu Hd].
  - split; [by eapply up_step_up|]. apply up_step_frame in Hs as ((_ & F1 & F2) & E1 & E2 & E3 & E4 & Hn).
    unfold down_ok, cut in *. rewrite E1, E2, E3, E4. destruct (down s0) as [| | | |[]|]; try done; try naive_solver.
  - split; [|by eapply down_step_down]. apply down_step_frame in Hs as ((_ & F1 & F2) & E1 & E2 & E3 & E4).
    unfold up_ok, cut in *. rewrite E1, E2, E3, E4. destruct (up s0) as [| | | |[]]; try done; try naive_solver.
Qed.

(** What is left to do once no more data can move. *)
Definition up_left (u : UpState) : nat :=
  match u with UpCopy _ => 3 | UpShutdown => 1 | UpFailClient _ => 2 | UpFailRemote _ => 1 | UpDone _ => 0 end.
Definition down_left (d : DownState) : nat :=
  match d with DownCopy _ => 4 | DownShutdown => 2 | DownFailClient _ => 3 | DownFailRemote _ => 2 | DownJoin _ _ => 1 | Returned _ => 0 end.
Definition left_to_do (s : TcpRelay) : nat := up_left (up s) + down_left (down s).

Lemma copy_step_closed buf ev o : copy_step false false buf ev = Some o → ∃ r, o = CopyEnd r.
Proof. destruct o as [b rd wr|r]; [|eauto]. intros [_ [?|?]]%copy_step_more; done. Qed.

Lemma closed_step s s' : closed s → tcp_step s s' →
  closed s' ∧ left_to_do s' < left_to_do s ∧ to_remote s' = to_remote s ∧ to_client s' = to_client s.
Proof.
  intros Hcl Hst. revert Hcl. destruct Hst as [s0 ev s1 Hs|s0 ev s1 Hs]; intros [Hc Hr]; unfold closed, left_to_do.
  - pose proof (up_step_frame _ _ _ Hs) as ([[F1 F2] _] & E1 & _ & E3 & _). rewrite E1, E3.
    unfold up_step in Hs. rewrite Hc, Hr in Hs. destruct (up s0) as [buf| |e|e|r] eqn:Eu; [|..|by destruct ev].
    all: split; [by auto|].
    + destruct (copy_step false false buf ev) as [o|] eqn:Eo; [|done]. apply copy_step_closed in Eo as [r ->].
      destruct r; injection Hs as <-; cbn; split_and!; try done; lia.
    + destruct ev as [| | | | |[]|]; try done; injection Hs as <-; cbn; split_and!; try done; lia.
    + destruct ev; try done; injection Hs as <-; cbn; split_and!; try done; lia.
    + destruct ev; try done; injection Hs as <-; cbn; split_and!; try done; lia.
  - pose proof (down_step_frame _ _ _ Hs) as ([[F1 F2] _] & E1 & _ & E3 & _). rewrite E1, E3.
    unfold down_step in Hs. rewrite Hc, Hr in Hs. destruct (down s0) as [buf| |e|e|d sh|r] eqn:Ed; [|..|by destruct ev].
    all: split; [by auto|].
    + destruct (copy_step false false buf ev) as [o|] eqn:Eo; [|done]. apply copy_step_closed in Eo as [r ->].
      destruct r; injection Hs as <-; cbn; split_and!; try done; lia.
    + destruct ev as [| | | | |[]|]; try done; injection Hs as <-; cbn; split_and!; try done; lia.
    + destruct ev; try done; injection Hs as <-; cbn; split_and!; try done; lia.
    + destruct ev; try done; injection Hs as <-; cbn; split_and!; try done; lia.
    + destruct ev; try done. destruct (up s0); try done; injection Hs as <-; cbn; split_and!; try done; lia.
Qed.

Lemma closed_nsteps n s s' : closed s → nsteps tcp_step n s s' →
  closed s' ∧ n + left_to_do s' ≤ left_to_do s ∧ to_remote s' = to_remote s ∧ to_client s' = to_client s.
Proof.
  intros Hc Hs. induction Hs as [s|n s s1 s' Hs _ IH]; [split_and!; try done; lia|].
  destruct (closed_step _ _ Hc Hs) as (H1 & H2 & H3 & H4). destruct (IH H1) as (? & ? & ? & ?). split_and!; [done|lia|congruence..].
Qed.

(** Until it returns some thread can move. *)
Lemma tcp_progress s : (∀ r, down s ≠ Returned r) → ∃ s', tcp_step s s'.
Proof.
  intros Hn. destruct (down s) as [[|x buf]| |e|e|d sh|r] eqn:Ed; [..|by destruct (Hn r)].
  - eexists. apply (step_down s ReadEof). unfold down_step. by rewrite Ed.
  - eexists. apply (step_down s (WriteErr EOther)). unfold down_step. by rewrite Ed.
  - eexists. apply (step_down s (ShutdownResult (Ok tt))). unfold down_step. by rewrite Ed.
  - eexists. apply (step_down s (ShutdownResult (Ok tt))). unfold down_step. by rewrite Ed.
  - eexists. apply (step_down s (ShutdownResult (Ok tt))). unfold down_step. by rewrite Ed.
  - destruct (up s) as [[|x buf]| |e|e|u] eqn:Eu.
    + eexists. apply (step_up s ReadEof). unfold up_step. by rewrite Eu.
    + eexists. apply (step_up s (WriteErr EOther)). unfold up_step. by rewrite Eu.
    + eexists. apply (step_up s (ShutdownResult (Ok tt))). unfold up_step. by rewrite Eu.
    + eexists. apply (step_up s (ShutdownResult (Ok tt))). unfold up_step. by rewrite Eu.
    + eexists. apply (step_up s (ShutdownResult (Ok tt))). unfold up_step. by rewrite Eu.
    + eexists. apply (step_down s Joined). unfold down_step. by rewrite Ed, Eu.
Qed.

Lemma up_ok_partial s : up_ok s → partial (from_client s) (to_remote s).
Proof. unfold up_ok. destruct (up s) as [| | | |[]]; intros H; try rewrite H; naive_solver. Qed.
Lemma down_ok_partial s : down_ok s → partial (from_remote s) (to_client s).
Proof. unfold down_ok. destruct (down s) as [| | | |[]|]; intros H; try rewrite H; naive_solver. Qed.

(** C20. The plain TCP relay, under every interleaving of its two threads and
    whatever the sockets answer. What is written on one side is always a
    prefix of what was read on the other. It returns success only when both
    directions were copied to their end, byte for byte, and both ends of
    stream were passed on; it never ends with bytes read and not written
    unless both sockets were shut down (a shutdown may fail; its result is
    ignored). Until it returns it can go on, and
    once both sockets are shut down it returns within seven steps and moves no
    more data. *)
Theorem tcp_relay_exact s :
  rtc tcp_step tcp_relay_new s →
  (∃ rest, from_client s = to_remote s ++ rest)
  ∧ (∃ rest, from_remote s = to_client s ++ rest)
  ∧ (∀ r, down s = Returned r →
       r ≠ Panic
       ∧ (r = Ok tt → from_client s = to_remote s ∧ from_remote s = to_client s ∧ remote_fin s = true ∧ client_fin s = true)
       ∧ (from_client s ≠ to_remote s ∨ from_remote s ≠ to_client s → cut s ∧ (cut_failed s = false → closed s)))
  ∧ ((∀ r, down s ≠ Returned r) → ∃ s', tcp_step s s')
  ∧ (closed s → ∀ n s', nsteps tcp_step n s s' → n ≤ 7 ∧ to_remote s' = to_remote s ∧ to_client s' = to_client s).
Proof.
  intros Hs. assert (tcp_ok s) as [Hu Hd] by (eapply (rtc_preserves tcp_step); [apply tcp_step_ok|exact Hs|done]).
  assert (cut_ok s) as Hk by (eapply (rtc_preserves tcp_step); [apply tcp_step_cut|exact Hs|by intros _]).
  split_and!; [by apply up_ok_partial|by apply down_ok_partial| |apply tcp_progress|].
  - intros r Er. unfold down_ok in Hd. rewrite Er in Hd. destruct Hd as ([u Eu] & _ & Hp & Ho & Hc).
    unfold up_ok in Hu. rewrite Eu in Hu. split_and!; [done| |].
    + intros Hr. destruct (Ho Hr) as (Eu' & ? & ?). rewrite Eu in Eu'. injection Eu' as ->. naive_solver.
    + intros Hl. assert (cut s) as [C1 C2] by (destruct Hl as [Hn|Hn]; [destruct u; naive_solver|by auto]).
      split; [done|]. intros Hf. split; by apply (Hk Hf).
  - intros Hc n s' Hn. destruct (closed_nsteps n s s' Hc Hn) as (_ & Hl & ? & ?). split_and!; [|done..].
    assert (left_to_do s ≤ 7); [|lia]. unfold left_to_do, up_left, down_left. repeat case_match; lia.
Qed.

(** ** A concrete run: three bytes up, one byte down, both ends of stream. *)
Definition tcp_apply (o : option TcpRelay) (e : bool * IoEvent) : option TcpRelay :=
  match o with Some s => if e.1 then up_step s e.2 else down_step s e.2 | None => None end.
Definition tcp_run (evs : list (bool * IoEvent)) : option TcpRelay := foldl tcp_apply (Some tcp_relay_new) evs.

Lemma tcp_run_steps evs s : tcp_run evs = Some s → rtc tcp_step tcp_relay_new s.
Proof.
  revert s. induction evs as [|[who ev] evs IH] using rev_ind; intros s; unfold tcp_run in *; [by intros [= <-]|].
  rewrite foldl_app. cbn. destruct (foldl tcp_apply (Some tcp_relay_new) evs) as [s0|]; [|done]. cbn. intros Hs.
  eapply rtc_r; [by apply IH|]. destruct who; [by eapply step_up|by eapply step_down].
Qed.

Definition sample_events : list (bool * IoEvent) :=
  [(true, ReadData [x01; x02; x03]); (false, ReadData [x04]); (true, Wrote 2); (false, WriteErr EInterrupted);
   (true, Wrote 1); (false, Wrote 1); (false, ReadEof); (true, ReadErr EInterrupted); (true, ReadEof);
   (false, ShutdownResult (Ok tt)); (true, ShutdownResult (Ok tt)); (false, Joined)].

Lemma tcp_relay_exact_witness :
  ∃ s, tcp_run sample_events = Some s
    ∧ down s = Returned (Ok tt) ∧ to_remote s = [x01; x02; x03] ∧ from_client s = to_remote s ∧ client_fin s = true.
Proof.
  assert (tcp_run sample_events = Some
    {| up := UpDone (Ok tt); down := Returned (Ok tt); client_open := true; remote_open := true;
       client_cut := false; remote_cut := false; cut_failed := false; remote_fin := true;
       client_fin := true; from_client := [x01; x02; x03]; to_remote := [x01; x02; x03]; from_remote := [x04];
       to_client := [x04] |}) as E by (vm_compute; reflexivity).
  eexists. split; [exact E|]. split; [reflexivity|]. split; [reflexivity|].
  destruct (tcp_relay_exact _ (tcp_run_steps _ _ E)) as (_ & _ & Hret & _).
  destruct (Hret _ eq_refl) as (_ & H1 & _). destruct (H1 eq_refl) as (H2 & _ & _ & H3). split; [exact H2|exact H3].
Defined.
