(* ===== verification/Platform.v ===== *)
(** * Platform capabilities ([platform/src/lib.rs])

    The non-destructive probe and the validation of an interception mode. The
    file system and the operating system the program was built for are
    parameters. *)

From S2P Require Import Prelude RustStr.

Inductive PlatformKind := Android | Linux | OtherPlatform.
Inductive SupportLevel := Available | Unavailable | Unknown.
#[global] Instance PlatformKind_eq_dec : EqDecision PlatformKind.
Proof. solve_decision. Defined.
#[global] Instance SupportLevel_eq_dec : EqDecision SupportLevel.
Proof. solve_decision. Defined.

Definition is_available (s : SupportLevel) : bool := match s with Available => true | _ => false end.

Record PlatformCapabilities := {
  platform : PlatformKind;
  tun : SupportLevel;
  tproxy : SupportLevel;
  ebpf : SupportLevel;
  btf : SupportLevel;
  bpffs : SupportLevel;
}.

(** [str::contains] *)
Fixpoint contains (needle s : str) : bool :=
  starts_with needle s || match s with [] => false | _ :: s' => contains needle s' end.

Definition PlatformKind_current (target_os : str) : PlatformKind :=
  if bool_decide (target_os = #"android") then Android
  else if bool_decide (target_os = #"linux") then Linux
  else OtherPlatform.

Section probe.
  Context (target_os : str) (path_exists : str → bool) (read_to_string : str → option str).

Definition file_contains (path needle : str) : bool :=
  match read_to_string path with
  | Some content => existsb (contains needle) (lines content)
  | None => false
  end.

Definition probe : PlatformCapabilities :=
  let platform := PlatformKind_current target_os in
  if bool_decide (platform = OtherPlatform) then
    {| platform := platform; tun := Unknown; tproxy := Unknown; ebpf := Unknown; btf := Unknown; bpffs := Unknown |}
  else
    let tun := if path_exists (#"/dev/net/tun") then Available else Unavailable in
    let btf := if path_exists (#"/sys/kernel/btf/vmlinux") then Available else Unavailable in
    let bpffs := if path_exists (#"/sys/fs/bpf") then Available else Unavailable in
    let ebpf :=
      if is_available btf || is_available bpffs || path_exists (#"/proc/sys/kernel/unprivileged_bpf_disabled")
      then Available else Unknown in
    let tproxy :=
      if file_contains (#"/proc/net/ip_tables_targets") (#"TPROXY") || file_contains (#"/proc/modules") (#"xt_TPROXY")
      then Available else Unknown in
    {| platform := platform; tun := tun; tproxy := tproxy; ebpf := ebpf; btf := btf; bpffs := bpffs |}.
End probe.

(** ** Validation *)
Inductive InterceptionMode := ExplicitProxy | Tun | Tproxy | Ebpf.
Record CapabilityError := { ce_mode : InterceptionMode; ce_support : SupportLevel }.

Definition mode_support (c : PlatformCapabilities) (m : InterceptionMode) : SupportLevel :=
  match m with ExplicitProxy => Available | Tun => tun c | Tproxy => tproxy c | Ebpf => ebpf c end.

Definition validate (c : PlatformCapabilities) (m : InterceptionMode) : result CapabilityError unit :=
  let support := mode_support c m in
  if bool_decide (support = Available) then Ok tt else Err {| ce_mode := m; ce_support := support |}.

(** ** Searching by line is searching the text *)
Lemma contains_spec needle s : contains needle s = true ↔ ∃ a b, s = a ++ needle ++ b.
Proof.
  induction s as [|c s IH]; cbn [contains]; rewrite orb_true_iff; unfold starts_with.
  - destruct (strip_prefix needle []) eqn:E.
    + apply strip_prefix_Some in E. split; [intros _; exists []; eauto|by left].
    + split; [by intros [?|?]|]. intros (a & b & H). symmetry in H. apply app_eq_nil in H as [-> H].
      by rewrite H, (proj2 (strip_prefix_Some needle _ b) eq_refl) in E || (apply app_eq_nil in H as [-> ->]).
  - destruct (strip_prefix needle (c :: s)) eqn:E.
    + apply strip_prefix_Some in E. split; [intros _; exists []; eauto|by left].
    + rewrite IH. split.
      * intros [?|(a & b & ->)]; [done|]. by exists (c :: a), b.
      * intros ([|x a] & b & H); [|injection H as -> ->; right; eauto].
        cbn in H. rewrite (proj2 (strip_prefix_Some needle _ b) H) in E. done.
Qed.

(** A text without the separator is in a separated text only inside a piece. *)
Lemma occurs_sep (needle p t : str) c : needle ≠ [] → c ∉ needle →
  (∃ a b, p ++ c :: t = a ++ needle ++ b) ↔ (∃ a b, p = a ++ needle ++ b) ∨ (∃ a b, t = a ++ needle ++ b).
Proof.
  intros Hn Hc. split.
  - intros (a & b & Heq). apply app_eq_app in Heq as (k & [[-> Heq]|[-> Heq]]).
    + apply app_eq_app in Heq as (j & [[-> Hj]|[-> Heq]]); [|left; eauto].
      destruct j as [|x j]; [left; exists a, []; by rewrite !app_nil_r|]. injection Hj as <- _. set_solver.
    + destruct k as [|x k]; [|injection Heq as _ ->; right; eauto].
      destruct needle as [|x needle]; [done|]. injection Heq as <- _. set_solver.
  - intros [(a & b & ->)|(a & b & ->)]; [exists a, (b ++ c :: t)|exists (p ++ c :: a), b]; by rewrite <- !app_assoc.
Qed.

Lemma contains_sep needle p t c : needle ≠ [] → c ∉ needle →
  contains needle (p ++ c :: t) = contains needle p || contains needle t.
Proof.
  intros Hn Hc. apply eq_bool_prop_intro. rewrite orb_True, !Is_true_true, !contains_spec. by apply occurs_sep.
Qed.

Lemma contains_nil needle : needle ≠ [] → contains needle [] = false.
Proof. by destruct needle. Qed.

Lemma contains_strip_cr needle l : needle ≠ [] → x0d ∉ needle → contains needle (strip_cr l) = contains needle l.
Proof.
  intros Hn Hc. unfold strip_cr. destruct (strip_suffix [x0d] l) as [r|] eqn:E; [|done].
  apply strip_suffix_Some in E as ->. cbn. by rewrite contains_sep, contains_nil, orb_false_r.
Qed.

Lemma contains_lines needle s : needle ≠ [] → x0a ∉ needle → x0d ∉ needle →
  existsb (contains needle) (lines s) = contains needle s.
Proof.
  intros Hn Ha Hd. rewrite <- (split_on_join x0a s) at 2. unfold lines.
  induction (split_on x0a s) as [|l [|l' ls] IH].
  - by rewrite contains_nil.
  - cbn [finish_lines join]. case_bool_decide as E; [subst; by rewrite contains_nil|]. cbn. by rewrite orb_false_r.
  - change (join [x0a] (l :: l' :: ls)) with (l ++ x0a :: join [x0a] (l' :: ls)).
    change (finish_lines (l :: l' :: ls)) with (strip_cr l :: finish_lines (l' :: ls)).
    cbn [existsb]. by rewrite IH, contains_strip_cr, contains_sep.
Qed.

(** ** What a probe promises

    TPROXY and eBPF are never reported as unsupported, only as not proven, and
    TPROXY is available exactly when one of the two files names it; on an
    unknown platform only the explicit proxy validates, which always does. *)
Lemma probe_spec os ex rd :
  let c := probe os ex rd in
  let names path needle := ∃ text, rd path = Some text ∧ contains needle text = true in
  validate c ExplicitProxy = Ok tt
  ∧ (∀ m, validate c m = Ok tt ↔ mode_support c m = Available)
  ∧ tproxy c ≠ Unavailable ∧ ebpf c ≠ Unavailable
  ∧ (platform c = OtherPlatform → ∀ m, m ≠ ExplicitProxy → validate c m = Err {| ce_mode := m; ce_support := Unknown |})
  ∧ (platform c ≠ OtherPlatform →
       (tproxy c = Available ↔ names (#"/proc/net/ip_tables_targets") (#"TPROXY") ∨ names (#"/proc/modules") (#"xt_TPROXY"))
       ∧ (btf c = Available ∨ bpffs c = Available → ebpf c = Available)).
Proof.
  assert (∀ path needle, needle ≠ [] → x0a ∉ needle → x0d ∉ needle →
    file_contains rd path needle = true ↔ ∃ text, rd path = Some text ∧ contains needle text = true) as Hf.
  { intros path needle H1 H2 H3. unfold file_contains. destruct (rd path) as [text|].
    - rewrite contains_lines by done. split; [eauto|by intros (? & [= <-] & ?)].
    - split; [done|by intros (? & ? & _)]. }
  cbn zeta. rewrite <- !Hf by (done || (cbn; set_solver)). clear Hf.
  split; [done|]. split; [intros m; unfold validate; case_bool_decide; by split|].
  unfold probe. case_bool_decide as E; cbn [platform tun tproxy ebpf btf bpffs].
  - split_and!; try done. intros _ [] Hm; done.
  - split_and!; [by case_match|by case_match|done|]. intros _.
    rewrite <- orb_true_iff. split; [destruct (_ || _); by split|].
    destruct (ex _), (ex (#"/sys/fs/bpf")); cbn; by intros [|].
Qed.
