(* ===== verification/Cli.v ===== *)
(** * The command line ([daemon/src/main.rs])

    The directory a configuration's assets are resolved against, reading the
    file within its limit, and the commands. What is printed is data; the file
    system, the platform probe and the server's system calls are parameters. *)

From S2P Require Import Prelude RustStr RustNet Flow Policy Blocklist DnsBase DnsEngine Proxy Outbound Config Platform Server.

(** ** [Path::parent] *)

(** The last component of a path body and what is before it. *)
Definition last_component (b : str) : str * str :=
  match rsplit_once x2f b with Some p => p | None => ([], b) end.

(** An empty component or [.] is not one. *)
Definition no_component (c : str) : bool := bool_decide (c = []) || bool_decide (c = [x2e]).

(** [Components::trim_right] *)
Fixpoint trim_right_go (fuel : nat) (b : str) : str :=
  match fuel with
  | O => b
  | S fuel' =>
      if length b =? 0 then b
      else let '(before, c) := last_component b in
           if no_component c then trim_right_go fuel' before else b
  end.
Definition trim_right (b : str) : str := trim_right_go (length b) b.

(** What precedes the body: the root, or a leading [.]. *)
Definition path_prefix (p : str) : str :=
  if starts_with [x2f] p then [x2f]
  else if bool_decide (p = [x2e]) || starts_with [x2e; x2f] p then [x2e] else [].

Definition path_parent (p : str) : option str :=
  let prefix := path_prefix p in
  let body := trim_right (drop (length prefix) p) in
  if length body =? 0 then
    if bool_decide (prefix = [x2e]) then Some [] else None
  else Some (prefix ++ trim_right (last_component body).1).

Definition config_root (path : str) : str :=
  match path_parent path with
  | Some parent => if length parent =? 0 then [x2e] else parent
  | None => [x2e]
  end.

Example config_root_runs :
  map config_root [ #"/etc/commeatus/c.conf"; #"c.conf"; #"./c.conf"; #"/c.conf"; #"a//b/./"; #"../c.conf"; #"/"; #"."]
  = [ #"/etc/commeatus"; #"."; #"."; #"/"; #"a"; #".."; #"."; #"."].
Proof. reflexivity. Qed.

(** ** The parent drops the last component *)
Lemma split_once_Some c s a b : split_once c s = Some (a, b) → s = a ++ c :: b ∧ c ∉ a.
Proof.
  revert a b; induction s as [|x s IH]; intros a b; cbn [split_once]; [done|].
  case_bool_decide as E; [intros [= <- <-]; subst; split; [done|apply not_elem_of_nil]|].
  destruct (split_once c s) as [[a' b']|] eqn:Es; [|done]. intros [= <- <-].
  destruct (IH _ _ eq_refl) as [-> Hc]. split; [done|]. rewrite not_elem_of_cons. auto.
Qed.

Lemma split_once_None c s : split_once c s = None → c ∉ s.
Proof.
  induction s as [|x s IH]; cbn [split_once]; [intros _; apply not_elem_of_nil|].
  case_bool_decide as E; [done|]. destruct (split_once c s) as [[a b]|]; [done|].
  intros _. rewrite not_elem_of_cons. auto.
Qed.

Lemma last_component_cases b :
  let '(before, c) := last_component b in
  (before = [] ∧ c = b ∧ x2f ∉ b) ∨ (b = before ++ x2f :: c ∧ x2f ∉ c).
Proof.
  unfold last_component, rsplit_once. destruct (split_once x2f (reverse b)) as [[x y]|] eqn:E; cbn.
  - apply split_once_Some in E as [E Hx]. right. split; [|by rewrite elem_of_reverse].
    apply (f_equal reverse) in E. rewrite reverse_involutive, reverse_app, reverse_cons in E. by rewrite E, <- app_assoc.
  - apply split_once_None in E. left. by rewrite elem_of_reverse in E.
Qed.

Lemma split_on_snoc c s t : c ∉ t → split_on c (s ++ c :: t) = split_on c s ++ [t].
Proof.
  intros Ht. induction s as [|x s IH]; cbn [split_on app].
  - rewrite bool_decide_true by done. by rewrite split_on_no_sep.
  - rewrite IH. case_bool_decide; [done|]. destruct (split_on c s) as [|p ps] eqn:E; [|done].
    by destruct (split_on_ne_nil c s).
Qed.

Definition keep_components : list str → list str :=
  List.filter (λ c, negb (length c =? 0) && negb (bool_decide (c = [x2e]))).
Definition body_components (b : str) : list str := keep_components (split_on x2f b).

Lemma keep_no_component c : no_component c = true → keep_components [c] = [].
Proof.
  unfold no_component, keep_components. cbn [List.filter]. intros [E|E]%orb_prop; bool_to_prop; subst; done.
Qed.
Lemma keep_component c : no_component c = false → keep_components [c] = [c].
Proof.
  unfold no_component, keep_components. cbn [List.filter]. intros [E1 E2]%orb_false_elim.
  rewrite E2. destruct c; [done|]. done.
Qed.

Lemma body_components_last b :
  body_components b = body_components (last_component b).1 ++ keep_components [(last_component b).2].
Proof.
  unfold body_components. pose proof (last_component_cases b) as H. destruct (last_component b) as [before c].
  destruct H as [(-> & -> & Hb)|[-> Hc]]; cbn [fst snd].
  - by rewrite (split_on_no_sep _ b).
  - rewrite split_on_snoc by done. unfold keep_components. apply List.filter_app.
Qed.

(** [a] is [b] cut at a component boundary. *)
Definition boundary (a b : str) : Prop :=
  ∃ r, b = a ++ r ∧ (a = [] ∨ r = [] ∨ head r = Some x2f).
#[local] Instance boundary_refl : Reflexive boundary.
Proof. intros a. exists []. rewrite app_nil_r. auto. Qed.
#[local] Instance boundary_trans : Transitive boundary.
Proof.
  intros a b c (r & -> & Hr) (r' & -> & Hr'). exists (r ++ r'). rewrite app_assoc. split; [done|].
  destruct r as [|x r]; [|destruct Hr as [?|[?|?]]; auto; done]. rewrite app_nil_r in Hr'. exact Hr'.
Qed.
Lemma last_component_boundary b : boundary (last_component b).1 b.
Proof.
  pose proof (last_component_cases b) as H. destruct (last_component b) as [before c].
  destruct H as [(-> & -> & Hb)|[-> Hc]]; [by exists b; auto|]. exists (x2f :: c). auto.
Qed.
Lemma last_component_shorter b : b ≠ [] → length (last_component b).1 < length b.
Proof.
  intros Hb. pose proof (last_component_cases b) as H. destruct (last_component b) as [before c].
  destruct H as [(-> & -> & _)|[-> _]]; cbn [fst]; [destruct b; [done|cbn; lia]|]. rewrite length_app. cbn. lia.
Qed.

Lemma trim_right_ok b :
  boundary (trim_right b) b ∧ body_components (trim_right b) = body_components b
  ∧ (trim_right b = [] ∨ no_component (last_component (trim_right b)).2 = false).
Proof.
  unfold trim_right. assert (length b ≤ length b) as Hn by lia. revert Hn. generalize (length b) at 2 3 4 5 6 as n.
  intros n. revert b. induction n as [|n IH]; intros b Hn; cbn [trim_right_go].
  - destruct b; [|cbn in Hn; lia]. split_and!; auto. reflexivity.
  - destruct (length b =? 0) eqn:E0; bool_to_prop.
    { destruct b; [|done]. split_and!; auto. reflexivity. }
    destruct (last_component b) as [before c] eqn:El. destruct (no_component c) eqn:Ec.
    + pose proof (last_component_shorter b) as Hs. pose proof (last_component_boundary b) as Hb.
      pose proof (body_components_last b) as Hl. rewrite El in Hs, Hb, Hl. cbn [fst snd] in Hs, Hb, Hl.
      rewrite keep_no_component, app_nil_r in Hl by done.
      destruct (IH before) as (H1 & H2 & H3); [assert (b ≠ []) by (by destruct b); specialize (Hs ltac:(done)); lia|].
      split_and!; [by trans before|congruence|done].
    + split_and!; [reflexivity|done|right; by rewrite El].
Qed.

(** The components of a path made of its prefix and a body. *)
Lemma path_split p : p = path_prefix p ++ drop (length (path_prefix p)) p.
Proof.
  unfold path_prefix, starts_with. destruct (strip_prefix [x2f] p) eqn:E1; [by apply strip_prefix_Some in E1 as ->|].
  case_bool_decide; [by subst|]. destruct (strip_prefix [x2e; x2f] p) eqn:E2; [by apply strip_prefix_Some in E2 as ->|done].
Qed.

Lemma path_components_split p b :
  boundary b (drop (length (path_prefix p)) p) →
  path_components (path_prefix p ++ b) =
  (bool_decide (path_prefix p = [x2f]), (if bool_decide (path_prefix p = [x2e]) then [ [x2e] ] else []) ++ body_components b).
Proof.
  unfold path_prefix, path_components, body_components. intros (r & Hr & Hb). unfold starts_with in *.
  destruct (strip_prefix [x2f] p) as [t|] eqn:E1; [done|]. cbn [orb] in *.
  destruct (bool_decide (p = [x2e]) || _) eqn:E2.
  - assert (b = [] ∨ head b = Some x2f) as Hh.
    { apply orb_prop in E2 as [E2|E2]; [apply bool_decide_eq_true in E2; subst p; cbn in Hr; destruct b; [by left|done]|].
      destruct (strip_prefix [x2e; x2f] p) as [t|] eqn:E3; [|done]. apply strip_prefix_Some in E3 as ->. cbn in Hr.
      destruct b; [by left|]. injection Hr as <- _. by right. }
    destruct b as [|x b]; [done|]. destruct Hh as [?|[= ->]]; [done|]. done.
  - assert (p = b ++ r) as -> by exact Hr. cbn [app]. apply orb_false_elim in E2 as [E2 E3].
    assert (strip_prefix [x2f] b = None) as ->.
    { destruct b as [|x b]; [done|]. cbn [strip_prefix app] in *. by case_bool_decide. }
    destruct (split_on x2f b) as [|c cs] eqn:Es; [by destruct (split_on_ne_nil x2f b)|].
    rewrite bool_decide_false; [done|]. intros ->.
    apply (f_equal (join [x2f])) in Es. rewrite split_on_join in Es.
    assert (b = [x2e] ∨ ∃ t, b = [x2e; x2f] ++ t) as [->|[t ->]].
    { destruct cs; [by left|]. right. eexists. exact Es. }
    + destruct Hb as [?|[->|Hr0]]; [done|by apply bool_decide_eq_false in E2|].
      destruct r; [done|]. injection Hr0 as ->. done.
    + done.
Qed.

(** A path's parent has all its components but the last; only the root and
    the empty path have none. *)
Lemma path_parent_components p :
  match path_parent p with
  | Some q => ∃ c, path_components p = ((path_components q).1, (path_components q).2 ++ [c])
  | None => (path_components p).2 = []
  end.
Proof.
  unfold path_parent. set (prefix := path_prefix p). set (body := drop (length prefix) p).
  assert (path_components p = (bool_decide (prefix = [x2f]),
    (if bool_decide (prefix = [x2e]) then [ [x2e] ] else []) ++ body_components body)) as Hp.
  { rewrite (path_split p) at 1. apply path_components_split. reflexivity. }
  destruct (trim_right_ok body) as (H1 & H2 & H3). rewrite <- H2 in Hp.
  destruct (length (trim_right body) =? 0) eqn:E; bool_to_prop.
  - destruct (trim_right body); [|done]. destruct (bool_decide (prefix = [x2e])) eqn:Ed; rewrite Hp; [|done].
    apply bool_decide_eq_true in Ed. rewrite Ed. by exists [x2e].
  - destruct H3 as [H3|H3]; [by rewrite H3 in E|].
    destruct (trim_right_ok (last_component (trim_right body)).1) as (K1 & K2 & _).
    unfold prefix. rewrite path_components_split.
    2:{ trans (last_component (trim_right body)).1; [done|]. trans (trim_right body); [apply last_component_boundary|done]. }
    exists (last_component (trim_right body)).2. rewrite Hp. cbn [fst snd]. rewrite K2, <- app_assoc. f_equal. f_equal.
    rewrite body_components_last at 1. by rewrite (keep_component _ H3).
Qed.

(** ** Commands *)
Inductive CliError :=
| ExpectedConfig
| CannotStat
| ConfigTooLarge
| CannotRead
| InvalidConfig (e : ConfigError)
| ServerFailed (e : ErrorKind)
| InvalidCommandLine.

(** What is printed, and to which stream. *)
Inductive Output :=
| OutVersion
| OutPlatform (c : PlatformCapabilities)
| OutValid (listeners outbounds blocklists block_entries hosts hosts_records : nat)
| ErrUsage
| ErrBlocklist (path : str) (block allow ignored : nat)
| ErrHosts (path : str) (records : nat)
| ErrOutbounds (count : nat)
| ErrListening (protocol : ListenerProtocol) (address : SocketAddr).

Definition parse_config_argument (args : list str) : result CliError str :=
  match args with
  | [flag; path] => if bool_decide (flag = #"--config") then Ok path else Err ExpectedConfig
  | _ => Err ExpectedConfig
  end.

Section cli.
  Context (fs_len : str → option Z) (fs_read : str → option str).
  Context (valid_server_name : str → bool) (sha224 : bytes → bytes).
  Context {W T U : Type} (to_socket_addrs : W → str → W * option (list SocketAddr)).
  Context (make_resolver : DnsResolverSummary → resolver W).
  Context (bind_tproxy_udp : W → SocketAddr → W * result ErrorKind U).
  Context (bind_tproxy_tcp bind_tcp : W → SocketAddr → W * result ErrorKind T).
  Context (platform_probe : PlatformCapabilities).
  (** The listener threads of a configuration, and the first report. *)
  Context (local_addr : T → result ErrorKind SocketAddr).
  Context (spawn_listener : CompiledConfig (W:=W) → W → BoundListener T U → SocketAddr → W * result ErrorKind unit).
  Context (recv : W → W * option (SocketAddr * result ErrorKind unit)).

Definition read_config (path : str) : result CliError str :=
  len ← ok_or (fs_len path) CannotStat;
  if (MAX_CONFIG_BYTES <? len)%Z then Err ConfigTooLarge
  else ok_or (fs_read path) CannotRead.

(** The first three steps of [check] and of [run]. *)
Definition load_config (args : list str) : result CliError (CompiledConfig (W:=W)) :=
  path ← parse_config_argument args;
  text ← read_config path;
  map_err InvalidConfig
    (parse_config_at fs_len fs_read valid_server_name sha224 to_socket_addrs make_resolver text (config_root path)).

Definition check_report (c : CompiledConfig (W:=W)) : Output :=
  OutValid (length (c_listeners c)) (registry_len (c_outbounds c)) (length (c_blocklists c))
    (sum_list (map (λ l, accepted_block (b_stats l) + accepted_allow (b_stats l)) (c_blocklists c)))
    (length (c_hosts c)) (sum_list (map h_records (c_hosts c))).

Definition run_report (c : CompiledConfig (W:=W)) : list Output :=
  map (λ l, ErrBlocklist (b_path l) (accepted_block (b_stats l)) (accepted_allow (b_stats l)) (ignored (b_stats l)))
    (c_blocklists c)
  ++ map (λ h, ErrHosts (h_path h) (h_records h)) (c_hosts c)
  ++ [ErrOutbounds (registry_len (c_outbounds c))]
  ++ map (λ l, ErrListening (l_protocol l) (l_address l)) (c_listeners c).

(** [Server::bind] and [Server::run]. *)
Definition serve (w : W) (c : CompiledConfig (W:=W)) : W * result ErrorKind unit :=
  match bind bind_tproxy_udp bind_tproxy_tcp bind_tcp w (c_listeners c) with
  | (w, Ok bound) => run local_addr (spawn_listener c) recv w bound
  | (w, Err e) => (w, Err e)
  | (w, Panic) => (w, Panic)
  end.

Definition run_cli (w : W) (args : list str) : W * list Output * result CliError unit :=
  match args with
  | command :: rest =>
      if bool_decide (command = #"version") && (length args =? 1) then (w, [OutVersion], Ok tt)
      else if bool_decide (command = #"platform") && (length args =? 1) then (w, [OutPlatform platform_probe], Ok tt)
      else if bool_decide (command = #"check") then
        match load_config rest with
        | Ok c => (w, [check_report c], Ok tt)
        | Err e => (w, [], Err e)
        | Panic => (w, [], Panic)
        end
      else if bool_decide (command = #"run") then
        match load_config rest with
        | Ok c => let '(w, r) := serve w c in (w, run_report c, map_err ServerFailed r)
        | Err e => (w, [], Err e)
        | Panic => (w, [], Panic)
        end
      else if bool_decide (command = #"help") || bool_decide (command = #"--help") || bool_decide (command = #"-h")
      then (w, [ErrUsage], Ok tt)
      else (w, [ErrUsage], Err InvalidCommandLine)
  | [] => (w, [ErrUsage], Err InvalidCommandLine)
  end.

(** A server that was started never ends with success. *)
Lemma serve_never_ok w c : (serve w c).2 ≠ Ok tt.
Proof.
  unfold serve. destruct (bind _ _ _ w (c_listeners c)) as [w1 [b|e|]]; [|done..]. apply run_never_ok.
Qed.

(** [check] touches nothing and succeeds exactly when [run] would go on to
    bind its listeners; when the configuration does not load, both report the
    same error and [run] binds nothing. *)
Lemma check_run_agree w rest :
  let '(wc, _, rc) := run_cli w (#"check" :: rest) in
  let '(wr, _, rr) := run_cli w (#"run" :: rest) in
  wc = w ∧ rr ≠ Ok tt
  ∧ match load_config rest with
    | Ok c => rc = Ok tt ∧ (wr, rr) = ((serve w c).1, map_err ServerFailed (serve w c).2)
    | Err e => rc = Err e ∧ rr = Err e ∧ wr = w
    | Panic => rc = Panic ∧ rr = Panic ∧ wr = w
    end.
Proof.
  unfold run_cli. rewrite !(bool_decide_false (_ = _)) by done. cbn [andb].
  rewrite !(bool_decide_true (_ = _)) by done. rewrite !(bool_decide_false (#"run" = _)) by done.
  destruct (load_config rest) as [c|e|]; [|by split_and!..].
  pose proof (serve_never_ok w c) as Hs. destruct (serve w c) as [w' r]. cbn in Hs |- *. split_and!; try done.
  by destruct r as [[]|?|].
Qed.
End cli.

(** ** The printed text *)
Definition platform_name (p : PlatformKind) : str :=
  match p with Android => #"android" | Linux => #"linux" | OtherPlatform => #"other" end.
Definition support_name (l : SupportLevel) : str :=
  match l with Available => #"available" | Unavailable => #"unavailable" | Unknown => #"unknown" end.
Definition print_platform (c : PlatformCapabilities) : list str :=
  [ #"platform=" ++ platform_name (platform c); #"tun=" ++ support_name (tun c); #"tproxy=" ++ support_name (tproxy c);
    #"ebpf=" ++ support_name (ebpf c); #"btf=" ++ support_name (btf c); #"bpffs=" ++ support_name (bpffs c)].

#[export] Instance platform_name_inj : Inj (=) (=) platform_name.
Proof. by intros [] []. Qed.
#[export] Instance support_name_inj : Inj (=) (=) support_name.
Proof. by intros [] []. Qed.

(** The report of [platform] tells all capabilities apart. *)
Lemma print_platform_inj c d : print_platform c = print_platform d → c = d.
Proof.
  unfold print_platform. intros E. injection E as E1 E2 E3 E4 E5 E6. destruct c, d. cbn in *.
  apply (inj platform_name) in E1. apply (inj support_name) in E2, E3, E4, E5, E6. by subst.
Qed.

Section text.
  (** [env!("CARGO_PKG_VERSION")] *)
  Context (VERSION : str).

Definition print_usage : list str :=
  [ #"Commeatus " ++ VERSION; []; #"Usage:"; #"  commeatus run --config <path>"; #"  commeatus check --config <path>";
    #"  commeatus platform"; #"  commeatus version"; []].

Definition show_nat (n : nat) : str := show_dec (Z.of_nat n).
(** [Debug] of a protocol is its variant's name. *)
Definition debug_protocol (p : ListenerProtocol) : str :=
  match p with
  | LSocks5 => #"Socks5" | LHttpConnect => #"HttpConnect" | LTproxyTcp => #"TproxyTcp" | LTproxyUdp => #"TproxyUdp"
  end.

(** The lines of an output: on standard output, or [true] for standard error. *)
Definition render (o : Output) : bool * list str :=
  match o with
  | OutVersion => (false, [ #"commeatus " ++ VERSION])
  | OutPlatform c => (false, print_platform c)
  | OutValid listeners outbounds blocklists block_entries hosts hosts_records =>
      (false,
       [ #"configuration valid: " ++ show_nat listeners ++ #" listener(s), " ++ show_nat outbounds
         ++ #" outbound endpoint(s), " ++ show_nat blocklists ++ #" blocklist(s), " ++ show_nat block_entries
         ++ #" compiled blocklist entry/entries, " ++ show_nat hosts ++ #" hosts file(s), " ++ show_nat hosts_records
         ++ #" hosts record name(s)"])
  | ErrUsage => (true, print_usage)
  | ErrBlocklist path block allow ignored =>
      (true, [ #"commeatus: blocklist " ++ path ++ #" compiled: " ++ show_nat block ++ #" block, " ++ show_nat allow
               ++ #" allow, " ++ show_nat ignored ++ #" ignored line(s)"])
  | ErrHosts path records =>
      (true, [ #"commeatus: DNS hosts " ++ path ++ #" compiled: " ++ show_nat records ++ #" record name(s)"])
  | ErrOutbounds count => (true, [ #"commeatus: " ++ show_nat count ++ #" named proxy outbound endpoint(s) compiled"])
  | ErrListening protocol address =>
      (true, [ #"commeatus: listening " ++ debug_protocol protocol ++ #" on " ++ show_socket_addr address])
  end.
End text.

Example render_runs :
  render [] (ErrListening LSocks5 (SockV6 1 1080 0 0)) = (true, [ #"commeatus: listening Socks5 on [::1]:1080"])
  ∧ render (#"0.1.0") OutVersion = (false, [ #"commeatus 0.1.0"]).
Proof. split; vm_compute; reflexivity. Qed.
