(* ===== verification/Sha224.v ===== *)
(** * SHA-224

    The digest behind a Trojan verifier comes from a library and is a
    parameter of the model. This file gives the standard's function (FIPS
    180-4) as the instance with which the test vectors are run, and shows that
    it satisfies the one fact the model relies on: a digest is 28 bytes. *)

From S2P Require Import Prelude.

Local Open Scope Z_scope.

Definition word_bits : Z := 2 ^ 32.
Definition add32 (a b : Z) : Z := (a + b) mod word_bits.
Definition rotr (n x : Z) : Z := Z.lor (Z.shiftr x n) (Z.shiftl x (32 - n) mod word_bits).
Definition not32 (x : Z) : Z := word_bits - 1 - x.

Definition Ch (x y z : Z) : Z := Z.lxor (Z.land x y) (Z.land (not32 x) z).
Definition Maj (x y z : Z) : Z := Z.lxor (Z.lxor (Z.land x y) (Z.land x z)) (Z.land y z).
Definition Sigma0 (x : Z) : Z := Z.lxor (Z.lxor (rotr 2 x) (rotr 13 x)) (rotr 22 x).
Definition Sigma1 (x : Z) : Z := Z.lxor (Z.lxor (rotr 6 x) (rotr 11 x)) (rotr 25 x).
Definition sigma0 (x : Z) : Z := Z.lxor (Z.lxor (rotr 7 x) (rotr 18 x)) (Z.shiftr x 3).
Definition sigma1 (x : Z) : Z := Z.lxor (Z.lxor (rotr 17 x) (rotr 19 x)) (Z.shiftr x 10).

(** The constants are digits of roots of the first 64 primes: the first 32
    bits after the point of the cube roots, and for the initial value the
    second 32 bits of the square roots of the 9th to the 16th. *)
Definition is_prime (n : nat) : bool :=
  forallb (λ d, negb (Nat.modulo n d =? 0)%nat) (List.seq 2 (Nat.sqrt n - 1)).
Definition primes : list Z := Eval vm_compute in Z.of_nat <$> List.filter is_prime (List.seq 2 310).

(** The largest number below [2 ^ bits] above [acc] whose cube is at most [x],
    one bit at a time. *)
Fixpoint cube_root (bits : nat) (acc x : Z) : Z :=
  match bits with
  | O => acc
  | S bits =>
      let next := acc + 2 ^ Z.of_nat bits in
      cube_root bits (if next ^ 3 <=? x then next else acc) x
  end.

Definition round_constants : list Z :=
  Eval vm_compute in (λ q, cube_root 36 0 (q * 2 ^ 96) mod word_bits) <$> primes.
Definition initial_hash : list Z :=
  Eval vm_compute in (λ q, Z.sqrt (q * 2 ^ 128) mod word_bits) <$> take 8 (drop 8 primes).

(** The message with its padding: a 1 bit, zeros, and the length in bits. *)
Definition pad (message : bytes) : bytes :=
  let n := length message in
  message ++ [x80] ++ replicate (Z.to_nat ((55 - Z.of_nat n) mod 64)) x00 ++ be_bytes 8 (8 * Z.of_nat n).

(** The message schedule, extended a word at a time; the newest word first. *)
Fixpoint schedule (n : nat) (w : list Z) : list Z :=
  match n with
  | O => w
  | S n =>
      let next := add32 (add32 (sigma1 (nth 1 w 0)) (nth 6 w 0)) (add32 (sigma0 (nth 14 w 0)) (nth 15 w 0)) in
      schedule n (next :: w)
  end.

Definition round (h : list Z) (kw : Z * Z) : list Z :=
  match h with
  | [a; b; c; d; e; f; g; hh] =>
      let t1 := add32 (add32 (add32 hh (Sigma1 e)) (Ch e f g)) (add32 kw.1 kw.2) in
      let t2 := add32 (Sigma0 a) (Maj a b c) in
      [add32 t1 t2; a; b; c; add32 d t1; e; f; g]
  | _ => h
  end.

Fixpoint words (n : nat) (b : bytes) : list Z :=
  match n with O => [] | S n => be_value (take 4 b) :: words n (drop 4 b) end.

Definition compress (h : list Z) (block : bytes) : list Z :=
  let w := rev (schedule 48 (rev (words 16 block))) in
  zip_with add32 h (foldl round h (zip round_constants w)).

Fixpoint blocks (n : nat) (b : bytes) : list bytes :=
  match n with O => [] | S n => take 64 b :: blocks n (drop 64 b) end.

Definition sha224 (message : bytes) : bytes :=
  let padded := pad message in
  let h := foldl compress initial_hash (blocks (Nat.div (length padded) 64) padded) in
  take 28 (mjoin (be_bytes 4 <$> h)).

(** ** A digest has 28 bytes *)
Lemma length_round h kw : length (round h kw) = length h.
Proof. by do 9 (destruct h as [|? h]; [done|]). Qed.

Lemma length_rounds kws h : length (foldl round h kws) = length h.
Proof. revert h; induction kws as [|kw kws IH]; intros h; [done|]. cbn. by rewrite IH, length_round. Qed.

Lemma length_compressed bs h : length (foldl compress h bs) = length h.
Proof.
  revert h; induction bs as [|b bs IH]; intros h; [done|]. cbn [foldl]. rewrite IH.
  unfold compress. rewrite length_zip_with, length_rounds. lia.
Qed.

Lemma length_sha224 message : length (sha224 message) = 28%nat.
Proof.
  unfold sha224. rewrite length_take.
  assert (∀ h, length (mjoin (be_bytes 4 <$> h)) = (4 * length h)%nat) as E.
  { induction h as [|x h IH]; [done|]. change (mjoin (be_bytes 4 <$> x :: h)) with (be_bytes 4 x ++ mjoin (be_bytes 4 <$> h)).
    rewrite length_app, IH, length_be_bytes. cbn [length]. lia. }
  rewrite E, length_compressed. done.
Qed.
