(* ===== verification/CoreTests.v ===== *)
(** * The unit tests of the core and compat crates

    The repository's own tests, translated assertion by assertion and run on
    the model. A test that would pass in Rust evaluates to [true]; an [unwrap]
    of an error, a failed assertion or a panic makes it [false]. They tie the
    definitions to the behaviour the authors recorded. *)

From S2P Require Import Prelude RustStr RustNet Flow Cidr DomainSet Policy Blocklist.

(** ** The vocabulary of the tests *)

(** [assert_eq!] *)
Definition assert_eq {A} `{EqDecision A} (x y : A) : bool := bool_decide (x = y).
(** [unwrap], and then the rest of the test. *)
Definition unwrap {E A} (r : result E A) (k : A → bool) : bool :=
  match r with Ok a => k a | _ => false end.
Definition unwrap_opt {A} (o : option A) (k : A → bool) : bool :=
  match o with Some a => k a | None => false end.
(** [is_err] *)
Definition is_err {E A} (r : result E A) : bool := match r with Err _ => true | _ => false end.
(** [unwrap_err], and then the rest of the test. *)
Definition unwrap_err {E A} (r : result E A) (k : E → bool) : bool :=
  match r with Err e => k e | _ => false end.

(** [Ipv4Addr::new] *)
Definition Ipv4Addr_new (a b c d : Z) : Z := (((a * 256 + b) * 256 + c) * 256 + d)%Z.

(** A text of several lines. *)
Definition text_lines (ls : list str) : str := concat (map (λ l, l ++ [x0a]) ls).

(** ** [core/src/cidr.rs] *)

(** [cidr.contains(address.parse().unwrap())] *)
Definition cidr_has (cidr : IpCidr) (address : str) (expected : bool) : bool :=
  unwrap_opt (parse_ip address) (λ a, Bool.eqb (cidr_contains cidr a) expected).

Definition test_ipv4_membership_and_normalization : bool :=
  unwrap (cidr_from_str (#"10.42.99.7/16")) (λ cidr,
    cidr_has cidr (#"10.42.0.1") true
    && cidr_has cidr (#"10.42.255.254") true
    && cidr_has cidr (#"10.43.0.1") false).

Definition test_zero_and_host_prefixes_work : bool :=
  unwrap (cidr_from_str (#"0.0.0.0/0")) (λ any_v4,
    cidr_has any_v4 (#"203.0.113.10") true
    && unwrap (cidr_from_str (#"192.0.2.1/32")) (λ host_v4,
         cidr_has host_v4 (#"192.0.2.1") true && cidr_has host_v4 (#"192.0.2.2") false)).

Definition test_ipv6_membership_works : bool :=
  unwrap (cidr_from_str (#"2001:db8:abcd::1/48")) (λ cidr,
    cidr_has cidr (#"2001:db8:abcd::42") true
    && cidr_has cidr (#"2001:db8:abce::1") false
    && unwrap (cidr_from_str (#"2001:db8::1/128")) (λ host, cidr_has host (#"2001:db8::1") true)).

Definition test_address_families_do_not_cross_match : bool :=
  unwrap (cidr_from_str (#"0.0.0.0/0")) (λ cidr, cidr_has cidr (#"2001:db8::1") false).

Definition test_invalid_prefixes_are_rejected : bool :=
  assert_eq (cidr_from_str (#"192.0.2.1/33")) (Err PrefixOutOfRange)
  && assert_eq (cidr_from_str (#"2001:db8::1/129")) (Err PrefixOutOfRange).

(** ** [core/src/domain_set.rs] *)
Definition test_suffix_matching_uses_label_boundaries : bool :=
  unwrap (DomainSet_compile [] [ #"example.com"]) (λ set,
    DomainSet_matches set (#"example.com")
    && DomainSet_matches set (#"api.example.com")
    && negb (DomainSet_matches set (#"badexample.com"))).

Definition test_compile_normalizes_sorts_and_deduplicates : bool :=
  unwrap (DomainSet_compile [ #"EXAMPLE.COM."; #"example.com"] [ #"Ads.Example"; #"ads.example"]) (λ set,
    assert_eq (length (ds_exact set)) 1
    && assert_eq (length (ds_suffixes set)) 1
    && DomainSet_matches set (#"example.com")
    && DomainSet_matches set (#"x.ads.example")).

Definition test_allow_exception_overrides_only_filter_not_route : bool :=
  unwrap (DomainSet_compile [] [ #"example.com"]) (λ blocked,
  unwrap (DomainSet_compile [] [ #"api.example.com"]) (λ allowed,
    let filter := {| df_blocked := blocked; df_allowed := allowed |} in
    DomainFilter_is_blocked filter (#"ads.example.com")
    && negb (DomainFilter_is_blocked filter (#"api.example.com")))).

(** ** [core/src/plan.rs] *)
Definition test_endpoint_id_rejects_config_like_or_unbounded_values : bool :=
  is_ok (EndpointId_new (#"edge-jp_01"))
  && is_err (EndpointId_new (#""))
  && is_err (EndpointId_new (#"socks5://127.0.0.1:1080"))
  && is_err (EndpointId_new (replicate (MAX_ENDPOINT_ID_LENGTH + 1) x78)).

(** ** [core/src/policy.rs] *)
Definition domain_flow (domain : str) (uid : Z) : FlowContext :=
  FlowContext_new 1 {| source_uid := Some uid; source_package := None |}
    {| dest_host := Domain domain; dest_port := 443 |} Tcp NetworkContext_default.
Definition ip_flow (address : IpAddr) : FlowContext :=
  FlowContext_new 2 SourceContext_default {| dest_host := Ip address; dest_port := 443 |} Tcp NetworkContext_default.

Definition test_suffix_matching_respects_label_boundaries : bool :=
  let matcher := MDomainSuffix (#"example.com") in
  matcher_matches matcher (domain_flow (#"example.com") 1)
  && matcher_matches matcher (domain_flow (#"api.example.com") 1)
  && negb (matcher_matches matcher (domain_flow (#"badexample.com") 1)).

Definition test_compiled_domain_filter_honors_exception : bool :=
  unwrap (DomainSet_compile [] [ #"example.com"]) (λ blocked,
  unwrap (DomainSet_compile [] [ #"api.example.com"]) (λ allowed,
    let matcher := MDomainFilter {| df_blocked := blocked; df_allowed := allowed |} in
    matcher_matches matcher (domain_flow (#"ads.example.com") 1)
    && negb (matcher_matches matcher (domain_flow (#"api.example.com") 1)))).

Definition test_hard_policy_outranks_adaptive_policy : bool :=
  let engine := PolicyEngine_new
    [{| rule_id := 1; rule_tier := Adaptive; rule_matcher := MAny; rule_action := PRoute Direct |};
     {| rule_id := 2; rule_tier := UserHard; rule_matcher := MUid 10042; rule_action := PReject RejectPolicy |}]
    (PRoute Direct) in
  let decision := PolicyEngine_decide engine (domain_flow (#"example.com") 10042) in
  assert_eq (decision_rule_id decision) (Some 2%Z)
  && match decision_tier decision with UserHard => true | _ => false end
  && match decision_action decision with PReject RejectPolicy => true | _ => false end.

Definition test_first_match_order_is_preserved_within_a_tier : bool :=
  let engine := PolicyEngine_new
    [{| rule_id := 10; rule_tier := UserHard; rule_matcher := MUid 7; rule_action := PReject RejectPolicy |};
     {| rule_id := 11; rule_tier := UserHard; rule_matcher := MAny; rule_action := PRoute Direct |}]
    (PRoute Direct) in
  assert_eq (decision_rule_id (PolicyEngine_decide engine (domain_flow (#"example.com") 7))) (Some 10%Z).

Definition test_ip_match_does_not_match_domain_identity : bool :=
  let matcher := MIp (V4 (Ipv4Addr_new 1 1 1 1)) in
  negb (matcher_matches matcher (domain_flow (#"one.one.one.one") 1)).

Definition test_cidr_matches_only_ip_destination_identity : bool :=
  unwrap (cidr_from_str (#"10.0.0.0/8")) (λ cidr,
  unwrap_opt (parse_ip (#"10.42.0.1")) (λ inside,
  unwrap_opt (parse_ip (#"11.0.0.1")) (λ outside,
    let matcher := MCidr cidr in
    matcher_matches matcher (ip_flow inside)
    && negb (matcher_matches matcher (ip_flow outside))
    && negb (matcher_matches matcher (domain_flow (#"internal.example") 1))))).

(** ** [core/src/runtime.rs] *)
Definition app_flow (uid : Z) : FlowContext :=
  FlowContext_new 7 {| source_uid := Some uid; source_package := Some (#"org.example.app") |}
    {| dest_host := Domain (#"example.com"); dest_port := 443 |} Tcp NetworkContext_default.

Definition test_default_direct_becomes_route_plan : bool :=
  let runtime := Runtime_new (PolicyEngine_new [] (PRoute Direct)) in
  let plan := Runtime_plan runtime (app_flow 10001) in
  assert_eq (plan_flow_id plan) 7%Z
  && assert_eq (plan_matched_rule plan) None
  && assert_eq (plan_execution plan) (Route Direct).

Definition test_reject_remains_an_action_not_an_endpoint : bool :=
  let runtime := Runtime_new (PolicyEngine_new
    [{| rule_id := 9; rule_tier := UserHard; rule_matcher := MUid 10001; rule_action := PReject RejectPolicy |}]
    (PRoute Direct)) in
  let plan := Runtime_plan runtime (app_flow 10001) in
  assert_eq (plan_matched_rule plan) (Some 9%Z)
  && assert_eq (plan_execution plan) (Reject RejectPolicy).

(** ** [compat/src/lib.rs] *)
Definition test_compiles_hosts_plain_and_adblock_domains : bool :=
  let list := text_lines [ #""; #"            # comment"; #"            0.0.0.0 ads.example.com";
    #"            tracker.example"; #"            ||telemetry.example^";
    #"            @@||api.telemetry.example^"] ++ #"        " in
  unwrap (compile_blocklist list) (λ compiled,
    DomainFilter_is_blocked (cb_filter compiled) (#"ads.example.com")
    && DomainFilter_is_blocked (cb_filter compiled) (#"tracker.example")
    && DomainFilter_is_blocked (cb_filter compiled) (#"x.telemetry.example")
    && negb (DomainFilter_is_blocked (cb_filter compiled) (#"api.telemetry.example"))
    && assert_eq (accepted_block (cb_stats compiled)) 3
    && assert_eq (accepted_allow (cb_stats compiled)) 1).

Definition test_adblock_suffix_respects_dns_label_boundary : bool :=
  unwrap (compile_blocklist (text_lines [ #"||example.com^"])) (λ compiled,
    DomainFilter_is_blocked (cb_filter compiled) (#"a.example.com")
    && negb (DomainFilter_is_blocked (cb_filter compiled) (#"badexample.com"))).

Definition test_rejects_ambiguous_multi_hostname_hosts_line : bool :=
  is_err (compile_blocklist (text_lines [ #"0.0.0.0 a.example b.example"])).

Definition test_byte_limit_is_enforced_before_parsing : bool :=
  let oversized := replicate (Z.to_nat (MAX_BLOCKLIST_BYTES + 1)) x23 in
  is_err (compile_blocklist oversized).

(** ** All of them *)
Definition core_tests : list bool :=
  [test_ipv4_membership_and_normalization; test_zero_and_host_prefixes_work; test_ipv6_membership_works;
   test_address_families_do_not_cross_match; test_invalid_prefixes_are_rejected;
   test_suffix_matching_uses_label_boundaries; test_compile_normalizes_sorts_and_deduplicates;
   test_allow_exception_overrides_only_filter_not_route;
   test_endpoint_id_rejects_config_like_or_unbounded_values;
   test_suffix_matching_respects_label_boundaries; test_compiled_domain_filter_honors_exception;
   test_hard_policy_outranks_adaptive_policy; test_first_match_order_is_preserved_within_a_tier;
   test_ip_match_does_not_match_domain_identity; test_cidr_matches_only_ip_destination_identity;
   test_default_direct_becomes_route_plan; test_reject_remains_an_action_not_an_endpoint;
   test_compiles_hosts_plain_and_adblock_domains; test_adblock_suffix_respects_dns_label_boundary;
   test_rejects_ambiguous_multi_hostname_hosts_line; test_byte_limit_is_enforced_before_parsing].

(** The eight-megabyte text is not evaluated: its length decides. *)
Lemma byte_limit_test_passes : test_byte_limit_is_enforced_before_parsing = true.
Proof.
  unfold test_byte_limit_is_enforced_before_parsing, compile_blocklist. rewrite length_replicate, Z2Nat.id by done.
  by rewrite (proj2 (Z.ltb_lt _ _)) by lia.
Qed.

(** Run every test of a list. *)
Ltac run_tests := repeat apply Forall_cons_2; try exact (Forall_nil_2 _).

Lemma core_tests_pass : Forall (eq true) core_tests.
Proof.
  unfold core_tests. run_tests;
    lazymatch goal with
    | |- _ = test_byte_limit_is_enforced_before_parsing => exact (eq_sym byte_limit_test_passes)
    | |- _ => vm_compute; reflexivity
    end.
Qed.
