(* ===== verification/DnsTests.v ===== *)
(** * The unit tests of the dns crate

    Engine, wire format and DNS-over-TLS tests, with the test doubles they use
    (static resolvers that count their calls, scripted DNS servers). *)

From S2P Require Import Prelude RustStr RustNet DomainSet DnsBase DnsWire DnsCache DnsEngine Dot CoreTests.

Definition ip (text : str) (k : IpAddr → bool) : bool := unwrap_opt (parse_ip text) k.

(** ** Static resolvers ([dns/src/lib.rs]) *)

(** The world is the call counter of each resolver. *)
Definition StaticResolver (i : nat) (result : result DnsError DnsAnswer) : resolver (list nat) := λ calls _,
  (<[i := S (default 0 (calls !! i))]> calls, result).
Definition StaticResolver_success_with_ttl (i : nat) (address : str) (ttl : option Z) : resolver (list nat) :=
  StaticResolver i (a ← ok_or (parse_ip address) (DnsError_new InvalidName); DnsAnswer_new [a] ttl).
Definition StaticResolver_success (i : nat) (address : str) : resolver (list nat) :=
  StaticResolver_success_with_ttl i address None.
Definition StaticResolver_failure (i : nat) : resolver (list nat) := StaticResolver i (Err (DnsError_new ResolverFailure)).

(** A resolution of an engine under test, and then the rest of the test. *)
Definition resolving (e : DnsEngine (list nat)) (calls : list nat) (now : Z) (name : str)
    (k : DnsEngine (list nat) → list nat → list IpAddr → bool) : bool :=
  let '(e, calls, r) := DnsEngine_resolve map_to_list e calls now name in unwrap r (k e calls).

Definition test_hosts_parser_supports_hosts_and_domain_only_lines : bool :=
  unwrap (HostsTable_parse (text_lines [ #"127.0.0.1 localhost"; #"0.0.0.0 ads.example tracker.example # block"; #"::1 ip6.local"]))
    (λ table, ip (#"0.0.0.0") (λ a,
      assert_eq (HostsTable_resolve table (#"ads.example")) (Some [a])
      && assert_eq (HostsTable_len table) 4)).

Definition test_invalid_host_line_fails_closed : bool :=
  unwrap_err (HostsTable_parse (text_lines [ #"not-an-ip ads.example"])) (λ error, assert_eq (kind error) HostsParse).

Definition test_hosts_precede_resolvers : bool :=
  unwrap (HostsTable_parse (text_lines [ #"203.0.113.9 service.example"])) (λ hosts,
  unwrap (DnsEngine_with_resolvers hosts [StaticResolver_success 0 (#"198.51.100.1")] 16 (from_secs 60)) (λ engine,
  ip (#"203.0.113.9") (λ a,
  resolving engine [0] 0 (#"service.example") (λ engine calls answer,
    assert_eq answer [a] && assert_eq (calls !! 0) (Some 0) && assert_eq (hosts_hits (stats engine)) 1%Z)))).

Definition test_cache_precedes_resolver_after_first_lookup : bool :=
  unwrap (DnsEngine_with_resolvers HostsTable_default [StaticResolver_success 0 (#"198.51.100.7")] 16 (from_secs 60)) (λ engine,
  ip (#"198.51.100.7") (λ a,
  resolving engine [0] 0 (#"cache.example") (λ engine calls answer, assert_eq answer [a] &&
  resolving engine calls 1 (#"cache.example") (λ engine calls answer,
    assert_eq answer [a] && assert_eq (calls !! 0) (Some 1) && assert_eq (cache_hits (stats engine)) 1%Z)))).

Definition test_resolver_zero_ttl_is_not_cached : bool :=
  unwrap (DnsEngine_with_resolvers HostsTable_default [StaticResolver_success_with_ttl 0 (#"198.51.100.9") (Some 0%Z)]
    16 (from_secs 60)) (λ engine,
  resolving engine [0] 0 (#"volatile.example") (λ engine calls answer, assert_eq (length answer) 1 &&
  resolving engine calls 1 (#"volatile.example") (λ engine calls answer,
    assert_eq (length answer) 1 && assert_eq (calls !! 0) (Some 2) && assert_eq (cache_hits (stats engine)) 0%Z))).

Definition test_resolver_failure_falls_through_to_next_resolver : bool :=
  unwrap (DnsEngine_with_resolvers HostsTable_default [StaticResolver_failure 0; StaticResolver_success 1 (#"192.0.2.44")]
    16 (from_secs 60)) (λ engine,
  ip (#"192.0.2.44") (λ a,
  resolving engine [0; 0] 0 (#"fallback.example") (λ engine calls answer,
    assert_eq answer [a] && assert_eq (calls !! 0) (Some 1) && assert_eq (calls !! 1) (Some 1)
    && assert_eq (resolver_failures (stats engine)) 1%Z))).

Definition test_cache_configuration_is_bounded : bool :=
  let system := SystemResolver_resolve (λ w _, (w, None)) : resolver unit in
  is_err (DnsEngine_with_resolvers HostsTable_default [system] 0 (from_secs 60))
  && is_err (DnsEngine_with_resolvers HostsTable_default [system] 1 (MAX_CACHE_TTL + from_secs 1)).

(** ** Messages ([dns/src/wire.rs]) *)
Definition question (name : str) (record_type : AddressRecordType) (k : bytes → bool) : bool :=
  unwrap (DnsQuery_new name) (λ query,
  unwrap (encode_address_query 0x1234 query record_type) (λ encoded, k (drop DNS_HEADER_BYTES encoded))).

Definition response_header (id answer_count rcode : Z) : bytes :=
  push_u16 (push_u16 (push_u16 (push_u16 (push_u16 (push_u16 [] id)
    (Z.lor (Z.lor FLAG_QR FLAG_RD) (Z.land rcode RCODE_MASK))) 1) answer_count) 0) 0.

Definition push_pointer_name (output : bytes) (offset : Z) : bytes :=
  output ++ [z2b (Z.lor 0xc0 (Z.land (Z.shiftr offset 8) 0x3f)); z2b offset].

Definition push_rr_header (output : bytes) (rr_type ttl rdlength : Z) : bytes :=
  push_u16 (push_u16 (push_u16 output rr_type) CLASS_IN ++ be_bytes 4 ttl) rdlength.

(** [b"\x03api\x07example\x00"] *)
Definition label (l : str) : bytes := z2b (Z.of_nat (length l)) :: l.

(** The response under test: header, question, and what [rest] appends. *)
Definition responding (name : str) (ty : AddressRecordType) (header : bytes) (rest : bytes → bytes)
    (k : result DnsError DnsAnswer → bool) : bool :=
  unwrap (DnsQuery_new name) (λ query,
  question name ty (λ q, k (parse_address_response 0x1234 query ty (rest (header ++ q))))).

Definition test_query_encoding_preserves_id_name_and_family : bool :=
  unwrap (DnsQuery_new (#"Api.Example.")) (λ query,
  unwrap (encode_address_query 0xbeef query Aaaa) (λ message,
    assert_eq (take 2 message) [xbe; xef]
    && assert_eq (read_u16 message 2) (Ok FLAG_RD)
    && assert_eq (read_u16 message 4) (Ok 1%Z)
    && assert_eq (slice_get message 12 25) (Some (label (#"api") ++ label (#"example") ++ [x00]))
    && assert_eq (read_u16 message 25) (Ok TYPE_AAAA)
    && assert_eq (read_u16 message 27) (Ok CLASS_IN))).

Definition test_compressed_a_response_preserves_ttl : bool :=
  responding (#"a.example") A (response_header 0x1234 1 0)
    (λ response, push_rr_header (push_pointer_name response 12) TYPE_A 90 4 ++ map z2b [203; 0; 113; 9]%Z)
    (λ r, unwrap r (λ answer,
      assert_eq (addresses answer) [V4 (Ipv4Addr_new 203 0 113 9)] && assert_eq (ttl answer) (Some (from_secs 90)))).

Definition test_aaaa_response_is_supported : bool :=
  responding (#"v6.example") Aaaa (response_header 0x1234 1 0)
    (λ response, push_rr_header (push_pointer_name response 12) TYPE_AAAA 120 16 ++ v6_octets 1)
    (λ r, unwrap r (λ answer,
      assert_eq (addresses answer) [V6 1] && assert_eq (ttl answer) (Some (from_secs 120)))).

Definition test_cname_chain_bounds_effective_ttl : bool :=
  let cname_target := label (#"target") ++ label (#"example") ++ [x00] in
  responding (#"alias.example") A (response_header 0x1234 2 0)
    (λ response,
      let response := push_pointer_name response 12 in
      let response := push_rr_header response TYPE_CNAME 30 (Z.of_nat (length cname_target)) ++ cname_target in
      push_rr_header (response ++ cname_target) TYPE_A 90 4 ++ map z2b [192; 0; 2; 44]%Z)
    (λ r, unwrap r (λ answer,
      assert_eq (addresses answer) [V4 (Ipv4Addr_new 192 0 2 44)] && assert_eq (ttl answer) (Some (from_secs 30)))).

Definition test_unrelated_address_record_is_not_accepted : bool :=
  responding (#"wanted.example") A (response_header 0x1234 1 0)
    (λ response, push_rr_header (response ++ label (#"unrelated") ++ label (#"example") ++ [x00]) TYPE_A 60 4
                 ++ map z2b [192; 0; 2; 1]%Z)
    (λ r, unwrap_err r (λ error, assert_eq (kind error) NoRecords)).

Definition test_zero_ttl_is_preserved_for_cache_policy : bool :=
  responding (#"volatile.example") A (response_header 0x1234 1 0)
    (λ response, push_rr_header (push_pointer_name response 12) TYPE_A 0 4 ++ map z2b [198; 51; 100; 8]%Z)
    (λ r, unwrap r (λ answer, assert_eq (ttl answer) (Some 0%Z))).

Definition test_nxdomain_is_no_records_not_transport_failure : bool :=
  responding (#"missing.example") A (response_header 0x1234 0 3) (λ response, response)
    (λ r, unwrap_err r (λ error, assert_eq (kind error) NoRecords)).

Definition test_transaction_id_mismatch_is_invalid_response : bool :=
  responding (#"id.example") A (response_header 0x9999 0 0) (λ response, response)
    (λ r, unwrap_err r (λ error, assert_eq (kind error) InvalidResponse)).

Definition test_compression_pointer_loop_is_rejected : bool :=
  responding (#"loop.example") A (response_header 0x1234 1 0)
    (λ response, push_rr_header (push_pointer_name response (Z.of_nat (length response))) TYPE_A 60 4
                 ++ map z2b [127; 0; 0; 1]%Z)
    (λ r, unwrap_err r (λ error, assert_eq (kind error) InvalidResponse)).

(** ** A scripted DNS-over-TLS server ([dns/src/dot.rs]) *)
Record ScriptedConnector := { sc_ipv4 : Z; sc_ipv6 : Z; sc_ttl_a : Z; sc_ttl_aaaa : Z }.
Record ScriptedSession := { ss_incoming : bytes; ss_outgoing : bytes; ss_script : ScriptedConnector }.

(** [connect]; the world counts the connections. *)
Definition scripted_connect (c : ScriptedConnector) (connects : nat) : nat * option ScriptedSession :=
  (S connects, Some {| ss_incoming := []; ss_outgoing := []; ss_script := c |}).

Definition scripted_response_for (c : ScriptedConnector) (query : bytes) : option bytes :=
  if length query <? DNS_HEADER_BYTES + 5 then None
  else
    let question_end := length query in
    let qtype := be_value (take 2 (drop (question_end - 4) query)) in
    let response := take 2 query ++ u16_be (Z.lor 0x8000 0x0100) ++ u16_be 1 ++ u16_be 1 ++ u16_be 0 ++ u16_be 0
                    ++ drop DNS_HEADER_BYTES query ++ [xc0; x0c] ++ u16_be qtype ++ u16_be 1 in
    match qtype with
    | 1 => Some (response ++ be_bytes 4 (sc_ttl_a c) ++ u16_be 4 ++ v4_octets (sc_ipv4 c))
    | 28 => Some (response ++ be_bytes 4 (sc_ttl_aaaa c) ++ u16_be 16 ++ v6_octets (sc_ipv6 c))
    | _ => None
    end%Z.

(** [process_requests]: every complete frame of [incoming] is answered; each
    round takes at least two bytes. *)
Fixpoint process_requests (fuel : nat) (s : ScriptedSession) : ScriptedSession * bool :=
  match fuel with
  | O => (s, true)
  | S fuel =>
      if length (ss_incoming s) <? DOT_LENGTH_BYTES then (s, true)
      else
        let length_ := Z.to_nat (be_value (take 2 (ss_incoming s))) in
        let frame_end := DOT_LENGTH_BYTES + length_ in
        if length (ss_incoming s) <? frame_end then (s, true)
        else
          let query := take length_ (drop DOT_LENGTH_BYTES (ss_incoming s)) in
          let rest := drop frame_end (ss_incoming s) in
          match scripted_response_for (ss_script s) query with
          | None => ({| ss_incoming := rest; ss_outgoing := ss_outgoing s; ss_script := ss_script s |}, false)
          | Some response =>
              if (65535 <? Z.of_nat (length response))%Z
              then ({| ss_incoming := rest; ss_outgoing := ss_outgoing s; ss_script := ss_script s |}, false)
              else process_requests fuel
                {| ss_incoming := rest; ss_script := ss_script s;
                   ss_outgoing := ss_outgoing s ++ u16_be (Z.of_nat (length response)) ++ response |}
          end
  end.

(** [write] takes the whole buffer, so [write_all] is one call of it. *)
Definition scripted_write_all (s : ScriptedSession) (buffer : bytes) : ScriptedSession * bool :=
  let incoming := ss_incoming s ++ buffer in
  process_requests (S (length incoming))
    {| ss_incoming := incoming; ss_outgoing := ss_outgoing s; ss_script := ss_script s |}.
Definition scripted_flush (s : ScriptedSession) : ScriptedSession * bool := (s, true).
(** [read_exact] over a [read] that hands out what is queued and then end of file. *)
Definition scripted_read_exact (s : ScriptedSession) (n : nat) : ScriptedSession * option bytes :=
  let rest := {| ss_incoming := ss_incoming s; ss_outgoing := drop n (ss_outgoing s); ss_script := ss_script s |} in
  if length (ss_outgoing s) <? n then (rest, None) else (rest, Some (take n (ss_outgoing s))).

Definition test_resolver_reuses_one_stream_and_combines_a_aaaa : bool :=
  ip (#"2001:db8::8") (λ v6,
  let connector := {| sc_ipv4 := Ipv4Addr_new 203 0 113 8; sc_ipv6 := match v6 with V4 a | V6 a => a end;
                      sc_ttl_a := 120; sc_ttl_aaaa := 45 |} in
  let resolver := DotResolver_resolve (scripted_connect connector) scripted_write_all scripted_flush scripted_read_exact in
  unwrap (DnsQuery_new (#"secure.example")) (λ query,
  let '(st, r) := resolver (DotResolver_with_connector 0) query in
  unwrap r (λ answer,
    assert_eq (addresses answer) [V4 (Ipv4Addr_new 203 0 113 8); v6]
    && assert_eq (ttl answer) (Some (from_secs 45))
    && assert_eq (world st) 1))).

(** ** A server that closes each stream ([dns/src/dot_tls_tests.rs])

    TLS itself is transparent here. The server thread answers two queries on a
    stream and then drops it; a session is the client's end of one stream. *)
Definition IPV4_ANSWER : Z := Ipv4Addr_new 203 0 113 55.
Definition A_TTL : Z := 120.
Definition AAAA_TTL : Z := 45.

(** One frame from the stream: the message and what follows it. *)
Definition read_dot_message (stream : bytes) : option (bytes * bytes) :=
  if length stream <? 2 then None
  else
    let length_ := Z.to_nat (be_value (take 2 stream)) in
    if (length_ <? 12) || (length (drop 2 stream) <? length_) then None
    else Some (take length_ (drop 2 stream), drop length_ (drop 2 stream)).

Definition response_for (query : bytes) : option bytes :=
  if (length query <? 17) || negb (be_value (take 2 (drop 4 query)) =? 1)%Z then None
  else
    let qtype_offset := length query - 4 in
    let qtype := be_value (take 2 (drop qtype_offset query)) in
    let qclass := be_value (take 2 (drop (qtype_offset + 2) query)) in
    if negb (qclass =? 1)%Z then None
    else
      '(ttl, rdata) ← match qtype with
                      | 1 => Some (A_TTL, v4_octets IPV4_ANSWER)
                      | 28 => a ← parse_ip (#"2001:db8::55"); Some (AAAA_TTL, addr_octets a)
                      | _ => None
                      end%Z;
      Some (take 2 query ++ u16_be 0x8180 ++ u16_be 1 ++ u16_be 1 ++ u16_be 0 ++ u16_be 0 ++ drop 12 query
            ++ [xc0; x0c] ++ u16_be qtype ++ u16_be 1 ++ be_bytes 4 ttl ++ u16_be (Z.of_nat (length rdata)) ++ rdata).

Definition write_dot_message (stream message : bytes) : option bytes :=
  if (65535 <? Z.of_nat (length message))%Z then None
  else Some (stream ++ u16_be (Z.of_nat (length message)) ++ message).

Record DotStream := { ds_to_server : bytes; ds_to_client : bytes; ds_queries : nat }.
Definition dot_accept (accepts : nat) : nat * option DotStream :=
  (S accepts, Some {| ds_to_server := []; ds_to_client := []; ds_queries := 0 |}).

(** The body of the server thread on one stream, for the queries it has left. *)
Fixpoint dot_server (budget : nat) (s : DotStream) : DotStream :=
  match budget with
  | O => s
  | S budget =>
      match read_dot_message (ds_to_server s) with
      | None => s
      | Some (query, rest) =>
          match response ← response_for query; write_dot_message (ds_to_client s) response with
          | None => s
          | Some out => dot_server budget {| ds_to_server := rest; ds_to_client := out; ds_queries := S (ds_queries s) |}
          end
      end
  end.
Definition dot_write_all (s : DotStream) (buffer : bytes) : DotStream * bool :=
  (dot_server (2 - ds_queries s)
     {| ds_to_server := ds_to_server s ++ buffer; ds_to_client := ds_to_client s; ds_queries := ds_queries s |}, true).
Definition dot_flush (s : DotStream) : DotStream * bool := (s, true).
Definition dot_read_exact (s : DotStream) (n : nat) : DotStream * option bytes :=
  let rest := {| ds_to_server := ds_to_server s; ds_to_client := drop n (ds_to_client s); ds_queries := ds_queries s |} in
  if length (ds_to_client s) <? n then (rest, None) else (rest, Some (take n (ds_to_client s))).

(** The queries answered on the stream in use. *)
Definition queries_on (st : DotState (W:=nat) (S:=DotStream)) : option nat := ds_queries <$> session st.

Definition test_dot_reuses_tls_and_recovers_after_server_close : bool :=
  let resolver := DotResolver_resolve dot_accept dot_write_all dot_flush dot_read_exact in
  unwrap (DnsQuery_new (#"secure.example")) (λ query,
  let '(st1, first) := resolver (DotResolver_with_connector 0) query in
  let '(st2, second) := resolver st1 query in
  ip (#"2001:db8::55") (λ v6, unwrap first (λ first, unwrap second (λ second,
    assert_eq (addresses first) [V4 IPV4_ANSWER; v6]
    && assert_eq (ttl first) (Some (from_secs AAAA_TTL))
    && assert_eq (addresses second) (addresses first)
    && assert_eq (ttl second) (ttl first)
    && assert_eq (world st1, queries_on st1) (1, Some 2)
    && assert_eq (world st2, queries_on st2) (2, Some 2))))).

(** ** All of them *)
Definition dns_tests : list bool :=
  [test_hosts_parser_supports_hosts_and_domain_only_lines; test_invalid_host_line_fails_closed;
   test_hosts_precede_resolvers; test_cache_precedes_resolver_after_first_lookup;
   test_resolver_zero_ttl_is_not_cached; test_resolver_failure_falls_through_to_next_resolver;
   test_cache_configuration_is_bounded; test_query_encoding_preserves_id_name_and_family;
   test_compressed_a_response_preserves_ttl; test_aaaa_response_is_supported;
   test_cname_chain_bounds_effective_ttl; test_unrelated_address_record_is_not_accepted;
   test_zero_ttl_is_preserved_for_cache_policy; test_nxdomain_is_no_records_not_transport_failure;
   test_transaction_id_mismatch_is_invalid_response; test_compression_pointer_loop_is_rejected;
   test_resolver_reuses_one_stream_and_combines_a_aaaa; test_dot_reuses_tls_and_recovers_after_server_close].

Lemma dns_tests_pass : Forall (eq true) dns_tests.
Proof. unfold dns_tests. run_tests; vm_compute; reflexivity. Qed.
