(* ===== verification/ConfigTests.v ===== *)
(** * The unit tests of the configuration compiler ([daemon/src/config.rs])

    Asset files are a function from paths to contents. rustls's
    [ServerName::try_from] is instantiated with the part of it the tests
    depend on: letters, digits, hyphens and dots are accepted, anything else
    is not. No test resolves a name through a resolver or checks a password
    digest. *)

From S2P Require Import Prelude RustStr RustNet Flow Cidr DomainSet Policy Blocklist DnsBase.
From S2P Require Import DnsCache DnsEngine Proxy Trojan Conn Protocol Outbound Config CoreTests.
From S2P Require Import DnsTests.

(** ** The environment of the tests *)
#[global] Instance DnsResolverSummary_eq_dec : EqDecision DnsResolverSummary.
Proof. solve_decision. Defined.

Definition Files : Type := list (str * str).
Definition file_read (files : Files) (path : str) : option str :=
  snd <$> List.find (λ f, bool_decide (f.1 = path)) files.
Definition file_len (files : Files) (path : str) : option Z := (λ t, Z.of_nat (length t)) <$> file_read files path.
Definition dns_name (name : str) : bool :=
  negb (length name =? 0) && forallb (λ b, is_ascii_alphanumeric b || bool_decide (b = x2d) || bool_decide (b = x2e)) name.
Definition no_system (w : unit) (_ : str) : unit * option (list SocketAddr) := (w, None).
Definition no_resolver (_ : DnsResolverSummary) : resolver unit := λ w _, (w, Err (DnsError_new NoRecords)).
Definition no_digest (_ : bytes) : bytes := [].

Definition compile_at (files : Files) (text root : str) : result ConfigError (CompiledConfig (W:=unit)) :=
  parse_config_at (file_len files) (file_read files) dns_name no_digest no_system no_resolver text root.
Definition store_at (files : Files) (text root : str) : result ConfigError (ConfigStore (W:=unit)) :=
  ConfigStore_new_at (file_len files) (file_read files) dns_name no_digest no_system no_resolver text root.
Definition reload_at (files : Files) (s : ConfigStore (W:=unit)) (text : str) : ConfigStore (W:=unit) * result ConfigError unit :=
  ConfigStore_reload (file_len files) (file_read files) dns_name no_digest no_system no_resolver s text.

(** [parse_config] and [ConfigStore::new], relative to the working directory. *)
Definition parse_config (text : str) : result ConfigError (CompiledConfig (W:=unit)) := compile_at [] text (#".").
Definition ConfigStore_new (text : str) : result ConfigError (ConfigStore (W:=unit)) := store_at [] text (#".").

(** An indented raw string: it starts with a line break and ends with the
    indentation of the statement. *)
Definition raw_text (indent : nat) (ls : list str) : str :=
  text_lines ([] :: map (app (replicate indent x20)) ls) ++ replicate (indent - 4) x20.

(** ** The tests *)
Definition VALID : str :=
  raw_text 8 [ #"version 1"; #"listen socks5 127.0.0.1:1080"; #"default direct";
               #"rule reject domain-suffix ads.example"; #"rule reject cidr 10.0.0.0/8"].

Definition plan (store : ConfigStore (W:=unit)) (host : DestinationHost) (k : ExecutionAction → bool) : bool :=
  unwrap (ConfigStore_snapshot store) (λ snapshot,
    k (plan_execution (Runtime_plan (c_runtime snapshot)
         (FlowContext_new 1 SourceContext_default {| dest_host := host; dest_port := 443 |} Tcp NetworkContext_default)))).
Definition is_reject (a : ExecutionAction) : bool := match a with Reject _ => true | Route _ => false end.
Definition is_route (a : ExecutionAction) : bool := match a with Route _ => true | Reject _ => false end.

Definition test_native_config_compiles_into_policy_runtime : bool :=
  unwrap (ConfigStore_new VALID) (λ store,
    plan store (Domain (#"cdn.ads.example")) is_reject
    && plan store (Domain (#"www.example.com")) is_route
    && ip (#"10.20.30.40") (λ a, plan store (Ip a) is_reject)).

Definition test_named_proxy_endpoint_compiles_into_policy_and_registry : bool :=
  unwrap (ConfigStore_new (raw_text 12
    [ #"version 1"; #"listen socks5 127.0.0.1:1080"; #"endpoint edge socks5 127.0.0.1:1081";
      #"rule proxy:edge domain-suffix proxied.example"; #"default direct"])) (λ store,
  unwrap (ConfigStore_snapshot store) (λ snapshot,
    assert_eq (registry_len (c_outbounds snapshot)) 1
    && plan store (Domain (#"api.proxied.example")) (λ a,
         match a with Route (Proxy id) => assert_eq (endpoint_id_str id) (#"edge") | _ => false end))).

Definition test_undefined_proxy_endpoint_rejects_candidate : bool :=
  is_err (parse_config (raw_text 12
    [ #"version 1"; #"listen socks5 127.0.0.1:1080"; #"rule proxy:missing any"; #"default direct"])).

Definition test_duplicate_proxy_endpoint_id_is_rejected : bool :=
  is_err (parse_config (raw_text 12
    [ #"version 1"; #"listen socks5 127.0.0.1:1080"; #"endpoint edge socks5 127.0.0.1:1081";
      #"endpoint edge http 127.0.0.1:8081"; #"default direct"])).

Definition test_blocklist_is_compiled_relative_to_config_directory : bool :=
  let root := #"/tmp/commeatus-config" in
  let files := [(path_join root (#"ads.txt"),
                 text_lines [ #"0.0.0.0 ads.example"; #"||telemetry.example^"; #"@@||api.telemetry.example^"])] in
  unwrap (store_at files (raw_text 12
    [ #"version 1"; #"listen socks5 127.0.0.1:1080"; #"blocklist ads.txt"; #"default direct"]) root) (λ store,
  unwrap (ConfigStore_snapshot store) (λ snapshot,
    assert_eq (length (c_blocklists snapshot)) 1
    && unwrap_opt (c_blocklists snapshot !! 0) (λ b, assert_eq (accepted_block (b_stats b)) 2)
    && plan store (Domain (#"x.telemetry.example")) is_reject
    && plan store (Domain (#"api.telemetry.example")) is_route)).

Definition test_hosts_override_is_compiled_into_dns_engine : bool :=
  let root := #"/tmp/commeatus-config" in
  let files := [(path_join root (#"hosts.txt"), text_lines [ #"203.0.113.7 service.test"])] in
  unwrap (store_at files (raw_text 12
    [ #"version 1"; #"listen socks5 127.0.0.1:1080"; #"hosts hosts.txt"; #"default direct"]) root) (λ store,
  unwrap (ConfigStore_snapshot store) (λ snapshot,
    assert_eq (length (c_hosts snapshot)) 1
    && ip (#"203.0.113.7") (λ a,
         unwrap (DnsEngine_resolve map_to_list (c_dns snapshot) tt 0 (#"service.test")).2 (λ answer,
           assert_eq answer [a])))).

Definition test_duplicate_bind_address_is_rejected : bool :=
  is_err (parse_config (raw_text 12
    [ #"version 1"; #"listen socks5 127.0.0.1:1080"; #"listen http 127.0.0.1:1080"; #"default direct"])).

Definition test_public_listener_requires_explicit_opt_in : bool :=
  is_err (parse_config (raw_text 12 [ #"version 1"; #"listen socks5 0.0.0.0:1080"; #"default direct"]))
  && is_ok (parse_config (raw_text 12
       [ #"version 1"; #"allow-public-listen true"; #"listen socks5 0.0.0.0:1080"; #"default direct"])).

Definition test_no_resolver_directive_preserves_system_default : bool :=
  unwrap (parse_config (raw_text 12 [ #"version 1"; #"listen socks5 127.0.0.1:1080"; #"default direct"])) (λ compiled,
    assert_eq (c_dns_resolvers compiled) [RSystem]).

(** ["1.1.1.1:853".parse().unwrap()] *)
Definition sock (text : str) (k : SocketAddr → bool) : bool := unwrap_opt (parse_socket_addr text) k.

Definition test_dot_only_is_secure_only_without_implicit_system_fallback : bool :=
  unwrap (parse_config (raw_text 12
    [ #"version 1"; #"listen socks5 127.0.0.1:1080"; #"resolver dot 1.1.1.1:853 Cloudflare-DNS.com"; #"default direct"]))
  (λ compiled, sock (#"1.1.1.1:853") (λ address,
    assert_eq (c_dns_resolvers compiled) [RDot address (#"cloudflare-dns.com")])).

Definition test_system_fallback_must_be_explicit_and_preserves_order : bool :=
  unwrap (parse_config (raw_text 12
    [ #"version 1"; #"listen socks5 127.0.0.1:1080"; #"resolver dot 1.1.1.1:853 cloudflare-dns.com"; #"resolver system";
      #"default direct"]))
  (λ compiled, sock (#"1.1.1.1:853") (λ address,
    assert_eq (c_dns_resolvers compiled) [RDot address (#"cloudflare-dns.com"); RSystem])).

Definition test_duplicate_or_ambiguous_resolvers_are_rejected : bool :=
  is_err (parse_config (raw_text 12
    [ #"version 1"; #"listen socks5 127.0.0.1:1080"; #"resolver system"; #"resolver system"; #"default direct"]))
  && is_err (parse_config (raw_text 12
    [ #"version 1"; #"listen socks5 127.0.0.1:1080"; #"resolver dot dns.example:853 dns.example"; #"default direct"]))
  && is_err (parse_config (raw_text 12
    [ #"version 1"; #"listen socks5 127.0.0.1:1080"; #"resolver dot 127.0.0.1:853 bad_name!"; #"default direct"])).

Definition test_resolver_count_is_bounded : bool :=
  is_err (parse_config (text_lines ([ #"version 1"; #"listen socks5 127.0.0.1:1080"]
    ++ map (λ index, #"resolver dot 127.0.0.1:" ++ show_dec (853 + Z.of_nat index) ++ #" dns-"
                     ++ show_dec (Z.of_nat index) ++ #".example") (seq 0 (MAX_DNS_RESOLVERS + 1))
    ++ [ #"default direct"]))).

Definition test_transport_matcher_is_available_to_native_config : bool :=
  is_ok (parse_config (raw_text 12
    [ #"version 1"; #"listen socks5 127.0.0.1:1080"; #"rule reject transport udp"; #"default direct"])).

(** The capabilities of a named endpoint. *)
Definition endpoint_capabilities (compiled : CompiledConfig (W:=unit)) (id : str) (k : EndpointCapabilities → bool) : bool :=
  unwrap (EndpointId_new id) (λ id, unwrap_opt (capabilities (c_outbounds compiled) (Proxy id)) k).

Definition test_explicit_tcp_and_tls_endpoint_syntax_compile : bool :=
  unwrap (parse_config (raw_text 12
    [ #"version 1"; #"listen socks5 127.0.0.1:1080"; #"endpoint plain socks5 tcp 127.0.0.1:1081";
      #"endpoint secure http tls 127.0.0.1:8443 proxy.example"; #"rule proxy:secure domain-suffix secure.example";
      #"default proxy:plain"])) (λ compiled,
    assert_eq (registry_len (c_outbounds compiled)) 2
    && endpoint_capabilities compiled (#"secure") (λ c, cap_tcp c && negb (cap_udp c) && encrypted_transport c)).

Definition test_invalid_tls_server_name_rejects_candidate : bool :=
  is_err (parse_config (raw_text 12
    [ #"version 1"; #"listen socks5 127.0.0.1:1080"; #"endpoint secure socks5 tls 127.0.0.1:8443 bad_name!";
      #"default proxy:secure"])).

Definition test_trojan_tls_endpoint_compiles : bool :=
  unwrap (parse_config (raw_text 12
    [ #"version 1"; #"listen socks5 127.0.0.1:1080"; #"endpoint secure trojan tls 127.0.0.1:443 trojan.example secret";
      #"default proxy:secure"])) (λ compiled,
    assert_eq (registry_len (c_outbounds compiled)) 1
    && endpoint_capabilities compiled (#"secure") (λ c, cap_tcp c && cap_udp c && encrypted_transport c)).

Definition test_trojan_plain_tcp_is_rejected_by_candidate_parser : bool :=
  is_err (parse_config (raw_text 12
    [ #"version 1"; #"listen socks5 127.0.0.1:1080"; #"endpoint insecure trojan tcp 127.0.0.1:443 secret";
      #"default proxy:insecure"])).

Definition test_config_size_is_bounded : bool :=
  is_err (parse_config (replicate (Z.to_nat (MAX_CONFIG_BYTES + 1)) x78)).

(** *** Reloads

    [Arc::ptr_eq] on two snapshots: the reload failed and the store still
    hands out the very configuration it had. *)
Definition keeps_snapshot (files : Files) (store : ConfigStore (W:=unit)) (candidate : str) : Prop :=
  ∃ before, ConfigStore_snapshot store = Ok before
    ∧ is_err (reload_at files store candidate).2 = true
    ∧ ConfigStore_snapshot (reload_at files store candidate).1 = Ok before.

Definition test_missing_asset_fails_candidate_before_runtime_swap : Prop :=
  ∃ store, store_at [] VALID (#"/tmp/commeatus-config") = Ok store
    ∧ keeps_snapshot [] store (raw_text 12
        [ #"version 1"; #"listen socks5 127.0.0.1:1080"; #"hosts missing.txt"; #"default direct"]).
Definition test_invalid_reload_keeps_last_known_good_snapshot : Prop :=
  ∃ store, ConfigStore_new VALID = Ok store ∧ keeps_snapshot [] store (#"version 2").
Definition test_invalid_secure_resolver_reload_keeps_snapshot : Prop :=
  ∃ store, ConfigStore_new VALID = Ok store ∧ keeps_snapshot [] store (raw_text 12
    [ #"version 1"; #"listen socks5 127.0.0.1:1080"; #"resolver dot dns.example:853 dns.example"; #"default direct"]).

Definition config_tests : list bool :=
  [test_native_config_compiles_into_policy_runtime; test_named_proxy_endpoint_compiles_into_policy_and_registry;
   test_undefined_proxy_endpoint_rejects_candidate; test_duplicate_proxy_endpoint_id_is_rejected;
   test_blocklist_is_compiled_relative_to_config_directory; test_hosts_override_is_compiled_into_dns_engine;
   test_duplicate_bind_address_is_rejected; test_public_listener_requires_explicit_opt_in;
   test_no_resolver_directive_preserves_system_default; test_dot_only_is_secure_only_without_implicit_system_fallback;
   test_system_fallback_must_be_explicit_and_preserves_order; test_duplicate_or_ambiguous_resolvers_are_rejected;
   test_resolver_count_is_bounded; test_transport_matcher_is_available_to_native_config;
   test_explicit_tcp_and_tls_endpoint_syntax_compile; test_invalid_tls_server_name_rejects_candidate;
   test_trojan_tls_endpoint_compiles; test_trojan_plain_tcp_is_rejected_by_candidate_parser;
   test_config_size_is_bounded].
Definition reload_tests : list Prop :=
  [test_missing_asset_fails_candidate_before_runtime_swap; test_invalid_reload_keeps_last_known_good_snapshot;
   test_invalid_secure_resolver_reload_keeps_snapshot].

(** The megabyte of text is not evaluated: its length decides. *)
Lemma config_size_test_passes : test_config_size_is_bounded = true.
Proof.
  unfold test_config_size_is_bounded, parse_config, compile_at, parse_config_at. rewrite length_replicate, Z2Nat.id by done.
  by rewrite (proj2 (Z.ltb_lt _ _)) by lia.
Qed.

Lemma config_tests_pass : Forall (eq true) config_tests.
Proof.
  unfold config_tests. run_tests;
    lazymatch goal with
    | |- _ = test_config_size_is_bounded => exact (eq_sym config_size_test_passes)
    | |- _ => vm_compute; reflexivity
    end.
Qed.

(** A reload test passes when its candidate does not compile. *)
Lemma failed_reload_keeps files text root candidate :
  is_ok (compile_at files text root) = true → is_err (compile_at files candidate root) = true →
  ∃ store, store_at files text root = Ok store ∧ keeps_snapshot files store candidate.
Proof.
  intros Hc He. unfold store_at, ConfigStore_new_at. fold (compile_at files text root).
  destruct (compile_at files text root) as [c|e|]; [|discriminate Hc..]. eexists. split; [done|].
  exists c. split; [done|]. unfold reload_at, ConfigStore_reload. cbn [asset_root]. fold (compile_at files candidate root).
  by destruct (compile_at files candidate root).
Qed.

Lemma reload_tests_pass : Forall id reload_tests.
Proof.
  unfold reload_tests. repeat apply Forall_cons_2; try apply Forall_nil_2;
    (apply failed_reload_keeps; vm_compute; reflexivity).
Qed.
