(* ===== verification/DaemonTests.v ===== *)
(** * The unit tests of the daemon, transport and platform crates

    Parsers, planning, protocols, the registry, the connection limiter and the
    platform backend. The Trojan tests run with the SHA-224 function. *)

From S2P Require Import Prelude RustStr RustNet Flow Policy DnsBase DnsEngine Proxy Trojan Datagram.
From S2P Require Import Conn HttpConnect Protocol Outbound Sockets Socks5 Transparent Server.
From S2P Require Import Platform Sha224 CoreTests DnsTests ConfigTests.

Definition LOCALHOST : IpAddr := V4 (Ipv4Addr_new 127 0 0 1).
Definition LOCALHOST_V6 : IpAddr := V6 1.
(** [&response[a..b]] *)
Definition part (b : bytes) (from to : nat) : option bytes := slice_get b from to.
Definition assert_kind {A} (r : result ErrorKind A) (kind : ErrorKind) : bool :=
  unwrap_err r (λ e, assert_eq e kind).

(** ** [daemon/src/socks5.rs]: datagram headers *)
Definition test_udp_parser_rejects_fragmentation : bool :=
  let packet := map z2b [0x00; 0x00; 0x01; 0x01; 127; 0; 0; 1; 0; 53]%Z in
  assert_kind (parse_udp_request packet) EUnsupported.

Definition test_udp_parser_preserves_domain_identity : bool :=
  let packet := map z2b [0x00; 0x00; 0x00; 0x03; 11]%Z ++ #"example.com" ++ u16_be 53 ++ #"dns" in
  unwrap (parse_udp_request packet) (λ '(target, payload),
    assert_eq (host target) (Domain (#"example.com"))
    && assert_eq (port target) 53%Z
    && assert_eq payload (#"dns")).

Definition test_udp_response_encodes_remote_source : bool :=
  unwrap (Target_new (Ip LOCALHOST) 5353) (λ source,
  unwrap (encode_udp_response source (#"reply")) (λ response,
    assert_eq (part response 0 4) (Some [x00; x00; x00; x01])
    && assert_eq (part response 4 8) (Some (map z2b [127; 0; 0; 1]%Z))
    && assert_eq (part response 8 10) (Some (u16_be 5353))
    && assert_eq (drop 10 response) (#"reply"))).

(** ** [daemon/src/http_connect.rs] *)
Definition test_parses_domain_authority : bool :=
  unwrap (parse_authority (#"Example.COM:443")) (λ target,
  unwrap (Target_new (Domain (#"example.com")) 443) (λ expected, assert_eq target expected)).

Definition test_parses_bracketed_ipv6_authority : bool :=
  unwrap (parse_authority (#"[2001:db8::1]:8443")) (λ target,
    assert_eq (port target) 8443%Z
    && match host target with Ip address => ip_is_ipv6 address | Domain _ => false end).

Definition test_rejects_ambiguous_unbracketed_ipv6 : bool := is_err (parse_authority (#"2001:db8::1:443")).

(** ** [daemon/src/protocol.rs] *)
Definition trojan_protocol (k : OutboundProtocol → bool) : bool :=
  unwrap (TrojanVerifier_new sha224 (#"secret")) (λ verifier, k (TrojanProtocol verifier)).

Definition test_provider_names_are_stable_native_identifiers : bool :=
  assert_eq (protocol_name Socks5Protocol) (#"socks5")
  && assert_eq (protocol_name HttpConnectProtocol) (#"http-connect")
  && trojan_protocol (λ p, assert_eq (protocol_name p) (#"trojan")).

Definition test_transport_requirements_are_provider_capabilities : bool :=
  negb (requires_tls (protocol_capabilities Socks5Protocol))
  && negb (requires_tls (protocol_capabilities HttpConnectProtocol))
  && trojan_protocol (λ p, requires_tls (protocol_capabilities p)).

Definition test_authority_preserves_domain_and_brackets_ipv6 : bool :=
  unwrap (Target_new (Domain (#"example.com")) 443) (λ t, assert_eq (target_authority t) (#"example.com:443"))
  && unwrap (Target_new (Ip LOCALHOST_V6) 443) (λ t, assert_eq (target_authority t) (#"[::1]:443"))
  && unwrap (Target_new (Ip LOCALHOST) 80) (λ t, assert_eq (target_authority t) (#"127.0.0.1:80")).

(** ** [daemon/src/proxy.rs] *)
Definition test_policy_rejection_is_preserved_before_connect : bool :=
  let runtime := Runtime_new (PolicyEngine_new [] (PReject RejectPolicy)) in
  unwrap (Target_new (Ip LOCALHOST) 80) (λ target, is_reject (plan_action runtime 1 target Tcp).2).

Definition test_transport_is_part_of_policy_planning : bool :=
  let runtime := Runtime_new (PolicyEngine_new
    [{| rule_id := 1; rule_tier := UserHard; rule_matcher := MTransport Udp; rule_action := PReject RejectPolicy |}]
    (PRoute Direct)) in
  unwrap (Target_new (Ip LOCALHOST) 53) (λ target,
    assert_eq (plan_action runtime 1 target Tcp).2 (Route Direct)
    && is_reject (plan_action runtime 2 target Udp).2).

(** A network with one listener: the world is the addresses connected to. *)
Definition listener_connect (listener : SocketAddr) (w : list SocketAddr) (a : SocketAddr) (_ : Z)
    : list SocketAddr * result ErrorKind SocketAddr :=
  (w ++ [a], if bool_decide (a = listener) then Ok a else Err EConnectionRefused).
(** The system resolver knows [localhost], twice in IPv4. *)
Definition localhost_dns (w : list SocketAddr) (name : str) : list SocketAddr * result DnsError (list IpAddr) :=
  let sys (u : unit) (n : str) :=
    (u, if bool_decide (n = #"localhost") then Some [sock_new LOCALHOST 0; sock_new LOCALHOST_V6 0; sock_new LOCALHOST 0] else None) in
  (w, (DnsEngine_resolve map_to_list (DnsEngine_system sys HostsTable_default) tt 0 name).2).

Definition test_direct_connector_reaches_local_listener : bool :=
  let address := sock_new LOCALHOST 40001 in
  unwrap (Target_new (Ip (sock_ip address)) (sock_port address)) (λ target,
  let '(w, r) := connect_direct localhost_dns (λ w, (w, 0%Z)) (listener_connect address) (λ _, Ok tt) [] target in
  unwrap r (λ peer, assert_eq peer address && assert_eq w [address])).

Definition test_resolver_deduplicates_and_bounds_addresses : bool :=
  unwrap (Target_new (Domain (#"localhost")) 80) (λ target,
  unwrap (resolve_target localhost_dns [] target).2 (λ addresses,
    negb (length addresses =? 0)
    && (length addresses <=? MAX_RESOLVED_ADDRESSES)
    && assert_eq (length (remove_dups addresses)) (length addresses))).

(** ** [daemon/src/trojan.rs] *)
Definition test_verifier_matches_sha224_hex_vector : bool :=
  unwrap (TrojanVerifier_new sha224 (#"password")) (λ verifier,
    assert_eq (as_bytes verifier) (#"d63dc919e201d7bc4c825630d2cf25fdc93d4b2f0d46706d29038d01")).

Definition test_udp_associate_preface_uses_wildcard_target : bool :=
  unwrap (TrojanVerifier_new sha224 (#"secret")) (λ verifier,
    let request := encode_udp_associate_request verifier in
    assert_eq (take TROJAN_VERIFIER_BYTES request) (as_bytes verifier)
    && assert_eq (part request TROJAN_VERIFIER_BYTES (TROJAN_VERIFIER_BYTES + 2)) (Some [x0d; x0a])
    && assert_eq (request !! (TROJAN_VERIFIER_BYTES + 2)) (Some TROJAN_UDP_ASSOCIATE)
    && assert_eq (drop (TROJAN_VERIFIER_BYTES + 3) request) [x01; x00; x00; x00; x00; x00; x00; x0d; x0a]).

Definition test_udp_frame_parser_handles_partial_multiple_and_zero_length_frames : bool :=
  unwrap (Target_new (Domain (#"opaque.invalid")) 443) (λ first,
  unwrap (Target_new (Ip LOCALHOST_V6) 53) (λ second,
  unwrap (encode_udp_frame first (#"abc")) (λ first_wire,
  unwrap (encode_udp_frame second []) (λ second_wire,
    match parse_udp_frame (take (length first_wire - 1) first_wire) with Ok None => true | _ => false end &&
    let joined := first_wire ++ second_wire in
    unwrap (parse_udp_frame joined) (λ o, unwrap_opt o (λ parsed,
      assert_eq (source parsed) first
      && assert_eq (part joined (payload_start parsed) (payload_end parsed)) (Some (#"abc"))
      && assert_eq (consumed parsed) (length first_wire)
      && unwrap (parse_udp_frame (drop (consumed parsed) joined)) (λ o, unwrap_opt o (λ parsed_zero,
           assert_eq (source parsed_zero) second
           && assert_eq (payload_start parsed_zero) (payload_end parsed_zero)
           && assert_eq (consumed parsed_zero) (length second_wire))))))))).

Definition test_udp_frame_rejects_bad_crlf_and_supports_ipv4 : bool :=
  unwrap (Target_new (Ip LOCALHOST) 5353) (λ target,
  unwrap (encode_udp_frame target (#"payload")) (λ frame,
    let crlf := 1 + 4 + 2 + 2 in
    assert_kind (parse_udp_frame (<[crlf := x58]> frame)) EInvalidData)).

(** ** [daemon/src/outbound.rs] *)
Definition endpoint_of (id : str) (protocol : OutboundProtocol) (datagram : option unit) (transport : TransportConfig)
    (k : EndpointId → ProxyEndpointConfig unit → bool) : bool :=
  unwrap (EndpointId_new id) (λ id,
    k id {| ep_id := id; ep_protocol := protocol; ep_datagram := datagram; ep_transport := transport |}).
Definition tcp_to (address : str) (k : TransportConfig → bool) : bool :=
  sock address (λ a, k (TcpConfig (TcpTransport_new a))).

Definition test_provider_requirement_rejects_trojan_over_plain_tcp : bool :=
  trojan_protocol (λ p, tcp_to (#"127.0.0.1:443") (λ transport,
  endpoint_of (#"trojan") p None transport (λ _ config, is_err (OutboundRegistry_new [config])))).

Definition test_endpoint_capability_combines_protocol_and_transport : bool :=
  tcp_to (#"127.0.0.1:1081") (λ transport,
  endpoint_of (#"edge") Socks5Protocol None transport (λ id config,
  unwrap (OutboundRegistry_new [config]) (λ registry,
  unwrap_opt (capabilities registry (Proxy id)) (λ c,
    cap_tcp c && negb (cap_udp c) && negb (encrypted_transport c))))).

Definition test_encrypted_endpoint_capability_comes_from_transport : bool :=
  sock (#"127.0.0.1:443") (λ address,
  unwrap (TlsTransport_with_client_config dns_name address (#"proxy.example")) (λ tls,
  endpoint_of (#"secure") HttpConnectProtocol None (TlsConfig tls) (λ id config,
  unwrap (OutboundRegistry_new [config]) (λ registry,
  unwrap_opt (capabilities registry (Proxy id)) (λ c,
    cap_tcp c && negb (cap_udp c) && encrypted_transport c))))).

Definition default_registry : OutboundRegistry unit := {| endpoints := ∅ |}.
(** Opening a direct association binds its sockets and touches nothing else. *)
Definition open_any_direct (w : nat) : nat * result ErrorKind (DirectDatagramAssociation (W:=OsWorld)) :=
  (w, (DirectDatagramAssociation_new os_bind ([], [])).2).
Definition open_no_provider (w : nat) (_ : unit) : nat * result ErrorKind (DirectDatagramAssociation (W:=OsWorld)) := (w, Err EOther).

Definition test_datagram_factory_opens_direct_execution : bool :=
  unwrap (open_datagram open_any_direct open_no_provider default_registry 0 Direct).2 (λ execution,
    1 <=? direct_source_count execution).

Definition test_datagram_factory_rejects_proxy_without_provider : bool :=
  tcp_to (#"127.0.0.1:1081") (λ transport,
  endpoint_of (#"edge") Socks5Protocol None transport (λ id config,
  unwrap (OutboundRegistry_new [config]) (λ registry,
    assert_kind (open_datagram open_any_direct open_no_provider registry 0 (Proxy id)).2 EUnsupported))).

(** [FakeDatagramProvider] counts what it opens; its execution has one source. *)
Inductive FakeDatagramExecution := MkFakeDatagramExecution.
#[local] Instance fake_datagram_execution : DatagramExecution FakeDatagramExecution := {
  dg_send x _ _ := (x, Ok tt);
  dg_receive x _ := (x, Ok None);
  readiness_source_count _ := 1;
  register_readiness x tokens := (x, if length tokens =? 1 then Ok tt else Err EInvalidInput);
}.
Definition fake_provider_open (opens : nat) (_ : unit) : nat * result ErrorKind FakeDatagramExecution :=
  (S opens, Ok MkFakeDatagramExecution).
Definition fake_direct_open (opens : nat) : nat * result ErrorKind FakeDatagramExecution := (opens, Err EOther).

Definition test_attached_datagram_provider_drives_capability_and_factory : bool :=
  tcp_to (#"127.0.0.1:1081") (λ transport,
  endpoint_of (#"udp-edge") Socks5Protocol (Some tt) transport (λ id config,
  unwrap (OutboundRegistry_new [config]) (λ registry,
  unwrap_opt (capabilities registry (Proxy id)) (λ c,
    cap_tcp c && cap_udp c &&
    let '(opens, r) := open_datagram fake_direct_open fake_provider_open registry 0 (Proxy id) in
    assert_eq opens 1 && unwrap r (λ execution, assert_eq (readiness_source_count execution) 1))))).

(** ** [daemon/src/server.rs] *)
Definition test_connection_limiter_never_exceeds_limit_and_releases_permits : bool :=
  let '(limiter, first) := try_acquire (ConnectionLimiter_new 2) in
  let '(limiter, second) := try_acquire limiter in
  let '(limiter, refused) := try_acquire limiter in
  let limiter := permit_drop limiter in
  let '(limiter, third) := try_acquire limiter in
  let '(limiter, refused_again) := try_acquire limiter in
  let limiter := permit_drop (permit_drop limiter) in
  first && second && negb refused && third && negb refused_again && assert_eq (l_active limiter) 0%Z.

(** ** [daemon/src/transparent_tcp.rs] *)
Definition test_ordinary_stream_local_address_maps_to_ip_target : bool :=
  let address := sock_new LOCALHOST 40002 in
  unwrap (target_from_stream (λ a : SocketAddr, Ok a) address) (λ target,
    assert_eq (host target) (Ip (sock_ip address)) && assert_eq (port target) (sock_port address)).

(** A system that grants every socket call. *)
Definition granting (w : unit) (_ : Sockets.Socket) (_ : SockCall) : unit * result ErrorKind unit := (w, Ok tt).

(** ** [daemon/src/transparent_udp.rs] *)
Definition test_privileged_reply_socket_preserves_nonlocal_source_bind : bool :=
  sock (#"198.51.100.77:43123") (λ source,
  unwrap (bind_transparent_reply_socket granting tt source).2 (λ socket, bool_decide (SysBind source ∈ socket))).

(** ** [transport/src/lib.rs] *)
Definition test_tcp_transport_declares_plain_reliable_stream_only : bool :=
  tcp_to (#"127.0.0.1:443") (λ transport,
    let c := transport_capabilities transport in reliable_stream c && negb (datagram c) && negb (encrypted c)).

Definition test_zero_timeout_is_rejected : bool :=
  sock (#"127.0.0.1:443") (λ a, is_err (TcpTransport_with_timeouts a 0 1000000000)).

(** The session's local address is the system's choice; its peer is ours. *)
Definition test_tcp_transport_connects_to_loopback_listener : bool :=
  let address := sock_new LOCALHOST 40003 in
  unwrap (tcp_connect granting (TcpTransport_new address) tt).2 (λ session, assert_eq (peer session) (Some address)).

(** ** [platform/src/lib.rs] *)
Definition platform_fixture : PlatformCapabilities :=
  {| platform := Linux; tun := Available; tproxy := Unknown; ebpf := Unavailable; btf := Unavailable; bpffs := Unavailable |}.

Definition test_explicit_proxy_is_always_valid : bool := is_ok (validate platform_fixture ExplicitProxy).
Definition test_unknown_is_not_silently_treated_as_available : bool :=
  unwrap_err (validate platform_fixture Tproxy) (λ error, assert_eq (ce_support error) Unknown).
(** On each platform, whatever the file system holds. *)
Definition test_current_probe_is_non_destructive : bool :=
  forallb (λ os, forallb (λ present,
    assert_eq (platform (probe os (λ _, present) (λ _, None))) (PlatformKind_current os)) [true; false])
    [ #"linux"; #"android"; #"macos"].

Definition daemon_tests : list bool :=
  [test_udp_parser_rejects_fragmentation; test_udp_parser_preserves_domain_identity; test_udp_response_encodes_remote_source;
   test_parses_domain_authority; test_parses_bracketed_ipv6_authority; test_rejects_ambiguous_unbracketed_ipv6;
   test_provider_names_are_stable_native_identifiers; test_transport_requirements_are_provider_capabilities;
   test_authority_preserves_domain_and_brackets_ipv6; test_policy_rejection_is_preserved_before_connect;
   test_transport_is_part_of_policy_planning; test_direct_connector_reaches_local_listener;
   test_resolver_deduplicates_and_bounds_addresses; test_verifier_matches_sha224_hex_vector;
   test_udp_associate_preface_uses_wildcard_target;
   test_udp_frame_parser_handles_partial_multiple_and_zero_length_frames;
   test_udp_frame_rejects_bad_crlf_and_supports_ipv4; test_provider_requirement_rejects_trojan_over_plain_tcp;
   test_endpoint_capability_combines_protocol_and_transport; test_encrypted_endpoint_capability_comes_from_transport;
   test_datagram_factory_opens_direct_execution; test_datagram_factory_rejects_proxy_without_provider;
   test_attached_datagram_provider_drives_capability_and_factory;
   test_connection_limiter_never_exceeds_limit_and_releases_permits;
   test_ordinary_stream_local_address_maps_to_ip_target;
   test_privileged_reply_socket_preserves_nonlocal_source_bind;
   test_tcp_transport_declares_plain_reliable_stream_only; test_zero_timeout_is_rejected;
   test_tcp_transport_connects_to_loopback_listener; test_explicit_proxy_is_always_valid;
   test_unknown_is_not_silently_treated_as_available; test_current_probe_is_non_destructive].

Lemma daemon_tests_pass : Forall (eq true) daemon_tests.
Proof. unfold daemon_tests. run_tests; vm_compute; reflexivity. Qed.
