(* ===== verification/UdpTests.v ===== *)
(** * The datagram tests ([daemon/src/datagram.rs], [daemon/src/socks5.rs])

    Direct associations over a loopback network, route sets over counting
    executions, and whole SOCKS5 UDP associations: from the bytes the client
    writes on its control connection to the datagrams that come back. *)

From S2P Require Import Prelude RustStr RustNet Flow Policy DnsBase DnsEngine Proxy Trojan Datagram.
From S2P Require Import Conn Protocol Outbound Socks5 Socks5Udp CoreTests DnsTests ConfigTests.
From S2P Require Import DaemonTests.

(** ** A loopback network

    A datagram sent to a bound address is answered by the function behind it;
    answers wait in the inbox of the socket's family. *)
Record Loopback := {
  lb_dns : DnsEngine unit;
  lb_remote : SocketAddr → bytes → option bytes;
  lb_sent : list (SocketAddr * bytes);
  lb_inbox : bool → list (bytes * SocketAddr);
}.
Definition lb_resolve (w : Loopback) (name : str) : Loopback * result DnsError (list IpAddr) :=
  let '(d, _, r) := DnsEngine_resolve map_to_list (lb_dns w) tt 0 name in
  ({| lb_dns := d; lb_remote := lb_remote w; lb_sent := lb_sent w; lb_inbox := lb_inbox w |}, r).
Definition lb_push (w : Loopback) (v6 : bool) (d : bytes * SocketAddr) : Loopback :=
  {| lb_dns := lb_dns w; lb_remote := lb_remote w; lb_sent := lb_sent w;
     lb_inbox := λ f, if Bool.eqb f v6 then lb_inbox w f ++ [d] else lb_inbox w f |}.
Definition lb_send_to (w : Loopback) (v6 : bool) (payload : bytes) (a : SocketAddr) : Loopback * result ErrorKind nat :=
  let w := {| lb_dns := lb_dns w; lb_remote := lb_remote w; lb_sent := lb_sent w ++ [(a, payload)]; lb_inbox := lb_inbox w |} in
  (match lb_remote w a payload with Some reply => lb_push w v6 (reply, a) | None => w end, Ok (length payload)).
Definition lb_recv_from (w : Loopback) (v6 : bool) (n : nat) : Loopback * result ErrorKind (bytes * SocketAddr) :=
  match lb_inbox w v6 with
  | [] => (w, Err EWouldBlock)
  | (payload, source) :: rest =>
      ({| lb_dns := lb_dns w; lb_remote := lb_remote w; lb_sent := lb_sent w;
          lb_inbox := λ f, if Bool.eqb f v6 then rest else lb_inbox w f |}, Ok (take n payload, source))
  end.
Definition lb_bind (w : Loopback) (_ : SocketAddr) : Loopback * result ErrorKind unit := (w, Ok tt).
Definition lb_register (w : Loopback) (_ : bool) (_ : Z) : Loopback * result ErrorKind unit := (w, Ok tt).

Definition LoopbackAssociation : Type := DirectDatagramAssociation (W:=Loopback).
#[local] Instance loopback_execution : DatagramExecution LoopbackAssociation :=
  Direct_execution lb_resolve lb_send_to lb_recv_from lb_register.

(** [DnsEngine::system(HostsTable::parse(hosts).unwrap())]; no system resolver. *)
Definition test_dns (hosts : str) (k : DnsEngine unit → bool) : bool :=
  unwrap (HostsTable_parse hosts) (λ table, k (DnsEngine_system no_system table)).
Definition loopback (d : DnsEngine unit) (remote : SocketAddr → bytes → option bytes) : Loopback :=
  {| lb_dns := d; lb_remote := remote; lb_sent := []; lb_inbox := λ _, [] |}.
(** One remote that answers what it expects and nothing else. *)
Definition remote_at (address : SocketAddr) (expected reply : bytes) (a : SocketAddr) (payload : bytes) : option bytes :=
  if bool_decide (a = address) && bool_decide (payload = expected) then Some reply else None.

(** [DirectDatagramAssociation::new(dns(hosts)).unwrap()] *)
Definition association (hosts : str) (remote : SocketAddr → bytes → option bytes) (k : LoopbackAssociation → bool) : bool :=
  test_dns hosts (λ d, unwrap (DirectDatagramAssociation_new lb_bind (loopback d remote)).2 k).

(** [association.send(&target, payload).unwrap()] *)
Definition sending (a : LoopbackAssociation) (target : Target) (payload : bytes) (k : LoopbackAssociation → bool) : bool :=
  let '(a, r) := dg_send a target payload in unwrap r (λ _, k a).

(** The loop of [receive_until], a number of attempts in place of the deadline. *)
Fixpoint receive_until (attempts : nat) (a : LoopbackAssociation) (buffer : nat) : LoopbackAssociation * result ErrorKind ReceivedDatagram :=
  match attempts with
  | O => (a, Err ETimedOut)
  | S attempts =>
      match dg_receive a buffer with
      | (a, Ok (Some received)) => (a, Ok received)
      | (a, Ok None) => receive_until attempts a buffer
      | (a, Err e) => (a, Err e)
      | (a, Panic) => (a, Panic)
      end
  end.

(** ** Direct associations *)
Definition test_direct_ipv4_round_trip_preserves_source : bool :=
  let remote_address := sock_new LOCALHOST 40011 in
  association [] (remote_at remote_address (#"ping") (#"pong")) (λ a,
  unwrap (Target_new (Ip LOCALHOST) (sock_port remote_address)) (λ target,
  sending a target (#"ping") (λ a,
  unwrap (receive_until 3 a 64).2 (λ received,
    assert_eq (dg_payload received) (#"pong")
    && assert_eq (host (dg_source received)) (Ip (sock_ip remote_address))
    && assert_eq (port (dg_source received)) (sock_port remote_address))))).

Definition test_direct_domain_resolution_is_owned_by_association : bool :=
  let remote_address := sock_new LOCALHOST 40012 in
  association (#"127.0.0.1 direct.test") (λ _ _, None) (λ a,
  unwrap (Target_new (Domain (#"direct.test")) (sock_port remote_address)) (λ target,
  sending a target (#"domain-route") (λ a,
    assert_eq (lb_sent (net a)) [(remote_address, #"domain-route")]
    && assert_eq (size (remote_peers a)) 1))).

Definition test_zero_length_datagram_is_valid : bool :=
  let remote_address := sock_new LOCALHOST 40013 in
  association [] (λ _ _, None) (λ a,
  unwrap (Target_new (Ip (sock_ip remote_address)) (sock_port remote_address)) (λ target,
  sending a target [] (λ a, assert_eq (lb_sent (net a)) [(remote_address, [])]))).

Definition test_unsolicited_remote_is_not_exposed : bool :=
  association [] (λ _ _, None) (λ a,
    let a := set_net a (lb_push (net a) false (#"unsolicited", sock_new LOCALHOST 40014)) in
    assert_kind (receive_until 8 a 64).2 ETimedOut).

(** The targets of the loop over [ports]. *)
Fixpoint sending_each (ports : list Z) (a : LoopbackAssociation) (payload : bytes) (k : LoopbackAssociation → bool) : bool :=
  match ports with
  | [] => k a
  | p :: ports => unwrap (Target_new (Ip LOCALHOST) p) (λ target, sending a target payload (λ a, sending_each ports a payload k))
  end.

Definition test_remote_peer_limit_is_bounded : bool :=
  association [] (λ _ _, None) (λ a,
  sending_each (map (λ i, 10000 + Z.of_nat i)%Z (seq 0 MAX_DATAGRAM_REMOTE_PEERS)) a (#"x") (λ a,
    assert_eq (size (remote_peers a)) MAX_DATAGRAM_REMOTE_PEERS
    && unwrap (Target_new (Ip LOCALHOST) 20000) (λ overflow, assert_kind (dg_send a overflow (#"x")).2 EQuotaExceeded))).

Definition test_direct_ipv6_round_trip : bool :=
  let remote_address := sock_new LOCALHOST_V6 40015 in
  association [] (remote_at remote_address (#"v6-ping") (#"v6-pong")) (λ a,
  unwrap (Target_new (Ip (sock_ip remote_address)) (sock_port remote_address)) (λ target,
  sending a target (#"v6-ping") (λ a,
  unwrap (receive_until 3 a 64).2 (λ received,
    assert_eq (dg_payload received) (#"v6-pong")
    && assert_eq (host (dg_source received)) (Ip (sock_ip remote_address)))))).

(** ** Route sets *)

(** [FakeExecution]: the number of sends. *)
Record FakeExecution := { sends : nat }.
#[local] Instance fake_execution : DatagramExecution FakeExecution := {
  dg_send x _ _ := ({| sends := S (sends x) |}, Ok tt);
  dg_receive x _ := (x, Ok None);
  readiness_source_count _ := 1;
  register_readiness x tokens := (x, if length tokens =? 1 then Ok tt else Err EInvalidInput);
}.
Definition fake_open (opens : nat) (_ : Endpoint) : nat * result ErrorKind FakeExecution := (S opens, Ok {| sends := 0 |}).

(** [routes.send_with(...)] for each endpoint, unwrapping. *)
Fixpoint routing (es : list str) (rs : DatagramRouteSet FakeExecution) (al : DatagramTokenAllocator) (opens : nat)
    (target : Target) (k : DatagramRouteSet FakeExecution → DatagramTokenAllocator → nat → bool) : bool :=
  match es with
  | [] => k rs al opens
  | e :: es =>
      unwrap (EndpointId_new e) (λ id,
      let '(rs, al, opens, r) := send_with rs al opens (Proxy id) target (#"x") fake_open in
      unwrap r (λ _, routing es rs al opens target k))
  end.

Definition test_route_set_lazily_opens_once_per_endpoint : bool :=
  unwrap (Target_new (Ip LOCALHOST) 53) (λ target,
  routing [ #"proxy-a"; #"proxy-a"] DatagramRouteSet_new (DatagramTokenAllocator_new 8) 0 target (λ rs _ opens,
    assert_eq opens 1
    && assert_eq (map (λ e, sends (execution e.2)) (map_to_list (routes rs))) [2]
    && assert_eq (size (routes rs)) 1
    && owns_token map_to_list rs 8
    && negb (owns_token map_to_list rs 9))).

Definition test_route_set_rejects_unbounded_endpoint_growth : bool :=
  unwrap (Target_new (Ip LOCALHOST) 53) (λ target,
  routing (map (λ i, #"proxy-" ++ show_dec (Z.of_nat i)) (seq 0 MAX_DATAGRAM_ROUTES))
    DatagramRouteSet_new (DatagramTokenAllocator_new 32) 0 target (λ rs al opens,
    assert_eq (size (routes rs)) MAX_DATAGRAM_ROUTES
    && unwrap (EndpointId_new (#"proxy-overflow")) (λ overflow,
         let '(rs, _, _, r) := send_with rs al opens (Proxy overflow) target (#"x") fake_open in
         assert_kind r EQuotaExceeded && assert_eq (size (routes rs)) MAX_DATAGRAM_ROUTES))).

(** ** Whole SOCKS5 UDP associations

    The client's host, the relay socket and the poll of one association: the
    batches of events still to come, the datagrams waiting at the relay socket
    and those it sent, and how many direct associations were opened. *)
Record UdpHost := {
  uh_polls : list (list Event);
  uh_in : list (bytes * SocketAddr);
  uh_sent : list (bytes * SocketAddr);
  uh_direct_opens : nat;
}.
Definition event (token : Z) (readable read_closed : bool) : Event :=
  {| ev_token := token; ev_readable := readable; ev_writable := false; ev_read_closed := read_closed; ev_error := false |}.
#[export] Instance UdpHost_net : UdpNet UdpHost := {
  relay_recv_from w _ :=
    match uh_in w with
    | p :: ps => ({| uh_polls := uh_polls w; uh_in := ps; uh_sent := uh_sent w; uh_direct_opens := uh_direct_opens w |}, Ok p)
    | [] => (w, Err EWouldBlock)
    end;
  relay_send_to w p a :=
    ({| uh_polls := uh_polls w; uh_in := uh_in w; uh_sent := uh_sent w ++ [(p, a)]; uh_direct_opens := uh_direct_opens w |},
     Ok (length p));
  control_read w _ := (w, Ok []);
  poll w _ :=
    match uh_polls w with
    | b :: bs => ({| uh_polls := bs; uh_in := uh_in w; uh_sent := uh_sent w; uh_direct_opens := uh_direct_opens w |}, Ok b)
    | [] => (w, Err EOther)
    end;
  reregister_relay w _ := (w, Ok tt);
  net_now w := (w, 0%Z);
  replies := uh_sent;
  send_patience _ := 0;
}.

Definition echo_address : SocketAddr := sock_new LOCALHOST 40021.
Definition client_udp : SocketAddr := sock_new LOCALHOST 40022.
Definition relay_socket : SocketAddr := sock_new LOCALHOST 40023.
Definition direct_runtime : Runtime := Runtime_new (PolicyEngine_new [] (PRoute Direct)).

(** [test_dns] *)
Definition system_only : DnsEngine unit := DnsEngine_system no_system HostsTable_default.

(** The direct association of the daemon, on a network with an echo server. *)
Definition open_echo (engine : DnsEngine unit) (w : UdpHost) : UdpHost * result ErrorKind LoopbackAssociation :=
  ({| uh_polls := uh_polls w; uh_in := uh_in w; uh_sent := uh_sent w; uh_direct_opens := S (uh_direct_opens w) |},
   (DirectDatagramAssociation_new lb_bind
      (loopback engine
         (λ a payload, if bool_decide (a = echo_address) then Some payload else None))).2).
Definition open_none (w : UdpHost) (_ : unit) : UdpHost * result ErrorKind LoopbackAssociation := (w, Err EOther).

(** What [establish_udp_association] writes on the control connection, and how
    it reads the relay's address from what comes back. *)
Definition control_connection : script_conn :=
  {| sc_in := [[x05; x01; x00]; [x05; x03; x00; x01; x00; x00; x00; x00; x00; x00]]; sc_sent := [] |}.
Definition establish_udp_association (received : bytes) : option SocketAddr :=
  match received with
  | x05 :: x00 :: x05 :: x00 :: x00 :: x01 :: rest =>
      Some (sock_new (V4 (be_value (take 4 rest))) (be_value (take 2 (drop 4 rest))))
  | x05 :: x00 :: x05 :: x00 :: x00 :: x04 :: rest =>
      Some (sock_new (V6 (be_value (take 16 rest))) (be_value (take 2 (drop 16 rest))))
  | _ => None
  end.

(** [spawn_udp_test_server]: the handler on one accepted connection. *)
Definition udp_test_server (engine : DnsEngine unit) (runtime : Runtime) (polls : list (list Event)) (packets : list (bytes * SocketAddr))
    : script_conn * UdpHost * Z * result ErrorKind unit :=
  socks5_handle (open_echo engine) open_none map_to_list runtime default_registry
    (λ _, Ok (sock_new LOCALHOST 50000)) (λ _, Ok (sock_new LOCALHOST 1080))
    (λ w _, (w, Ok relay_socket)) (λ _ w, (w, Ok tt))
    (λ w _ _, (w, Err (A:=unit) EOther)) (λ _, None) (λ w _ _, (w, Ok tt)) (λ s _, (s, Ok tt))
    (S (length polls)) control_connection
    {| uh_polls := polls; uh_in := packets; uh_sent := []; uh_direct_opens := 0 |} 1.

Definition client_ready : list Event := [event UDP_CLIENT_TOKEN true false].
Definition outbound_ready : list Event := [event UDP_OUTBOUND_FIRST_TOKEN true false].
Definition control_dropped : list Event := [event UDP_CONTROL_TOKEN true true].

Definition test_udp_associate_round_trip_uses_direct_datagram_association : bool :=
  unwrap (Target_new (Ip (sock_ip echo_address)) (sock_port echo_address)) (λ target,
  unwrap (encode_udp_response target (#"udp-through-association")) (λ request,
  let '(control, w, _, r) :=
    udp_test_server system_only direct_runtime [client_ready; outbound_ready; control_dropped] [(request, client_udp)] in
  assert_eq (establish_udp_association (sc_sent control)) (Some relay_socket)
  && match uh_sent w with
     | [(response, to)] =>
         assert_eq to client_udp
         && unwrap (parse_udp_request response) (λ '(source, payload),
              assert_eq (host source) (Ip (sock_ip echo_address))
              && assert_eq (port source) (sock_port echo_address)
              && assert_eq payload (#"udp-through-association"))
     | _ => false
     end
  && is_ok r)).

Definition test_proxy_udp_route_never_falls_back_to_direct : bool :=
  unwrap (EndpointId_new (#"missing-udp-proxy")) (λ proxy_id,
  unwrap (Target_new (Ip (sock_ip echo_address)) (sock_port echo_address)) (λ target,
  unwrap (encode_udp_response target (#"must-not-fall-through")) (λ request,
  let '(control, w, _, r) :=
    udp_test_server system_only (Runtime_new (PolicyEngine_new [] (PRoute (Proxy proxy_id))))
      [client_ready; control_dropped] [(request, client_udp)] in
  assert_eq (establish_udp_association (sc_sent control)) (Some relay_socket)
  && assert_eq (uh_direct_opens w) 0
  && assert_eq (uh_sent w) []
  && is_ok r))).

Definition test_closing_udp_control_connection_wakes_executor : bool :=
  let '(control, _, _, r) := udp_test_server system_only direct_runtime [control_dropped] [] in
  assert_eq (establish_udp_association (sc_sent control)) (Some relay_socket) && is_ok r.

Definition udp_tests : list bool :=
  [test_direct_ipv4_round_trip_preserves_source; test_direct_domain_resolution_is_owned_by_association;
   test_zero_length_datagram_is_valid; test_unsolicited_remote_is_not_exposed; test_remote_peer_limit_is_bounded;
   test_direct_ipv6_round_trip; test_route_set_lazily_opens_once_per_endpoint;
   test_route_set_rejects_unbounded_endpoint_growth;
   test_udp_associate_round_trip_uses_direct_datagram_association;
   test_proxy_udp_route_never_falls_back_to_direct; test_closing_udp_control_connection_wakes_executor].

Lemma udp_tests_pass : Forall (eq true) udp_tests.
Proof. unfold udp_tests. run_tests; vm_compute; reflexivity. Qed.
