(* ===== verification/TransportTests.v ===== *)
(** * The tests of the TLS transport ([transport/src/tls_tests.rs])

    They run on the machine of [EdgePoll]: its server is the test's server
    thread, its application the test's own socket, and its poll is
    edge-triggered. Certificates are reduced to the name they are issued for,
    which a handshake compares with the one it was given. *)

From S2P Require Import Prelude RustStr RustNet Flow Policy DnsBase Proxy Trojan Datagram TrojanDatagram Conn.
From S2P Require Import Protocol Outbound Sockets TlsRelay EdgePoll CoreTests DnsTests ConfigTests DaemonTests.

Definition SERVER_NAME : str := #"proxy.test".

(** ** Handshakes *)

(** A connection: the name asked for, and whether it is established. *)
Record TestTls := { asked_name : str; established : bool }.
Definition test_tls_new (w : unit) (name : str) : unit * result ErrorKind TestTls :=
  (w, Ok {| asked_name := name; established := false |}).
(** The handshake with a server whose certificate is for [SERVER_NAME]. *)
Definition test_complete_io (w : unit) (t : TestTls) (socket : Socket) : unit * TestTls * result ErrorKind unit :=
  if bool_decide (asked_name t = SERVER_NAME)
  then (w, {| asked_name := asked_name t; established := true |}, Ok tt)
  else (w, t, Err EInvalidData).
Definition test_transport_connect (name : str) : result ErrorKind (Session (T:=TestTls)) :=
  transport ← TlsTransport_with_client_config dns_name (sock_new (V4 2130706433) 40051) name;
  (transport_connect (λ w _ _, (w, Ok tt)) test_tls_new (λ t _, t) test_complete_io (λ t, negb (established t))
     tt (TlsConfig transport)).2.

(** [spawn_tls_echo] as the peer of a session. *)
Definition spawn_tls_echo : Machine := Machine_new [] [PEcho] false.

(** A blocking [write_all] and [flush], and then [read_exact], on a session
    over the machine: [rustls::Stream] moves records until it can return. *)
Fixpoint stream_read_exact (fuel : nat) (m : Machine) (n : nat) (got : bytes) : result ErrorKind bytes :=
  if n <=? length got then Ok (take n got)
  else match fuel with
  | O => Err ETimedOut
  | S fuel =>
      match tls_read m (Z.of_nat n) with
      | (m, Ok []) => Err EUnexpectedEof
      | (m, Ok b) => stream_read_exact fuel m n (got ++ b)
      | (m, Err EWouldBlock) =>
          match tls_read_io m, peers_step m with
          | (m, Ok (S _)), _ => stream_read_exact fuel m n got
          | _, Some m => stream_read_exact fuel m n got
          | _, None => Err ETimedOut
          end
      | (m, Err e) => Err e
      | (m, Panic) => Panic
      end
  end.
Definition stream_ping (m : Machine) (request : bytes) : result ErrorKind bytes :=
  let '(m, _) := tls_write m request in
  let '(m, r) := write_remote_tls m in
  _u ← r; stream_read_exact 10 m (length request) [].

Definition test_trusted_certificate_and_matching_server_name_handshake : bool :=
  unwrap (test_transport_connect SERVER_NAME) (λ session,
  match session with
  | TlsSession connection _ => established connection
  | TcpSession _ => false
  end
  && unwrap (stream_ping spawn_tls_echo (#"ping")) (λ reply, assert_eq reply (#"ping"))).

Definition test_trusted_ca_does_not_bypass_server_name_verification : bool :=
  negb (is_ok (test_transport_connect (#"wrong.test"))).

(** ** The relay *)
Definition test_tls_transport_session_relays_bidirectionally_and_half_closes : bool :=
  let message := #"through-tls-relay" in
  let '(r, result) := relay_loop 30 (relay_new (Machine_new [PSend message; PRecv 17; PEnd] [PEcho] false)) in
  let m := r_net r in
  is_ok result && assert_eq (app_got m) message
  && (length (app m) =? 0) && (length (server m) =? 0).

(** ** The framed session *)
Definition TOKEN : Z := 7.
Definition FramedTest : Type := TlsFramedSession Machine.
Definition framed_poll (s : FramedTest) : FramedTest * list RelayEvent :=
  match relay_poll (f_net s) with
  | (m, Ok evs) => (set_f_net s m, evs)
  | (m, _) => (set_f_net s m, [])
  end.
Definition of_session (ev : RelayEvent) : bool := match re_side ev with Some SideRemote => true | _ => false end.

(** [framed.service_io().unwrap()] and [refresh_readiness] per event. *)
Fixpoint service_events (evs : list RelayEvent) (s : FramedTest) : option FramedTest :=
  match evs with
  | [] => Some s
  | ev :: evs =>
      if negb (of_session ev) then None
      else match framed_service s with
      | (s, Ok _) => match framed_refresh s TOKEN with (s, Ok _) => service_events evs s | _ => None end
      | _ => None
      end
  end.
(** The server has read the request and waits to be released. *)
Definition server_received (s : FramedTest) : bool := match server (f_net s) with PGate :: _ => true | _ => false end.
Fixpoint until_received (fuel : nat) (s : FramedTest) : option FramedTest :=
  if server_received s then Some s
  else match fuel with
  | O => None
  | S fuel => let '(s, evs) := framed_poll s in s ← service_events evs s; until_received fuel s
  end.

(** The inner loop of the second half: plaintext is read until it would block. *)
Fixpoint read_all (fuel : nat) (s : FramedTest) (reply : bytes) : option (FramedTest * bytes) :=
  match fuel with
  | O => None
  | S fuel =>
      match framed_read s 32 with
      | (s, Ok []) => Some (s, reply)
      | (s, Ok b) => read_all fuel s (reply ++ b)
      | (s, Err EWouldBlock) => Some (s, reply)
      | _ => None
      end
  end.
Fixpoint reply_events (evs : list RelayEvent) (s : FramedTest) (reply : bytes) : option (FramedTest * bytes) :=
  match evs with
  | [] => Some (s, reply)
  | ev :: evs =>
      if negb (of_session ev) then None
      else match framed_service s with
      | (s, Ok _) =>
          '(s, reply) ← read_all 10 s reply;
          match framed_refresh s TOKEN with (s, Ok _) => reply_events evs s reply | _ => None end
      | _ => None
      end
  end.
Fixpoint until_reply (fuel : nat) (s : FramedTest) (reply : bytes) : option bytes :=
  if 10 <=? length reply then Some reply
  else match fuel with
  | O => None
  | S fuel =>
      let '(s, evs) := framed_poll s in
      '(s, reply) ← reply_events evs s reply;
      until_reply fuel s reply
  end.
Definition release (s : FramedTest) : FramedTest :=
  let m := f_net s in set_f_net s (set_server m (drop 1 (server m)) (up_wire m) (down_wire m) (down_fin m)).

Definition test_framed_tls_session_is_readiness_driven_without_writable_spin : bool :=
  let m := Machine_new [] [PRecv 10; PGate; PSend (#"frame-"); PSend (#"pong")] false in
  let framed := {| f_net := m; registration := Registration_default; f_remote_eof := false |} in
  let '(framed, r) := framed_register framed TOKEN in
  unwrap r (λ _,
  let '(framed, written) := framed_write framed (#"frame-ping") in
  unwrap written (λ written, assert_eq written 10
  && let '(framed, r) := framed_refresh framed TOKEN in
     unwrap r (λ _,
     unwrap_opt (until_received 10 framed) (λ framed,
     assert_eq (to_remote (f_net framed)) (#"frame-ping")
     && let '(framed, evs) := framed_poll framed in
        (length evs =? 0)
        && unwrap_opt (until_reply 10 (release framed) []) (λ reply, assert_eq reply (#"frame-pong")))))).

Definition transport_tests : list bool :=
  [test_trusted_certificate_and_matching_server_name_handshake;
   test_trusted_ca_does_not_bypass_server_name_verification;
   test_tls_transport_session_relays_bidirectionally_and_half_closes;
   test_framed_tls_session_is_readiness_driven_without_writable_spin].

Lemma transport_tests_pass : Forall (eq true) transport_tests.
Proof. unfold transport_tests. run_tests; vm_compute; reflexivity. Qed.
