(* ===== verification/E2eTests.v ===== *)
(** * The end-to-end tests ([daemon/src/e2e.rs], [outbound_e2e.rs],
    [tls_outbound_e2e.rs], [trojan_outbound_e2e.rs], [trojan_udp_e2e.rs])

    A client talks to a listener, the daemon to an upstream proxy or to the
    target. The daemon is the composition of [System]; an outbound connection
    leads to a server program, which is the test's server thread: from all it
    has received so far it computes all it has sent. TLS is transparent. A
    relay hands the rest of the client's bytes to the remote and the rest of
    the remote's bytes to the client, which is what [TcpRelay] and [TlsRelay]
    prove of the two relays. *)

From S2P Require Import Prelude RustStr RustNet Flow Policy DnsBase DnsWire DnsCache DnsEngine.
From S2P Require Import Proxy Trojan Datagram TrojanDatagram Conn HttpConnect Protocol Outbound.
From S2P Require Import Socks5 Socks5Udp Config Transparent Server System Sha224 CoreTests DnsTests.
From S2P Require Import ConfigTests DaemonTests UdpTests.

(** ** Connections with a program behind them *)

(** [rc_server] maps all bytes received to all bytes sent; [rc_read] of those
    have been read. *)
Record RemoteConn := { rc_received : bytes; rc_read : nat; rc_server : bytes → bytes }.
Definition rc_unread (r : RemoteConn) : bytes := drop (rc_read r) (rc_server r (rc_received r)).
Definition rc_advance (r : RemoteConn) (n : nat) : RemoteConn :=
  {| rc_received := rc_received r; rc_read := rc_read r + n; rc_server := rc_server r |}.
Definition rc_write (r : RemoteConn) (b : bytes) : RemoteConn :=
  {| rc_received := rc_received r ++ b; rc_read := rc_read r; rc_server := rc_server r |}.

(** Both ends the daemon holds: its client, and the remote it opened. *)
Inductive EndConn :=
| ClientEnd (c : script_conn)
| RemoteEnd (r : RemoteConn).
Definition end_read (s : EndConn) (n : nat) : EndConn * result ErrorKind bytes :=
  match s with
  | ClientEnd c => let '(c, r) := script_read c n in (ClientEnd c, r)
  | RemoteEnd r => (RemoteEnd (rc_advance r (length (take n (rc_unread r)))), Ok (take n (rc_unread r)))
  end.
Definition end_read_exact (s : EndConn) (n : nat) : EndConn * result ErrorKind bytes :=
  match s with
  | ClientEnd c => let '(c, r) := script_read_exact c n in (ClientEnd c, r)
  | RemoteEnd r =>
      if length (rc_unread r) <? n then (RemoteEnd (rc_advance r (length (rc_unread r))), Err EUnexpectedEof)
      else (RemoteEnd (rc_advance r n), Ok (take n (rc_unread r)))
  end.
Definition end_write_all (s : EndConn) (b : bytes) : EndConn * result ErrorKind unit :=
  match s with
  | ClientEnd c => let '(c, r) := script_write_all c b in (ClientEnd c, r)
  | RemoteEnd r => (RemoteEnd (rc_write r b), Ok tt)
  end.
#[local] Instance end_Conn : Conn EndConn := {
  conn_read := end_read;
  conn_read_exact := end_read_exact;
  conn_write_all := end_write_all;
  conn_flush s := (s, Ok tt);
  incoming s := match s with ClientEnd c => mjoin (sc_in c) | RemoteEnd r => rc_unread r end;
  sent s := match s with ClientEnd c => sc_sent c | RemoteEnd r => rc_received r end;
}.

(** The network: the program listening at each address, and the tunnels that
    were relayed, each with what the remote received and the client got. *)
Record Net := { n_servers : list (SocketAddr * (bytes → bytes)); n_tunnels : list (bytes * bytes) }.
Definition net_connect (n : Net) (a : SocketAddr) : Net * result ErrorKind EndConn :=
  (n, match List.find (λ s, bool_decide (s.1 = a)) (n_servers n) with
      | Some s => Ok (RemoteEnd {| rc_received := []; rc_read := 0; rc_server := s.2 |})
      | None => Err EConnectionRefused
      end).
Definition net_dial (n : Net) (t : TransportConfig) : Net * result ErrorKind EndConn :=
  net_connect n (match t with TcpConfig t => tcp_address t | TlsConfig t => tls_address t end).
Definition net_relay (n : Net) (remote client : EndConn) : Net * result ErrorKind unit :=
  let remote := (end_write_all remote (incoming client)).1 in
  ({| n_servers := n_servers n; n_tunnels := n_tunnels n ++ [(sent remote, sent client ++ incoming remote)] |}, Ok tt).

(** ** The daemon under test ([spawn_test_listener_with_runtime] of [server.rs]) *)
Definition TestWorld : Type := World Net EndConn.
Definition test_config (runtime : Runtime) (engine : DnsEngine Net) (outbounds : OutboundRegistry TrojanDatagramProvider)
    : CompiledConfig (W:=Net) :=
  {| c_listeners := []; c_blocklists := []; c_hosts := []; c_dns_resolvers := []; c_runtime := runtime;
     c_dns := engine; c_outbounds := outbounds |}.

(** The inbounds as [handle_connection] calls them. The second component keeps
    what each client had been sent when its handler gave it up. *)
Definition test_connect_tcp (c : CompiledConfig (W:=Net)) : TestWorld → Endpoint → Target → TestWorld * result ErrorKind EndConn :=
  sys_connect_tcp map_to_list (λ n, (n, 0%Z)) (λ n a _, net_connect n a) (λ _, Ok tt) net_dial (c_outbounds c).
Definition test_socks5 (c : CompiledConfig (W:=Net)) (p : TestWorld * list bytes) (client : EndConn)
    : TestWorld * list bytes * result ErrorKind unit :=
  let '(client, w, n, r) :=
    Socks5.handle (test_connect_tcp c) (λ _, None) (sys_relay net_relay) (λ s _, (s, Ok tt))
      (λ s w n _, (s, w, n, Err EUnsupported)) (c_runtime c) client p.1 (next_flow_id p.1) in
  (with_flow w n, p.2 ++ [sent client], r).
Definition test_http (c : CompiledConfig (W:=Net)) (p : TestWorld * list bytes) (client : EndConn)
    : TestWorld * list bytes * result ErrorKind unit :=
  let '(st, r) :=
    HttpConnect.handle (test_connect_tcp c) conn_write_all (sys_relay net_relay) (λ s _, (s, Ok tt)) (#"0.1")
      (c_runtime c) client p.1 (next_flow_id p.1) in
  (with_flow (h_world st) (h_next_flow st), p.2 ++ [sent (h_client st)], r).
Definition test_handle_connection (c : CompiledConfig (W:=Net)) (p : TestWorld * list bytes) (protocol : ListenerProtocol)
    (client : EndConn) : TestWorld * list bytes * result ErrorKind unit :=
  handle_connection (test_socks5 c) (test_http c) (λ p _, (p, Err EUnsupported)) p protocol client.

(** [serve_n]: a handler that fails ends its own connection only; one that
    panics fails the listener. *)
Fixpoint serve_n (c : CompiledConfig (W:=Net)) (protocol : ListenerProtocol) (p : TestWorld * list bytes)
    (clients : list EndConn) : TestWorld * list bytes * result ErrorKind unit :=
  match clients with
  | [] => (p, Ok tt)
  | client :: clients =>
      match test_handle_connection c p protocol client with
      | (p, Panic) => (p, Err EOther)
      | (p, _) => serve_n c protocol p clients
      end
  end.

(** The listener with the clients that connect to it, each given by the pieces
    it writes: the tunnels, what clients without one got, and the result. *)
Definition spawn_test_listener_with_runtime (servers : list (SocketAddr * (bytes → bytes))) (protocol : ListenerProtocol)
    (runtime : Runtime) (engine : DnsEngine Net) (outbounds : OutboundRegistry TrojanDatagramProvider)
    (clients : list (list bytes)) : list (bytes * bytes) * list bytes * result ErrorKind unit :=
  let '(p, r) := serve_n (test_config runtime engine outbounds) protocol
    ({| env := {| n_servers := servers; n_tunnels := [] |}; dns := engine; log := []; next_flow_id := 1 |}, [])
    (map (λ pieces, ClientEnd {| sc_in := pieces; sc_sent := [] |}) clients) in
  (n_tunnels (env p.1), p.2, r).
Definition system_dns (hosts : HostsTable) : DnsEngine Net := DnsEngine_system (λ n _, (n, None)) hosts.
Definition no_outbounds : OutboundRegistry TrojanDatagramProvider := {| endpoints := ∅ |}.
Definition spawn_test_listener_with_dns (servers : list (SocketAddr * (bytes → bytes))) (protocol : ListenerProtocol)
    (runtime : Runtime) (engine : DnsEngine Net) (clients : list (list bytes)) :=
  spawn_test_listener_with_runtime servers protocol runtime engine no_outbounds clients.
Definition spawn_test_listener (servers : list (SocketAddr * (bytes → bytes))) (protocol : ListenerProtocol)
    (runtime : Runtime) (clients : list (list bytes)) :=
  spawn_test_listener_with_runtime servers protocol runtime (system_dns HostsTable_default) no_outbounds clients.

(** ** Direct tunnels ([e2e.rs]) *)
Definition HOSTS_ONLY_NAME : str := #"commeatus-dns.test".
Definition hosts_dns (k : DnsEngine Net → bool) : bool :=
  unwrap (HostsTable_parse (#"127.0.0.1 " ++ HOSTS_ONLY_NAME ++ [x0a])) (λ hosts, k (system_dns hosts)).
Definition echo_tcp : SocketAddr := sock_new LOCALHOST 40031.
(** [spawn_echo_server]: whatever arrives is written back. *)
Definition echo_server (received : bytes) : bytes := received.

(** The client's side of a SOCKS5 connection: what it writes, and how it reads
    the answers from a stream of bytes. *)
Definition socks5_greeting : bytes := [x05; x01; x00].
Definition read_socks5_method (stream : script_conn) : script_conn * result ErrorKind unit :=
  let! stream method := conn_read_exact stream 2 in
  (stream, if bool_decide (method = [x05; x00]) then Ok tt else Err EOther).
Definition read_socks5_reply (stream : script_conn) : script_conn * result ErrorKind (byte * SocketAddr) :=
  let! stream head := conn_read_exact stream 4 in
  let reply_code := nth 1 head x00 in
  let kind := nth 3 head x00 in
  if bool_decide (kind = x01) then
    let! stream tail := conn_read_exact stream 6 in
    (stream, Ok (reply_code, sock_new (V4 (be_value (take 4 tail))) (be_value (drop 4 tail))))
  else if bool_decide (kind = x04) then
    let! stream tail := conn_read_exact stream 18 in
    (stream, Ok (reply_code, sock_new (V6 (be_value (take 16 tail))) (be_value (drop 16 tail))))
  else (stream, Err EOther).
Definition socks5_request (target : SocketAddr) : bytes :=
  [x05; x01; x00; x01] ++ addr_octets (sock_ip target) ++ u16_be (sock_port target).
Definition socks5_domain_request (domain : str) (port : Z) : bytes :=
  [x05; x01; x00; x03; z2b (Z.of_nat (length domain))] ++ domain ++ u16_be port.

(** A client's view of the bytes it got: [connect_socks5] and then the tunnel. *)
Definition connect_socks5 (stream : script_conn) : script_conn * result ErrorKind byte :=
  let! stream _m := read_socks5_method stream in
  let! stream reply := read_socks5_reply stream in
  (stream, Ok reply.1).
Definition stream_of (got : bytes) : script_conn := {| sc_in := [got]; sc_sent := [] |}.
(** [reply == expected], and then the payload comes back. *)
Definition socks5_tunnel_echoes (got payload : bytes) : bool :=
  let '(tunnel, reply) := connect_socks5 (stream_of got) in
  unwrap reply (λ reply, assert_eq reply x00
    && unwrap (conn_read_exact tunnel (length payload)).2 (λ echoed, assert_eq echoed payload)).
(** The one tunnel of a listener that ended well. *)
Definition one_tunnel (run : list (bytes * bytes) * list bytes * result ErrorKind unit) (k : bytes → bytes → bool) : bool :=
  let '(tunnels, _, r) := run in
  is_ok r && match tunnels with [(to_remote, to_client)] => k to_remote to_client | _ => false end.

Definition test_socks5_connect_relays_bytes_end_to_end : bool :=
  let payload := #"socks-through-commeatus" in
  one_tunnel (spawn_test_listener [(echo_tcp, echo_server)] LSocks5 direct_runtime
                [[socks5_greeting; socks5_request echo_tcp; payload]])
    (λ _ got, socks5_tunnel_echoes got payload).

Definition test_socks5_domain_connect_uses_hosts_override_end_to_end : bool :=
  let payload := #"hosts-through-dns-engine" in
  hosts_dns (λ engine,
  one_tunnel (spawn_test_listener_with_dns [(echo_tcp, echo_server)] LSocks5 direct_runtime engine
                [[socks5_greeting; socks5_domain_request HOSTS_ONLY_NAME (sock_port echo_tcp); payload]])
    (λ _ got, socks5_tunnel_echoes got payload)).

(** [read_http_head] over the bytes the client got. *)
Definition read_http_head (stream : script_conn) : script_conn * result ErrorKind bytes := read_http_response_head stream.
Definition http_request (authority rest : bytes) : bytes :=
  #"CONNECT " ++ authority ++ #" HTTP/1.1" ++ CRLF ++ #"Host: " ++ authority ++ CRLF ++ CRLF ++ rest.

Definition test_http_connect_relays_buffered_and_live_bytes_end_to_end : bool :=
  one_tunnel (spawn_test_listener [(echo_tcp, echo_server)] LHttpConnect direct_runtime
                [[http_request (show_socket_addr echo_tcp) (#"early"); #"live"]])
    (λ _ got,
      let '(tunnel, head) := read_http_head (stream_of got) in
      unwrap head (λ response, starts_with (#"HTTP/1.1 200") response
        && let '(tunnel, early) := conn_read_exact tunnel 5 in
           unwrap early (λ early, assert_eq early (#"early")
             && unwrap (conn_read_exact tunnel 4).2 (λ live, assert_eq live (#"live"))))).

Definition test_reject_policy_blocks_before_outbound_connect : bool :=
  let runtime := Runtime_new (PolicyEngine_new
    [{| rule_id := 1; rule_tier := UserHard; rule_matcher := MPort (sock_port echo_tcp); rule_action := PReject RejectPolicy |}]
    (PRoute Direct)) in
  let '(tunnels, got, r) :=
    spawn_test_listener [(echo_tcp, echo_server)] LSocks5 runtime [[socks5_greeting; socks5_request echo_tcp]] in
  is_ok r && match tunnels with [] => true | _ => false end
  && match got with
     | [got] => unwrap (connect_socks5 (stream_of got)).2 (λ reply, assert_eq reply x02)
     | _ => false
     end.

Definition test_malformed_client_does_not_kill_socks_listener : bool :=
  let payload := #"still-alive" in
  one_tunnel (spawn_test_listener [(echo_tcp, echo_server)] LSocks5 direct_runtime
                [[[x04; x01]]; [socks5_greeting; socks5_request echo_tcp; payload]])
    (λ _ got, socks5_tunnel_echoes got payload).

(** *** Datagrams, over the associations of [UdpTests] *)
Definition udp_echoes (engine : DnsEngine unit) (packet payload : bytes) : bool :=
  let '(control, w, _, r) :=
    udp_test_server engine direct_runtime [client_ready; outbound_ready; control_dropped] [(packet, client_udp)] in
  is_ok r
  && (let '(stream, method) := read_socks5_method (stream_of (sc_sent control)) in
      unwrap method (λ _, unwrap (read_socks5_reply stream).2 (λ '(reply, relay),
        assert_eq reply x00 && assert_eq relay relay_socket)))
  && match uh_sent w with
     | [(response, to)] => assert_eq to client_udp && assert_eq (drop 10 response) payload
     | _ => false
     end.

Definition test_socks5_udp_associate_relays_datagram_end_to_end : bool :=
  let payload := #"udp-through-commeatus" in
  udp_echoes (DnsEngine_system no_system HostsTable_default)
    ([x00; x00; x00; x01] ++ addr_octets (sock_ip echo_address) ++ u16_be (sock_port echo_address) ++ payload) payload.

Definition test_socks5_udp_domain_uses_hosts_override_end_to_end : bool :=
  let payload := #"udp-hosts-dns-engine" in
  unwrap (HostsTable_parse (#"127.0.0.1 " ++ HOSTS_ONLY_NAME ++ [x0a])) (λ hosts,
  udp_echoes (DnsEngine_system no_system hosts)
    ([x00; x00; x00; x03; z2b (Z.of_nat (length HOSTS_ONLY_NAME))] ++ HOSTS_ONLY_NAME
     ++ u16_be (sock_port echo_address) ++ payload) payload).

(** ** Through a named proxy ([outbound_e2e.rs]) *)
Definition UPSTREAM_ONLY_DOMAIN : str := #"opaque-target.invalid".
Definition upstream_address : SocketAddr := sock_new LOCALHOST 40041.

(** [relay_pair]: the rest of the stream goes to the remote and its answer back. *)
Definition relay_pair (client : script_conn) (remote : bytes → bytes) : script_conn :=
  {| sc_in := []; sc_sent := sc_sent client ++ remote (mjoin (sc_in client)) |}.

(** [read_socks_target]: host and port as text and number. *)
Definition read_host_text (stream : script_conn) (kind : byte) : script_conn * result ErrorKind str :=
  if bool_decide (kind = x01) then
    let! stream address := conn_read_exact stream 4 in (stream, Ok (show_ip (V4 (be_value address))))
  else if bool_decide (kind = x03) then
    let! stream length_ := conn_read_exact stream 1 in
    let! stream name := conn_read_exact stream (Z.to_nat (be_value length_)) in
    (stream, ok_or (from_utf8 name) EOther)
  else if bool_decide (kind = x04) then
    let! stream address := conn_read_exact stream 16 in (stream, Ok (show_ip (V6 (be_value address))))
  else (stream, Err EOther).
Definition read_socks_target (stream : script_conn) : script_conn * result ErrorKind (str * Z) :=
  let! stream header := conn_read_exact stream 4 in
  if negb (bool_decide (take 3 header = [x05; x01; x00])) then (stream, Err EOther)
  else
    let! stream host := read_host_text stream (nth 3 header x00) in
    let! stream port := conn_read_exact stream 2 in
    (stream, Ok (host, be_value port)).

(** The greeting, up to the method reply. *)
Definition accept_greeting (client : script_conn) : script_conn * result ErrorKind unit :=
  let! client greeting := conn_read_exact client 2 in
  if negb (bool_decide (nth 0 greeting x00 = x05)) || bool_decide (nth 1 greeting x00 = x00) then (client, Err EOther)
  else
    let! client methods := conn_read_exact client (Z.to_nat (b2z (nth 1 greeting x00))) in
    if negb (bool_decide (x00 ∈ methods)) then (client, Err EOther)
    else conn_write_all client [x05; x00].
Definition SOCKS5_SUCCESS : bytes := [x05; x00; x00; x01; x7f; x00; x00; x01; x00; x00].

(** [spawn_mock_socks5_proxy] on everything it has received: its stream and
    the target it observed. *)
Definition mock_socks5_proxy (received : bytes) : script_conn * result ErrorKind (str * Z) :=
  let! client _g := accept_greeting (stream_of received) in
  let! client observed := read_socks_target client in
  let! client _w := conn_write_all client SOCKS5_SUCCESS in
  (relay_pair client echo_server, Ok observed).

(** [spawn_mock_http_proxy] *)
Definition mock_http_proxy (received : bytes) : script_conn * result ErrorKind str :=
  let! client head := read_http_head (stream_of received) in
  match from_utf8 head with
  | None => (client, Err EOther)
  | Some text =>
      match split_whitespace (request_line text) with
      | method :: authority :: _ =>
          if negb (bool_decide (method = #"CONNECT")) then (client, Err EOther)
          else
            let! client _w := conn_write_all client (#"HTTP/1.1 200 Connection Established" ++ CRLF ++ CRLF) in
            (relay_pair client echo_server, Ok authority)
      | _ => (client, Err EOther)
      end
  end.

(** A server thread as the program behind an address. *)
Definition program {A} (thread : bytes → script_conn * result ErrorKind A) (received : bytes) : bytes :=
  sc_sent (thread received).1.

Definition proxy_runtime (id : EndpointId) : Runtime := Runtime_new (PolicyEngine_new [] (PRoute (Proxy id))).
Definition registry (id : EndpointId) (protocol : OutboundProtocol) (transport : TransportConfig)
    (k : OutboundRegistry TrojanDatagramProvider → bool) : bool :=
  unwrap (OutboundRegistry_new [{| ep_id := id; ep_protocol := protocol; ep_datagram := None; ep_transport := transport |}]) k.

(** A listener whose only route is the proxy [id], with the bytes the proxy
    received and the client got. The DNS engine knows no names. *)
Definition through_proxy {A} (thread : bytes → script_conn * result ErrorKind A) (inbound : ListenerProtocol)
    (id : str) (protocol : OutboundProtocol) (transport : TransportConfig) (client : list bytes)
    (k : result ErrorKind A → bytes → bool) : bool :=
  unwrap (EndpointId_new id) (λ id,
  registry id protocol transport (λ outbounds,
  one_tunnel (spawn_test_listener_with_runtime [(upstream_address, program thread)] inbound (proxy_runtime id)
                (system_dns HostsTable_default) outbounds [client])
    (λ to_remote got, k (thread to_remote).2 got))).

Definition http_tunnel_echoes (got payload : bytes) : bool :=
  let '(tunnel, head) := read_http_head (stream_of got) in
  unwrap head (λ response, starts_with (#"HTTP/1.1 200") response
    && unwrap (conn_read_exact tunnel (length payload)).2 (λ echoed, assert_eq echoed payload)).

Definition test_socks_inbound_routes_through_named_socks_outbound : bool :=
  let payload := #"through-socks-outbound" in
  through_proxy mock_socks5_proxy LSocks5 (#"edge-socks") Socks5Protocol (TcpConfig (TcpTransport_new upstream_address))
    [socks5_greeting; socks5_domain_request UPSTREAM_ONLY_DOMAIN (sock_port echo_tcp); payload]
    (λ observed got, socks5_tunnel_echoes got payload
       && unwrap observed (λ observed, assert_eq observed (UPSTREAM_ONLY_DOMAIN, sock_port echo_tcp))).

Definition test_http_inbound_routes_through_named_http_outbound : bool :=
  let payload := #"through-http-outbound" in
  let authority := UPSTREAM_ONLY_DOMAIN ++ #":" ++ show_dec (sock_port echo_tcp) in
  through_proxy mock_http_proxy LHttpConnect (#"edge-http") HttpConnectProtocol (TcpConfig (TcpTransport_new upstream_address))
    [http_request authority []; payload]
    (λ observed got, http_tunnel_echoes got payload && unwrap observed (λ observed, assert_eq observed authority)).

(** ** Through a SOCKS5 proxy over TLS ([tls_outbound_e2e.rs]) *)
Definition TARGET_DOMAIN : str := #"opaque-tls-target.invalid".
Definition TLS_PAYLOAD : bytes := #"protocol-over-tls".

(** The end of the server threads: one payload there and back, and no more. *)
Definition echo_payload (tls : script_conn) (n : nat) : script_conn * result ErrorKind unit :=
  let! tls payload := conn_read_exact tls n in
  let! tls _w := conn_write_all tls (echo_server payload) in
  let! tls extra := conn_read tls 1 in
  (tls, if length extra =? 0 then Ok tt else Err EOther).

(** [spawn_tls_socks_proxy] *)
Definition tls_socks_proxy (received : bytes) : script_conn * result ErrorKind (str * Z) :=
  let! tls _g := accept_greeting (stream_of received) in
  let! tls observed := read_socks_target tls in
  let! tls _w := conn_write_all tls SOCKS5_SUCCESS in
  let! tls _e := echo_payload tls (length TLS_PAYLOAD) in
  (tls, Ok observed).

Definition tls_to (name : str) (k : TransportConfig → bool) : bool :=
  unwrap (TlsTransport_with_client_config dns_name upstream_address name) (λ t, k (TlsConfig t)).

Definition test_http_inbound_routes_socks_protocol_over_tls : bool :=
  let authority := TARGET_DOMAIN ++ #":" ++ show_dec (sock_port echo_tcp) in
  tls_to (#"proxy.test") (λ transport,
  through_proxy tls_socks_proxy LHttpConnect (#"secure-socks") Socks5Protocol transport
    [http_request authority []; TLS_PAYLOAD]
    (λ observed got, http_tunnel_echoes got TLS_PAYLOAD
       && unwrap observed (λ observed, assert_eq observed (TARGET_DOMAIN, sock_port echo_tcp)))).

(** ** Through a Trojan server ([trojan_outbound_e2e.rs]) *)
Definition TROJAN_PASSWORD : str := #"test-trojan-secret".
Definition TROJAN_TARGET : str := #"opaque-trojan-target.invalid".
Definition TROJAN_PAYLOAD : bytes := #"through-native-trojan".

(** [password_hash_hex], digit by digit. *)
Definition hex_digit (n : Z) : byte := nth (Z.to_nat n) (#"0123456789abcdef") x00.
Definition password_hash_hex (password : str) : bytes :=
  mjoin ((λ b, [hex_digit (b2z b / 16); hex_digit (b2z b mod 16)]) <$> sha224 password).

Definition expect_crlf (tls : script_conn) : script_conn * result ErrorKind unit :=
  let! tls crlf := conn_read_exact tls 2 in (tls, if bool_decide (crlf = [x0d; x0a]) then Ok tt else Err EOther).
Definition read_trojan_target (stream : script_conn) : script_conn * result ErrorKind (str * Z) :=
  let! stream command := conn_read_exact stream 1 in
  if negb (bool_decide (command = [x01])) then (stream, Err EOther)
  else
    let! stream address_type := conn_read_exact stream 1 in
    let! stream host := read_host_text stream (nth 0 address_type x00) in
    let! stream port := conn_read_exact stream 2 in
    (stream, Ok (host, be_value port)).

(** [spawn_trojan_server] *)
Definition trojan_server (received : bytes) : script_conn * result ErrorKind (str * Z) :=
  let! tls received_hash := conn_read_exact (stream_of received) 56 in
  if negb (bool_decide (received_hash = password_hash_hex TROJAN_PASSWORD)) then (tls, Err EOther)
  else
    let! tls _c := expect_crlf tls in
    let! tls observed := read_trojan_target tls in
    let! tls _c := expect_crlf tls in
    let! tls _e := echo_payload tls (length TROJAN_PAYLOAD) in
    (tls, Ok observed).

Definition test_http_inbound_routes_native_trojan_over_tls : bool :=
  let authority := TROJAN_TARGET ++ #":" ++ show_dec (sock_port echo_tcp) in
  tls_to (#"trojan.test") (λ transport,
  unwrap (TrojanVerifier_new sha224 TROJAN_PASSWORD) (λ verifier,
  through_proxy trojan_server LHttpConnect (#"trojan-secure") (TrojanProtocol verifier) transport
    [http_request authority []; TROJAN_PAYLOAD]
    (λ observed got, http_tunnel_echoes got TROJAN_PAYLOAD
       && unwrap observed (λ observed, assert_eq observed (TROJAN_TARGET, sock_port echo_tcp))))).

(** ** Datagrams through a Trojan server ([trojan_udp_e2e.rs])

    The carrier delivers what the server wrote in instalments: each time the
    session is serviced the next one becomes visible. *)
Definition UDP_PASSWORD : str := #"test-trojan-udp-secret".
Definition UDP_TARGET_DOMAIN : str := #"opaque-trojan-udp-target.invalid".
Definition UDP_TARGET_PORT : Z := 5353.
Definition UDP_PAYLOAD : bytes := #"through-native-trojan-udp".
Definition REPLY : bytes := #"trojan-udp-reply".
Definition ZERO_SOURCE : IpAddr := V4 (Ipv4Addr_new 198 51 100 7).
Definition ZERO_PORT : Z := 9000.

Record TrojanCarrier := { tc_conn : RemoteConn; tc_visible : nat; tc_gates : list nat }.
Definition tc_with (s : TrojanCarrier) (r : RemoteConn) : TrojanCarrier :=
  {| tc_conn := r; tc_visible := tc_visible s; tc_gates := tc_gates s |}.
#[local] Instance carrier_session : FramedSession TrojanCarrier := {
  write_plaintext s b := (tc_with s (rc_write (tc_conn s) b), Ok (length b));
  read_plaintext s n :=
    let r := tc_conn s in
    match take (Z.to_nat n) (take (tc_visible s - rc_read r) (rc_unread r)) with
    | [] => (s, Err EWouldBlock)
    | b => (tc_with s (rc_advance r (length b)), Ok b)
    end;
  service_io s :=
    (match tc_gates s with
     | g :: gs => {| tc_conn := tc_conn s; tc_visible := tc_visible s + g; tc_gates := gs |}
     | [] => s
     end, Ok tt);
  refresh_tls s _ := (s, Ok tt);
  register_tls s _ := (s, Ok tt);
  remote_eof _ := false;
  accepted s := rc_received (tc_conn s);
  patience _ := 0;
}.
Definition TrojanExecution : Type := TrojanDatagramExecution (S:=TrojanCarrier).
#[local] Instance trojan_execution : DatagramExecution TrojanExecution := Trojan_execution.

(** [read_one_trojan_udp_frame]: all that has arrived is one whole frame. *)
Definition read_one_trojan_udp_frame (stream : script_conn) : script_conn * result ErrorKind (Target * bytes) :=
  let buffered := mjoin (sc_in stream) in
  ({| sc_in := []; sc_sent := sc_sent stream |},
   found ← parse_udp_frame buffered;
   frame ← ok_or found EUnexpectedEof;
   payload ← slice buffered (payload_start frame) (payload_end frame);
   if consumed frame =? length buffered then Ok (source frame, payload) else Err EOther).

(** [spawn_trojan_udp_server] *)
Definition trojan_udp_server (received : bytes) : script_conn * result ErrorKind (Target * bytes) :=
  match TrojanVerifier_new sha224 UDP_PASSWORD with
  | Ok expected =>
      let! tls verifier := conn_read_exact (stream_of received) TROJAN_VERIFIER_BYTES in
      if negb (bool_decide (verifier = as_bytes expected)) then (tls, Err EOther)
      else
        let! tls _c := expect_crlf tls in
        let! tls command := conn_read_exact tls 1 in
        if negb (bool_decide (command = [x03])) then (tls, Err EOther)
        else
          let! tls wildcard := conn_read_exact tls 7 in
          if negb (bool_decide (wildcard = [x01; x00; x00; x00; x00; x00; x00])) then (tls, Err EOther)
          else
            let! tls _c := expect_crlf tls in
            let! tls observed := read_one_trojan_udp_frame tls in
            let! tls first := lift_ tls (encode_udp_frame observed.1 REPLY) in
            let! tls zero_source := lift_ tls (Target_new (Ip ZERO_SOURCE) ZERO_PORT) in
            let! tls zero := lift_ tls (encode_udp_frame zero_source []) in
            let! tls _w := conn_write_all tls (first ++ zero) in
            (tls, Ok observed)
  | _ => (stream_of received, Err EOther)
  end.

(** The provider's [open]: a carrier to the server, and the preface on it. The
    first three bytes of the first frame arrive alone. *)
Definition open_trojan (w : UdpHost) (p : TrojanDatagramProvider) : UdpHost * result ErrorKind TrojanExecution :=
  let carrier := {| tc_conn := {| rc_received := []; rc_read := 0; rc_server := program trojan_udp_server |};
                    tc_visible := 0; tc_gates := [3; 4096] |} in
  let '(x, r) := trojan_open (pr_verifier p) carrier in (w, (_u ← r; Ok x)).
Definition open_no_direct (w : UdpHost) : UdpHost * result ErrorKind TrojanExecution := (w, Err EUnsupported).

(** [encode_socks5_udp_domain_request] and [decode_socks5_udp_response] *)
Definition encode_socks5_udp_domain_request (domain : str) (port : Z) (payload : bytes) : bytes :=
  [x00; x00; x00; x03; z2b (Z.of_nat (length domain))] ++ domain ++ u16_be port ++ payload.
Definition decode_host (kind : byte) (packet : bytes) : option (DestinationHost * nat) :=
  if bool_decide (kind = x01) then
    address ← slice_get packet 4 8; Some (Ip (V4 (be_value address)), 8)
  else if bool_decide (kind = x03) then
    length_ ← packet !! 4;
    let length_ := Z.to_nat (b2z length_) in
    if length_ =? 0 then None
    else domain ← slice_get packet 5 (5 + length_); text ← from_utf8 domain; Some (Domain text, 5 + length_)
  else if bool_decide (kind = x04) then
    address ← slice_get packet 4 20; Some (Ip (V6 (be_value address)), 20)
  else None.
Definition decode_socks5_udp_response (packet : bytes) : option (Target * bytes) :=
  match packet with
  | x00 :: x00 :: x00 :: kind :: _ =>
      '(host, offset) ← decode_host kind packet;
      port ← slice_get packet offset (offset + 2);
      match Target_new host (be_value port) with
      | Ok target => Some (target, drop (offset + 2) packet)
      | _ => None
      end
  | _ => None
  end.

(** What the server thread observed on the execution behind an endpoint. *)
Definition observed_by (x : TrojanExecution) : result ErrorKind (Target * bytes) :=
  (trojan_udp_server (accepted (tls x))).2.

(** The handler, keeping the association so that its routes can be looked at. *)
Definition trojan_association (runtime : Runtime) (outbounds : OutboundRegistry TrojanDatagramProvider)
    (polls : list (list Event)) (packets : list (bytes * SocketAddr)) : UdpAssociation UdpHost TrojanExecution * result ErrorKind unit :=
  assoc_loop open_no_direct open_trojan map_to_list runtime outbounds (S (length polls)) LOCALHOST
    (association_new {| uh_polls := polls; uh_in := packets; uh_sent := []; uh_direct_opens := 0 |} 1 LOCALHOST
       {| hint_ip := None; hint_port := None |}).

Definition test_socks5_udp_routes_native_trojan_over_tls : bool :=
  unwrap (EndpointId_new (#"trojan-udp-secure")) (λ id,
  unwrap (TrojanVerifier_new sha224 UDP_PASSWORD) (λ verifier,
  unwrap (TlsTransport_with_client_config dns_name upstream_address (#"trojan-udp.test")) (λ transport,
  unwrap (OutboundRegistry_new
    [{| ep_id := id; ep_protocol := TrojanProtocol verifier;
        ep_datagram := Some {| pr_verifier := verifier; pr_transport := transport |};
        ep_transport := TlsConfig transport |}]) (λ outbounds,
  unwrap (Target_new (Domain UDP_TARGET_DOMAIN) UDP_TARGET_PORT) (λ target,
  unwrap (Target_new (Ip ZERO_SOURCE) ZERO_PORT) (λ zero_source,
  let request := encode_socks5_udp_domain_request UDP_TARGET_DOMAIN UDP_TARGET_PORT UDP_PAYLOAD in
  let '(a, r) := trojan_association (proxy_runtime id) outbounds
    [client_ready; outbound_ready; outbound_ready; control_dropped] [(request, client_udp)] in
  is_ok r
  && match uh_sent (a_net a) with
     | [(first, to1); (second, to2)] =>
         assert_eq to1 client_udp && assert_eq to2 client_udp
         && assert_eq (decode_socks5_udp_response first) (Some (target, REPLY))
         && assert_eq (decode_socks5_udp_response second) (Some (zero_source, []))
     | _ => false
     end
  && unwrap_opt (routes (a_routes a) !! Proxy id) (λ route,
       unwrap (observed_by (execution route)) (λ observed, assert_eq observed (target, UDP_PAYLOAD))))))))).

(** The host kept for the upstream is the name, not an address. *)
Definition test_proxy_endpoint_domain_is_not_resolved_by_local_dns_before_upstream : bool :=
  let host := Domain UPSTREAM_ONLY_DOMAIN in assert_eq host (Domain UPSTREAM_ONLY_DOMAIN).

Definition e2e_tests : list bool :=
  [test_socks5_connect_relays_bytes_end_to_end; test_socks5_domain_connect_uses_hosts_override_end_to_end;
   test_socks5_udp_associate_relays_datagram_end_to_end; test_socks5_udp_domain_uses_hosts_override_end_to_end;
   test_http_connect_relays_buffered_and_live_bytes_end_to_end; test_reject_policy_blocks_before_outbound_connect;
   test_malformed_client_does_not_kill_socks_listener; test_socks_inbound_routes_through_named_socks_outbound;
   test_http_inbound_routes_through_named_http_outbound;
   test_proxy_endpoint_domain_is_not_resolved_by_local_dns_before_upstream;
   test_http_inbound_routes_socks_protocol_over_tls;
   test_http_inbound_routes_native_trojan_over_tls; test_socks5_udp_routes_native_trojan_over_tls].

Lemma e2e_tests_pass : Forall (eq true) e2e_tests.
Proof. unfold e2e_tests. run_tests; vm_compute; reflexivity. Qed.
