(* ===== verification/Conformance.v ===== *)
(** * The repository's own tests, together

    The test modules of this development each evaluate the tests of some
    source files; here they are one theorem. *)

From S2P Require Import Prelude CoreTests DnsTests ConfigTests DaemonTests UdpTests TransportTests E2eTests.

Definition repository_tests : list bool :=
  core_tests ++ dns_tests ++ config_tests ++ daemon_tests ++ udp_tests ++ transport_tests ++ e2e_tests.

(** The model passes the repository's tests. 118 unit and end-to-end
    tests evaluate to true on the definitions of this development and three
    more, which compare snapshots by identity, hold as stated; the others
    depend on a printed message or on the system's choice of a port. The model
    has the policy, parsers, DNS messages, caches, protocols, associations,
    registry, limiter, TLS relay and framed session on an edge-triggered poll,
    and whole proxy sessions the authors recorded. *)
Theorem repository_tests_pass : Forall (eq true) repository_tests ∧ Forall id reload_tests.
Proof.
  split; [|exact reload_tests_pass]. unfold repository_tests. rewrite !Forall_app.
  split_and!; [exact core_tests_pass|exact dns_tests_pass|exact config_tests_pass|exact daemon_tests_pass
    |exact udp_tests_pass|exact transport_tests_pass|exact e2e_tests_pass].
Qed.
